(* ===== verification/_CoqProject ===== *)
-Q . S2P
Prelude.v
CStd.v
Floats.v
HashTable.v
Entry.v
Store.v
Glob.v
MemoryStore.v
StoreWf.v
KvStore.v
KvTrace.v
Enumerate.v
RateLimit.v
Quota.v
Purge.v
Ledger.v
Idem.v
Reach.v
Cursor.v
Frame.v
Decoder.v
Streams.v
Json.v
StringBody.v
Command.v
KvOps.v
CounterOps.v
QuotaOps.v
IdemOps.v
Codec.v
Processor.v
Dispatcher.v
Aof.v
Replay.v
Parking.v
Config.v
Suggest.v
EventLoop.v
Socket.v
Channel.v
Connection.v
Http.v
Format.v
HttpService.v
HttpApi.v
HttpBinary.v
HttpWire.v
Client.v
Server.v
ClientSpec.v
Cli.v
CliLine.v
RequestParser.v
CliSpec.v
EndToEnd.v
CliEnd.v
Session.v
Torn.v
Durable.v
Restart.v
Workers.v
Main.v
Logger.v
ServerRun.v
