(* ===== verification/Prelude.v ===== *)
(** * GateKeeper: a verification development

    GateKeeper is an in-memory key-value, rate-limit, quota and idempotency
    server in C++, with a command line client.  A worker of the server runs an
    event loop over its connections.  Requests arrive as binary frames (GKWP/2)
    or over HTTP: a binary request is cut out of the stream by [net::Channel] and
    served by [service::Processor], an HTTP request by [net::HttpChannel] and
    [service::HttpService]; both work on the shared [storage::MemoryStore].
    Writes are appended to a log file, which [storage::aof::AofLoader] replays at
    start-up through the JSON commands of [command::Dispatcher].  The client
    [gate] turns a command line into a JSON body ([cli::Registry]), the body into
    a binary frame ([net::Client]) and the answer into text.

    ** Files, and the code they model

    - Prelude: machine integers, bytes, strings, network byte order, lists, the
      tactics [split_ifs] and [bool_prop], the hint databases [gk] and [gkstr].
    - CStd, Floats: what the sources use of the C++ library: character classes,
      [std::to_string], [std::stoull], [std::stoll], IEEE-754 floats and doubles
      (SpecFloat) with the rounding facts the rate limiter needs.
    - HashTable (include/.../storage/hash_table.h): the chained table, its
      well-formedness, its refinement of a finite map, its cursor scan.
    - Entry, Store (entry.h, store.h): the records, and the abstract class
      [Store] as a type class over the type of store states.
    - Glob, MemoryStore (src/storage/memory_store.cpp, memory_store.h): pattern
      matching and every method of [MemoryStore], as functions on one of the 64
      shards ([on_shard]) or on all of them; [memory_store] is the instance.
    - StoreWf, KvStore, KvTrace: the store invariant; the interface [KvStore]
      (what the key-value methods promise in terms of a finite map with
      deadlines), the instance that proves it for [MemoryStore], and theorems
      about sequences of calls proved against the interface.
    - Enumerate, Purge, RateLimit, Quota, Ledger, Idem, Reach: enumeration,
      active expiration, the sliding-window limiter, two-phase quota
      reservations and their conservation, idempotency records, and the
      invariant over all reachable stores.
    - Cursor: KEYS, DBSIZE and SCAN while other threads change the store.
    - Frame, Decoder, Streams (protocol/gkwp2: header.h, frame.cpp, decoder.cpp,
      stream_manager.cpp): framing, the incremental decoder, stream limits.
    - Json, StringBody (protocol/response.cpp, json_reader.cpp,
      domain/kv/string_body.cpp): writing and reading JSON.
    - Command, KvOps, CounterOps, QuotaOps, IdemOps (domain/kv/*_ops.cpp,
      domain/ratelimit/counter_ops.cpp, domain/quota/reservation_ops.cpp,
      domain/idempotency/idempotency_ops.cpp): the JSON command handlers, over
      any [Store].
    - Codec, Processor (protocol/gkwp2/binary_codec.h, service/processor.cpp):
      the encoders and [Process], over any [Store].
    - Dispatcher, Aof, Replay (command/dispatcher.cpp, name.cpp,
      storage/aof/*.cpp): the command table, the log file, and the replay of the
      processor's lines by the command table.
    - Parking (domain/idempotency/parking_lot.cpp): parked requests.
    - Http (protocol/http): HTTP requests and responses, the connection's read
      and write buffers and its request loop.
    - HttpService, HttpApi, HttpBinary, HttpWire (service/http_service.cpp, the
      HTTP handler of server_main.cpp): routing and every handler over any
      [Store]; replies and log lines; comparison with the binary front end; the
      API behind the channel, bytes in and bytes out.
    - Socket, Channel, Connection (net/session.h, channel.cpp, connection.cpp):
      answers of socket calls; the non-blocking and the blocking connection.
    - EventLoop, Server (net/event_loop.cpp, server.cpp): one round of the loop,
      its timer, and the worker with its listening sockets and connections.
    - Config (core/config): the options of the server and of the client.
    - Client, ClientSpec (net/client.cpp, error.cpp): the client and the text it
      shows for each result of the store.
    - Suggest, Format, Cli, CliLine, CliSpec (cli/suggest.cpp, format.cpp,
      registry.cpp, app.cpp, command.h): suggestions, formatting, the command
      table, command lines, and the request each command leads to.
    - RequestParser (protocol/json_parser.cpp): the parser of JSON requests.
    - EndToEnd, CliEnd (server_main.cpp, cli_main.cpp): client, connection,
      processor and store composed; then from the arguments of [gate] and the typed
      line to the printed text and the exit code.
    - Session: a whole session of [gate] over one connection.
    - Torn, Durable (storage/aof/aof_writer.cpp): parts of JSON texts are rejected;
      the writer with its fsync policy, and what a crash leaves of the file.
    - Restart, Workers (processor.cpp under the threads of server.cpp): replay at
      another time than the run; store calls and appends of several workers
      interleaved, as a step relation.
    - Main (server_main.cpp): the server program from its options to its exit.
    - Logger (core/log): levels, sinks, time stamps and the logger.
    - ServerRun (net/server.h, server.cpp, the signal handler of server_main.cpp):
      the server object, socket options, the start and the end of all workers.

    ** Conventions

    A [w]-bit integer is a [Z] whose wrap-around is written out ([u8] ... [u64],
    [i32], [i64]).  [std::string], [string_view] and byte vectors are strings of
    bytes.  Every store method takes the milliseconds that its call of the clock
    reads; a handler with several store calls takes a [clock].  A method holds
    its shard's mutex from its first access to its return, so it is one atomic
    step; a concurrent execution is a sequence of such steps.  A request of the
    processor that is logged is two steps, the store call and the append (Workers),
    and a method over all shards is a step per shard (Cursor).  A crash leaves a
    prefix of the log file with at least the bytes that were synchronised
    (Durable.crash_file).  [std::hash] and
    the hash functor are parameters with no hypothesis.  Exceptions are values of
    a sum type; what the language leaves undefined is an outcome of its own: reads
    beyond a view are [Undefined], the signed overflow of the JSON reader is
    [signed_overflow].  The operating
    system is given by what its calls answer: a stream of results of [send], the
    chunks of [recv], the descriptors of [accept], the events of [epoll_wait] and
    the clock readings are arguments, and the theorems hold for all of them or
    name the ones they need.  Callbacks of the event loop are data that an
    interpreter ([Server.call]) runs.

    ** What the theorems show

    - The hash table is a finite map under any sequence of calls, and a scan with
      the returned cursors ends and meets every key (HashTable, Enumerate).
    - The key-value methods of the sharded store behave as one map with
      deadlines, the eviction of expired entries included; SET, EXPIRE, TTL, INCRBY
      are exact; the background purge is invisible to later reads; the invariant holds
      in every reachable store (KvTrace, Purge, Reach).
    - The rate limiter never admits more than the limit within a window, and it
      decides by the sliding-window estimate with its weighted previous window
      (RateLimit).  Reservation, commit
      and rollback conserve the quota, identifiers are fresh (Ledger).  At most
      one owner executes an idempotent operation, replays are stable (Idem).
    - Frames survive any chunking, malformed headers are rejected, streams stay
      below their limit (Decoder, Streams); the processor decodes what the
      encoders write and stays within its payload except for the requests it
      names (Processor); JSON values are read back as written (Json).
    - Appends write whole lines or prefixes; the loader dispatches the appended
      lines; replaying the log of a run restores its store (Aof, Replay).
    - A crash during an append loses no synchronised write and leaves no half of one
      (Durable).  Data without a time to live are restored by a restart at any later
      time (Restart), also when several workers have written the log (Workers), and
      for the whole program, with requests of both protocols and timer ticks, from
      its arguments to its exit and the next start (Main).
    - KEYS and SCAN, running while the store changes, return every key that is there
      all the time and none that never is, and a client's SCAN loop ends (Cursor).
    - The server throws, ends the process or returns in exactly the stated cases; it
      runs as many workers as configured, an error of one is its own, only the first has
      the timer, and a signal ends them all (ServerRun).  The log modes
      write what they promise (Logger).
    - The parking lot returns and calls back what a queue of waiters says; no parked
      request is lost or called twice (Parking).
    - HTTP requests are cut out of the buffer as they were written, pipelined
      requests are answered in order without loss (Http).
    - A binary connection keeps its invariant whatever the socket answers, sends
      the answers in the order of the requests, byte for byte, and empties its
      buffer once the socket takes bytes again (Channel); the blocking connection
      sends the same bytes (Connection).  In any run the timer ticks no
      earlier than its interval, and a round does not wait beyond it (EventLoop).  A worker's table
      of connections matches what the loop watches, and an event on one
      connection leaves the others as they were (Server).
    - HTTP requests with any body that asks for it and binary requests make the same
      store calls and answer with the statuses of one table;
      the log of a run over HTTP restores its store, within the stated requests;
      replies have a status of the table and JSON content (HttpBinary, HttpApi);
      a SET over HTTP is read by a later GET (HttpWire).
    - A typed command leads to the store call that it names, and its answer is
      printed (CliEnd), also in a session of many commands over one connection while
      other clients change the store (Session).  Suggestions are the nearest names in
      the restricted edit distance, specified by alignments (Suggest).  The option parser
      accepts exactly the lists of options, each given once, and gives the configuration
      they denote (Config).
    - Theorems of the kind "error" state what the code does where that differs
      from what it means to do; the comment of each says so.

    ** Fuel

    Loops that are not structural take a fuel computed from their input: the
    string, array and object readers use the length of the unread text (every
    round reads a byte), [push_loop] the length of the buffer (a frame takes 24
    bytes), [header_lines] the length of the headers, [to_string] twenty digits.
    [ProcessReadBuffer] takes its number of rounds as an argument and answers
    [None] when it has not ended.  The write loops of the channels take a number of
    [send] calls; [channel_drains] gives one that is enough.  The option parsers use
    the number of arguments and the readers of command lines and JSON requests the
    length of the unread text (every round takes an argument or a byte).  The lemmas
    named [..._fuel] show that more fuel changes nothing; the fuel
    of [scan_all], [scan_store] and [scan_changing] is a number of calls that a client
    makes, and the theorems give one that is enough.

    ** Not modelled, and the plan

    Every component of the server and of the client is modelled.  Of the operating
    system there is only what its calls answer: directories and files are created or
    not, names are resolved or not, and the scheduler picks any interleaving of atomic
    steps.  Log messages are not connected with the code that emits them (Logger shows
    what becomes of a message), the constant usage texts are parameters, and
    constructors and accessors that only store or return a value are left out.
    [PurgeExpired] of Main is one step per tick.  The SDKs for Go and Node.js, the
    tests and the benchmarks are other programs.  Next: idempotency and quota requests
    in the interleavings of Workers, and the parking lot connected with the idempotency
    requests, should the server come to use it. *)
From Stdlib Require Export ZArith Ascii.
From Stdlib Require String.
From stdpp Require Export base list strings gmap numbers.

Global Open Scope Z_scope.

(** ** Machine integers: a w-bit value is a [Z]; the wrap-around is explicit. *)

Definition u8 (z : Z) : Z := z mod 2 ^ 8.
Definition u16 (z : Z) : Z := z mod 2 ^ 16.
Definition u32 (z : Z) : Z := z mod 2 ^ 32.
Definition u64 (z : Z) : Z := z mod 2 ^ 64.
Definition i64 (z : Z) : Z := (z + 2 ^ 63) mod 2 ^ 64 - 2 ^ 63.
Definition i32 (z : Z) : Z := (z + 2 ^ 31) mod 2 ^ 32 - 2 ^ 31.

Abbreviation is_u8 z := (0 <= z < 2 ^ 8).
Abbreviation is_u16 z := (0 <= z < 2 ^ 16).
Abbreviation is_u32 z := (0 <= z < 2 ^ 32).
Abbreviation is_u64 z := (0 <= z < 2 ^ 64).
Abbreviation is_i64 z := (- 2 ^ 63 <= z < 2 ^ 63).

Create HintDb gk discriminated.

Lemma u64_id z : is_u64 z -> u64 z = z.
Proof. apply Z.mod_small. Qed.
Lemma u32_id z : is_u32 z -> u32 z = z.
Proof. apply Z.mod_small. Qed.
Lemma u16_id z : is_u16 z -> u16 z = z.
Proof. apply Z.mod_small. Qed.
Lemma u64_range z : is_u64 (u64 z).
Proof. by apply Z.mod_pos_bound. Qed.
Lemma u32_range z : is_u32 (u32 z).
Proof. by apply Z.mod_pos_bound. Qed.
Lemma u16_range z : is_u16 (u16 z).
Proof. by apply Z.mod_pos_bound. Qed.
Lemma i64_id z : is_i64 z -> i64 z = z.
Proof. intros. unfold i64. rewrite Z.mod_small; lia. Qed.
Lemma i64_range z : is_i64 (i64 z).
Proof. unfold i64. pose proof (Z.mod_pos_bound (z + 2 ^ 63) (2 ^ 64)). lia. Qed.
#[export] Hint Resolve u64_range u32_range u16_range i64_range : gk.

(** ** Bytes *)

Definition Z_of_byte (c : ascii) : Z := Z.of_N (N_of_ascii c).
Definition byte_of_Z (z : Z) : ascii := ascii_of_N (Z.to_N (z mod 2 ^ 8)).

Lemma Z_of_byte_range c : is_u8 (Z_of_byte c).
Proof. unfold Z_of_byte. pose proof (N_ascii_bounded c). lia. Qed.
Lemma byte_of_Z_of_byte c : byte_of_Z (Z_of_byte c) = c.
Proof.
  unfold byte_of_Z. rewrite Z.mod_small by apply Z_of_byte_range.
  unfold Z_of_byte. rewrite N2Z.id. apply ascii_N_embedding.
Qed.
Lemma Z_of_byte_of_Z z : Z_of_byte (byte_of_Z z) = z mod 2 ^ 8.
Proof.
  pose proof (Z.mod_pos_bound z (2 ^ 8)).
  unfold byte_of_Z, Z_of_byte. rewrite N_ascii_embedding by lia. lia.
Qed.
Lemma Z_of_byte_inj c d : Z_of_byte c = Z_of_byte d -> c = d.
Proof. intros H. by rewrite <- (byte_of_Z_of_byte c), H, byte_of_Z_of_byte. Qed.
#[export] Hint Resolve Z_of_byte_range : gk.

(** A decision over all 256 bytes, by computation. *)
Definition all_bytes : list ascii := byte_of_Z <$> seqZ 0 256.
Lemma byte_forall (f : ascii -> bool) :
  forallb f all_bytes = true -> forall c, f c = true.
Proof.
  intros Hall c. rewrite forallb_forall in Hall. apply Hall.
  rewrite <- (byte_of_Z_of_byte c). apply in_map.
  apply list_elem_of_In, elem_of_seqZ. pose proof (Z_of_byte_range c). lia.
Qed.

(** ** Strings of bytes, the model of [std::string] and of byte vectors *)

Definition slen (s : string) : Z := Z.of_nat (String.length s).

Fixpoint str_take (n : nat) (s : string) : string :=
  match n, s with
  | S n, String c s => String c (str_take n s)
  | _, _ => ""
  end.

Fixpoint str_drop (n : nat) (s : string) : string :=
  match n, s with
  | S n, String c s => str_drop n s
  | O, _ => s
  | S _, "" => ""
  end.

Definition is_nil (s : string) : bool := match s with "" => true | _ => false end.

Lemma str_app_nil_l s : "" +:+ s = s.
Proof. done. Qed.
Lemma str_app_cons c s t : String c s +:+ t = String c (s +:+ t).
Proof. done. Qed.
Lemma str_app_nil_r s : s +:+ "" = s.
Proof. induction s; [done|]. by rewrite str_app_cons, IHs. Qed.
Lemma str_app_assoc s t u : (s +:+ t) +:+ u = s +:+ t +:+ u.
Proof. induction s; [done|]. by rewrite !str_app_cons, IHs. Qed.
Lemma str_length_app s t :
  String.length (s +:+ t) = (String.length s + String.length t)%nat.
Proof. induction s; [done|]. rewrite str_app_cons. simpl. by rewrite IHs. Qed.
Create Rewrite HintDb gkstr.
#[export] Hint Rewrite str_app_nil_l str_app_cons str_app_nil_r str_app_assoc
  str_length_app : gkstr.

Lemma slen_app s t : slen (s +:+ t) = slen s + slen t.
Proof. unfold slen. rewrite str_length_app. lia. Qed.
Lemma slen_cons c s : slen (String c s) = 1 + slen s.
Proof. unfold slen. simpl String.length. lia. Qed.
Lemma slen_nil : slen "" = 0.
Proof. done. Qed.
Lemma slen_nonneg s : 0 <= slen s.
Proof. unfold slen. lia. Qed.
#[export] Hint Resolve slen_nonneg : gk.

Lemma str_take_app n s t : n = String.length s -> str_take n (s +:+ t) = s.
Proof.
  intros ->. induction s; [by destruct t|]. rewrite str_app_cons. simpl. by rewrite IHs.
Qed.
Lemma str_drop_app n s t : n = String.length s -> str_drop n (s +:+ t) = t.
Proof. intros ->. induction s; [by destruct t|]. rewrite str_app_cons. simpl. done. Qed.
Lemma str_take_drop n s : str_take n s +:+ str_drop n s = s.
Proof. revert n. induction s; intros [|n]; try done. simpl. by rewrite str_app_cons, IHs. Qed.
Lemma str_take_length n s :
  String.length (str_take n s) = Nat.min n (String.length s).
Proof. revert n. induction s; intros [|n]; simpl; try done. by rewrite IHs. Qed.
Lemma str_drop_length n s :
  String.length (str_drop n s) = (String.length s - n)%nat.
Proof. revert n. induction s; intros [|n]; simpl; try done. Qed.
Lemma str_drop_all n s : (String.length s <= n)%nat -> str_drop n s = "".
Proof. revert n. induction s as [|c s IH]; intros [|n] H; simpl in *; try done; [lia|]. apply IH. lia. Qed.
Lemma str_drop_drop n m s : str_drop n (str_drop m s) = str_drop (m + n) s.
Proof. revert m. induction s; intros [|m]; simpl; try done. by destruct n. Qed.
Lemma str_drop_app_le n s t :
  (n <= String.length s)%nat -> str_drop n (s +:+ t) = str_drop n s +:+ t.
Proof.
  revert n. induction s; intros [|n]; try done; intros H; simpl in H; [lia|].
  rewrite str_app_cons. simpl. apply IHs. lia.
Qed.
Lemma str_take_app_le n s t :
  (n <= String.length s)%nat -> str_take n (s +:+ t) = str_take n s.
Proof.
  revert n. induction s; intros [|n] H; simpl in H; try lia; try done.
  rewrite str_app_cons. simpl. by rewrite IHs by lia.
Qed.
Lemma str_take_min n s : str_take (Nat.min n (String.length s)) s = str_take n s.
Proof. revert n. induction s; intros [|n]; try done. simpl. by rewrite IHs. Qed.
Lemma str_take_add n k s : str_take (n + k) s = str_take n s +:+ str_take k (str_drop n s).
Proof.
  revert n. induction s as [|c s IH]; intros [|n]; try done; simpl; [by destruct k|].
  by rewrite str_app_cons, IH.
Qed.
Lemma str_app_inv_l s t u : s +:+ t = s +:+ u -> t = u.
Proof. induction s; [done|]. rewrite !str_app_cons. intros [=]. auto. Qed.
Lemma str_app_inj_length s1 s2 t1 t2 :
  String.length s1 = String.length s2 -> s1 +:+ t1 = s2 +:+ t2 -> s1 = s2 /\ t1 = t2.
Proof.
  revert s2. induction s1; intros [|c s2]; simpl; try done.
  rewrite !str_app_cons. intros [=] [= -> ?]. edestruct IHs1; eauto. by subst.
Qed.
Lemma length_zero_nil s : String.length s = 0%nat -> s = "".
Proof. by destruct s. Qed.

(** JSON text is written with single quotes here: [jq] puts double quotes. *)
Fixpoint jq (s : string) : string :=
  match s with
  | "" => ""
  | String c s => String (if decide (c = "'"%char) then ascii_of_nat 34 else c) (jq s)
  end.

(** ** Network byte order: [htons]/[htonl]/[htobe64] followed by a copy of the
    [n] bytes, and the converse read. *)

Fixpoint be (n : nat) (z : Z) : string :=
  match n with
  | O => ""
  | S n => String (byte_of_Z (z / 2 ^ (8 * Z.of_nat n))) (be n z)
  end.

Fixpoint be_acc (acc : Z) (s : string) : Z :=
  match s with
  | "" => acc
  | String c s => be_acc (acc * 2 ^ 8 + Z_of_byte c) s
  end.
Definition be_val (s : string) : Z := be_acc 0 s.

Lemma be_length n z : String.length (be n z) = n.
Proof. induction n; simpl; by rewrite ?IHn. Qed.
Lemma slen_be n z : slen (be n z) = Z.of_nat n.
Proof. unfold slen. by rewrite be_length. Qed.

Lemma be_acc_be n acc z :
  be_acc acc (be n z) = acc * 2 ^ (8 * Z.of_nat n) + z mod 2 ^ (8 * Z.of_nat n).
Proof.
  revert acc. induction n as [|n IH]; intros acc; cbn [be be_acc].
  - rewrite Z.mod_1_r. lia.
  - rewrite IH, Z_of_byte_of_Z.
    replace (8 * Z.of_nat (S n)) with (8 * Z.of_nat n + 8) by lia.
    rewrite Z.pow_add_r by lia.
    rewrite (Z.rem_mul_r z) by lia. ring.
Qed.

Lemma be_val_be n z : be_val (be n z) = z mod 2 ^ (8 * Z.of_nat n).
Proof. unfold be_val. rewrite be_acc_be. lia. Qed.

Lemma be_acc_split s acc :
  exists v, be_acc acc s = acc * 2 ^ (8 * slen s) + v /\ 0 <= v < 2 ^ (8 * slen s).
Proof.
  revert acc. induction s as [|c s IH]; intros acc.
  { exists 0. cbn [be_acc]. rewrite slen_nil. lia. }
  destruct (IH (acc * 2 ^ 8 + Z_of_byte c)) as (v & Hv & Hr). cbn [be_acc].
  pose proof (Z_of_byte_range c) as Hc. pose proof (slen_nonneg s). rewrite slen_cons.
  replace (8 * (1 + slen s)) with (8 + 8 * slen s) by lia. rewrite Z.pow_add_r by lia.
  exists (Z_of_byte c * 2 ^ (8 * slen s) + v). split; [rewrite Hv; ring|]. nia.
Qed.

Lemma be_be_acc s acc : be (String.length s) (be_acc acc s) = s.
Proof.
  revert acc. induction s as [|c s IH]; intros acc; [done|]. cbn [String.length be be_acc].
  rewrite IH. f_equal. destruct (be_acc_split s (acc * 2 ^ 8 + Z_of_byte c)) as (v & -> & Hv).
  fold (slen s) in *. change (Z.of_nat (String.length s)) with (slen s).
  rewrite Z.div_add_l, (Z.div_small v), Z.add_0_r by lia.
  apply Z_of_byte_inj. rewrite Z_of_byte_of_Z, Z.add_comm, Z_mod_plus_full.
  apply Z.mod_small, Z_of_byte_range.
Qed.
Lemma be_be_val s : be (String.length s) (be_val s) = s.
Proof. apply be_be_acc. Qed.
Lemma be_val_range s : 0 <= be_val s < 2 ^ (8 * slen s).
Proof. unfold be_val. destruct (be_acc_split s 0) as (v & -> & Hv). lia. Qed.

(** [n] bytes from offset [off]. *)
Definition bytes_at (off n : nat) (s : string) : string := str_take n (str_drop off s).

Lemma be_val_id n z : 0 <= z < 2 ^ (8 * Z.of_nat n) -> be_val (be n z) = z.
Proof. intros. rewrite be_val_be. by apply Z.mod_small. Qed.

(** ** Lists *)

Section lists.
Context {A B : Type}.

Lemma foldl_concat (f : B -> A -> B) (ls : list (list A)) b :
  foldl (foldl f) b ls = foldl f b (concat ls).
Proof.
  revert b. induction ls as [|l ls IH]; intros b; [done|].
  simpl. by rewrite foldl_app, IH.
Qed.

Lemma NoDup_fst_perm_cons (k : A) (v : B) l l' :
  NoDup l.*1 -> l ≡ₚ (k, v) :: l' -> k ∉ l'.*1.
Proof. intros Hnd Hp. rewrite Hp in Hnd. by inversion Hnd. Qed.
End lists.

(** [split_ifs] destructs every boolean test in the goal and keeps the equation. *)
Ltac split_if :=
  match goal with
  | |- context [if ?b then _ else _] => destruct b eqn:?
  end.
Ltac split_ifs := repeat (split_if; try done).
Ltac bool_prop :=
  repeat match goal with
  | H : (_ && _)%bool = true |- _ => apply andb_true_iff in H as [? ?]
  | H : (_ || _)%bool = false |- _ => apply orb_false_iff in H as [? ?]
  | H : negb _ = true |- _ => apply negb_true_iff in H
  | H : negb _ = false |- _ => apply negb_false_iff in H
  | H : (_ =? _) = true |- _ => apply Z.eqb_eq in H
  | H : (_ =? _) = false |- _ => apply Z.eqb_neq in H
  | H : (_ <? _) = true |- _ => apply Z.ltb_lt in H
  | H : (_ <? _) = false |- _ => apply Z.ltb_ge in H
  | H : (_ <=? _) = true |- _ => apply Z.leb_le in H
  | H : (_ <=? _) = false |- _ => apply Z.leb_gt in H
  | H : bool_decide _ = true |- _ => apply bool_decide_eq_true in H
  | H : bool_decide _ = false |- _ => apply bool_decide_eq_false in H
  end.
