(* ===== verification/CStd.v ===== *)
(** * The parts of the C++ language and standard library the sources use

    Decimal printing ([std::to_string]), decimal parsing ([std::stoull],
    [std::stoll]), the character classes, and IEEE-754 [float] and [double]
    arithmetic through [SpecFloat]. *)
From S2P Require Import Prelude.
From Corelib Require Import SpecFloat.

(** ** Characters ("C" locale) *)

Definition isspace (c : ascii) : bool :=
  let z := Z_of_byte c in (z =? 32) || ((9 <=? z) && (z <=? 13)).
Definition isdigit (c : ascii) : bool :=
  let z := Z_of_byte c in (48 <=? z) && (z <=? 57).
Definition digit_val (c : ascii) : Z := Z_of_byte c - 48.

Fixpoint skip_space (s : string) : string :=
  match s with
  | String c s' => if isspace c then skip_space s' else s
  | "" => ""
  end.

(** ** [std::to_string] of a 64-bit integer: at most twenty digits *)

Fixpoint dec_digits (fuel : nat) (n : Z) : string :=
  match fuel with
  | O => ""
  | S f =>
      let d := String (byte_of_Z (48 + n mod 10)) "" in
      if n <? 10 then d else dec_digits f (n / 10) +:+ d
  end.

Definition to_string (z : Z) : string :=
  if z <? 0 then String "-" (dec_digits 20 (- z)) else dec_digits 20 z.

(** ** [std::stoull] and [std::stoll]

    [None] stands for the exception ([std::invalid_argument] without a digit,
    [std::out_of_range] when the magnitude does not fit); [Some (v, idx)] is the
    value and the number of characters consumed.  As [strtoull] does, a leading
    minus sign is accepted for unsigned numbers and negates modulo 2^64. *)

Fixpoint scan_digits (acc : Z) (cnt : nat) (s : string) : Z * nat :=
  match s with
  | String c s' =>
      if isdigit c then scan_digits (acc * 10 + digit_val c) (S cnt) s' else (acc, cnt)
  | "" => (acc, cnt)
  end.

Definition scan_sign (s : string) : bool * string :=
  match s with
  | String c s' =>
      if Z_of_byte c =? 45 then (true, s')
      else if Z_of_byte c =? 43 then (false, s') else (false, s)
  | "" => (false, "")
  end.

Definition strto (s : string) : option (bool * Z * nat) :=
  let s1 := skip_space s in
  let '(neg, s2) := scan_sign s1 in
  let '(m, cnt) := scan_digits 0 0 s2 in
  if (cnt =? 0)%nat then None
  else Some (neg, m, (String.length s - String.length s2 + cnt)%nat).

Definition stoull (s : string) : option (Z * nat) :=
  match strto s with
  | Some (neg, m, idx) =>
      if m <? 2 ^ 64 then Some (u64 (if neg then - m else m), idx) else None
  | None => None
  end.

Definition stoll (s : string) : option (Z * nat) :=
  match strto s with
  | Some (neg, m, idx) =>
      let v := if neg then - m else m in
      if (- 2 ^ 63 <=? v) && (v <? 2 ^ 63) then Some (v, idx) else None
  | None => None
  end.

(** ** Floating point *)

Abbreviation prec32 := 24.
Abbreviation emax32 := 128.
Abbreviation prec64 := 53.
Abbreviation emax64 := 1024.

(** [static_cast<float>] and [static_cast<double>] of an unsigned integer. *)
Definition float_of_Z (z : Z) : spec_float := binary_normalize prec32 emax32 z 0 false.
Definition double_of_Z (z : Z) : spec_float := binary_normalize prec64 emax64 z 0 false.
Definition fmul (x y : spec_float) : spec_float := SFmul prec32 emax32 x y.
Definition dmul (x y : spec_float) : spec_float := SFmul prec64 emax64 x y.
Definition ddiv (x y : spec_float) : spec_float := SFdiv prec64 emax64 x y.
Definition dsub (x y : spec_float) : spec_float := SFsub prec64 emax64 x y.

(** [static_cast<std::uint64_t>] of a double: truncation toward zero.  The
    conversion is only defined for values below 2^64; the model reduces modulo
    2^64 outside that range. *)
Definition trunc_u64 (x : spec_float) : Z :=
  match x with
  | S754_finite s m e =>
      let a := if 0 <=? e then Z.pos m * 2 ^ e else Z.pos m / 2 ^ (- e) in
      u64 (if s then - a else a)
  | _ => 0
  end.

(** ** Facts *)

Lemma isdigit_digit d : 0 <= d < 10 -> isdigit (byte_of_Z (48 + d)) = true.
Proof.
  intros. unfold isdigit. rewrite Z_of_byte_of_Z, Z.mod_small by lia.
  apply andb_true_iff; split; apply Z.leb_le; lia.
Qed.
Lemma digit_val_digit d : 0 <= d < 10 -> digit_val (byte_of_Z (48 + d)) = d.
Proof. intros. unfold digit_val. rewrite Z_of_byte_of_Z, Z.mod_small; lia. Qed.

Lemma scan_dec_digits f n acc cnt s :
  0 <= n < 10 ^ Z.of_nat f ->
  scan_digits acc cnt (dec_digits f n +:+ s) =
  scan_digits (acc * 10 ^ slen (dec_digits f n) + n)
              (cnt + String.length (dec_digits f n))%nat s.
Proof.
  revert n acc cnt s. induction f as [|f IH]; intros n acc cnt s Hn.
  { simpl in Hn. assert (n = 0) as -> by lia. cbn [dec_digits]. rewrite str_app_nil_l, slen_nil.
    f_equal; [lia|]. simpl; lia. }
  rewrite Nat2Z.inj_succ, Z.pow_succ_r in Hn by lia.
  pose proof (Z.mod_pos_bound n 10). cbn [dec_digits].
  destruct (n <? 10) eqn:E; bool_prop.
  - rewrite str_app_cons, str_app_nil_l. cbn [scan_digits].
    rewrite isdigit_digit, digit_val_digit by lia.
    rewrite slen_cons, slen_nil, Z.mod_small by lia. f_equal; simpl; lia.
  - rewrite str_app_assoc, IH by (split; [apply Z.div_pos; lia|apply Z.div_lt_upper_bound; lia]).
    rewrite str_app_cons, str_app_nil_l. cbn [scan_digits].
    rewrite isdigit_digit, digit_val_digit by lia.
    rewrite slen_app, slen_cons, slen_nil, str_length_app.
    f_equal; [|simpl; lia].
    rewrite Z.pow_add_r by (auto with gk; lia).
    pose proof (Z.div_mod n 10). lia.
Qed.

Lemma dec_digits_nonempty f n : (0 < f)%nat -> (0 < String.length (dec_digits f n))%nat.
Proof.
  destruct f; [lia|]. intros _. cbn [dec_digits].
  split_if; [simpl; lia|]. rewrite str_length_app. simpl. lia.
Qed.

Lemma dec_digits_head f n :
  (0 < f)%nat -> exists d t, 0 <= d < 10 /\ dec_digits f n = String (byte_of_Z (48 + d)) t.
Proof.
  revert n. induction f as [|f IH]; intros n; [lia|]. intros _. cbn [dec_digits].
  pose proof (Z.mod_pos_bound n 10).
  split_if; [by eexists (n mod 10), _; split; [lia|]|].
  destruct f as [|f]; [by eexists (n mod 10), _; split; [lia|]|].
  destruct (IH (n / 10)) as (d & t & ? & ->); [lia|]. eauto.
Qed.

(** [stoull] and [stoll] on a decimal numeral without sign, followed by [s]. *)
Lemma strto_dec_digits n :
  0 <= n < 10 ^ 20 ->
  strto (dec_digits 20 n) = Some (false, n, String.length (dec_digits 20 n)).
Proof.
  intros Hn. unfold strto.
  destruct (dec_digits_head 20 n) as (d & t & Hd & Heq); [lia|].
  assert (skip_space (dec_digits 20 n) = dec_digits 20 n) as ->.
  { rewrite Heq. simpl. unfold isspace. rewrite Z_of_byte_of_Z, Z.mod_small by lia.
    destruct (48 + d =? 32) eqn:?, (48 + d <=? 13) eqn:?; bool_prop; try lia.
    by rewrite andb_false_r. }
  assert (scan_sign (dec_digits 20 n) = (false, dec_digits 20 n)) as ->.
  { rewrite Heq. unfold scan_sign. rewrite Z_of_byte_of_Z, Z.mod_small by lia.
    destruct (48 + d =? 45) eqn:?, (48 + d =? 43) eqn:?; bool_prop; lia || done. }
  pose proof (scan_dec_digits 20 n 0 0 "" Hn) as Hs.
  rewrite str_app_nil_r in Hs. rewrite Hs.
  pose proof (dec_digits_nonempty 20 n).
  cbn [scan_digits]. rewrite Nat.add_0_l.
  destruct (String.length (dec_digits 20 n) =? 0)%nat eqn:E; [apply Nat.eqb_eq in E; lia|].
  f_equal. f_equal. lia.
Qed.

Lemma to_string_u64 z : is_u64 z -> to_string z = dec_digits 20 z.
Proof. intros. unfold to_string. destruct (z <? 0) eqn:E; bool_prop; [lia|done]. Qed.

Lemma stoull_to_string z :
  is_u64 z -> stoull (to_string z) = Some (z, String.length (to_string z)).
Proof.
  intros Hz. rewrite to_string_u64 by done. unfold stoull.
  rewrite strto_dec_digits by lia.
  destruct (z <? 2 ^ 64) eqn:E; bool_prop; [|lia]. by rewrite u64_id.
Qed.

Lemma strto_neg_digits n :
  0 <= n < 10 ^ 20 ->
  strto (String "-" (dec_digits 20 n)) =
  Some (true, n, S (String.length (dec_digits 20 n))).
Proof.
  intros Hn. unfold strto.
  change (skip_space (String "-" (dec_digits 20 n))) with (String "-" (dec_digits 20 n)).
  change (scan_sign (String "-" (dec_digits 20 n))) with (true, dec_digits 20 n).
  cbv beta iota.
  pose proof (scan_dec_digits 20 n 0 0 "" Hn) as Hs.
  rewrite str_app_nil_r in Hs. rewrite Hs. cbn [scan_digits].
  pose proof (dec_digits_nonempty 20 n). rewrite Nat.add_0_l.
  destruct (String.length (dec_digits 20 n) =? 0)%nat eqn:E; [apply Nat.eqb_eq in E; lia|].
  cbn [String.length]. f_equal. f_equal. lia.
Qed.

Lemma stoll_to_string z :
  is_i64 z -> stoll (to_string z) = Some (z, String.length (to_string z)).
Proof.
  intros Hz. unfold to_string, stoll. destruct (z <? 0) eqn:E; bool_prop.
  - rewrite strto_neg_digits by lia. rewrite Z.opp_involutive.
    destruct (- 2 ^ 63 <=? z) eqn:?, (z <? 2 ^ 63) eqn:?; bool_prop; lia || done.
  - rewrite strto_dec_digits by lia.
    destruct (- 2 ^ 63 <=? z) eqn:?, (z <? 2 ^ 63) eqn:?; bool_prop; lia || done.
Qed.

Lemma to_string_u64_inj x y : is_u64 x -> is_u64 y -> to_string x = to_string y -> x = y.
Proof.
  intros Hx Hy Heq. pose proof (stoull_to_string x Hx) as H1.
  rewrite Heq, (stoull_to_string y Hy) in H1. by injection H1.
Qed.

Lemma trunc_u64_range x : is_u64 (trunc_u64 x).
Proof. destruct x; simpl; try lia. apply u64_range. Qed.
#[export] Hint Resolve trunc_u64_range : gk.

Lemma stoull_range s v idx : stoull s = Some (v, idx) -> is_u64 v.
Proof.
  unfold stoull. destruct (strto s) as [[[neg m] i]|]; [|done]. destruct (m <? 2 ^ 64); [|done].
  intros [= <- _]. apply u64_range.
Qed.
