(* ===== verification/Floats.v ===== *)
(** * Rounding bounds for the double arithmetic of the rate limiter

    [SpecFloat] computes IEEE 754 results but proves nothing about them.  Here a
    double is compared with an integer below 2^53: rounding a value that is at
    most such an integer gives a double that is at most that integer, and small
    integers convert exactly.  That bounds the weighted count of the sliding
    window. *)
From S2P Require Import Prelude CStd.
From Corelib Require Import SpecFloat.

(** [x] is a non-negative double of value at most [B]. *)
Definition at_most (B : Z) (x : spec_float) : Prop :=
  match x with
  | S754_zero _ => True
  | S754_finite false m e => e <= 0 /\ Z.pos m <= B * 2 ^ (- e)
  | _ => False
  end.

Lemma digits2_spec p : 2 ^ (Z.pos (digits2_pos p) - 1) <= Z.pos p < 2 ^ Z.pos (digits2_pos p).
Proof.
  induction p as [p IH|p IH|]; cbn [digits2_pos]; [| |done]; rewrite Pos2Z.inj_succ;
    (replace (Z.succ (Z.pos (digits2_pos p)) - 1) with (Z.succ (Z.pos (digits2_pos p) - 1)) by lia);
    rewrite !Z.pow_succ_r by lia; lia.
Qed.

Lemma digits_le m n : 0 <= m < 2 ^ n -> 0 <= n -> Zdigits2 m <= n.
Proof.
  intros Hm Hn. destruct m as [|p|p]; simpl; [done| |lia].
  pose proof (digits2_spec p). enough (Z.pos (digits2_pos p) - 1 < n) by lia.
  apply (Z.pow_lt_mono_r_iff 2); lia.
Qed.

(** ** Shifting right keeps the quotient and records whether bits were lost *)

Definition exact_rec (r : shr_record) : bool := negb (shr_r r) && negb (shr_s r).

Lemma shr_1_spec r :
  0 <= shr_m r ->
  shr_m (shr_1 r) = shr_m r / 2 /\
  (exact_rec r = true -> shr_m r mod 2 = 0 -> exact_rec (shr_1 r) = true).
Proof.
  destruct r as [m rr s]. unfold exact_rec. cbn [shr_m shr_r shr_s]. intros Hm.
  destruct m as [|[p|p|]|p]; cbn [shr_1 shr_m shr_r shr_s]; try lia;
    (split; [by rewrite <- Z.div2_div|]); rewrite Zmod_odd; intros H Hmod; bool_prop; by subst.
Qed.

Lemma shr_iter n r :
  0 <= shr_m r ->
  let r' := iter_pos shr_1 n r in
  0 <= shr_m r' /\ shr_m r' = shr_m r / 2 ^ Z.pos n /\
  (exact_rec r = true -> shr_m r mod 2 ^ Z.pos n = 0 -> exact_rec r' = true).
Proof.
  assert (forall n r, iter_pos shr_1 n r = Nat.iter (Pos.to_nat n) shr_1 r) as Hit.
  { clear. induction n as [n IH|n IH|]; intros r; cbn [iter_pos]; [| |done]; rewrite !IH.
    - replace (Pos.to_nat n~1) with (S (Pos.to_nat n + Pos.to_nat n)) by lia.
      by rewrite Nat.iter_succ_r, Nat.iter_add.
    - replace (Pos.to_nat n~0) with (Pos.to_nat n + Pos.to_nat n)%nat by lia.
      by rewrite Nat.iter_add. }
  intros Hm. simpl. rewrite Hit. replace (Z.pos n) with (Z.of_nat (Pos.to_nat n)) by lia.
  generalize (Pos.to_nat n) as k. clear n Hit.
  induction k as [|k (IH1 & IH2 & IH3)]; simpl Nat.iter.
  { rewrite Z.div_1_r. done. }
  destruct (shr_1_spec _ IH1) as [H1 H2]. rewrite H1, IH2.
  rewrite Nat2Z.inj_succ, Z.pow_succ_r by lia. split_and!.
  - apply Z.div_pos; [|lia]. by rewrite <- IH2.
  - rewrite Z.div_div by lia. f_equal. lia.
  - intros Hx Hmod. rewrite (Z.mul_comm 2), Z.rem_mul_r in Hmod by lia.
    pose proof (Z.mod_pos_bound (shr_m r) (2 ^ Z.of_nat k)).
    pose proof (Z.mod_pos_bound (shr_m r / 2 ^ Z.of_nat k) 2).
    apply H2; [apply IH3; [done|nia]|]. rewrite IH2. nia.
Qed.

Abbreviation fexp64 := (fexp prec64 emax64).

Lemma shr_fexp_spec m e l :
  0 <= m ->
  let n := Z.max 0 (fexp64 (Zdigits2 m + e) - e) in
  exists r, shr_fexp prec64 emax64 m e l = (r, e + n) /\
    0 <= shr_m r /\ shr_m r = m / 2 ^ n /\
    (l = loc_Exact -> m mod 2 ^ n = 0 -> exact_rec r = true).
Proof.
  intros Hm n. unfold shr_fexp, shr.
  assert (shr_m (shr_record_of_loc m l) = m) as Hr by by destruct l as [|[]].
  assert (l = loc_Exact -> exact_rec (shr_record_of_loc m l) = true) as Hl by by intros ->.
  destruct (fexp64 (Zdigits2 m + e) - e) as [|p|p] eqn:E.
  - exists (shr_record_of_loc m l). unfold n. simpl. rewrite Z.div_1_r, Z.add_0_r.
    split_and!; auto; by rewrite Hr.
  - pose proof (shr_iter p (shr_record_of_loc m l)) as (? & ? & ?); [by rewrite Hr|].
    rewrite Hr in *. unfold n. rewrite Z.max_r by lia. eauto 10.
  - exists (shr_record_of_loc m l). unfold n. rewrite Z.max_l by lia.
    rewrite Z.div_1_r, Z.add_0_r. split_and!; auto; by rewrite Hr.
Qed.

Lemma round_ne_le r :
  0 <= shr_m r ->
  let m := round_nearest_even (shr_m r) (loc_of_shr_record r) in
  0 <= m <= shr_m r + (if exact_rec r then 0 else 1).
Proof.
  destruct r as [m [] []]; simpl; try lia. destruct (Z.even m); lia.
Qed.

(** Rounding a value below an integer keeps it below that integer. *)
Lemma round_at_most B m e l :
  0 <= m -> e <= 0 -> 0 <= B < 2 ^ 53 ->
  m + (match l with loc_Exact => 0 | _ => 1 end) <= B * 2 ^ (- e) ->
  at_most B (binary_round_aux prec64 emax64 false m e l).
Proof.
  intros Hm He HB Hle. unfold binary_round_aux.
  destruct (shr_fexp_spec m e l Hm) as (r & -> & Hr & Hrm & Hrx).
  set (n := Z.max 0 (fexp64 (Zdigits2 m + e) - e)) in *.
  assert (m < 2 ^ (53 - e)) as Hm53.
  { replace (53 - e) with (53 + - e) by lia. rewrite Z.pow_add_r by lia.
    destruct l; nia. }
  assert (Zdigits2 m <= 53 - e) as Hd by (apply digits_le; lia).
  assert (e + n <= 0) as He' by (unfold n, fexp, emin; lia).
  assert (0 <= n) as Hn by (unfold n; lia).
  assert (B * 2 ^ (- e) = B * 2 ^ (- (e + n)) * 2 ^ n) as HB'.
  { replace (- e) with (- (e + n) + n) by lia. rewrite Z.pow_add_r by lia. ring. }
  pose proof (round_ne_le r Hr) as Hm1. cbv zeta in Hm1.
  set (m1 := round_nearest_even _ _) in *. set (e1 := e + n) in *.
  assert (m1 <= B * 2 ^ (- e1)) as Hm1le.
  { pose proof (Z.pow_pos_nonneg 2 n ltac:(lia) Hn) as Hp.
    pose proof (Z.div_mod m (2 ^ n) ltac:(lia)) as Hdm. pose proof (Z.mod_pos_bound m (2 ^ n) Hp).
    rewrite <- Hrm in Hdm. destruct (exact_rec r) eqn:Ex.
    - enough (shr_m r <= B * 2 ^ (- e1)) by lia.
      apply (Z.mul_le_mono_pos_r _ _ (2 ^ n) Hp). rewrite <- HB'. destruct l; lia.
    - enough (shr_m r < B * 2 ^ (- e1)) by lia.
      apply (Z.mul_lt_mono_pos_r (2 ^ n) _ _ Hp). rewrite <- HB'. destruct l; [|lia].
      assert (m mod 2 ^ n <> 0) by (intros E0; by specialize (Hrx eq_refl E0)). lia. }
  destruct (shr_fexp_spec m1 e1 loc_Exact) as (r2 & -> & Hr2 & Hr2m & _); [lia|].
  set (n2 := Z.max 0 (fexp64 (Zdigits2 m1 + e1) - e1)) in *.
  assert (m1 < 2 ^ (53 - e1)) as Hm153.
  { replace (53 - e1) with (53 + - e1) by lia. rewrite Z.pow_add_r by lia. nia. }
  assert (Zdigits2 m1 <= 53 - e1) as Hd1 by (apply digits_le; lia).
  assert (e1 + n2 <= 0) by (unfold n2, fexp, emin; lia).
  assert (0 <= n2) by (unfold n2; lia).
  destruct (shr_m r2) as [|p|p]; [done| |lia].
  destruct (e1 + n2 <=? emax64 - prec64) eqn:?; bool_prop; [|lia].
  split; [done|]. rewrite Hr2m. apply Z.div_le_upper_bound; [lia|].
  replace (- e1) with (n2 + - (e1 + n2)) in Hm1le by lia. rewrite Z.pow_add_r in Hm1le by lia. lia.
Qed.

Lemma shl_align_spec m e e' :
  exists m' d, shl_align m e e' = (m', e - d) /\ d = Z.max 0 (e - e') /\ Z.pos m' = Z.pos m * 2 ^ d.
Proof.
  unfold shl_align. destruct (e' - e) as [|p|p] eqn:E.
  - exists m, 0. rewrite Z.sub_0_r. split_and!; [done|lia|lia].
  - exists m, 0. rewrite Z.sub_0_r. split_and!; [done|lia|lia].
  - exists (Pos.iter xO m p), (Z.pos p). split_and!; [f_equal; lia|lia|].
    clear E. induction p using Pos.peano_ind; [simpl; lia|].
    rewrite Pos.iter_succ, Pos2Z.inj_xO, IHp, Pos2Z.inj_succ, Z.pow_succ_r by lia. ring.
Qed.

Lemma normalize_at_most B m e :
  0 <= m -> e <= 0 -> 0 <= B < 2 ^ 53 -> m <= B * 2 ^ (- e) ->
  at_most B (binary_normalize prec64 emax64 m e false).
Proof.
  intros Hm He HB Hle. destruct m as [|p|p]; simpl; [done| |lia]. unfold binary_round.
  destruct (shl_align_spec p e (fexp64 (Z.pos (digits2_pos p) + e))) as (m' & d & -> & Hd & Hm').
  apply round_at_most; [lia..|]. rewrite Hm'.
  replace (- (e - d)) with (- e + d) by lia. rewrite Z.pow_add_r by lia. nia.
Qed.

Lemma mul_at_most A B x y :
  at_most A x -> at_most B y -> 0 <= A -> 0 <= B -> A * B < 2 ^ 53 -> at_most (A * B) (dmul x y).
Proof.
  intros Hx Hy HA HB HAB.
  destruct x as [| | |[] m1 e1], y as [| | |[] m2 e2]; simpl in Hx, Hy; try done.
  destruct Hx as [? ?], Hy as [? ?]. unfold dmul, SFmul.
  apply round_at_most; [lia..|nia|].
  replace (- (e1 + e2)) with (- e1 + - e2) by lia. rewrite Z.pow_add_r by lia. nia.
Qed.

Lemma one_minus_at_most y : at_most 1 y -> at_most 1 (dsub (double_of_Z 1) y).
Proof.
  assert (double_of_Z 1 = S754_finite false 4503599627370496 (-52)) as -> by reflexivity.
  intros Hy. destruct y as [| | |[] m e]; simpl in Hy; try done. destruct Hy as [He Hm].
  unfold dsub, SFsub. set (ez := Z.min (-52) e).
  destruct (shl_align_spec 4503599627370496 (-52) ez) as (a & d1 & -> & Hd1 & Ha).
  destruct (shl_align_spec m e ez) as (b & d2 & -> & Hd2 & Hb). cbn [fst cond_Zopp].
  assert (2 ^ (- ez) = 2 ^ 52 * 2 ^ d1) as E1.
  { rewrite <- Z.pow_add_r by lia. f_equal. lia. }
  assert (2 ^ (- ez) = 2 ^ (- e) * 2 ^ d2) as E2.
  { rewrite <- Z.pow_add_r by lia. f_equal. lia. }
  assert (Z.pos b <= 2 ^ (- ez)) by (rewrite Hb, E2; nia).
  assert (Z.pos a = 2 ^ (- ez)) by (rewrite Ha, E1; lia).
  apply normalize_at_most; lia.
Qed.

Lemma digits_eq m n : 2 ^ (n - 1) <= m < 2 ^ n -> 1 <= n -> Zdigits2 m = n.
Proof.
  intros Hm Hn. destruct m as [|p|p]; [| |lia].
  { pose proof (Z.pow_pos_nonneg 2 (n - 1)). lia. }
  pose proof (digits2_spec p). simpl.
  assert (Z.pos (digits2_pos p) - 1 < n) by (apply (Z.pow_lt_mono_r_iff 2); lia).
  assert (n - 1 < Z.pos (digits2_pos p)) by (apply (Z.pow_lt_mono_r_iff 2); lia). lia.
Qed.

(** An integer below 2^53 is converted exactly, with a full 53-bit mantissa. *)
Lemma double_exact z :
  0 < z < 2 ^ 53 ->
  exists m e, double_of_Z z = S754_finite false m e /\ -52 <= e <= 0 /\
    Z.pos m = z * 2 ^ (- e) /\ Zdigits2 (Z.pos m) = 53.
Proof.
  intros Hz. destruct z as [|p|p]; [lia| |lia]. unfold double_of_Z. simpl. unfold binary_round.
  pose proof (digits2_spec p) as Hp. set (d := Z.pos (digits2_pos p)) in *.
  assert (d <= 53) by (apply (digits_le (Z.pos p)); lia).
  assert (1 <= d) by (unfold d; lia).
  destruct (shl_align_spec p 0 (fexp64 (d + 0))) as (m & k & -> & Hk & Hm).
  assert (k = 53 - d) as -> by (unfold fexp, emin in Hk; lia).
  assert (Zdigits2 (Z.pos m) = 53) as Hdm.
  { apply digits_eq; [|lia]. rewrite Hm.
    assert (2 ^ 53 = 2 ^ d * 2 ^ (53 - d)) as -> by (rewrite <- Z.pow_add_r by lia; f_equal; lia).
    replace (53 - 1) with (d - 1 + (53 - d)) by lia. rewrite (Z.pow_add_r 2 (d - 1)) by lia. nia. }
  exists m, (0 - (53 - d)). split_and!; [|lia|lia|by rewrite Hm; f_equal; f_equal; lia|done].
  unfold binary_round_aux.
  destruct (shr_fexp_spec (Z.pos m) (0 - (53 - d)) loc_Exact) as (r & -> & _ & Hr & Hx); [lia|].
  rewrite Hdm in *.
  replace (Z.max 0 (fexp64 (53 + (0 - (53 - d))) - (0 - (53 - d)))) with 0 in *
    by (unfold fexp, emin; lia).
  rewrite Z.div_1_r in Hr. specialize (Hx eq_refl (Z.mod_1_r _)).
  assert (round_nearest_even (shr_m r) (loc_of_shr_record r) = Z.pos m) as ->.
  { destruct r as [? [] []]; simpl in *; done. }
  rewrite Z.add_0_r.
  destruct (shr_fexp_spec (Z.pos m) (0 - (53 - d)) loc_Exact) as (r2 & -> & _ & Hr2 & _); [lia|].
  rewrite Hdm in *.
  replace (Z.max 0 (fexp64 (53 + (0 - (53 - d))) - (0 - (53 - d)))) with 0 in *
    by (unfold fexp, emin; lia).
  rewrite Z.div_1_r in Hr2. rewrite Hr2, Z.add_0_r.
  destruct (_ <=? _) eqn:?; bool_prop; [done|lia].
Qed.

Lemma ratio_at_most a b :
  0 <= a <= b -> 0 < b < 2 ^ 53 -> at_most 1 (ddiv (double_of_Z a) (double_of_Z b)).
Proof.
  intros Ha Hb. destruct (double_exact b Hb) as (m2 & e2 & -> & He2 & Hm2 & Hd2).
  destruct (decide (a = 0)) as [->|Hne]; [done|].
  destruct (double_exact a) as (m1 & e1 & -> & He1 & Hm1 & Hd1); [lia|].
  unfold ddiv, SFdiv, SFdiv_core_binary. rewrite Hd1, Hd2.
  replace (Z.min (fexp64 (53 + e1 - (53 + e2))) (e1 - e2)) with (e1 - e2 - 53)
    by (unfold fexp, emin; lia).
  replace (e1 - e2 - (e1 - e2 - 53)) with 53 by lia.
  pose proof (Z_div_mod (Z.shiftl (Z.pos m1) 53) (Z.pos m2)) as Hdm.
  destruct (Z.div_eucl _ _) as [q r]. destruct Hdm as [Hq Hr]; [lia|].
  rewrite Z.shiftl_mul_pow2 in Hq by lia.
  set (T := 2 ^ (- (e1 - e2 - 53))).
  assert (Z.pos m1 * 2 ^ 53 <= Z.pos m2 * T) as Hle.
  { rewrite Hm1, Hm2. unfold T. rewrite <- !Z.mul_assoc, <- !Z.pow_add_r by lia.
    replace (- e2 + - (e1 - e2 - 53)) with (- e1 + 53) by lia. nia. }
  assert (0 < T) by (unfold T; lia).
  assert (0 <= q) by nia.
  apply round_at_most; [lia..|]. fold T.
  unfold new_location, new_location_even, new_location_odd.
  destruct (Z.even _), (r =? 0) eqn:?; bool_prop; nia.
Qed.

(** The weighted previous count never exceeds the previous count. *)
Lemma double_at_most z : 0 <= z < 2 ^ 53 -> at_most z (double_of_Z z).
Proof. intros. apply normalize_at_most; lia. Qed.

Lemma trunc_at_most B x : at_most B x -> 0 <= B < 2 ^ 53 -> 0 <= trunc_u64 x <= B.
Proof.
  intros Hx HB. destruct x as [| | |[] m e]; simpl in *; try done; try lia.
  destruct Hx as [He Hm].
  assert (0 <= (if 0 <=? e then Z.pos m * 2 ^ e else Z.pos m / 2 ^ (- e)) <= B) as Hr.
  { destruct (0 <=? e) eqn:?; bool_prop.
    - assert (e = 0) as -> by lia. simpl in Hm. lia.
    - split; [apply Z.div_pos; lia|]. apply Z.div_le_upper_bound; lia. }
  rewrite u64_id; lia.
Qed.

(** ** Exact cases *)

Lemma one_minus_zero_ratio b :
  0 < b < 2 ^ 53 -> dsub (double_of_Z 1) (ddiv (double_of_Z 0) (double_of_Z b)) = double_of_Z 1.
Proof. intros Hb. by destruct (double_exact b Hb) as (m & e & -> & _). Qed.

Lemma round_exact m e n :
  0 < m -> n = fexp64 (Zdigits2 m + e) - e -> 0 <= n -> m mod 2 ^ n = 0 ->
  forall m', Z.pos m' = m / 2 ^ n -> fexp64 (Zdigits2 (Z.pos m') + (e + n)) <= e + n -> e + n <= 0 ->
  binary_round_aux prec64 emax64 false m e loc_Exact = S754_finite false m' (e + n).
Proof.
  intros Hm Hn Hn0 Hmod m' Hm' Hf He. unfold binary_round_aux.
  destruct (shr_fexp_spec m e loc_Exact) as (r & -> & _ & Hr & Hx); [lia|].
  rewrite <- Hn, Z.max_r in * by done. specialize (Hx eq_refl Hmod).
  assert (round_nearest_even (shr_m r) (loc_of_shr_record r) = Z.pos m') as ->.
  { destruct r as [? [] []]; simpl in *; by rewrite ?Hm'. }
  destruct (shr_fexp_spec (Z.pos m') (e + n) loc_Exact) as (r2 & -> & _ & Hr2 & _); [lia|].
  rewrite Z.max_l in * by lia. rewrite Z.div_1_r in Hr2. rewrite Hr2, Z.add_0_r.
  destruct (_ <=? _) eqn:?; bool_prop; [done|lia].
Qed.

Lemma mul_one z : 0 <= z < 2 ^ 53 -> dmul (double_of_Z z) (double_of_Z 1) = double_of_Z z.
Proof.
  intros Hz. destruct (decide (z = 0)) as [->|Hne]; [done|].
  destruct (double_exact z) as (m & e & -> & He & Hm & Hd); [lia|].
  change (double_of_Z 1) with (S754_finite false 4503599627370496 (-52)). unfold dmul, SFmul.
  assert (Zdigits2 (Z.pos (m * 4503599627370496)) = 105) as Hd2.
  { apply digits_eq; [|lia]. pose proof (digits2_spec m) as Hs.
    change (Zdigits2 (Z.pos m)) with (Z.pos (digits2_pos m)) in Hd. rewrite Hd in Hs. lia. }
  replace e with (e + -52 + 52) at 2 by lia. cbn [xorb].
  apply round_exact; try lia.
  - rewrite Hd2. unfold fexp, emin. lia.
  - rewrite Pos2Z.inj_mul. by apply Z.mod_mul.
  - rewrite Pos2Z.inj_mul. symmetry. by apply (Z.div_mul (Z.pos m) 4503599627370496).
  - rewrite Hd. unfold fexp, emin. lia.
Qed.

Lemma trunc_double z : 0 <= z < 2 ^ 53 -> trunc_u64 (double_of_Z z) = z.
Proof.
  intros Hz. destruct (decide (z = 0)) as [->|Hne]; [done|].
  destruct (double_exact z) as (m & e & -> & He & Hm & _); [lia|]. cbn [trunc_u64].
  assert ((if 0 <=? e then Z.pos m * 2 ^ e else Z.pos m / 2 ^ (- e)) = z) as Hv.
  { rewrite Hm. destruct (0 <=? e) eqn:?; bool_prop.
    - assert (e = 0) as -> by lia. simpl. lia.
    - apply Z.div_mul. pose proof (Z.pow_pos_nonneg 2 (- e)). lia. }
  rewrite ?Hv. apply u64_id. lia.
Qed.
