(* ===== verification/HashTable.v ===== *)
(** * The hash table of include/gatekeeper/storage/hash_table.h

    A vector of chains.  A chain of heap nodes is the list of its key/value
    pairs in link order; [buckets_], [size_] and [max_load_factor_] are the
    fields of the class.  The hash functor is a parameter, as it is a template
    argument in the source.  [size_] counts live heap nodes, so it is a [nat].

    The theorems relate every operation to a finite map ([to_map]) and, where
    order matters, to the multiset of nodes ([nodes]) up to permutation. *)
From S2P Require Import Prelude CStd.
From Corelib Require Import SpecFloat.

Record HashTable (K V : Type) := mkHashTable {
  buckets_ : list (list (K * V));
  size_ : nat;
  max_load_factor_ : spec_float;
}.
Arguments mkHashTable {K V} _ _ _.
Arguments buckets_ {K V} _.
Arguments size_ {K V} _.
Arguments max_load_factor_ {K V} _.

Module HT.
Section HT.
Context {K V : Type} `{EqDecision K, !Countable K} (Hash : K -> Z).

(** The literals [0.75f] and [0.1f]. *)
Definition f_075 : spec_float := S754_finite false 12582912 (-24).
Definition f_01 : spec_float := S754_finite false 13421773 (-27).

Definition New (initial_capacity : Z) (max_load_factor : spec_float) : HashTable K V :=
  mkHashTable
    (replicate (Z.to_nat (if initial_capacity <? 8 then 8 else initial_capacity)) [])
    0
    (if SFltb f_01 max_load_factor then max_load_factor else f_075).

Definition bucket_of (n : nat) (key : K) : nat :=
  Z.to_nat (Hash key mod Z.of_nat n).

Definition HashKey (t : HashTable K V) (key : K) : nat :=
  bucket_of (length (buckets_ t)) key.

(** The chain at an index; the source only reads indices below the size. *)
Definition chain (t : HashTable K V) (i : nat) : list (K * V) :=
  default [] (buckets_ t !! i).

(** The [while (curr != nullptr)] walks of [Find], [Insert] and [Erase]. *)
Fixpoint chain_find (key : K) (c : list (K * V)) : option V :=
  match c with
  | [] => None
  | (k, v) :: c' => if decide (k = key) then Some v else chain_find key c'
  end.
Fixpoint chain_assign (key : K) (value : V) (c : list (K * V)) : list (K * V) :=
  match c with
  | [] => []
  | (k, v) :: c' =>
      if decide (k = key) then (k, value) :: c' else (k, v) :: chain_assign key value c'
  end.
Fixpoint chain_erase (key : K) (c : list (K * V)) : list (K * V) :=
  match c with
  | [] => []
  | (k, v) :: c' => if decide (k = key) then c' else (k, v) :: chain_erase key c'
  end.

Definition Find (t : HashTable K V) (key : K) : option V :=
  match buckets_ t with
  | [] => None
  | _ => chain_find key (chain t (HashKey t key))
  end.

(** A write through the pointer [Find] returned: [*ptr = value]. *)
Definition Assign (t : HashTable K V) (key : K) (value : V) : HashTable K V :=
  let i := HashKey t key in
  mkHashTable (<[i := chain_assign key value (chain t i)]> (buckets_ t))
    (size_ t) (max_load_factor_ t).

Definition push_node (n : nat) (bs : list (list (K * V))) (kv : K * V) :
    list (list (K * V)) :=
  let i := bucket_of n kv.1 in <[i := kv :: default [] (bs !! i)]> bs.

Definition Resize (t : HashTable K V) (new_capacity : nat) : HashTable K V :=
  if (new_capacity <=? size_ t)%nat then t
  else mkHashTable
         (foldl (foldl (push_node new_capacity)) (replicate new_capacity []) (buckets_ t))
         (size_ t) (max_load_factor_ t).

(** [static_cast<float>(size_ + 1) > static_cast<float>(buckets_.size()) * max_load_factor_] *)
Definition over_loaded (t : HashTable K V) : bool :=
  SFltb (fmul (float_of_Z (Z.of_nat (length (buckets_ t)))) (max_load_factor_ t))
        (float_of_Z (Z.of_nat (size_ t) + 1)).

Definition Insert (t : HashTable K V) (key : K) (value : V) : HashTable K V * bool :=
  let t := match buckets_ t with [] => Resize t 8 | _ => t end in
  match chain_find key (chain t (HashKey t key)) with
  | Some _ => (Assign t key value, false)
  | None =>
      let t := if over_loaded t then Resize t (length (buckets_ t) * 2) else t in
      (mkHashTable (push_node (length (buckets_ t)) (buckets_ t) (key, value))
         (S (size_ t)) (max_load_factor_ t), true)
  end.

Definition Erase (t : HashTable K V) (key : K) : HashTable K V * bool :=
  match buckets_ t with
  | [] => (t, false)
  | _ =>
      let i := HashKey t key in
      match chain_find key (chain t i) with
      | Some _ =>
          (mkHashTable (<[i := chain_erase key (chain t i)]> (buckets_ t))
             (pred (size_ t)) (max_load_factor_ t), true)
      | None => (t, false)
      end
  end.

Definition Clear (t : HashTable K V) : HashTable K V :=
  mkHashTable ((fun _ => []) <$> buckets_ t) 0 (max_load_factor_ t).

(** The nodes in the order [ForEach] visits them. *)
Definition nodes (t : HashTable K V) : list (K * V) := concat (buckets_ t).

Definition ForEach {S : Type} (f : S -> K -> V -> S) (s : S) (t : HashTable K V) : S :=
  foldl (foldl (fun s kv => f s kv.1 kv.2)) s (buckets_ t).

Definition Copy (t : HashTable K V) : HashTable K V :=
  foldl (foldl (fun acc kv => (Insert acc kv.1 kv.2).1))
    (mkHashTable (replicate (length (buckets_ t)) []) 0 (max_load_factor_ t))
    (buckets_ t).

(** The moved-to and the moved-from table of the move constructor. *)
Definition Move (t : HashTable K V) : HashTable K V * HashTable K V :=
  (t, mkHashTable [] 0 (max_load_factor_ t)).

(** [Swap]: the two tables after the exchange of their fields. *)
Definition Swap (this other : HashTable K V) : HashTable K V * HashTable K V := (other, this).

(** Copy assignment between distinct tables: copy, then swap with the temporary. *)
Definition CopyAssign (this other : HashTable K V) : HashTable K V :=
  (Swap this (Copy other)).1.

(** Move assignment between distinct tables: the target and the moved-from table. *)
Definition MoveAssign (this other : HashTable K V) : HashTable K V * HashTable K V :=
  let this := Clear this in
  (mkHashTable (buckets_ other) (size_ other) (max_load_factor_ other),
   mkHashTable [] 0 (max_load_factor_ other)).

Definition LoadFactor (t : HashTable K V) : spec_float :=
  match buckets_ t with
  | [] => S754_zero false
  | bs => SFdiv prec32 emax32 (float_of_Z (Z.of_nat (size_ t))) (float_of_Z (Z.of_nat (length bs)))
  end.
Definition MaxLoadFactor (t : HashTable K V) : spec_float := max_load_factor_ t.

Definition Size (t : HashTable K V) : nat := size_ t.
Definition Capacity (t : HashTable K V) : nat := length (buckets_ t).
Definition Empty (t : HashTable K V) : bool := (size_ t =? 0)%nat.

(** The [while] loop of [Scan] over the buckets from index [i] on. *)
Fixpoint scan_loop (bs : list (list (K * V))) (i : nat) (count : Z) (result : list K) :
    nat * list K :=
  match bs with
  | [] => (i, result)
  | b :: bs' =>
      if Z.of_nat (length result) <? count
      then scan_loop bs' (S i) count (result ++ b.*1)
      else (i, result)
  end.

Definition Scan (t : HashTable K V) (cursor count : Z) : Z * list K :=
  match buckets_ t with
  | [] => (0, [])
  | bs =>
      let n := length bs in
      let i := if Z.of_nat n <=? cursor then 0%nat else Z.to_nat cursor in
      let '(j, result) := scan_loop (drop i bs) i count [] in
      (if (n <=? j)%nat then 0 else Z.of_nat j, result)
  end.

(** ** Well-formedness: distinct keys, a truthful size, every node in its bucket *)

Definition placed (n : nat) (bs : list (list (K * V))) : Prop :=
  forall i b kv, bs !! i = Some b -> kv ∈ b -> bucket_of n kv.1 = i.

Record wf (t : HashTable K V) : Prop := mk_wf {
  wf_nodup : NoDup (nodes t).*1;
  wf_size : size_ t = length (nodes t);
  wf_placed : placed (length (buckets_ t)) (buckets_ t);
}.

Lemma bucket_of_lt n key : (0 < n)%nat -> (bucket_of n key < n)%nat.
Proof.
  intros Hn. unfold bucket_of.
  pose proof (Z.mod_pos_bound (Hash key) (Z.of_nat n)). lia.
Qed.

Lemma concat_split (bs : list (list (K * V))) i b :
  bs !! i = Some b ->
  exists rest, concat bs ≡ₚ b ++ rest /\
               forall b', concat (<[i := b']> bs) ≡ₚ b' ++ rest.
Proof.
  intros Hi. exists (concat (take i bs) ++ concat (drop (S i) bs)).
  assert (forall b', concat (take i bs ++ b' :: drop (S i) bs) ≡ₚ
                     b' ++ concat (take i bs) ++ concat (drop (S i) bs)) as H.
  { intros b'. rewrite concat_app. simpl. by rewrite Permutation_app_swap_app. }
  split.
  - rewrite <- H. by rewrite take_drop_middle.
  - intros b'. rewrite <- H. rewrite insert_take_drop; [done|].
    by apply lookup_lt_Some in Hi.
Qed.

Lemma elem_of_nodes t kv :
  kv ∈ nodes t <-> exists i b, buckets_ t !! i = Some b /\ kv ∈ b.
Proof.
  unfold nodes. rewrite list_elem_of_In, in_concat. split.
  - intros (b & Hb & Hkv). apply list_elem_of_In, list_elem_of_lookup in Hb as [i Hi].
    exists i, b. split; [done|]. by apply list_elem_of_In.
  - intros (i & b & Hi & Hkv). exists b. rewrite <- !list_elem_of_In.
    split; [|done]. by eapply list_elem_of_lookup_2.
Qed.

Lemma placed_insert n bs i b :
  placed n bs -> (forall kv, kv ∈ b -> bucket_of n kv.1 = i) -> placed n (<[i := b]> bs).
Proof.
  intros Hp Hb j b' kv Hj Hkv. apply list_lookup_insert_Some in Hj.
  destruct Hj as [(-> & -> & ?)|[? ?]]; eauto.
Qed.

(** *** Chains *)

Lemma chain_find_None key c : chain_find key c = None <-> key ∉ c.*1.
Proof.
  induction c as [|[k v] c IH]; simpl; [set_solver|].
  rewrite not_elem_of_cons. case_decide; simplify_eq; naive_solver.
Qed.

Lemma chain_find_Some key v c :
  chain_find key c = Some v ->
  exists c1 c2, c = c1 ++ (key, v) :: c2 /\ key ∉ c1.*1 /\
    (forall w, chain_assign key w c = c1 ++ (key, w) :: c2) /\
    chain_erase key c = c1 ++ c2.
Proof.
  induction c as [|[k w] c IH]; simpl; [done|]. case_decide; intros Hf.
  - simplify_eq. exists [], c. simpl. split_and!; auto. set_solver.
  - destruct (IH Hf) as (c1 & c2 & -> & Hc1 & Ha & He).
    exists ((k, w) :: c1), c2. simpl. split_and!; auto.
    + set_solver.
    + intros u. by rewrite Ha.
    + by rewrite He.
Qed.

(** *** Lookup *)

Lemma nodes_in_chain t key v :
  wf t -> (key, v) ∈ nodes t <-> (key, v) ∈ chain t (HashKey t key).
Proof.
  intros [_ _ Hp]. rewrite elem_of_nodes. unfold chain, HashKey. split.
  - intros (i & b & Hi & Hb). pose proof (Hp _ _ _ Hi Hb) as <-. simpl in *. by rewrite Hi.
  - destruct (buckets_ t !! _) as [b|] eqn:E; simpl; [eauto|set_solver].
Qed.

Lemma chain_nodup t i : wf t -> NoDup (chain t i).*1.
Proof.
  intros [Hnd _ _]. unfold chain. destruct (buckets_ t !! i) as [b|] eqn:E; simpl.
  - destruct (concat_split _ _ _ E) as (rest & Hp & _).
    unfold nodes in Hnd. rewrite Hp, fmap_app in Hnd. by apply list.NoDup_app in Hnd as [? _].
  - constructor.
Qed.

Lemma chain_find_elem key v c :
  NoDup c.*1 -> chain_find key c = Some v <-> (key, v) ∈ c.
Proof.
  intros Hnd. split.
  - intros (c1 & c2 & -> & _)%chain_find_Some. set_solver.
  - induction c as [|[k w] c IH]; simpl in *; [set_solver|].
    apply list.NoDup_cons in Hnd as [Hk Hnd]. intros [?|Hin]%elem_of_cons; simplify_eq/=.
    + by rewrite decide_True.
    + rewrite decide_False; [auto|]. intros ->. apply Hk.
      apply list_elem_of_fmap. by exists (key, v).
Qed.

Lemma Find_chain t key : Find t key = chain_find key (chain t (HashKey t key)).
Proof.
  unfold Find, chain. destruct (buckets_ t) as [|b bs] eqn:E; [|done].
  rewrite lookup_nil. done.
Qed.

Lemma Find_Some t key v : wf t -> Find t key = Some v <-> (key, v) ∈ nodes t.
Proof.
  intros Hw. rewrite Find_chain, chain_find_elem by by apply chain_nodup.
  by rewrite nodes_in_chain.
Qed.

Lemma Find_None t key : wf t -> Find t key = None <-> key ∉ (nodes t).*1.
Proof.
  intros Hw. rewrite eq_None_not_Some. apply not_iff_compat.
  rewrite list_elem_of_fmap. split.
  - intros [v Hv%Find_Some]; [|done]. by exists (key, v).
  - intros ([k v] & -> & Hin). exists v. by apply Find_Some.
Qed.

Lemma Find_bucket t key v :
  wf t -> Find t key = Some v ->
  buckets_ t !! HashKey t key = Some (chain t (HashKey t key)).
Proof.
  intros Hw Hf. rewrite Find_chain in Hf. unfold chain in *.
  destruct (buckets_ t !! _) as [b|] eqn:E; [done|]. by simpl in Hf.
Qed.

(** *** Assignment through a found pointer, and erasure *)

Lemma Assign_nodes t key v w :
  wf t -> Find t key = Some v ->
  exists rest, nodes t ≡ₚ (key, v) :: rest /\ nodes (Assign t key w) ≡ₚ (key, w) :: rest /\
               wf (Assign t key w).
Proof.
  intros Hw Hf. pose proof (Find_bucket _ _ _ Hw Hf) as Hb.
  destruct (concat_split _ _ _ Hb) as (rest & Hp & Hp').
  rewrite Find_chain in Hf.
  destruct (chain_find_Some _ _ _ Hf) as (c1 & c2 & Hc & _ & Ha & _).
  assert (nodes t ≡ₚ (key, v) :: c1 ++ c2 ++ rest) as H1.
  { unfold nodes. rewrite Hp, Hc. rewrite <- app_assoc. simpl. by rewrite <- Permutation_middle. }
  assert (nodes (Assign t key w) ≡ₚ (key, w) :: c1 ++ c2 ++ rest) as H2.
  { unfold nodes, Assign. simpl. rewrite Hp', Ha.
    rewrite <- app_assoc. simpl. by rewrite <- Permutation_middle. }
  exists (c1 ++ c2 ++ rest). split_and!; [done..|].
  destruct Hw as [Hnd Hs Hpl]. split.
  - rewrite H2. rewrite H1 in Hnd. done.
  - rewrite H2. simpl. rewrite Hs, H1. done.
  - unfold Assign. simpl. rewrite length_insert. apply placed_insert; [done|].
    intros kv Hkv. rewrite Ha in Hkv.
    apply elem_of_app in Hkv as [Hkv|[->|Hkv]%elem_of_cons]; [| done |];
      eapply Hpl; try exact Hb; rewrite Hc; set_solver.
Qed.

Lemma Erase_nodes t key v :
  wf t -> Find t key = Some v ->
  (Erase t key).2 = true /\ nodes t ≡ₚ (key, v) :: nodes (Erase t key).1 /\
  wf (Erase t key).1.
Proof.
  intros Hw Hf. pose proof (Find_bucket _ _ _ Hw Hf) as Hb.
  destruct (concat_split _ _ _ Hb) as (rest & Hp & Hp').
  rewrite Find_chain in Hf.
  destruct (chain_find_Some _ _ _ Hf) as (c1 & c2 & Hc & _ & _ & He).
  assert (Erase t key = (mkHashTable
    (<[HashKey t key := chain_erase key (chain t (HashKey t key))]> (buckets_ t))
    (pred (size_ t)) (max_load_factor_ t), true)) as ->.
  { unfold Erase. rewrite Hf. destruct (buckets_ t) eqn:E; [|done].
    unfold chain in Hf. by rewrite E, lookup_nil in Hf. }
  simpl. set (t' := mkHashTable _ _ _).
  assert (nodes t ≡ₚ (key, v) :: nodes t') as H1.
  { unfold nodes, t'. simpl. rewrite Hp, Hp', He, Hc.
    rewrite <- !app_assoc. simpl. by rewrite <- Permutation_middle. }
  destruct Hw as [Hnd Hs Hpl]. split_and!; [done..|]. split.
  - rewrite H1 in Hnd. by inversion Hnd.
  - unfold t'. simpl. rewrite Hs, H1. done.
  - unfold t'. simpl. rewrite length_insert. apply placed_insert; [done|].
    intros kv Hkv. rewrite He in Hkv. eapply Hpl; [exact Hb|]. rewrite Hc. set_solver.
Qed.

Lemma Erase_miss t key : Find t key = None -> Erase t key = (t, false).
Proof.
  rewrite Find_chain. unfold Erase. intros ->. by destruct (buckets_ t).
Qed.

(** *** Rehashing and insertion *)

Lemma push_node_spec n bs kv :
  (0 < n)%nat -> length bs = n -> placed n bs ->
  length (push_node n bs kv) = n /\ placed n (push_node n bs kv) /\
  concat (push_node n bs kv) ≡ₚ kv :: concat bs.
Proof.
  intros Hn Hl Hp. pose proof (bucket_of_lt n kv.1 Hn) as Hlt. unfold push_node.
  destruct (lookup_lt_is_Some_2 bs (bucket_of n kv.1)) as [b Hb]; [lia|].
  rewrite Hb. simpl. rewrite length_insert. split_and!; [done| |].
  - apply placed_insert; [done|]. intros kv' [->|?]%elem_of_cons; eauto.
  - destruct (concat_split _ _ _ Hb) as (rest & H1 & H2). by rewrite H2, H1.
Qed.

Lemma push_nodes_spec n l bs :
  (0 < n)%nat -> length bs = n -> placed n bs ->
  length (foldl (push_node n) bs l) = n /\ placed n (foldl (push_node n) bs l) /\
  concat (foldl (push_node n) bs l) ≡ₚ l ++ concat bs.
Proof.
  intros Hn. revert bs. induction l as [|kv l IH]; intros bs Hl Hp; [done|].
  destruct (push_node_spec n bs kv Hn Hl Hp) as (Hl' & Hp' & Hc). simpl.
  destruct (IH _ Hl' Hp') as (? & ? & Hc'). split_and!; [done..|].
  by rewrite Hc', Hc, Permutation_middle.
Qed.

Lemma concat_replicate_nil n : concat (replicate n ([] : list (K * V))) = [].
Proof. by induction n. Qed.

Lemma placed_replicate n m : placed n (replicate m []).
Proof. intros i b kv [-> _]%lookup_replicate. set_solver. Qed.

Lemma Resize_spec t n :
  wf t -> wf (Resize t n) /\ nodes (Resize t n) ≡ₚ nodes t /\
  ((size_ t < n)%nat -> length (buckets_ (Resize t n)) = n).
Proof.
  intros Hw. unfold Resize. destruct (n <=? size_ t)%nat eqn:E.
  { apply Nat.leb_le in E. split_and!; [done..|lia]. }
  apply Nat.leb_gt in E. rewrite foldl_concat.
  destruct (push_nodes_spec n (concat (buckets_ t)) (replicate n [])) as (Hl & Hp & Hc).
  { lia. } { apply length_replicate. } { apply placed_replicate. }
  rewrite concat_replicate_nil, app_nil_r in Hc. destruct Hw as [Hnd Hs Hpl].
  split_and!; [|done|done]. split; unfold nodes; simpl.
  - by rewrite Hc.
  - by rewrite Hc.
  - by rewrite Hl.
Qed.

Lemma Find_perm t t' key :
  wf t -> wf t' -> nodes t ≡ₚ nodes t' -> Find t key = Find t' key.
Proof.
  intros Hw Hw' Hp. apply option_eq. intros v. rewrite !Find_Some by done. by rewrite Hp.
Qed.

Lemma wf_empty_buckets t : wf t -> buckets_ t = [] -> size_ t = 0%nat.
Proof. intros [_ -> _] E. unfold nodes. by rewrite E. Qed.

(** The table [Insert] works on after its first guard. *)
Definition ready (t : HashTable K V) : HashTable K V :=
  match buckets_ t with [] => Resize t 8 | _ => t end.

Lemma ready_spec t :
  wf t -> wf (ready t) /\ nodes (ready t) ≡ₚ nodes t /\ (0 < length (buckets_ (ready t)))%nat.
Proof.
  intros Hw. unfold ready. destruct (buckets_ t) eqn:E.
  - destruct (Resize_spec t 8 Hw) as (? & ? & Hl). split_and!; [done..|].
    rewrite Hl; [lia|]. rewrite wf_empty_buckets by done. lia.
  - split_and!; [done..|]. rewrite E. simpl. lia.
Qed.

Lemma over_loaded_spec t :
  wf t -> (0 < length (buckets_ t))%nat ->
  let t' := if over_loaded t then Resize t (length (buckets_ t) * 2) else t in
  wf t' /\ nodes t' ≡ₚ nodes t /\ (0 < length (buckets_ t'))%nat.
Proof.
  intros Hw Hl. simpl. destruct (over_loaded t); [|done].
  destruct (Resize_spec t (length (buckets_ t) * 2) Hw) as (? & ? & Hr). split_and!; [done..|].
  unfold Resize in *. destruct (_ <=? _)%nat eqn:E; [done|].
  apply Nat.leb_gt in E. rewrite Hr; lia.
Qed.

Lemma Insert_hit t key v w :
  wf t -> Find t key = Some v ->
  (Insert t key w).2 = false /\ wf (Insert t key w).1 /\
  exists rest, nodes t ≡ₚ (key, v) :: rest /\ nodes (Insert t key w).1 ≡ₚ (key, w) :: rest.
Proof.
  intros Hw Hf. destruct (ready_spec t Hw) as (Hw' & Hp & _).
  assert (Find (ready t) key = Some v) as Hf' by by rewrite (Find_perm _ t).
  assert (Insert t key w = (Assign (ready t) key w, false)) as ->.
  { unfold Insert. fold (ready t). rewrite <- Find_chain, Hf'. done. }
  destruct (Assign_nodes _ _ _ w Hw' Hf') as (rest & H1 & H2 & ?).
  split_and!; [done..|]. exists rest. by rewrite <- Hp.
Qed.

Lemma Insert_fresh t key w :
  wf t -> Find t key = None ->
  (Insert t key w).2 = true /\ wf (Insert t key w).1 /\
  nodes (Insert t key w).1 ≡ₚ (key, w) :: nodes t.
Proof.
  intros Hw Hf. destruct (ready_spec t Hw) as (Hw' & Hp & Hl).
  destruct (over_loaded_spec _ Hw' Hl) as (Hw2 & Hp2 & Hl2).
  assert (Find (ready t) key = None) as Hf' by by rewrite (Find_perm _ t).
  unfold Insert. fold (ready t). rewrite <- Find_chain, Hf'. simpl in *.
  set (t' := if over_loaded (ready t) then _ else _) in *.
  destruct (push_node_spec (length (buckets_ t')) (buckets_ t') (key, w))
    as (Hl3 & Hp3 & Hc3); [done..|apply Hw2|].
  assert (concat (push_node (length (buckets_ t')) (buckets_ t') (key, w)) ≡ₚ
          (key, w) :: nodes t) as Hn.
  { rewrite Hc3. fold (nodes t'). by rewrite Hp2, Hp. }
  split_and!; [done| |done]. split; unfold nodes; simpl.
  - rewrite Hn. simpl. constructor; [by apply Find_None|]. apply Hw.
  - rewrite Hn. simpl. rewrite (wf_size _ Hw2), Hp2, Hp. done.
  - by rewrite Hl3.
Qed.

(** ** The abstract map *)

Definition to_map (t : HashTable K V) : gmap K V := list_to_map (nodes t).

Lemma to_map_perm t l :
  wf t -> nodes t ≡ₚ l -> to_map t = list_to_map l.
Proof. intros Hw Hp. apply list_to_map_proper; [apply Hw|done]. Qed.

Lemma Find_map t key : wf t -> Find t key = to_map t !! key.
Proof.
  intros Hw. apply option_eq. intros v. rewrite Find_Some by done.
  apply elem_of_list_to_map. apply Hw.
Qed.

Lemma Size_map t : wf t -> Size t = size (to_map t).
Proof.
  intros Hw. unfold Size, to_map. rewrite map_size_list_to_map by apply Hw. apply Hw.
Qed.

Lemma Assign_map t key v w :
  wf t -> Find t key = Some v ->
  wf (Assign t key w) /\ to_map (Assign t key w) = <[key := w]> (to_map t).
Proof.
  intros Hw Hf. destruct (Assign_nodes _ _ _ w Hw Hf) as (rest & H1 & H2 & Hw').
  split; [done|]. rewrite (to_map_perm _ _ Hw' H2), (to_map_perm _ _ Hw H1). simpl.
  by rewrite insert_insert_eq.
Qed.

Lemma Insert_map t key w :
  wf t ->
  wf (Insert t key w).1 /\ to_map (Insert t key w).1 = <[key := w]> (to_map t) /\
  (Insert t key w).2 = bool_decide (to_map t !! key = None).
Proof.
  intros Hw. rewrite <- Find_map by done. destruct (Find t key) as [v|] eqn:Hf.
  - destruct (Insert_hit _ _ _ w Hw Hf) as (Hb & Hw' & rest & H1 & H2).
    split_and!; [done| |by rewrite Hb].
    rewrite (to_map_perm _ _ Hw' H2), (to_map_perm _ _ Hw H1). simpl.
    by rewrite insert_insert_eq.
  - destruct (Insert_fresh _ _ w Hw Hf) as (Hb & Hw' & H1).
    split_and!; [done| |by rewrite Hb].
    by rewrite (to_map_perm _ _ Hw' H1).
Qed.

Lemma Erase_map t key :
  wf t ->
  wf (Erase t key).1 /\ to_map (Erase t key).1 = delete key (to_map t) /\
  (Erase t key).2 = bool_decide (to_map t !! key ≠ None).
Proof.
  intros Hw. rewrite <- Find_map by done. destruct (Find t key) as [v|] eqn:Hf.
  - destruct (Erase_nodes _ _ _ Hw Hf) as (Hb & H1 & Hw').
    split_and!; [done| |by rewrite Hb].
    rewrite (to_map_perm _ _ Hw H1). simpl. rewrite delete_insert_id; [done|].
    apply not_elem_of_list_to_map. eapply NoDup_fst_perm_cons; [apply Hw|done].
  - rewrite Erase_miss by done. split_and!; [done| |done].
    rewrite delete_id; [done|]. by rewrite <- Find_map.
Qed.

Lemma Resize_map t n : wf t -> wf (Resize t n) /\ to_map (Resize t n) = to_map t.
Proof.
  intros Hw. destruct (Resize_spec t n Hw) as (? & Hp & _). split; [done|].
  by apply to_map_perm.
Qed.

Lemma wf_empty bs n mlf :
  concat bs = [] -> n = 0%nat -> placed (length bs) bs -> wf (mkHashTable bs n mlf).
Proof. intros Hc -> Hp. split; unfold nodes; simpl; rewrite ?Hc; [constructor|done|done]. Qed.

Lemma New_map cap mlf : wf (New cap mlf) /\ to_map (New cap mlf) = ∅.
Proof.
  split.
  - apply wf_empty; [apply concat_replicate_nil|done|apply placed_replicate].
  - unfold to_map, nodes, New. simpl. by rewrite concat_replicate_nil.
Qed.

Lemma Clear_map t : wf (Clear t) /\ to_map (Clear t) = ∅.
Proof.
  assert ((fun _ => [] : list (K * V)) <$> buckets_ t = replicate (length (buckets_ t)) []) as E.
  { induction (buckets_ t) as [|b bs IH]; [done|]. rewrite fmap_cons, IH. done. }
  unfold Clear. rewrite E. split.
  - apply wf_empty; [apply concat_replicate_nil|done|apply placed_replicate].
  - unfold to_map, nodes. simpl. by rewrite concat_replicate_nil.
Qed.

Lemma Copy_map t : wf t -> wf (Copy t) /\ to_map (Copy t) = to_map t.
Proof.
  intros Hw. unfold Copy. rewrite foldl_concat. fold (nodes t).
  assert (forall l acc, wf acc -> NoDup l.*1 -> (forall k, k ∈ l.*1 -> to_map acc !! k = None) ->
    let r := foldl (fun acc kv => (Insert acc kv.1 kv.2).1) acc l in
    wf r /\ to_map r = list_to_map l ∪ to_map acc) as Hgen.
  { induction l as [|[k v] l IH]; intros acc Ha Hnd Hfr; simpl.
    { by rewrite (left_id_L ∅ (∪)). }
    simpl in Hnd. apply list.NoDup_cons in Hnd as [Hk Hnd].
    destruct (Insert_map acc k v Ha) as (Ha' & Hm & _).
    destruct (IH (Insert acc k v).1 Ha' Hnd) as [Hr Hm'].
    { intros k' Hk'. rewrite Hm, lookup_insert_ne by set_solver. apply Hfr. set_solver. }
    split; [done|]. simpl in Hm'. rewrite Hm', Hm.
    rewrite <- insert_union_l, insert_union_r; [done|].
    by apply not_elem_of_list_to_map. }
  destruct (Hgen (nodes t) (mkHashTable (replicate (length (buckets_ t)) []) 0
      (max_load_factor_ t))) as [Hr Hm].
  - apply wf_empty; [apply concat_replicate_nil|done|apply placed_replicate].
  - apply Hw.
  - intros k _. unfold to_map, nodes. simpl. by rewrite concat_replicate_nil.
  - split; [done|]. rewrite Hm. unfold to_map, nodes at 2. simpl.
    rewrite concat_replicate_nil. simpl. by rewrite (right_id_L ∅ (∪)).
Qed.

Lemma ForEach_nodes {S} (f : S -> K -> V -> S) s t :
  ForEach f s t = foldl (fun s kv => f s kv.1 kv.2) s (nodes t).
Proof. apply foldl_concat. Qed.

Lemma Assign_miss t key w : Find t key = None -> Assign t key w = t.
Proof.
  rewrite Find_chain. intros Hf. unfold Assign.
  assert (chain_assign key w (chain t (HashKey t key)) = chain t (HashKey t key)) as ->.
  { revert Hf. generalize (chain t (HashKey t key)) as c.
    induction c as [|[k v] c IH]; simpl; [done|]. case_decide; [done|]. intros. by rewrite IH. }
  unfold chain. destruct (buckets_ t !! HashKey t key) eqn:E; simpl.
  - rewrite list_insert_id by done. by destruct t.
  - rewrite list_insert_ge by by apply lookup_ge_None. by destruct t.
Qed.

(** *** Lookup after an update, the form the clients use *)

Lemma Find_Insert t key w key' :
  wf t -> Find (Insert t key w).1 key' = if decide (key' = key) then Some w else Find t key'.
Proof.
  intros Hw. destruct (Insert_map t key w Hw) as (Hw' & Hm & _).
  rewrite !Find_map, Hm, lookup_insert by done.
  repeat case_decide; congruence.
Qed.

Lemma Find_Assign t key v w key' :
  wf t -> Find t key = Some v ->
  Find (Assign t key w) key' = if decide (key' = key) then Some w else Find t key'.
Proof.
  intros Hw Hf. destruct (Assign_map _ _ _ w Hw Hf) as (Hw' & Hm).
  rewrite !Find_map, Hm, lookup_insert by done.
  repeat case_decide; congruence.
Qed.

Lemma Find_Erase t key key' :
  wf t -> Find (Erase t key).1 key' = if decide (key' = key) then None else Find t key'.
Proof.
  intros Hw. destruct (Erase_map t key Hw) as (Hw' & Hm & _).
  rewrite !Find_map, Hm, lookup_delete by done.
  repeat case_decide; congruence.
Qed.

Lemma Erase_result t key :
  wf t -> (Erase t key).2 = match Find t key with Some _ => true | None => false end.
Proof.
  intros Hw. destruct (Erase_map t key Hw) as (_ & _ & ->).
  rewrite <- Find_map by done. by destruct (Find t key).
Qed.

(** ** Cursor scans *)

Lemma scan_loop_spec bs i count acc :
  exists m, (m <= length bs)%nat /\
    scan_loop bs i count acc = ((i + m)%nat, acc ++ (concat (take m bs)).*1) /\
    (Z.of_nat (length acc) < count -> bs ≠ [] -> (0 < m)%nat).
Proof.
  revert i acc. induction bs as [|b bs IH]; intros i acc; simpl.
  { exists 0%nat. rewrite Nat.add_0_r, app_nil_r. split_and!; [lia|done|done]. }
  destruct (_ <? _) eqn:E; bool_prop.
  - destruct (IH (S i) (acc ++ b.*1)) as (m & ? & -> & _).
    exists (S m). split_and!; [lia| |lia].
    f_equal; [lia|]. simpl. by rewrite fmap_app, app_assoc.
  - exists 0%nat. simpl. rewrite Nat.add_0_r, app_nil_r. split_and!; [lia|done|lia].
Qed.

(** One [Scan] from a bucket [i] returns whole buckets [i .. j-1], with [j > i]. *)
Lemma Scan_spec t i count :
  (i < length (buckets_ t))%nat -> 0 < count ->
  exists j, (i < j <= length (buckets_ t))%nat /\
    Scan t (Z.of_nat i) count =
      (if (length (buckets_ t) <=? j)%nat then 0 else Z.of_nat j,
       (concat (take (j - i) (drop i (buckets_ t)))).*1).
Proof.
  intros Hi Hc. unfold Scan. destruct (buckets_ t) as [|b0 bs0] eqn:E; [simpl in Hi; lia|].
  rewrite <- E in *. destruct (Z.of_nat (length (buckets_ t)) <=? Z.of_nat i) eqn:Hle;
    bool_prop; [lia|].
  rewrite Nat2Z.id.
  destruct (scan_loop_spec (drop i (buckets_ t)) i count []) as (m & Hm & -> & Hpos).
  rewrite length_drop in Hm. exists (i + m)%nat. simpl in Hpos.
  assert (drop i (buckets_ t) ≠ []).
  { intros Hd%(f_equal length). rewrite length_drop in Hd. simpl in Hd. lia. }
  specialize (Hpos Hc ltac:(done)). split; [lia|].
  by replace (i + m - i)%nat with m by lia.
Qed.

(** The client's loop: [SCAN] until the returned cursor is 0. *)
Fixpoint scan_all (fuel : nat) (t : HashTable K V) (cursor count : Z) : option (list K) :=
  match fuel with
  | O => None
  | S fuel =>
      let '(next, ks) := Scan t cursor count in
      if next =? 0 then Some ks
      else (fun r => ks ++ r) <$> scan_all fuel t next count
  end.

Lemma scan_all_from fuel t i count :
  (i < length (buckets_ t))%nat -> 0 < count -> (length (buckets_ t) - i <= fuel)%nat ->
  scan_all fuel t (Z.of_nat i) count = Some (concat (drop i (buckets_ t))).*1.
Proof.
  intros Hi Hc. revert i Hi. induction fuel as [|fuel IH]; intros i Hi Hf; [lia|].
  cbn [scan_all]. destruct (Scan_spec t i count Hi Hc) as (j & Hj & ->).
  assert (drop i (buckets_ t) = take (j - i) (drop i (buckets_ t)) ++ drop j (buckets_ t)) as E.
  { rewrite <- (take_drop (j - i) (drop i (buckets_ t))) at 1.
    rewrite drop_drop. f_equal. f_equal. lia. }
  destruct (_ <=? j)%nat eqn:Hl.
  - apply Nat.leb_le in Hl. simpl. rewrite E at 2.
    rewrite (drop_ge _ j), app_nil_r by lia. done.
  - apply Nat.leb_gt in Hl. destruct (Z.of_nat j =? 0) eqn:?; bool_prop; [lia|].
    rewrite IH by lia. simpl. rewrite E at 2. by rewrite concat_app, fmap_app.
Qed.

(** ** Traces: the class as a client sees it *)

Inductive ht_op :=
| HInsert (k : K) (v : V) | HErase (k : K) | HFind (k : K) | HClear | HResize (n : nat)
| HCopy | HSize.

Inductive ht_res := RFlag (b : bool) | RFound (v : option V) | RSize (n : nat) | RUnit.

Definition run_ht (t : HashTable K V) (o : ht_op) : HashTable K V * ht_res :=
  match o with
  | HInsert k v => let '(t, b) := Insert t k v in (t, RFlag b)
  | HErase k => let '(t, b) := Erase t k in (t, RFlag b)
  | HFind k => (t, RFound (Find t k))
  | HClear => (Clear t, RUnit)
  | HResize n => (Resize t n, RUnit)
  | HCopy => (Copy t, RUnit)
  | HSize => (t, RSize (Size t))
  end.

Fixpoint run_hts (t : HashTable K V) (ops : list ht_op) : HashTable K V * list ht_res :=
  match ops with
  | [] => (t, [])
  | o :: ops => let '(t, r) := run_ht t o in let '(t, rs) := run_hts t ops in (t, r :: rs)
  end.

(** The same operations on a finite map. *)
Definition spec_ht (m : gmap K V) (o : ht_op) : gmap K V * ht_res :=
  match o with
  | HInsert k v => (<[k := v]> m, RFlag (bool_decide (m !! k = None)))
  | HErase k => (delete k m, RFlag (bool_decide (m !! k ≠ None)))
  | HFind k => (m, RFound (m !! k))
  | HClear => (∅, RUnit)
  | HResize _ | HCopy => (m, RUnit)
  | HSize => (m, RSize (size m))
  end.

Fixpoint spec_hts (m : gmap K V) (ops : list ht_op) : gmap K V * list ht_res :=
  match ops with
  | [] => (m, [])
  | o :: ops => let '(m, r) := spec_ht m o in let '(m, rs) := spec_hts m ops in (m, r :: rs)
  end.

Lemma run_ht_sim t o :
  wf t -> wf (run_ht t o).1 /\
  spec_ht (to_map t) o = (to_map (run_ht t o).1, (run_ht t o).2).
Proof.
  intros Hw. destruct o as [k v|k|k| |n| |]; simpl.
  - destruct (Insert_map t k v Hw) as (? & ? & ?). destruct (Insert t k v). simpl in *.
    split; congruence.
  - destruct (Erase_map t k Hw) as (? & ? & ?). destruct (Erase t k). simpl in *.
    split; congruence.
  - by rewrite Find_map.
  - destruct (Clear_map t) as [? ->]. done.
  - destruct (Resize_map t n Hw) as [? ->]. done.
  - destruct (Copy_map t Hw) as [? ->]. done.
  - by rewrite Size_map.
Qed.

Lemma run_hts_sim ops t :
  wf t -> wf (run_hts t ops).1 /\
  spec_hts (to_map t) ops = (to_map (run_hts t ops).1, (run_hts t ops).2).
Proof.
  revert t. induction ops as [|o ops IH]; intros t Hw; [done|]. simpl.
  destruct (run_ht_sim t o Hw) as [Hw' ->]. destruct (run_ht t o) as [t' r]. simpl in *.
  destruct (IH t' Hw') as [Hw'' ->]. by destruct (run_hts t' ops).
Qed.

Lemma nodes_map_to_list t : wf t -> nodes t ≡ₚ map_to_list (to_map t).
Proof. intros Hw. unfold to_map. rewrite map_to_list_to_map; [done|apply Hw]. Qed.

(** C2: a hash table behaves as a finite map.  From the constructor on (any capacity, load
    factor and hash functor), every sequence of Insert, Erase, Find, Clear, Resize, copy and
    Size calls returns what the same calls on a finite map return - the booleans of Insert and
    Erase and the size included - however often the table was rehashed, and the final ForEach
    visits every binding of that map exactly once. *)
Theorem hash_table_refines_map cap mlf ops :
  let t := (run_hts (New cap mlf) ops).1 in
  (run_hts (New cap mlf) ops).2 = (spec_hts ∅ ops).2 /\
  ForEach (fun acc k v => acc ++ [(k, v)]) [] t ≡ₚ map_to_list (spec_hts ∅ ops).1.
Proof.
  intros t. destruct (New_map cap mlf) as [Hw Hm].
  destruct (run_hts_sim ops _ Hw) as [Hw' E]. rewrite Hm in E. rewrite E. split; [done|].
  rewrite ForEach_nodes.
  assert (forall l acc, foldl (fun a (kv : K * V) => a ++ [(kv.1, kv.2)]) acc l = acc ++ l) as ->.
  { induction l as [|[k v] l IH]; intros acc; simpl; [by rewrite app_nil_r|].
    by rewrite IH, <- app_assoc. }
  by apply nodes_map_to_list.
Qed.

(** a cursor scan of a hash table is complete and terminates.  Calling Scan from cursor 0
    with the cursor it returned, until that is 0, takes at most one call per bucket and
    collects every key of the table exactly once, in bucket order, whatever positive count is
    asked for. *)
Theorem scan_all_complete t count :
  wf t -> 0 < count -> (0 < length (buckets_ t))%nat ->
  exists ks, scan_all (length (buckets_ t)) t 0 count = Some ks /\ ks = (nodes t).*1 /\
    NoDup ks /\ forall k, k ∈ ks <-> to_map t !! k <> None.
Proof.
  intros Hw Hc Hl. exists (nodes t).*1. split_and!.
  - change 0 with (Z.of_nat 0). rewrite scan_all_from by lia. by rewrite drop_0.
  - done.
  - apply Hw.
  - intros k. rewrite <- Find_map by done. pose proof (Find_None t k Hw) as HN.
    destruct (Find t k); [|naive_solver].
    split; [done|]. intros _. destruct (decide (k ∈ (nodes t).*1)); [done|]. naive_solver.
Qed.

End HT.
End HT.

(** A table with a colliding hash, grown past its load factor. *)
Definition sample_table : HashTable Z string :=
  (HT.run_hts (fun z => z mod 5) (HT.New 4 HT.f_075)
     (((fun k => HT.HInsert k "v") <$> seqZ 0 9) ++ [HT.HErase 3])).1.

Lemma scan_all_complete_witness :
  exists ks, HT.scan_all (length (buckets_ sample_table)) sample_table 0 2 = Some ks /\
    ks = (HT.nodes sample_table).*1 /\ NoDup ks /\
    forall k, k ∈ ks <-> HT.to_map sample_table !! k <> None.
Proof.
  apply (HT.scan_all_complete (fun z => z mod 5)).
  - apply HT.run_hts_sim. apply HT.New_map.
  - lia.
  - vm_compute. lia.
Defined.
