(* ===== verification/Entry.v ===== *)
(** * The records of include/gatekeeper/storage/entry.h

    One [Record] per struct and one [Inductive] per enum.  A [std::uint64_t]
    field is a [Z]; the operations that compute it write out the wrap-around. *)
From S2P Require Import Prelude.

Inductive DataType := DT_None | DT_String.

Record EntryMetadata := mkMeta {
  m_type : DataType;
  m_created_at_ms : Z;
  m_expire_at_ms : Z;
}.

(** Every record of the store has the same [IsExpired]: a zero deadline never
    expires, otherwise the deadline itself is already expired. *)
Definition IsExpired (expire_at_ms now_ms : Z) : bool :=
  (0 <? expire_at_ms) && (expire_at_ms <=? now_ms).

Record Entry := mkEntry {
  e_key : string;
  e_value : string;
  e_meta : EntryMetadata;
}.
Definition e_expired (e : Entry) (now : Z) : bool := IsExpired (m_expire_at_ms (e_meta e)) now.
Definition set_value (e : Entry) (v : string) : Entry := mkEntry (e_key e) v (e_meta e).
Definition set_expire (e : Entry) (t : Z) : Entry :=
  mkEntry (e_key e) (e_value e) (mkMeta (m_type (e_meta e)) (m_created_at_ms (e_meta e)) t).

Record IncrResult := mkIncr {
  ir_ok : bool;
  ir_value : Z;
  ir_error_code : string;
  ir_error_message : string;
}.

Record RateLimitResult := mkRateLimit {
  rr_ok : bool;
  rr_allowed : bool;
  rr_remaining : Z;
  rr_retry_after_ms : Z;
  rr_error_code : string;
  rr_error_message : string;
}.

Record RateLimitRecord := mkRateRecord {
  rl_key : string;
  rl_current_window_idx : Z;
  rl_current_count : Z;
  rl_previous_count : Z;
  rl_window_ms : Z;
  rl_expire_at_ms : Z;
}.
Definition rl_expired (r : RateLimitRecord) (now : Z) : bool := IsExpired (rl_expire_at_ms r) now.

Record Reservation := mkReservation {
  rs_id : string;
  rs_key : string;
  rs_amount : Z;
  rs_created_at_ms : Z;
  rs_expire_at_ms : Z;
}.
Definition rs_expired (r : Reservation) (now : Z) : bool := IsExpired (rs_expire_at_ms r) now.

Record ReservationResult := mkReserve {
  rv_ok : bool;
  rv_reserved : bool;
  rv_reservation_id : string;
  rv_remaining : Z;
  rv_error_code : string;
  rv_error_message : string;
}.

Record CommitResult := mkCommit {
  cr_ok : bool;
  cr_committed : bool;
  cr_actual_amount : Z;
  cr_refunded : Z;
  cr_remaining : Z;
  cr_error_code : string;
  cr_error_message : string;
}.

Record RollbackResult := mkRollback {
  rb_ok : bool;
  rb_rolled_back : bool;
  rb_refunded : Z;
  rb_remaining : Z;
  rb_error_code : string;
  rb_error_message : string;
}.

Inductive IdempotencyStatus := IS_None | IS_InProgress | IS_Completed | IS_Failed.

Record IdempotencyRecord := mkIdem {
  id_key : string;
  id_request_hash : string;
  id_status : IdempotencyStatus;
  id_response_code : Z;
  id_response_body : string;
  id_owner_token : string;
  id_created_at_ms : Z;
  id_expire_at_ms : Z;
}.
Definition id_expired (r : IdempotencyRecord) (now : Z) : bool := IsExpired (id_expire_at_ms r) now.

Inductive IdempotencyAction := IA_Execute | IA_Park | IA_Replay | IA_Conflict.

Record IdempotencyBeginResult := mkBegin {
  ib_ok : bool;
  ib_action : IdempotencyAction;
  ib_owner_token : string;
  ib_cached_code : Z;
  ib_cached_response : string;
  ib_error_code : string;
  ib_error_message : string;
}.

Record IdempotencyCompleteResult := mkComplete {
  ic_ok : bool;
  ic_completed : bool;
  ic_error_code : string;
  ic_error_message : string;
}.

Record IdempotencyFailResult := mkFail {
  if_ok : bool;
  if_failed : bool;
  if_error_code : string;
  if_error_message : string;
}.

#[export] Instance DataType_eq_dec : EqDecision DataType.
Proof. solve_decision. Defined.
#[export] Instance IdempotencyStatus_eq_dec : EqDecision IdempotencyStatus.
Proof. solve_decision. Defined.
#[export] Instance IdempotencyAction_eq_dec : EqDecision IdempotencyAction.
Proof. solve_decision. Defined.
#[export] Instance EntryMetadata_eq_dec : EqDecision EntryMetadata.
Proof. solve_decision. Defined.
#[export] Instance Entry_eq_dec : EqDecision Entry.
Proof. solve_decision. Defined.

Lemma IsExpired_mono e now now' :
  now <= now' -> IsExpired e now = true -> IsExpired e now' = true.
Proof. unfold IsExpired. intros ? ?. bool_prop. apply andb_true_iff. split; lia. Qed.

Lemma IsExpired_false e now : IsExpired e now = false <-> (0 < e -> now < e).
Proof.
  unfold IsExpired. destruct (0 <? e) eqn:?, (e <=? now) eqn:?; bool_prop; simpl;
    split; intros; (done || lia).
Qed.
