(* ===== verification/Store.v ===== *)
(** * The abstract class [storage::Store] (include/gatekeeper/storage/store.h)

    The virtual methods as a type class over the type of store states.  A
    [const] method may still evict expired records, so every method that can do
    so returns the new state.  The milliseconds that [CurrentTimeMs()] reads are
    the explicit argument [now]. *)
From S2P Require Import Prelude Entry.

Inductive WriteCondition := Always | IfAbsent | IfPresent.
#[export] Instance WriteCondition_eq_dec : EqDecision WriteCondition.
Proof. solve_decision. Defined.

Class Store (S : Type) := {
  Set_ : Z -> S -> string -> string -> WriteCondition -> Z -> S * bool;
  Get : Z -> S -> string -> S * option string;
  Del : S -> string -> S * bool;
  Exists : Z -> S -> string -> S * bool;
  Type_ : Z -> S -> string -> S * DataType;
  DbSize : Z -> S -> Z;
  Keys : Z -> S -> string -> list string;
  Scan : Z -> S -> Z -> Z -> Z * list string;
  Expire : Z -> S -> string -> Z -> S * bool;
  Ttl : Z -> S -> string -> S * Z;
  Pttl : Z -> S -> string -> S * Z;
  Persist : Z -> S -> string -> S * bool;
  PurgeExpired : Z -> S -> Z -> S * Z;
  IncrBy : Z -> S -> string -> Z -> Z -> S * IncrResult;
  RateLimit : Z -> S -> string -> Z -> Z -> Z -> S * RateLimitResult;
  ReserveQuota : Z -> S -> string -> Z -> Z -> S * ReservationResult;
  CommitQuota : Z -> S -> string -> string -> Z -> S * CommitResult;
  RollbackQuota : Z -> S -> string -> string -> S * RollbackResult;
  IdemBegin : Z -> S -> string -> string -> Z -> string -> S * IdempotencyBeginResult;
  IdemComplete : Z -> S -> string -> string -> Z -> string -> S * IdempotencyCompleteResult;
  IdemFail : Z -> S -> string -> string -> string -> S * IdempotencyFailResult;
  IdemGet : Z -> S -> string -> S * option IdempotencyRecord;
}.
