(* ===== verification/Glob.v ===== *)
(** * Glob matching of [KEYS] patterns (memory_store.cpp, [MatchPattern])

    The source walks two indices and remembers the last star ([star_p],
    [match_s]) to backtrack to.  Here an index into a view is the suffix of the
    view that starts there, and [npos] is [None].  [glob] is the reference
    semantics of a pattern: a question mark is any byte, a star any sequence. *)
From S2P Require Import Prelude.

Definition star_c : ascii := "*".
Definition qm_c : ascii := "?".

(** The second loop, [while (p < pattern.size() && pattern[p] == '*') ++p], and
    the final test [p == pattern.size()]. *)
Fixpoint skip_stars (p : string) : bool :=
  match p with
  | "" => true
  | String c p' => if decide (c = star_c) then skip_stars p' else false
  end.

Fixpoint match_loop (fuel : nat) (p s : string) (star : option (string * string)) :
    option bool :=
  match fuel with
  | O => None
  | S fuel =>
      match s with
      | "" => Some (skip_stars p)
      | String c s' =>
          let backtrack :=
            match star with
            | Some (sp, String _ ms') => match_loop fuel sp ms' (Some (sp, ms'))
            | Some (_, "") => Some false
            | None => Some false
            end in
          match p with
          | "" => backtrack
          | String pc p' =>
              if bool_decide (pc = qm_c) || bool_decide (pc = c)
              then match_loop fuel p' s' star
              else if decide (pc = star_c)
              then match_loop fuel p' s (Some (p', s))
              else backtrack
          end
      end
  end.

Definition match_fuel (pattern str : string) : nat :=
  ((String.length str + 2) * (String.length pattern + 1))%nat.

Definition MatchPattern (pattern str : string) : bool :=
  if decide (pattern = "*") then true
  else default false (match_loop (match_fuel pattern str) pattern str None).

(** ** Reference semantics *)

Inductive glob : string -> string -> Prop :=
| glob_nil : glob "" ""
| glob_star_end p s : glob p s -> glob (String star_c p) s
| glob_star_eat p c s : glob (String star_c p) s -> glob (String star_c p) (String c s)
| glob_any p c s : glob p s -> glob (String qm_c p) (String c s)
| glob_char c p s : c <> star_c -> c <> qm_c -> glob p s -> glob (String c p) (String c s).

(** Strings with no literal star byte, and patterns with no star. *)
Fixpoint starless (s : string) : bool :=
  match s with
  | "" => true
  | String c s' => negb (bool_decide (c = star_c)) && starless s'
  end.

Lemma glob_star_iff p s :
  glob (String star_c p) s <-> exists k, glob p (str_drop k s).
Proof.
  split.
  - remember (String star_c p) as pp eqn:E. induction 1; simplify_eq.
    + by exists 0%nat; destruct s.
    + destruct IHglob as [k ?]; [done|]. by exists (S k).
  - intros [k Hk]. revert s Hk. induction k as [|k IH]; intros s Hk.
    + apply glob_star_end. by destruct s.
    + destruct s as [|c s]; [by apply glob_star_end|]. apply glob_star_eat, IH, Hk.
Qed.

Lemma glob_step_inv pc p c s :
  pc <> star_c -> glob (String pc p) (String c s) <-> (pc = qm_c \/ pc = c) /\ glob p s.
Proof.
  intros Hns. split.
  - inversion 1; subst; naive_solver.
  - intros [[->| ->] Hg]; [by constructor|].
    destruct (decide (c = qm_c)) as [->|]; by constructor.
Qed.

Lemma glob_nil_str p : glob p "" <-> skip_stars p = true.
Proof.
  induction p as [|c p IH]; simpl.
  - split; [done|constructor].
  - case_decide; simplify_eq.
    + rewrite <- IH, glob_star_iff. split; [|by exists 0%nat].
      intros [[|k] Hk]; simpl in Hk; done.
    + split; [|done]. inversion 1; by subst.
Qed.

Lemma glob_nil_pat s : glob "" s <-> s = "".
Proof. split; [by inversion 1|intros ->; constructor]. Qed.

(** A star-free prefix of the pattern consumes exactly its length. *)
Lemma glob_starless_app q p u :
  starless q = true -> glob (q +:+ p) u ->
  (String.length q <= String.length u)%nat /\ glob p (str_drop (String.length q) u).
Proof.
  revert u. induction q as [|c q IH]; intros u Hq Hg; simpl in *.
  { split; [lia|]. by destruct u. }
  bool_prop. rewrite str_app_cons in Hg.
  destruct u as [|d u]; [inversion Hg; simplify_eq|].
  apply glob_step_inv in Hg as [_ Hg]; [|done].
  destruct (IH _ ltac:(done) Hg). simpl. split; [lia|done].
Qed.

(** ** The loop *)

(** What the loop still has to decide: the current alignment matches, or a later
    restart of the remembered star does. *)
Definition pending (p s : string) (star : option (string * string)) : Prop :=
  glob p s \/
  match star with
  | None => False
  | Some (sp, ms) => exists k, (0 < k)%nat /\ (k <= String.length ms)%nat /\
                               glob sp (str_drop k ms)
  end.

(** The remembered star: [s] is reached from [ms] by a star-free piece [q]. *)
Definition aligned (p s : string) (star : option (string * string)) : Prop :=
  match star with
  | None => True
  | Some (sp, ms) => exists q, sp = q +:+ p /\ starless q = true /\
      (String.length q <= String.length ms)%nat /\ s = str_drop (String.length q) ms
  end.

Definition loop_measure (m n : nat) (p : string) (star : option (string * string)) : nat :=
  match star with
  | None => (n + 1) * m + String.length p
  | Some (_, ms) => String.length ms * m + String.length p
  end%nat.

Lemma aligned_step pc p c s star :
  pc <> star_c -> aligned (String pc p) (String c s) star -> aligned p s star.
Proof.
  intros Hpc. destruct star as [[sp ms]|]; [|done]. intros (q & -> & Hq & Hl & Hs).
  assert (String.length (q +:+ String pc "") = S (String.length q)) as Hlen.
  { rewrite str_length_app. simpl. lia. }
  exists (q +:+ String pc ""). rewrite Hlen. split_and!.
  - by rewrite str_app_assoc.
  - clear -Hq Hpc. induction q as [|d q IH]; simpl in Hq.
    + simpl. by rewrite bool_decide_eq_false_2.
    + rewrite str_app_cons. simpl. bool_prop. rewrite bool_decide_eq_false_2 by done.
      by apply IH.
  - apply (f_equal String.length) in Hs. rewrite str_drop_length in Hs. simpl in Hs. lia.
  - replace (S (String.length q)) with (String.length q + 1)%nat by lia.
    rewrite <- str_drop_drop, <- Hs. by destruct s.
Qed.

(** A newer star subsumes every restart of the older one. *)
Lemma newer_star p s sp ms k :
  aligned (String star_c p) s (Some (sp, ms)) ->
  glob sp (str_drop k ms) -> glob (String star_c p) s.
Proof.
  intros (q & -> & Hq & Hl & ->) Hg.
  apply glob_starless_app in Hg as [_ Hg]; [|done].
  apply glob_star_iff in Hg as [j Hg]. apply glob_star_iff.
  exists (k + j)%nat. rewrite !str_drop_drop in Hg. rewrite str_drop_drop.
  refine (eq_ind _ (glob p) Hg _ _). f_equal. lia.
Qed.

Lemma pending_end p star : aligned p "" star -> pending p "" star <-> skip_stars p = true.
Proof.
  unfold pending. intros Ha. rewrite <- glob_nil_str. split; [|auto].
  intros [?|Hs]; [done|]. destruct star as [[sp ms]|]; [|done].
  destruct Ha as (q & -> & Hq & Hl & Hs'), Hs as (k & Hk & Hkl & Hg).
  apply glob_starless_app in Hg as [Hlen _]; [|done].
  apply (f_equal String.length) in Hs'.
  rewrite str_drop_length in Hlen, Hs'. simpl in Hs'. lia.
Qed.

(** One restart: the remembered star swallows one more byte. *)
Lemma pending_backtrack p s sp c ms' :
  ~ glob p s ->
  pending p s (Some (sp, String c ms')) <-> pending sp ms' (Some (sp, ms')).
Proof.
  unfold pending. intros Hng. split.
  - intros [?|(k & Hk & Hkl & Hg)]; [done|]. destruct k as [|[|k]]; [lia| |].
    + left. by destruct ms'.
    + right. exists (S k). simpl in *. split_and!; [lia|lia|done].
  - intros [Hg|(k & Hk & Hkl & Hg)]; right.
    + exists 1%nat. simpl. split_and!; [lia|lia|by destruct ms'].
    + exists (S k). simpl. split_and!; [lia|lia|done].
Qed.

Lemma pending_star p s star :
  aligned (String star_c p) s star -> starless s = true ->
  pending (String star_c p) s star <-> pending p s (Some (p, s)).
Proof.
  intros Ha _. unfold pending at 2. split.
  - intros Hp. assert (glob (String star_c p) s) as Hg.
    { destruct Hp as [?|Hp]; [done|]. destruct star as [[sp ms]|]; [|done].
      destruct Hp as (k & _ & _ & Hg). by eapply newer_star. }
    apply glob_star_iff in Hg as [k Hg]. destruct k as [|k]; [left; by destruct s|].
    destruct (decide (S k <= String.length s)%nat) as [Hle|Hle].
    { right. exists (S k). split_and!; [lia|done|done]. }
    destruct s as [|c s]; [by left|]. right. exists (String.length (String c s)).
    assert (forall n t, (String.length t <= n)%nat -> str_drop n t = "") as Hge.
    { intros n t Ht. apply length_zero_nil. rewrite str_drop_length. lia. }
    rewrite Hge in Hg by lia. rewrite Hge by lia.
    split_and!; [simpl; lia|lia|done].
  - intros Hp. left. apply glob_star_iff.
    destruct Hp as [Hg|(k & _ & _ & Hg)]; [exists 0%nat; by destruct s|eauto].
Qed.

Lemma starless_drop n s : starless s = true -> starless (str_drop n s) = true.
Proof.
  revert n. induction s as [|c s IH]; intros [|n] H; simpl in *; try done.
  bool_prop. by apply IH.
Qed.

Lemma starless_tail c s : starless (String c s) = true -> c <> star_c /\ starless s = true.
Proof. simpl. intros H. by bool_prop. Qed.

(** The state of the loop is bounded by the pattern and the string. *)
Definition bounded (m n : nat) (p s : string) (star : option (string * string)) : Prop :=
  (String.length p < m)%nat /\ (String.length s <= n)%nat /\ starless s = true /\
  match star with
  | None => True
  | Some (sp, ms) => (String.length sp < m)%nat /\ (String.length ms <= n)%nat /\
                     (String.length s <= String.length ms)%nat /\ starless ms = true
  end.

Lemma match_loop_spec fuel m n p s star :
  aligned p s star -> bounded m n p s star -> (loop_measure m n p star < fuel)%nat ->
  exists b, match_loop fuel p s star = Some b /\ (b = true <-> pending p s star).
Proof.
  revert p s star. induction fuel as [|fuel IH]; intros p s star Ha Hb Hm; [lia|].
  destruct s as [|c s].
  { exists (skip_stars p). split; [done|]. by rewrite pending_end. }
  destruct Hb as (Hlp & Hls & Hss & Hst). apply starless_tail in Hss as [Hc Hss].
  assert (Hbt : ~ glob p (String c s) -> exists b,
    match star with
    | Some (sp, String _ ms') => match_loop fuel sp ms' (Some (sp, ms'))
    | Some (_, "") => Some false
    | None => Some false
    end = Some b /\ (b = true <-> pending p (String c s) star)).
  { intros Hng. destruct star as [[sp [|d ms]]|].
    - simpl in Hst. lia.
    - destruct Hst as (H1 & H2 & H3 & [_ H4]%starless_tail).
      destruct (IH sp ms (Some (sp, ms))) as (b & -> & Hbp).
      + exists "". simpl. split_and!; [done|done|lia|by destruct ms].
      + simpl in *. split_and!; try done; lia.
      + simpl in *. nia.
      + exists b. split; [done|]. by rewrite pending_backtrack.
    - exists false. split; [done|]. unfold pending. naive_solver. }
  destruct p as [|pc p].
  { apply Hbt. by rewrite glob_nil_pat. }
  cbn [match_loop]. destruct (bool_decide (pc = qm_c) || bool_decide (pc = c)) eqn:E1.
  - assert (pc = qm_c \/ pc = c) as Hmatch.
    { apply orb_true_iff in E1 as [?|?]; bool_prop; auto. }
    assert (pc <> star_c) as Hpc by (destruct Hmatch as [->| ->]; done).
    destruct (IH p s star) as (b & -> & Hbp).
    + by eapply aligned_step.
    + destruct star as [[sp ms]|]; simpl in *; split_and!; try done; try lia; intuition lia.
    + destruct star as [[sp ms]|]; simpl in *; lia.
    + exists b. split; [done|]. rewrite Hbp. unfold pending. rewrite glob_step_inv by done.
      tauto.
  - apply orb_false_iff in E1 as [E1 E2]. bool_prop. case_decide as Hpc.
    + subst pc. assert (starless (String c s) = true) as Hss'.
      { simpl. rewrite Hss, bool_decide_eq_false_2; done. }
      destruct (IH p (String c s) (Some (p, String c s))) as (b & -> & Hbp).
      * exists "". simpl. split_and!; [done|done|lia|done].
      * simpl in Hlp. unfold bounded. split_and!; try done; lia.
      * destruct star as [[sp ms]|]; simpl in *; nia.
      * exists b. split; [done|]. by rewrite Hbp, pending_star.
    + apply Hbt. rewrite glob_step_inv by done. intros [[?|?] _]; done.
Qed.

Lemma MatchPattern_glob pattern str :
  starless str = true -> MatchPattern pattern str = true <-> glob pattern str.
Proof.
  intros Hs. unfold MatchPattern. case_decide as Hp.
  { subst pattern. split; [|done]. intros _. apply glob_star_iff.
    exists (String.length str). apply glob_nil_pat, length_zero_nil.
    rewrite str_drop_length. lia. }
  destruct (match_loop_spec (match_fuel pattern str) (String.length pattern + 1)
              (String.length str) pattern str None) as (b & -> & Hb).
  - done.
  - split_and!; try done; lia.
  - unfold match_fuel, loop_measure. nia.
  - simpl. rewrite Hb. unfold pending. tauto.
Qed.

(** Treating a star of the pattern as a literal only loses matches. *)
Lemma match_loop_sound fuel p s star :
  match_loop fuel p s star = Some true ->
  glob p s \/ exists sp ms, star = Some (sp, ms) /\ glob (String star_c sp) ms.
Proof.
  revert p s star. induction fuel as [|fuel IH]; intros p s star; [done|]. cbn [match_loop].
  destruct s as [|c s].
  { intros [= H]. left. induction p as [|pc p IHp]; [constructor|]. simpl in H.
    case_decide; [|done]. subst. by apply glob_star_end, IHp. }
  set (bt := match star with
             | Some (sp, String _ ms') => match_loop fuel sp ms' (Some (sp, ms'))
             | Some (_, "") => Some false | None => Some false end).
  assert (bt = Some true -> exists sp ms, star = Some (sp, ms) /\ glob (String star_c sp) ms) as Hbt.
  { unfold bt. destruct star as [[sp [|d ms]]|]; [done| |done].
    intros H%IH. exists sp, (String d ms). split; [done|]. apply glob_star_eat.
    destruct H as [?|(sp' & ms' & [= <- <-] & ?)]; [by apply glob_star_end|done]. }
  destruct p as [|pc p]; [intros Hr; right; by apply Hbt|].
  destruct (bool_decide (pc = qm_c) || bool_decide (pc = c)) eqn:E1.
  - intros [H|H]%IH; [left|by right]. apply orb_true_iff in E1 as [->%bool_decide_eq_true|
      ->%bool_decide_eq_true]; [by constructor|].
    destruct (decide (c = star_c)) as [->|]; [by apply glob_star_eat, glob_star_end|].
    destruct (decide (c = qm_c)) as [->|]; by constructor.
  - destruct (decide (pc = star_c)); [|intros Hr; right; by apply Hbt]. subst pc.
    intros [?|(sp' & ms' & [= <- <-] & ?)]%IH; left; [by apply glob_star_end|done].
Qed.

Lemma MatchPattern_sound pattern str : MatchPattern pattern str = true -> glob pattern str.
Proof.
  unfold MatchPattern. case_decide as Hp.
  { intros _. subst. apply glob_star_iff. exists (String.length str).
    rewrite (length_zero_nil (str_drop _ _)); [constructor|]. rewrite str_drop_length. lia. }
  destruct (match_loop _ _ _ _) as [[]|] eqn:E; try done.
  intros _. apply match_loop_sound in E as [?|(? & ? & ? & _)]; done.
Qed.

(** C36: the KEYS pattern matcher decides glob matching.  What the backtracking loop accepts
    always matches the pattern in the reference semantics (question mark = one byte, star =
    any sequence), and on every key that contains no literal star byte it accepts exactly the
    matching keys; the loop needs at most (|key| + 2) * (|pattern| + 1) rounds. *)
Theorem MatchPattern_decides_glob pattern str :
  (MatchPattern pattern str = true -> glob pattern str) /\
  (starless str = true ->
   (MatchPattern pattern str = true <-> glob pattern str) /\
   match_loop (match_fuel pattern str) pattern str None <> None).
Proof.
  split; [apply MatchPattern_sound|]. intros Hs. split; [by apply MatchPattern_glob|].
  destruct (match_loop_spec (match_fuel pattern str) (String.length pattern + 1)
              (String.length str) pattern str None) as (b & -> & _); [done|..|done].
  - split_and!; try done; lia.
  - unfold match_fuel, loop_measure. nia.
Qed.

Lemma MatchPattern_decides_glob_witness :
  MatchPattern "u?er:*:t*" "user:17:tokens" = true /\ glob "u?er:*:t*" "user:17:tokens".
Proof.
  split; [reflexivity|].
  apply (proj1 (MatchPattern_decides_glob "u?er:*:t*" "user:17:tokens")). reflexivity.
Defined.

(** the literal test runs before the star test, so a key that contains a star byte can
    be missed: pattern a* does not match the key a*b, which it matches in the reference
    semantics. *)
Theorem MatchPattern_misses_literal_star :
  MatchPattern "a*" "a*b" = false /\ glob "a*" "a*b" /\ MatchPattern "a*" "axb" = true.
Proof.
  split_and!; [reflexivity| |reflexivity].
  apply glob_char; [done..|]. apply glob_star_iff. exists 2%nat. constructor.
Qed.
