(* ===== verification/MemoryStore.v ===== *)
(** * The in-memory store (memory_store.h, memory_store.cpp)

    A store is an array of 64 shards, each with four hash tables, and two
    sequence counters.  A method hashes its key with FNV-1a to a shard, takes
    that shard's mutex, reads the clock and runs its body; the model runs the
    body ([..._body], on the shard) atomically under [on_shard].  The methods
    that visit every shard ([DbSize], [Keys], [Scan], [PurgeExpired]) do so in
    shard order.

    [std_hash] is [std::hash<std::string>], which the C++ standard leaves to the
    implementation. *)
From S2P Require Import Prelude CStd HashTable Entry Store Glob.

Definition kNumShards : nat := 64.

Record StorageShard := mkShard {
  entries : HashTable string Entry;
  rate_limits : HashTable string RateLimitRecord;
  reservations : HashTable string Reservation;
  idempotency_records : HashTable string IdempotencyRecord;
}.

Record MemoryStore := mkStore {
  shards_ : list StorageShard;
  next_reservation_seq_ : Z;
  next_idempotency_seq_ : Z;
}.

Definition set_entries (sh : StorageShard) (t : HashTable string Entry) : StorageShard :=
  mkShard t (rate_limits sh) (reservations sh) (idempotency_records sh).
Definition set_rate_limits (sh : StorageShard) (t : HashTable string RateLimitRecord) :
    StorageShard :=
  mkShard (entries sh) t (reservations sh) (idempotency_records sh).
Definition set_reservations (sh : StorageShard) (t : HashTable string Reservation) :
    StorageShard :=
  mkShard (entries sh) (rate_limits sh) t (idempotency_records sh).
Definition set_idempotency (sh : StorageShard) (t : HashTable string IdempotencyRecord) :
    StorageShard :=
  mkShard (entries sh) (rate_limits sh) (reservations sh) t.

Definition empty_shard : StorageShard :=
  mkShard (HT.New 16 HT.f_075) (HT.New 16 HT.f_075) (HT.New 16 HT.f_075) (HT.New 16 HT.f_075).

Definition init_store : MemoryStore := mkStore (replicate kNumShards empty_shard) 1 1.

(** ** Shard selection: 64-bit FNV-1a, low six bits *)

Fixpoint fnv1a (hash : Z) (key : string) : Z :=
  match key with
  | "" => hash
  | String c key' => fnv1a (u64 (Z.lxor hash (Z_of_byte c) * 1099511628211)) key'
  end.

Definition GetShard (key : string) : nat :=
  Z.to_nat (Z.land (fnv1a 14695981039346656037 key) (Z.of_nat kNumShards - 1)).

Definition shard_at (st : MemoryStore) (i : nat) : StorageShard :=
  default empty_shard (shards_ st !! i).
Definition put_shard (st : MemoryStore) (i : nat) (sh : StorageShard) : MemoryStore :=
  mkStore (<[i := sh]> (shards_ st)) (next_reservation_seq_ st) (next_idempotency_seq_ st).

Definition on_shard {A : Type} (st : MemoryStore) (key : string)
    (body : StorageShard -> StorageShard * A) : MemoryStore * A :=
  let i := GetShard key in
  let '(sh, r) := body (shard_at st i) in (put_shard st i sh, r).

Section MemoryStore.
Variable std_hash : string -> Z.

(** ** Key-value operations *)

(** The lookup most methods start with: an expired entry is erased and counts as
    absent. *)
Definition find_live (now : Z) (sh : StorageShard) (key : string) : StorageShard * option Entry :=
  match HT.Find std_hash (entries sh) key with
  | None => (sh, None)
  | Some e =>
      if e_expired e now
      then (set_entries sh (HT.Erase std_hash (entries sh) key).1, None)
      else (sh, Some e)
  end.

Definition deadline (now ttl_ms : Z) : Z := if 0 <? ttl_ms then u64 (now + ttl_ms) else 0.

Definition Set_body (now : Z) (key value : string) (condition : WriteCondition) (ttl_ms : Z)
    (sh : StorageShard) : StorageShard * bool :=
  let '(sh, existing) := find_live now sh key in
  match condition, existing with
  | IfAbsent, Some _ => (sh, false)
  | IfPresent, None => (sh, false)
  | _, _ =>
      let expire_at := deadline now ttl_ms in
      match existing with
      | None =>
          let entry := mkEntry key value (mkMeta DT_String now expire_at) in
          (set_entries sh (HT.Insert std_hash (entries sh) key entry).1, true)
      | Some e =>
          let entry := mkEntry (e_key e) value
                         (mkMeta DT_String (m_created_at_ms (e_meta e)) expire_at) in
          (set_entries sh (HT.Assign std_hash (entries sh) key entry), true)
      end
  end.

Definition Get_body (now : Z) (key : string) (sh : StorageShard) : StorageShard * option string :=
  let '(sh, existing) := find_live now sh key in (sh, e_value <$> existing).

Definition Del_body (key : string) (sh : StorageShard) : StorageShard * bool :=
  let '(t, erased) := HT.Erase std_hash (entries sh) key in (set_entries sh t, erased).

Definition Exists_body (now : Z) (key : string) (sh : StorageShard) : StorageShard * bool :=
  let '(sh, existing) := find_live now sh key in
  (sh, match existing with Some _ => true | None => false end).

Definition Type_body (now : Z) (key : string) (sh : StorageShard) : StorageShard * DataType :=
  let '(sh, existing) := find_live now sh key in
  (sh, match existing with Some e => m_type (e_meta e) | None => DT_None end).

Definition Expire_body (now : Z) (key : string) (ttl_ms : Z) (sh : StorageShard) :
    StorageShard * bool :=
  let '(sh, existing) := find_live now sh key in
  match existing with
  | None => (sh, false)
  | Some e =>
      if ttl_ms =? 0
      then (set_entries sh (HT.Erase std_hash (entries sh) key).1, true)
      else (set_entries sh (HT.Assign std_hash (entries sh) key
                              (set_expire e (u64 (now + ttl_ms)))), true)
  end.

Definition Ttl_body (now : Z) (key : string) (sh : StorageShard) : StorageShard * Z :=
  let '(sh, existing) := find_live now sh key in
  (sh, match existing with
       | None => -2
       | Some e =>
           let expire_at := m_expire_at_ms (e_meta e) in
           if expire_at =? 0 then -1
           else i64 (u64 (u64 (expire_at - now) + 999) / 1000)
       end).

Definition Pttl_body (now : Z) (key : string) (sh : StorageShard) : StorageShard * Z :=
  let '(sh, existing) := find_live now sh key in
  (sh, match existing with
       | None => -2
       | Some e =>
           let expire_at := m_expire_at_ms (e_meta e) in
           if expire_at =? 0 then -1 else i64 (u64 (expire_at - now))
       end).

Definition Persist_body (now : Z) (key : string) (sh : StorageShard) : StorageShard * bool :=
  let '(sh, existing) := find_live now sh key in
  match existing with
  | None => (sh, false)
  | Some e =>
      if m_expire_at_ms (e_meta e) =? 0 then (sh, false)
      else (set_entries sh (HT.Assign std_hash (entries sh) key (set_expire e 0)), true)
  end.

Definition IncrBy_body (now : Z) (key : string) (delta init_ttl_ms : Z) (sh : StorageShard) :
    StorageShard * IncrResult :=
  let '(sh, existing) := find_live now sh key in
  match existing with
  | None =>
      let entry := mkEntry key (to_string delta)
                     (mkMeta DT_String now (deadline now init_ttl_ms)) in
      (set_entries sh (HT.Insert std_hash (entries sh) key entry).1, mkIncr true delta "" "")
  | Some e =>
      if bool_decide (m_type (e_meta e) <> DT_String)
      then (sh, mkIncr false 0 "WRONGTYPE" "Operation against a key holding the wrong kind of value")
      else
        let not_an_integer :=
          mkIncr false 0 "ERR_NOT_AN_INTEGER" "value is not an integer or out of range" in
        match stoll (e_value e) with
        | None => (sh, not_an_integer)
        | Some (current_val, idx) =>
            if negb (idx =? String.length (e_value e))%nat then (sh, not_an_integer)
            else if ((0 <? delta) && (2 ^ 63 - 1 - delta <? current_val)) ||
                    ((delta <? 0) && (current_val <? - 2 ^ 63 - delta))
            then (sh, mkIncr false 0 "ERR_OVERFLOW" "increment or decrement would overflow")
            else
              let current_val := current_val + delta in
              (set_entries sh (HT.Assign std_hash (entries sh) key
                                 (set_value e (to_string current_val))),
               mkIncr true current_val "" "")
        end
  end.

(** ** Rate limiting *)

Definition fresh_window (r : RateLimitRecord) (idx prev window_ms : Z) : RateLimitRecord :=
  mkRateRecord (rl_key r) idx 0 prev window_ms (u64 (u64 (idx + 2) * window_ms)).

(** The record the request is checked against: created, reset or rolled over to
    the current window. *)
Definition roll_window (now window_ms : Z) (r : RateLimitRecord) : RateLimitRecord :=
  let current_idx := now / window_ms in
  if rl_expired r now then fresh_window r current_idx 0 window_ms
  else if negb (rl_window_ms r =? window_ms) then fresh_window r current_idx 0 window_ms
  else
    let diff := u64 (current_idx - rl_current_window_idx r) in
    if diff =? 1 then fresh_window r current_idx (rl_current_count r) (rl_window_ms r)
    else if 1 <? diff then fresh_window r current_idx 0 (rl_window_ms r)
    else r.

(** [static_cast<std::uint64_t>(previous_count * weight_prev)] *)
Definition weighted_previous (previous_count elapsed_in_window window_ms : Z) : Z :=
  let weight_prev :=
    dsub (double_of_Z 1) (ddiv (double_of_Z elapsed_in_window) (double_of_Z window_ms)) in
  trunc_u64 (dmul (double_of_Z previous_count) weight_prev).

Definition estimated_count (now window_ms : Z) (r : RateLimitRecord) : Z :=
  u64 (weighted_previous (rl_previous_count r) (now mod window_ms) window_ms
       + rl_current_count r).

Definition admit_cost (r : RateLimitRecord) (cost : Z) : RateLimitRecord :=
  mkRateRecord (rl_key r) (rl_current_window_idx r) (u64 (rl_current_count r + cost))
    (rl_previous_count r) (rl_window_ms r) (rl_expire_at_ms r).

Definition RateLimit_body (now : Z) (key : string) (limit window_ms cost : Z)
    (sh : StorageShard) : StorageShard * RateLimitResult :=
  let current_idx := now / window_ms in
  let '(t, record) :=
    match HT.Find std_hash (rate_limits sh) key with
    | Some r =>
        let r' := roll_window now window_ms r in
        (HT.Assign std_hash (rate_limits sh) key r', r')
    | None =>
        let r' := mkRateRecord key current_idx 0 0 window_ms
                    (u64 (u64 (current_idx + 2) * window_ms)) in
        ((HT.Insert std_hash (rate_limits sh) key r').1, r')
    end in
  let estimated := estimated_count now window_ms record in
  if u64 (estimated + cost) <=? limit then
    (set_rate_limits sh (HT.Assign std_hash t key (admit_cost record cost)),
     mkRateLimit true true (limit - u64 (estimated + cost)) 0 "" "")
  else
    let remaining := if estimated <=? limit then limit - estimated else 0 in
    let retry_after := u64 (window_ms - now mod window_ms) in
    (set_rate_limits sh t,
     mkRateLimit true false remaining (if retry_after =? 0 then 1 else retry_after) "" "").

Definition RateLimit_ (now : Z) (st : MemoryStore) (key : string) (limit window_ms cost : Z) :
    MemoryStore * RateLimitResult :=
  if limit =? 0 then
    (st, mkRateLimit false false 0 0 "INVALID_ARGUMENTS" "limit must be greater than zero")
  else if window_ms =? 0 then
    (st, mkRateLimit false false 0 0 "INVALID_ARGUMENTS" "window_ms must be greater than zero")
  else
    let cost := if cost =? 0 then 1 else cost in
    on_shard st key (RateLimit_body now key limit window_ms cost).

(** ** Two-phase quota reservation *)

Definition reserve_fail (ok : bool) (remaining : Z) (code message : string) : ReservationResult :=
  mkReserve ok false "" remaining code message.

Definition reservation_id (now seq : Z) : string :=
  "res_" +:+ to_string now +:+ "_" +:+ to_string seq.

(** The body of [ReserveQuota]; the boolean says whether the sequence counter
    was advanced. *)
Definition Reserve_body (now seq : Z) (key : string) (amount ttl_ms : Z) (sh : StorageShard) :
    StorageShard * (bool * ReservationResult) :=
  let '(sh, existing) := find_live now sh key in
  match existing with
  | None => (sh, (false, reserve_fail true 0 "INSUFFICIENT_QUOTA" "quota key does not exist"))
  | Some e =>
      let not_an_integer :=
        reserve_fail false 0 "ERR_NOT_AN_INTEGER" "quota balance is not an integer" in
      match stoull (e_value e) with
      | None => (sh, (false, not_an_integer))
      | Some (balance, idx) =>
          if negb (idx =? String.length (e_value e))%nat then (sh, (false, not_an_integer))
          else if balance <? amount then
            (sh, (false, reserve_fail true balance "INSUFFICIENT_QUOTA" "insufficient quota balance"))
          else
            let balance := balance - amount in
            let sh := set_entries sh (HT.Assign std_hash (entries sh) key
                                        (set_value e (to_string balance))) in
            let res_id := reservation_id now seq in
            let res := mkReservation res_id key amount now (u64 (now + ttl_ms)) in
            (set_reservations sh (HT.Insert std_hash (reservations sh) res_id res).1,
             (true, mkReserve true true res_id balance "" ""))
      end
  end.

Definition ReserveQuota_ (now : Z) (st : MemoryStore) (key : string) (amount ttl_ms : Z) :
    MemoryStore * ReservationResult :=
  if amount =? 0 then
    (st, reserve_fail false 0 "INVALID_ARGUMENTS" "amount must be greater than zero")
  else if ttl_ms =? 0 then
    (st, reserve_fail false 0 "INVALID_ARGUMENTS" "ttl_ms must be greater than zero")
  else
    let '(st', (advanced, r)) :=
      on_shard st key (Reserve_body now (next_reservation_seq_ st) key amount ttl_ms) in
    (mkStore (shards_ st')
       (if advanced : bool then u64 (next_reservation_seq_ st' + 1) else next_reservation_seq_ st')
       (next_idempotency_seq_ st'), r).

(** [try { b = stoull(value); b += amount; value = to_string(b) }
     catch (...) { value = to_string(amount) }] *)
Definition credit (e : Entry) (amount : Z) : Entry :=
  set_value e (match stoull (e_value e) with
               | Some (b, _) => to_string (u64 (b + amount))
               | None => to_string amount
               end).

(** [try { balance = stoull(value) } catch (...) { balance = 0 }] *)
Definition read_balance (target : option Entry) : Z :=
  match target with
  | Some e => match stoull (e_value e) with Some (b, _) => b | None => 0 end
  | None => 0
  end.

Definition write_balance (now : Z) (key : string) (target : option Entry) (balance : Z)
    (sh : StorageShard) : StorageShard :=
  match target with
  | Some e => set_entries sh (HT.Assign std_hash (entries sh) key
                                (set_value e (to_string balance)))
  | None =>
      let entry := mkEntry key (to_string balance) (mkMeta DT_String now 0) in
      set_entries sh (HT.Insert std_hash (entries sh) key entry).1
  end.

Definition Commit_body (now : Z) (key reservation_id : string) (actual_amount : Z)
    (sh : StorageShard) : StorageShard * CommitResult :=
  match HT.Find std_hash (reservations sh) reservation_id with
  | None => (sh, mkCommit false false 0 0 0 "RESERVATION_NOT_FOUND"
                   "reservation not found or key mismatch")
  | Some res =>
      if negb (bool_decide (rs_key res = key)) then
        (sh, mkCommit false false 0 0 0 "RESERVATION_NOT_FOUND"
               "reservation not found or key mismatch")
      else if rs_expired res now then
        let sh :=
          match HT.Find std_hash (entries sh) (rs_key res) with
          | Some target => set_entries sh (HT.Assign std_hash (entries sh) (rs_key res)
                                             (credit target (rs_amount res)))
          | None => sh
          end in
        (set_reservations sh (HT.Erase std_hash (reservations sh) reservation_id).1,
         mkCommit false false 0 0 0 "RESERVATION_EXPIRED"
           "reservation expired and was automatically rolled back")
      else
        let reserved_amount := rs_amount res in
        let key_str := rs_key res in
        let sh := set_reservations sh (HT.Erase std_hash (reservations sh) reservation_id).1 in
        let target := HT.Find std_hash (entries sh) key_str in
        let balance := read_balance target in
        let '(refunded, balance) :=
          if actual_amount <=? reserved_amount
          then let refunded := reserved_amount - actual_amount in
               (refunded, u64 (balance + refunded))
          else let extra := actual_amount - reserved_amount in
               (0, if extra <=? balance then balance - extra else 0) in
        (write_balance now key_str target balance sh,
         mkCommit true true actual_amount refunded balance "" "")
  end.

Definition Rollback_body (now : Z) (key reservation_id : string) (sh : StorageShard) :
    StorageShard * RollbackResult :=
  match HT.Find std_hash (reservations sh) reservation_id with
  | None => (sh, mkRollback false false 0 0 "RESERVATION_NOT_FOUND"
                   "reservation not found or key mismatch")
  | Some res =>
      if negb (bool_decide (rs_key res = key)) then
        (sh, mkRollback false false 0 0 "RESERVATION_NOT_FOUND"
               "reservation not found or key mismatch")
      else
        let refund_amount := rs_amount res in
        let key_str := rs_key res in
        let was_expired := rs_expired res now in
        let sh := set_reservations sh (HT.Erase std_hash (reservations sh) reservation_id).1 in
        let target := HT.Find std_hash (entries sh) key_str in
        let balance := read_balance target in
        if was_expired then (sh, mkRollback true true refund_amount balance "" "")
        else
          let balance := u64 (balance + refund_amount) in
          (write_balance now key_str target balance sh,
           mkRollback true true refund_amount balance "" "")
  end.

(** ** Idempotency records *)

Definition idem_token (now seq : Z) : string :=
  "idem_" +:+ to_string now +:+ "_" +:+ to_string seq.

Definition find_live_idem (now : Z) (sh : StorageShard) (key : string) :
    StorageShard * option IdempotencyRecord :=
  match HT.Find std_hash (idempotency_records sh) key with
  | None => (sh, None)
  | Some r =>
      if id_expired r now
      then (set_idempotency sh (HT.Erase std_hash (idempotency_records sh) key).1, None)
      else (sh, Some r)
  end.

(** The body of [IdemBegin]; the boolean says whether a token was generated, that
    is, whether the sequence counter was advanced. *)
Definition Begin_body (now seq : Z) (key request_hash : string) (ttl_ms : Z)
    (owner_token : string) (sh : StorageShard) :
    StorageShard * (bool * IdempotencyBeginResult) :=
  let '(sh, record) := find_live_idem now sh key in
  let token := if is_nil owner_token then idem_token now seq else owner_token in
  match record with
  | None =>
      let rec := mkIdem key request_hash IS_InProgress 0 "" token now (deadline now ttl_ms) in
      (set_idempotency sh (HT.Insert std_hash (idempotency_records sh) key rec).1,
       (is_nil owner_token, mkBegin true IA_Execute token 0 "" "" ""))
  | Some r =>
      if negb (bool_decide (id_request_hash r = request_hash)) then
        (sh, (false, mkBegin false IA_Conflict "" 0 "" "ERR_IDEMPOTENCY_CONFLICT"
                       "Request hash mismatch for idempotency key"))
      else
        match id_status r with
        | IS_InProgress =>
            if negb (is_nil owner_token) && bool_decide (id_owner_token r = owner_token)
            then (sh, (false, mkBegin true IA_Execute (id_owner_token r) 0 "" "" ""))
            else (sh, (false, mkBegin true IA_Park (id_owner_token r) 0 "" "" ""))
        | IS_Completed =>
            (sh, (false, mkBegin true IA_Replay (id_owner_token r) (id_response_code r)
                           (id_response_body r) "" ""))
        | IS_Failed =>
            let rec := mkIdem (id_key r) (id_request_hash r) IS_InProgress 0 "" token now
                         (deadline now ttl_ms) in
            (set_idempotency sh (HT.Assign std_hash (idempotency_records sh) key rec),
             (is_nil owner_token, mkBegin true IA_Execute token 0 "" "" ""))
        | IS_None =>
            (sh, (false, mkBegin false IA_Conflict "" 0 "" "ERR_UNKNOWN_STATUS"
                           "Unknown idempotency status"))
        end
  end.

Definition IdemBegin_ (now : Z) (st : MemoryStore) (key request_hash : string) (ttl_ms : Z)
    (owner_token : string) : MemoryStore * IdempotencyBeginResult :=
  let '(st', (advanced, r)) :=
    on_shard st key
      (Begin_body now (next_idempotency_seq_ st) key request_hash ttl_ms owner_token) in
  (mkStore (shards_ st') (next_reservation_seq_ st')
     (if advanced : bool then u64 (next_idempotency_seq_ st' + 1) else next_idempotency_seq_ st'),
   r).

(** The guards [IdemComplete] and [IdemFail] share: the record, or the error. *)
Definition owned_record (now : Z) (sh : StorageShard) (key owner_token : string) :
    StorageShard * (IdempotencyRecord + string * string) :=
  match HT.Find std_hash (idempotency_records sh) key with
  | None => (sh, inr ("ERR_NOT_FOUND", "Idempotency record not found"))
  | Some r =>
      if id_expired r now then
        (set_idempotency sh (HT.Erase std_hash (idempotency_records sh) key).1,
         inr ("ERR_EXPIRED", "Idempotency record has expired"))
      else if negb (is_nil owner_token) && negb (bool_decide (id_owner_token r = owner_token)) then
        (sh, inr ("ERR_TOKEN_MISMATCH", "Owner token mismatch"))
      else (sh, inl r)
  end.

Definition Complete_body (now : Z) (key owner_token : string) (response_code : Z)
    (response_body : string) (sh : StorageShard) : StorageShard * IdempotencyCompleteResult :=
  match owned_record now sh key owner_token with
  | (sh, inr (code, message)) => (sh, mkComplete false false code message)
  | (sh, inl r) =>
      if bool_decide (id_status r = IS_Completed) then (sh, mkComplete true true "" "")
      else
        let rec := mkIdem (id_key r) (id_request_hash r) IS_Completed response_code response_body
                     (id_owner_token r) (id_created_at_ms r) (id_expire_at_ms r) in
        (set_idempotency sh (HT.Assign std_hash (idempotency_records sh) key rec),
         mkComplete true true "" "")
  end.

Definition Fail_body (now : Z) (key owner_token error_message : string) (sh : StorageShard) :
    StorageShard * IdempotencyFailResult :=
  match owned_record now sh key owner_token with
  | (sh, inr (code, message)) => (sh, mkFail false false code message)
  | (sh, inl r) =>
      let rec := mkIdem (id_key r) (id_request_hash r) IS_Failed (id_response_code r)
                   error_message (id_owner_token r) (id_created_at_ms r) (id_expire_at_ms r) in
      (set_idempotency sh (HT.Assign std_hash (idempotency_records sh) key rec),
       mkFail true true "" "")
  end.

Definition IdemGet_body (now : Z) (key : string) (sh : StorageShard) :
    StorageShard * option IdempotencyRecord :=
  find_live_idem now sh key.

(** ** Operations over all shards *)

Definition DbSize_ (now : Z) (st : MemoryStore) : Z :=
  foldl (fun count sh =>
    HT.ForEach (fun count _ e => if negb (e_expired e now) then count + 1 else count)
      count (entries sh)) 0 (shards_ st).

Definition Keys_ (now : Z) (st : MemoryStore) (pattern : string) : list string :=
  foldl (fun matched sh =>
    HT.ForEach (fun matched key e =>
      if negb (e_expired e now) && MatchPattern pattern key then matched ++ [key] else matched)
      matched (entries sh)) [] (shards_ st).

(** The keys of a table scan that are still live. *)
Definition live_keys (now : Z) (sh : StorageShard) (keys : list string) : list string :=
  List.filter (fun key => match HT.Find std_hash (entries sh) key with
                          | Some e => negb (e_expired e now)
                          | None => false
                          end) keys.

(** The [while] loop of [Scan] over the shards from [shard_idx] on; it returns
    the shard index and bucket cursor it stops at. *)
Fixpoint scan_shards (now : Z) (shards : list StorageShard) (shard_idx : nat)
    (bucket_cursor count : Z) (result : list string) : nat * Z * list string :=
  match shards with
  | [] => (shard_idx, bucket_cursor, result)
  | sh :: shards' =>
      if Z.of_nat (length result) <? count then
        let '(next_bucket_cursor, keys) :=
          HT.Scan (entries sh) bucket_cursor (count - Z.of_nat (length result)) in
        let result := result ++ live_keys now sh keys in
        if next_bucket_cursor =? 0
        then scan_shards now shards' (S shard_idx) 0 count result
        else (shard_idx, next_bucket_cursor, result)
      else (shard_idx, bucket_cursor, result)
  end.

Definition Scan_ (now : Z) (st : MemoryStore) (cursor count : Z) : Z * list string :=
  let count := if count =? 0 then 10 else count in
  let shard_idx := Z.shiftr cursor 32 in
  let bucket_cursor := Z.land cursor 4294967295 in
  if Z.of_nat kNumShards <=? shard_idx then (0, [])
  else
    let i := Z.to_nat shard_idx in
    let '(j, bucket_cursor, result) :=
      scan_shards now (drop i (shards_ st)) i bucket_cursor count [] in
    let next_cursor :=
      if (j <? kNumShards)%nat
      then u64 (Z.lor (Z.shiftl (Z.of_nat j) 32) (Z.land bucket_cursor 4294967295)) else 0 in
    (next_cursor, result).

(** Keys of a table, in [ForEach] order, that satisfy [p]; at most [limit]. *)
Definition collect {V} (limit : Z) (p : V -> bool) (t : HashTable string V) : list string :=
  HT.ForEach (fun acc k v =>
    if (Z.of_nat (length acc) <? limit) && p v then acc ++ [k] else acc) [] t.

Definition erase_keys {V} (t : HashTable string V) (keys : list string) : HashTable string V :=
  foldl (fun t k => (HT.Erase std_hash t k).1) t keys.

(** The automatic rollback of one expired reservation. *)
Definition purge_reservation (now : Z) (sh : StorageShard) (id : string) : StorageShard :=
  match HT.Find std_hash (reservations sh) id with
  | None => sh
  | Some res =>
      let sh' :=
        match HT.Find std_hash (entries sh) (rs_key res) with
        | Some target => set_entries sh (HT.Assign std_hash (entries sh) (rs_key res)
                                           (credit target (rs_amount res)))
        | None =>
            let entry := mkEntry (rs_key res) (to_string (rs_amount res))
                           (mkMeta DT_String now 0) in
            set_entries sh (HT.Insert std_hash (entries sh) (rs_key res) entry).1
        end in
      set_reservations sh' (HT.Erase std_hash (reservations sh') id).1
  end.

Definition Purge_body (now sample_limit : Z) (sh : StorageShard) : StorageShard * Z :=
  let expired_keys := collect sample_limit (fun e => e_expired e now) (entries sh) in
  let sh := set_entries sh (erase_keys (entries sh) expired_keys) in
  let expired_reservations :=
    collect sample_limit (fun r => rs_expired r now) (reservations sh) in
  let sh := foldl (purge_reservation now) sh expired_reservations in
  let expired_idempotencies :=
    collect sample_limit (fun r => id_expired r now) (idempotency_records sh) in
  let sh := set_idempotency sh (erase_keys (idempotency_records sh) expired_idempotencies) in
  let expired_rate_limits :=
    collect sample_limit (fun r => rl_expired r now) (rate_limits sh) in
  let sh := set_rate_limits sh (erase_keys (rate_limits sh) expired_rate_limits) in
  (sh, Z.of_nat (length expired_keys) + Z.of_nat (length expired_reservations) +
       Z.of_nat (length expired_idempotencies) + Z.of_nat (length expired_rate_limits)).

Definition PurgeExpired_ (now : Z) (st : MemoryStore) (sample_limit : Z) : MemoryStore * Z :=
  let rs := Purge_body now sample_limit <$> shards_ st in
  (mkStore rs.*1 (next_reservation_seq_ st) (next_idempotency_seq_ st), foldl Z.add 0 rs.*2).

(** [MemoryStore final : public Store] *)
#[export] Instance memory_store : Store MemoryStore := {|
  Set_ now st key value cond ttl := on_shard st key (Set_body now key value cond ttl);
  Get now st key := on_shard st key (Get_body now key);
  Del st key := on_shard st key (Del_body key);
  Exists now st key := on_shard st key (Exists_body now key);
  Type_ now st key := on_shard st key (Type_body now key);
  DbSize := DbSize_;
  Keys := Keys_;
  Scan := Scan_;
  Expire now st key ttl := on_shard st key (Expire_body now key ttl);
  Ttl now st key := on_shard st key (Ttl_body now key);
  Pttl now st key := on_shard st key (Pttl_body now key);
  Persist now st key := on_shard st key (Persist_body now key);
  PurgeExpired := PurgeExpired_;
  IncrBy now st key delta ttl := on_shard st key (IncrBy_body now key delta ttl);
  RateLimit := RateLimit_;
  ReserveQuota := ReserveQuota_;
  CommitQuota now st key id actual := on_shard st key (Commit_body now key id actual);
  RollbackQuota now st key id := on_shard st key (Rollback_body now key id);
  IdemBegin := IdemBegin_;
  IdemComplete now st key token code body :=
    on_shard st key (Complete_body now key token code body);
  IdemFail now st key token msg := on_shard st key (Fail_body now key token msg);
  IdemGet now st key := on_shard st key (IdemGet_body now key);
|}.

End MemoryStore.
