(* ===== verification/StoreWf.v ===== *)
(** * The store's invariant and the lifting of key-local operations

    Every table of every shard is a well-formed hash table, and every record
    sits in the shard its key hashes to.  An operation that touches one cell of
    one table is described by what it does to that cell ([local_op]); the lifting
    lemma says what it does to the whole store. *)
From S2P Require Import Prelude CStd HashTable Entry Store MemoryStore.

Lemma GetShard_lt key : (GetShard key < kNumShards)%nat.
Proof.
  unfold GetShard, kNumShards. change (Z.of_nat 64 - 1) with (Z.ones 6).
  rewrite Z.land_ones by lia. pose proof (Z.mod_pos_bound (fnv1a 14695981039346656037 key) (2 ^ 6)).
  lia.
Qed.

(** ** One table of a shard *)

Record Lens (V : Type) := mkLens {
  lget : StorageShard -> HashTable string V;
  lset : StorageShard -> HashTable string V -> StorageShard;
  ltag : nat;
}.
Arguments lget {V} _ _.
Arguments lset {V} _ _ _.
Arguments ltag {V} _.

Definition entriesL : Lens Entry := mkLens _ entries set_entries 0.
Definition ratesL : Lens RateLimitRecord := mkLens _ rate_limits set_rate_limits 1.
Definition resL : Lens Reservation := mkLens _ reservations set_reservations 2.
Definition idemL : Lens IdempotencyRecord := mkLens _ idempotency_records set_idempotency 3.

Section StoreWf.
Context (std_hash : string -> Z).

(** The keys of a table are those of shard [i]. *)
Definition homed {V} (i : nat) (t : HashTable string V) : Prop :=
  forall k v, HT.Find std_hash t k = Some v -> GetShard k = i.

Record wf_shard (i : nat) (sh : StorageShard) : Prop := mk_wf_shard {
  wf_entries : HT.wf std_hash (entries sh);
  wf_rates : HT.wf std_hash (rate_limits sh);
  wf_res : HT.wf std_hash (reservations sh);
  wf_idem : HT.wf std_hash (idempotency_records sh);
  home_entries : homed i (entries sh);
  home_rates : homed i (rate_limits sh);
  home_res : forall id r, HT.Find std_hash (reservations sh) id = Some r ->
               rs_id r = id /\ GetShard (rs_key r) = i;
  home_idem : homed i (idempotency_records sh);
}.

Record wf_store (st : MemoryStore) : Prop := mk_wf_store {
  wf_shard_count : length (shards_ st) = kNumShards;
  wf_shards : forall i sh, shards_ st !! i = Some sh -> wf_shard i sh;
}.

(** The three tables whose keys are the request keys. *)
Inductive keyed : forall {V : Type}, Lens V -> Prop :=
| keyed_entries : keyed entriesL
| keyed_rates : keyed ratesL
| keyed_idem : keyed idemL.

Definition cell {V} (L : Lens V) (st : MemoryStore) (k : string) : option V :=
  HT.Find std_hash (lget L (shard_at st (GetShard k))) k.
Abbreviation entry_at := (cell entriesL).
Abbreviation rate_at := (cell ratesL).
Abbreviation idem_at := (cell idemL).

(** ** Shards of a store *)

Lemma shard_at_lookup st i :
  wf_store st -> (i < kNumShards)%nat -> shards_ st !! i = Some (shard_at st i).
Proof.
  intros [Hl _] Hi. unfold shard_at.
  destruct (lookup_lt_is_Some_2 (shards_ st) i) as [sh ->]; [lia|done].
Qed.

Lemma wf_shard_at st i : wf_store st -> (i < kNumShards)%nat -> wf_shard i (shard_at st i).
Proof. intros Hw Hi. apply (wf_shards _ Hw). by apply shard_at_lookup. Qed.

Lemma shard_at_put st i sh j :
  wf_store st -> (i < kNumShards)%nat ->
  shard_at (put_shard st i sh) j = if decide (j = i) then sh else shard_at st j.
Proof.
  intros [Hl _] Hi. unfold shard_at, put_shard. simpl. case_decide as Hij.
  - subst j. rewrite list_lookup_insert_eq by lia. done.
  - by rewrite list_lookup_insert_ne.
Qed.

Lemma wf_put_shard st i sh :
  wf_store st -> wf_shard i sh -> wf_store (put_shard st i sh).
Proof.
  intros [Hl Hs] Hsh. split; unfold put_shard; simpl.
  - by rewrite length_insert.
  - intros j sh' Hj. apply list_lookup_insert_Some in Hj.
    destruct Hj as [(-> & -> & _)|[_ Hj]]; eauto.
Qed.

Lemma New_none {V} k : HT.Find std_hash (HT.New 16 HT.f_075 : HashTable string V) k = None.
Proof.
  rewrite (HT.Find_map std_hash) by apply (HT.New_map std_hash).
  destruct (HT.New_map (V := V) std_hash 16 HT.f_075) as [_ ->]. apply lookup_empty.
Qed.

Lemma wf_empty_shard i : wf_shard i empty_shard.
Proof.
  assert (forall V, HT.wf std_hash (HT.New 16 HT.f_075 : HashTable string V)) as Hwf.
  { intros V. apply (HT.New_map std_hash). }
  split; simpl; try apply Hwf; intros ? ?; rewrite New_none; done.
Qed.

Lemma wf_init_store : wf_store init_store.
Proof.
  split; [done|]. intros i sh [-> _]%lookup_replicate. apply wf_empty_shard.
Qed.

Lemma shard_at_init i : shard_at init_store i = empty_shard.
Proof.
  unfold shard_at, init_store. cbn [shards_]. generalize kNumShards. intros n.
  destruct (replicate n empty_shard !! i) eqn:E; [|done].
  by apply lookup_replicate in E as [-> _].
Qed.

Lemma init_cell {V} (L : Lens V) k : keyed L -> cell L init_store k = None.
Proof. intros HL. unfold cell. rewrite shard_at_init. destruct HL; apply New_none. Qed.

(** ** Key-local operations *)

(** On a shard whose cell of [k] is [a], [body] answers [res.2], leaves [res.1] in
    that cell and touches nothing else. *)
Definition local_at {V A} (L : Lens V) (k : string) (a : option V)
    (body : StorageShard -> StorageShard * A) (res : option V * A) : Prop :=
  forall sh, HT.wf std_hash (lget L sh) -> HT.Find std_hash (lget L sh) k = a ->
  exists t', body sh = (lset L sh t', res.2) /\ HT.wf std_hash t' /\
    forall k', HT.Find std_hash t' k' =
               if decide (k' = k) then res.1 else HT.Find std_hash (lget L sh) k'.

(** [body] works on the cell of [k]; [f] is what it does to it. *)
Definition local_op {V A} (L : Lens V) (k : string)
    (body : StorageShard -> StorageShard * A) (f : option V -> option V * A) : Prop :=
  forall a, local_at L k a body (f a).

Lemma lget_lset {V} (L : Lens V) sh t : keyed L -> lget L (lset L sh t) = t.
Proof. by destruct 1. Qed.
Lemma lset_lget {V} (L : Lens V) sh : keyed L -> lset L sh (lget L sh) = sh.
Proof. by destruct 1, sh. Qed.
Lemma lset_lset {V} (L : Lens V) sh t t' : keyed L -> lset L (lset L sh t) t' = lset L sh t'.
Proof. by destruct 1. Qed.
Lemma lwf_get {V} (L : Lens V) i sh : keyed L -> wf_shard i sh -> HT.wf std_hash (lget L sh).
Proof. by destruct 1, 1. Qed.
Lemma lhomed_get {V} (L : Lens V) i sh : keyed L -> wf_shard i sh -> homed i (lget L sh).
Proof. by destruct 1, 1. Qed.
Lemma lwf_set {V} (L : Lens V) i sh t :
  keyed L -> wf_shard i sh -> HT.wf std_hash t -> homed i t -> wf_shard i (lset L sh t).
Proof. by destruct 1; destruct 1; intros; split. Qed.

Lemma lget_lset_other {V W} (L : Lens V) (M : Lens W) sh t :
  keyed L -> keyed M -> (ltag M <> ltag L) -> lget M (lset L sh t) = lget M sh.
Proof. destruct 1, 1; done. Qed.

(** What a key-local operation does to the store. *)
Lemma local_op_store {V A} (L : Lens V) k body (f : option V -> option V * A) st :
  keyed L -> local_op L k body f -> wf_store st ->
  let '(st', r) := on_shard st k body in
  wf_store st' /\ r = (f (cell L st k)).2 /\
  (forall k', cell L st' k' = if decide (k' = k) then (f (cell L st k)).1 else cell L st k') /\
  (exists t', st' = put_shard st (GetShard k) (lset L (shard_at st (GetShard k)) t')).
Proof.
  intros HL Hop Hw. pose proof (GetShard_lt k) as Hk.
  pose proof (wf_shard_at st _ Hw Hk) as Hsh.
  destruct (Hop (cell L st k) (shard_at st (GetShard k))) as (t' & Hb & Hwt & Hf);
    [by eapply lwf_get|done|].
  unfold on_shard. rewrite Hb. split_and!; [|done| |eauto].
  - apply wf_put_shard; [done|]. apply lwf_set; [done..|].
    intros k' v. rewrite Hf. case_decide; [by subst|]. by apply (lhomed_get L).
  - intros k'. unfold cell at 1. rewrite shard_at_put by done.
    destruct (decide (GetShard k' = GetShard k)) as [E|E].
    + rewrite lget_lset, Hf by done. case_decide; [done|]. unfold cell. by rewrite E.
    + rewrite decide_False; [done|]. by intros ->.
Qed.

(** The other tables do not move. *)
Lemma put_lset_other {V W} (L : Lens V) (M : Lens W) st k t k' :
  keyed L -> keyed M -> (ltag M <> ltag L) -> wf_store st ->
  cell M (put_shard st (GetShard k) (lset L (shard_at st (GetShard k)) t)) k' = cell M st k'.
Proof.
  intros HL HM Hne Hw. unfold cell. rewrite shard_at_put by (done || apply GetShard_lt).
  case_decide as E; [|done]. rewrite lget_lset_other by done. by rewrite E.
Qed.

(** *** Composition of cell operations *)

Lemma local_ret {V A} (L : Lens V) k a (r : A) :
  keyed L -> local_at L k a (fun sh => (sh, r)) (a, r).
Proof.
  intros HL sh Hw Ha. exists (lget L sh). rewrite lset_lget by done. split_and!; [done..|].
  intros k'. by case_decide; subst.
Qed.

Lemma local_bind {V A B} (L : Lens V) k a c (r : A) (b1 : StorageShard -> StorageShard * A)
    (b2 : A -> StorageShard -> StorageShard * B) res :
  keyed L -> local_at L k a b1 (c, r) -> local_at L k c (b2 r) res ->
  local_at L k a (fun sh => let '(sh, x) := b1 sh in b2 x sh) res.
Proof.
  intros HL H1 H2 sh Hw Ha. destruct (H1 sh Hw Ha) as (t1 & -> & Hw1 & Hf1).
  destruct (H2 (lset L sh t1)) as (t2 & Hb2 & Hw2 & Hf2); rewrite ?lget_lset by done; [done| |].
  { by rewrite Hf1, decide_True. }
  rewrite lget_lset in Hf2 by done. rewrite lset_lset in Hb2 by done.
  exists t2. simpl. rewrite Hb2. split_and!; [done..|].
  intros k'. rewrite Hf2. case_decide; [done|]. by rewrite Hf1, decide_False.
Qed.

Lemma local_assign {V A} (L : Lens V) k w v (r : A) :
  local_at L k (Some w) (fun sh => (lset L sh (HT.Assign std_hash (lget L sh) k v), r)) (Some v, r).
Proof.
  intros sh Hw Ha. exists (HT.Assign std_hash (lget L sh) k v).
  split_and!; [done|by eapply HT.Assign_map|]. intros k'. by eapply HT.Find_Assign.
Qed.

Lemma local_insert {V A} (L : Lens V) k a v (r : A) :
  local_at L k a (fun sh => (lset L sh (HT.Insert std_hash (lget L sh) k v).1, r)) (Some v, r).
Proof.
  intros sh Hw Ha. exists (HT.Insert std_hash (lget L sh) k v).1.
  split_and!; [done|by apply HT.Insert_map|]. intros k'. by apply HT.Find_Insert.
Qed.

Lemma local_erase {V A} (L : Lens V) k a (r : A) :
  local_at L k a (fun sh => (lset L sh (HT.Erase std_hash (lget L sh) k).1, r)) (None, r).
Proof.
  intros sh Hw Ha. exists (HT.Erase std_hash (lget L sh) k).1.
  split_and!; [done|by apply HT.Erase_map|]. intros k'. by apply HT.Find_Erase.
Qed.

(** A body that starts with a lookup of the cell. *)
Lemma local_find {V A} (L : Lens V) k a
    (body : option V -> StorageShard -> StorageShard * A) res :
  local_at L k a (body a) res ->
  local_at L k a (fun sh => body (HT.Find std_hash (lget L sh) k) sh) res.
Proof. intros H sh Hw Ha. rewrite Ha. by apply H. Qed.

End StoreWf.

#[export] Hint Constructors keyed : gk.
#[export] Hint Resolve local_ret local_assign local_insert local_erase : gk.
