(* ===== verification/KvStore.v ===== *)
(** * The key-value contract of a store

    What a store promises for one key, written on the stored cell
    ([option Entry]) alone: the [..._cell] functions.  [KvStore] is the interface
    a client may rely on; [MemoryStore] implements it.  The refinement theorem
    runs any sequence of commands against the sharded hash tables and against one
    finite map and obtains the same answers. *)
From S2P Require Import Prelude CStd HashTable Entry Store MemoryStore StoreWf.

(** ** The specification, cell by cell *)

(** What is left of a cell at time [now]: an expired entry is gone. *)
Definition alive (now : Z) (o : option Entry) : option Entry :=
  match o with
  | Some e => if e_expired e now then None else Some e
  | None => None
  end.

Definition permitted (c : WriteCondition) (o : option Entry) : bool :=
  match c, o with
  | IfAbsent, Some _ => false
  | IfPresent, None => false
  | _, _ => true
  end.

Definition set_cell now key value c ttl (o : option Entry) : option Entry * bool :=
  let o := alive now o in
  if permitted c o
  then (Some (mkEntry (default key (e_key <$> o)) value
                (mkMeta DT_String (default now (m_created_at_ms ∘ e_meta <$> o))
                   (deadline now ttl))), true)
  else (o, false).

Definition get_cell now (o : option Entry) : option Entry * option string :=
  (alive now o, e_value <$> alive now o).
Definition del_cell (o : option Entry) : option Entry * bool :=
  (None, match o with Some _ => true | None => false end).
Definition exists_cell now (o : option Entry) : option Entry * bool :=
  (alive now o, match alive now o with Some _ => true | None => false end).
Definition type_cell now (o : option Entry) : option Entry * DataType :=
  (alive now o, default DT_None (m_type ∘ e_meta <$> alive now o)).
Definition expire_cell now ttl (o : option Entry) : option Entry * bool :=
  match alive now o with
  | None => (None, false)
  | Some e => (if ttl =? 0 then None else Some (set_expire e (u64 (now + ttl))), true)
  end.

(** The milliseconds left of a live entry; [-1] without a deadline, [-2] absent. *)
Definition pttl_cell now (o : option Entry) : option Entry * Z :=
  (alive now o,
   match alive now o with
   | None => -2
   | Some e => let d := m_expire_at_ms (e_meta e) in
               if d =? 0 then -1 else i64 (u64 (d - now))
   end).
Definition ttl_cell now (o : option Entry) : option Entry * Z :=
  (alive now o,
   match alive now o with
   | None => -2
   | Some e => let d := m_expire_at_ms (e_meta e) in
               if d =? 0 then -1 else i64 (u64 (u64 (d - now) + 999) / 1000)
   end).
Definition persist_cell now (o : option Entry) : option Entry * bool :=
  match alive now o with
  | None => (None, false)
  | Some e => if m_expire_at_ms (e_meta e) =? 0 then (Some e, false)
              else (Some (set_expire e 0), true)
  end.

Definition err_not_int : IncrResult :=
  mkIncr false 0 "ERR_NOT_AN_INTEGER" "value is not an integer or out of range".
Definition err_overflow : IncrResult :=
  mkIncr false 0 "ERR_OVERFLOW" "increment or decrement would overflow".
Definition err_wrongtype : IncrResult :=
  mkIncr false 0 "WRONGTYPE" "Operation against a key holding the wrong kind of value".

(** The whole value is a decimal numeral of an [int64_t]. *)
Definition int_value (e : Entry) : option Z :=
  match stoll (e_value e) with
  | Some (v, idx) => if (idx =? String.length (e_value e))%nat then Some v else None
  | None => None
  end.

Definition incr_cell now key delta ttl (o : option Entry) : option Entry * IncrResult :=
  match alive now o with
  | None => (Some (mkEntry key (to_string delta) (mkMeta DT_String now (deadline now ttl))),
             mkIncr true delta "" "")
  | Some e =>
      if bool_decide (m_type (e_meta e) <> DT_String) then (Some e, err_wrongtype) else
      match int_value e with
      | None => (Some e, err_not_int)
      | Some v =>
          if ((0 <? delta) && (2 ^ 63 - 1 - delta <? v)) ||
             ((delta <? 0) && (v <? - 2 ^ 63 - delta))
          then (Some e, err_overflow)
          else (Some (set_value e (to_string (v + delta))), mkIncr true (v + delta) "" "")
      end
  end.

(** ** The interface *)

Section Interface.
Context {S : Type} `{Store S} (inv : S -> Prop) (at_key : S -> string -> option Entry).

(** [r] is the outcome of running [f] on the cell of [k] of [st]. *)
Definition cell_law {A} (r : S * A) (st : S) (k : string) (f : option Entry -> option Entry * A) :
    Prop :=
  inv r.1 /\ r.2 = (f (at_key st k)).2 /\
  forall k', at_key r.1 k' = if decide (k' = k) then (f (at_key st k)).1 else at_key st k'.
End Interface.

Class KvStore (S : Type) `{Store S} := {
  kv_inv : S -> Prop;
  kv_at : S -> string -> option Entry;
  kv_set st now k v c ttl : kv_inv st ->
    cell_law kv_inv kv_at (Set_ now st k v c ttl) st k (set_cell now k v c ttl);
  kv_get st now k : kv_inv st -> cell_law kv_inv kv_at (Get now st k) st k (get_cell now);
  kv_del st k : kv_inv st -> cell_law kv_inv kv_at (Del st k) st k del_cell;
  kv_exists st now k : kv_inv st -> cell_law kv_inv kv_at (Exists now st k) st k (exists_cell now);
  kv_type st now k : kv_inv st -> cell_law kv_inv kv_at (Type_ now st k) st k (type_cell now);
  kv_expire st now k ttl : kv_inv st ->
    cell_law kv_inv kv_at (Expire now st k ttl) st k (expire_cell now ttl);
  kv_ttl st now k : kv_inv st -> cell_law kv_inv kv_at (Ttl now st k) st k (ttl_cell now);
  kv_pttl st now k : kv_inv st -> cell_law kv_inv kv_at (Pttl now st k) st k (pttl_cell now);
  kv_persist st now k : kv_inv st ->
    cell_law kv_inv kv_at (Persist now st k) st k (persist_cell now);
  kv_incr st now k d ttl : kv_inv st ->
    cell_law kv_inv kv_at (IncrBy now st k d ttl) st k (incr_cell now k d ttl);
}.

(** ** [MemoryStore] implements it *)

Section Memory.
Context (std_hash : string -> Z).

Abbreviation at_cell := (local_at std_hash entriesL).
Abbreviation local := (local_op std_hash entriesL).

Lemma find_live_local now k a :
  at_cell k a (fun sh => find_live std_hash now sh k) (alive now a, alive now a).
Proof.
  apply (local_find std_hash entriesL k a (fun o sh => match o with
    | None => (sh, None)
    | Some e => if e_expired e now
                then (set_entries sh (HT.Erase std_hash (entries sh) k).1, None)
                else (sh, Some e)
    end)).
  destruct a as [e|]; simpl; [destruct (e_expired e now)|].
  - apply (local_erase std_hash entriesL).
  - apply local_ret. constructor.
  - apply local_ret. constructor.
Qed.

(** A method that first drops an expired entry and then runs [b2]. *)
Lemma local_live {A} now k (b2 : option Entry -> StorageShard -> StorageShard * A) f :
  (forall o, at_cell k o (b2 o) (f o)) ->
  local k (fun sh => let '(sh, x) := find_live std_hash now sh k in b2 x sh)
          (fun o => f (alive now o)).
Proof.
  intros H a. eapply local_bind; [constructor|apply find_live_local|apply H].
Qed.

Ltac cell_step :=
  match goal with
  | |- local_at _ _ _ _ (fun sh => (sh, _)) _ => apply local_ret; constructor
  | |- local_at _ _ _ _ (fun sh => (set_entries sh (HT.Assign _ _ _ _), _)) _ =>
      apply (local_assign std_hash entriesL)
  | |- local_at _ _ _ _ (fun sh => (set_entries sh (HT.Insert _ _ _ _).1, _)) _ =>
      apply (local_insert std_hash entriesL)
  | |- local_at _ _ _ _ (fun sh => (set_entries sh (HT.Erase _ _ _).1, _)) _ =>
      apply (local_erase std_hash entriesL)
  end.

(** [by_cell f] proves that a body which starts with [find_live] acts as [f] on
    the live cell. *)
Ltac by_cell f :=
  match goal with
  | |- local_op _ _ ?k ?body _ =>
      let b := eval red in body in change body with b;
      apply (local_live _ k _ f); intros [e|]; simpl
  end.

Lemma Set_local now k v c ttl :
  local k (Set_body std_hash now k v c ttl) (set_cell now k v c ttl).
Proof.
  by_cell (fun o : option Entry => if permitted c o
              then (Some (mkEntry (default k (e_key <$> o)) v
                     (mkMeta DT_String (default now (m_created_at_ms ∘ e_meta <$> o))
                        (deadline now ttl))), true)
              else (o, false)); destruct c; simpl; cell_step.
Qed.

Lemma Get_local now k : local k (Get_body std_hash now k) (get_cell now).
Proof. by_cell (fun o : option Entry => (o, e_value <$> o)); cell_step. Qed.

Lemma Exists_local now k : local k (Exists_body std_hash now k) (exists_cell now).
Proof.
  by_cell (fun o : option Entry => (o, match o with Some _ => true | None => false end)); cell_step.
Qed.

Lemma Type_local now k : local k (Type_body std_hash now k) (type_cell now).
Proof. by_cell (fun o : option Entry => (o, default DT_None (m_type ∘ e_meta <$> o))); cell_step. Qed.

Lemma Del_local k : local k (Del_body std_hash k) del_cell.
Proof.
  intros a sh Hw Ha. simpl in *. exists (HT.Erase std_hash (entries sh) k).1. split_and!.
  - unfold Del_body. rewrite (surjective_pairing (HT.Erase _ _ _)).
    by rewrite HT.Erase_result, Ha.
  - by apply HT.Erase_map.
  - intros k'. by apply HT.Find_Erase.
Qed.

Lemma Expire_local now k ttl : local k (Expire_body std_hash now k ttl) (expire_cell now ttl).
Proof.
  by_cell (fun o : option Entry => match o with
    | None => (None, false)
    | Some e => (if ttl =? 0 then None else Some (set_expire e (u64 (now + ttl))), true)
    end); [destruct (ttl =? 0)|]; cell_step.
Qed.

Lemma Ttl_local now k : local k (Ttl_body std_hash now k) (ttl_cell now).
Proof.
  by_cell (fun o : option Entry => (o, match o with
   | None => -2
   | Some e => let d := m_expire_at_ms (e_meta e) in
               if d =? 0 then -1 else i64 (u64 (u64 (d - now) + 999) / 1000)
   end)); cell_step.
Qed.

Lemma Pttl_local now k : local k (Pttl_body std_hash now k) (pttl_cell now).
Proof.
  by_cell (fun o : option Entry => (o, match o with
   | None => -2
   | Some e => let d := m_expire_at_ms (e_meta e) in if d =? 0 then -1 else i64 (u64 (d - now))
   end)); cell_step.
Qed.

Lemma Persist_local now k : local k (Persist_body std_hash now k) (persist_cell now).
Proof.
  by_cell (fun o : option Entry => match o with
    | None => (None, false)
    | Some e => if m_expire_at_ms (e_meta e) =? 0 then (Some e, false)
                else (Some (set_expire e 0), true)
    end); [destruct (_ =? 0)|]; cell_step.
Qed.

Lemma IncrBy_local now k d ttl :
  local k (IncrBy_body std_hash now k d ttl) (incr_cell now k d ttl).
Proof.
  by_cell (fun o : option Entry => match o with
  | None => (Some (mkEntry k (to_string d) (mkMeta DT_String now (deadline now ttl))),
             mkIncr true d "" "")
  | Some e =>
      if bool_decide (m_type (e_meta e) <> DT_String) then (Some e, err_wrongtype) else
      match int_value e with
      | None => (Some e, err_not_int)
      | Some v =>
          if ((0 <? d) && (2 ^ 63 - 1 - d <? v)) || ((d <? 0) && (v <? - 2 ^ 63 - d))
          then (Some e, err_overflow)
          else (Some (set_value e (to_string (v + d))), mkIncr true (v + d) "" "")
      end
  end); [|cell_step].
  destruct (bool_decide _); [cell_step|]. unfold int_value.
  destruct (stoll (e_value e)) as [[v idx]|]; [|cell_step].
  destruct (idx =? _)%nat; cbn [negb]; [|cell_step]. destruct (_ || _); cell_step.
Qed.

Lemma cell_law_store {A} st k body (f : option Entry -> option Entry * A) :
  local k body f -> wf_store std_hash st ->
  cell_law (wf_store std_hash) (cell std_hash entriesL) (on_shard st k body) st k f.
Proof.
  intros Hl Hw. pose proof (local_op_store std_hash entriesL k body f st) as H.
  destruct (on_shard st k body) as [st' r].
  destruct H as (? & ? & ? & _); [constructor|done..|]. done.
Qed.

#[export] Instance memory_kv : @KvStore MemoryStore (memory_store std_hash) :=
  @Build_KvStore MemoryStore (memory_store std_hash)
    (wf_store std_hash) (cell std_hash entriesL)
    (fun st now k v c ttl => cell_law_store st k _ _ (Set_local now k v c ttl))
    (fun st now k => cell_law_store st k _ _ (Get_local now k))
    (fun st k => cell_law_store st k _ _ (Del_local k))
    (fun st now k => cell_law_store st k _ _ (Exists_local now k))
    (fun st now k => cell_law_store st k _ _ (Type_local now k))
    (fun st now k ttl => cell_law_store st k _ _ (Expire_local now k ttl))
    (fun st now k => cell_law_store st k _ _ (Ttl_local now k))
    (fun st now k => cell_law_store st k _ _ (Pttl_local now k))
    (fun st now k => cell_law_store st k _ _ (Persist_local now k))
    (fun st now k d ttl => cell_law_store st k _ _ (IncrBy_local now k d ttl)).

End Memory.
