(* ===== verification/KvTrace.v ===== *)
(** * Key-value commands: traces, expiry and counters

    Client-side theorems about any store that implements [KvStore], and their
    instances for [MemoryStore]. *)
From S2P Require Import Prelude CStd HashTable Entry Store MemoryStore StoreWf KvStore.

(** ** Traces *)

Inductive kv_op :=
| OSet (now : Z) (k v : string) (c : WriteCondition) (ttl : Z)
| OGet (now : Z) (k : string)
| ODel (k : string)
| OExists (now : Z) (k : string)
| OType (now : Z) (k : string)
| OExpire (now : Z) (k : string) (ttl : Z)
| OTtl (now : Z) (k : string)
| OPttl (now : Z) (k : string)
| OPersist (now : Z) (k : string)
| OIncr (now : Z) (k : string) (delta ttl : Z).

Inductive kv_res :=
| RBool (b : bool) | RValue (v : option string) | RType (t : DataType)
| RNum (z : Z) | RIncr (r : IncrResult).

Definition tag {S A} (c : A -> kv_res) (r : S * A) : S * kv_res := (r.1, c r.2).

Section Trace.
Context {S : Type} `{Store S}.

Definition run_op (st : S) (o : kv_op) : S * kv_res :=
  match o with
  | OSet now k v c ttl => tag RBool (Set_ now st k v c ttl)
  | OGet now k => tag RValue (Get now st k)
  | ODel k => tag RBool (Del st k)
  | OExists now k => tag RBool (Exists now st k)
  | OType now k => tag RType (Type_ now st k)
  | OExpire now k ttl => tag RBool (Expire now st k ttl)
  | OTtl now k => tag RNum (Ttl now st k)
  | OPttl now k => tag RNum (Pttl now st k)
  | OPersist now k => tag RBool (Persist now st k)
  | OIncr now k d ttl => tag RIncr (IncrBy now st k d ttl)
  end.

Fixpoint run_ops (st : S) (ops : list kv_op) : S * list kv_res :=
  match ops with
  | [] => (st, [])
  | o :: ops =>
      let '(st, r) := run_op st o in let '(st, rs) := run_ops st ops in (st, r :: rs)
  end.
End Trace.

(** The specification machine: one finite map from keys to entries. *)
Definition on_map {A} (m : gmap string Entry) (k : string)
    (f : option Entry -> option Entry * A) : gmap string Entry * A :=
  (partial_alter (fun o => (f o).1) k m, (f (m !! k)).2).

Definition spec_op (m : gmap string Entry) (o : kv_op) : gmap string Entry * kv_res :=
  match o with
  | OSet now k v c ttl => tag RBool (on_map m k (set_cell now k v c ttl))
  | OGet now k => tag RValue (on_map m k (get_cell now))
  | ODel k => tag RBool (on_map m k del_cell)
  | OExists now k => tag RBool (on_map m k (exists_cell now))
  | OType now k => tag RType (on_map m k (type_cell now))
  | OExpire now k ttl => tag RBool (on_map m k (expire_cell now ttl))
  | OTtl now k => tag RNum (on_map m k (ttl_cell now))
  | OPttl now k => tag RNum (on_map m k (pttl_cell now))
  | OPersist now k => tag RBool (on_map m k (persist_cell now))
  | OIncr now k d ttl => tag RIncr (on_map m k (incr_cell now k d ttl))
  end.

Fixpoint spec_ops (m : gmap string Entry) (ops : list kv_op) :
    gmap string Entry * list kv_res :=
  match ops with
  | [] => (m, [])
  | o :: ops =>
      let '(m, r) := spec_op m o in let '(m, rs) := spec_ops m ops in (m, r :: rs)
  end.

Section Client.
Context {S : Type} `{KvStore S}.

Definition simulates (st : S) (m : gmap string Entry) : Prop :=
  kv_inv st /\ forall k, kv_at st k = m !! k.

Lemma on_map_sim {A} (r : S * A) st m k f :
  cell_law kv_inv kv_at r st k f -> simulates st m ->
  simulates r.1 (on_map m k f).1 /\ r.2 = (on_map m k f).2.
Proof.
  intros (Hi & Hr & Hk) [_ Hm]. unfold on_map. simpl. rewrite <- Hm. split; [|done].
  split; [done|]. intros k'. rewrite Hk. case_decide as E.
  - subst. by rewrite lookup_partial_alter_eq, Hm.
  - by rewrite lookup_partial_alter_ne.
Qed.

Lemma tag_sim {A} (c : A -> kv_res) (r : S * A) st m k f :
  cell_law kv_inv kv_at r st k f -> simulates st m ->
  simulates (tag c r).1 (tag c (on_map m k f)).1 /\ (tag c r).2 = (tag c (on_map m k f)).2.
Proof.
  intros Hl Hs. destruct (on_map_sim r st m k f Hl Hs) as [? E]. split; [done|].
  simpl. f_equal. apply E.
Qed.

Lemma run_op_sim st m o :
  simulates st m ->
  simulates (run_op st o).1 (spec_op m o).1 /\ (run_op st o).2 = (spec_op m o).2.
Proof.
  intros Hs. pose proof (proj1 Hs).
  destruct o; cbn [run_op spec_op]; (eapply tag_sim; [|done]);
    by auto using kv_set, kv_get, kv_del, kv_exists, kv_type, kv_expire, kv_ttl, kv_pttl,
      kv_persist, kv_incr.
Qed.

Lemma run_ops_sim ops st m :
  simulates st m ->
  simulates (run_ops st ops).1 (spec_ops m ops).1 /\ (run_ops st ops).2 = (spec_ops m ops).2.
Proof.
  revert st m. induction ops as [|o ops IH]; intros st m Hs; [done|]. simpl.
  destruct (run_op_sim st m o Hs) as [Hs' Hr].
  destruct (run_op st o) as [st' r], (spec_op m o) as [m' r']. simpl in *. subst r'.
  destruct (IH st' m' Hs') as [Hs'' Hrs].
  destruct (run_ops st' ops), (spec_ops m' ops). simpl in *. by subst.
Qed.

(** What one operation returns, and what it leaves for a later operation. *)
Lemma get_result st now k :
  kv_inv st -> (Get now st k).2 = e_value <$> alive now (kv_at st k).
Proof. intros Hi. by destruct (kv_get st now k Hi) as (_ & -> & _). Qed.
Lemma pttl_result st now k :
  kv_inv st -> (Pttl now st k).2 = (pttl_cell now (kv_at st k)).2.
Proof. intros Hi. by destruct (kv_pttl st now k Hi) as (_ & -> & _). Qed.
Lemma ttl_result st now k :
  kv_inv st -> (Ttl now st k).2 = (ttl_cell now (kv_at st k)).2.
Proof. intros Hi. by destruct (kv_ttl st now k Hi) as (_ & -> & _). Qed.

Lemma alive_alive now now' o : now <= now' -> alive now' (alive now o) = alive now' o.
Proof.
  intros Hle. destruct o as [e|]; simpl; [|done].
  destruct (e_expired e now) eqn:E; [|done].
  unfold e_expired in *. by rewrite (IsExpired_mono _ now now') by done.
Qed.

Lemma deadline_expired now ttl now' :
  0 <= now -> 0 <= ttl -> now + ttl < 2 ^ 64 ->
  IsExpired (deadline now ttl) now' = (0 <? ttl) && (now + ttl <=? now').
Proof.
  intros. unfold deadline, IsExpired. destruct (0 <? ttl) eqn:E; bool_prop; [|done].
  rewrite u64_id by lia. destruct (0 <? now + ttl) eqn:?; bool_prop; [done|lia].
Qed.

Lemma set_always_cell now k v ttl (o : option Entry) :
  exists e, set_cell now k v Always ttl o = (Some e, true) /\
    e_value e = v /\ m_expire_at_ms (e_meta e) = deadline now ttl /\ m_type (e_meta e) = DT_String.
Proof. unfold set_cell. simpl. eauto. Qed.

Lemma set_get st now now' k v ttl k' :
  kv_inv st -> 0 <= now -> 0 <= ttl -> now + ttl < 2 ^ 64 -> now <= now' ->
  let r := Set_ now st k v Always ttl in
  r.2 = true /\
  (Get now' r.1 k').2 =
    if decide (k' = k)
    then if (0 <? ttl) && (now + ttl <=? now') then None else Some v
    else (Get now' st k').2.
Proof.
  intros Hi Hn Ht Hw Hle. cbv zeta.
  destruct (kv_set st now k v Always ttl Hi) as (Hi' & Hr & Hk).
  destruct (set_always_cell now k v ttl (kv_at st k)) as (e & He & Hv & Hd & _).
  rewrite He in *. split; [done|]. rewrite get_result, Hk by done. case_decide as E.
  - simpl. unfold e_expired. rewrite Hd, deadline_expired by done.
    destruct ((0 <? ttl) && (now + ttl <=? now')); simpl; by rewrite ?Hv.
  - by rewrite get_result.
Qed.

(** A live key with a deadline [d]: what [Pttl] and [Ttl] report at [now']. *)
Lemma ttl_of_deadline e now' :
  let d := m_expire_at_ms (e_meta e) in
  0 <= now' < d -> d < 2 ^ 63 ->
  (pttl_cell now' (Some e)).2 = d - now' /\
  (ttl_cell now' (Some e)).2 = (d - now' + 999) / 1000.
Proof.
  intros d Hd Hm. unfold pttl_cell, ttl_cell, alive, e_expired. fold d.
  assert (IsExpired d now' = false) as -> by (apply IsExpired_false; lia). fold d.
  simpl. destruct (d =? 0) eqn:?; bool_prop; [lia|]. fold d.
  pose proof (Z.div_lt_upper_bound (d - now' + 999) 1000 (2 ^ 63)).
  pose proof (Z.div_pos (d - now' + 999) 1000).
  rewrite !(u64_id (d - now')), (u64_id (_ + 999)), !i64_id by lia. done.
Qed.

Lemma expire_then_ttl st now ttl now' k :
  kv_inv st -> 0 <= now <= now' -> 0 < ttl -> now + ttl < 2 ^ 63 ->
  alive now (kv_at st k) <> None ->
  let r := Expire now st k ttl in
  r.2 = true /\
  (if now' <? now + ttl
   then (Pttl now' r.1 k).2 = now + ttl - now' /\ (Ttl now' r.1 k).2 = (now + ttl - now' + 999) / 1000
   else (Pttl now' r.1 k).2 = -2 /\ (Ttl now' r.1 k).2 = -2 /\ (Get now' r.1 k).2 = None).
Proof.
  intros Hi Hn Ht Hw Hl. cbv zeta.
  destruct (kv_expire st now k ttl Hi) as (Hi' & -> & Hk).
  specialize (Hk k). rewrite decide_True in Hk by done.
  unfold expire_cell in *. destruct (alive now (kv_at st k)) as [e|]; [|done].
  destruct (ttl =? 0) eqn:?; bool_prop; [lia|]. rewrite u64_id in Hk by lia.
  split; [done|]. rewrite pttl_result, ttl_result, get_result, Hk by done.
  destruct (now' <? now + ttl) eqn:?; bool_prop.
  - pose proof (ttl_of_deadline (set_expire e (now + ttl)) now') as HH. simpl in HH.
    apply HH; lia.
  - unfold pttl_cell, ttl_cell, alive, e_expired. simpl.
    replace (IsExpired (now + ttl) now') with true; [done|].
    unfold IsExpired. symmetry. apply andb_true_iff. split; lia.
Qed.

(** [IncrBy] on a live string entry that holds the numeral of [v]. *)
Lemma incr_numeral st now k d ttl e v :
  kv_inv st -> alive now (kv_at st k) = Some e -> m_type (e_meta e) = DT_String ->
  is_i64 v -> e_value e = to_string v -> is_i64 d ->
  let r := IncrBy now st k d ttl in
  if decide (is_i64 (v + d))
  then r.2 = mkIncr true (v + d) "" "" /\
       kv_at r.1 k = Some (set_value e (to_string (v + d)))
  else r.2 = err_overflow /\ kv_at r.1 k = Some e.
Proof.
  intros Hi He Hty Hv Hev Hd. cbv zeta.
  destruct (kv_incr st now k d ttl Hi) as (Hi' & -> & Hk).
  specialize (Hk k). rewrite decide_True in Hk by done. rewrite Hk.
  unfold incr_cell. rewrite He, Hty, bool_decide_eq_false_2 by auto.
  unfold int_value. rewrite Hev, stoll_to_string, Nat.eqb_refl by done.
  case_decide as E;
    destruct (0 <? d) eqn:?, (2 ^ 63 - 1 - d <? v) eqn:?, (d <? 0) eqn:?, (v <? - 2 ^ 63 - d) eqn:?;
    bool_prop; simpl; try done; lia.
Qed.

End Client.

(** ** MemoryStore *)

(** A stand-in for [std::hash<std::string>] to evaluate the store with. *)
Definition length_hash (s : string) : Z := slen s.

Section Memory.
Context (std_hash : string -> Z).
#[local] Abbreviation mSet_ := (Set_ (Store := memory_store std_hash)).
#[local] Abbreviation mGet := (Get (Store := memory_store std_hash)).
#[local] Abbreviation mExists := (Exists (Store := memory_store std_hash)).
#[local] Abbreviation mType_ := (Type_ (Store := memory_store std_hash)).
#[local] Abbreviation mExpire := (Expire (Store := memory_store std_hash)).
#[local] Abbreviation mPttl := (Pttl (Store := memory_store std_hash)).
#[local] Abbreviation mTtl := (Ttl (Store := memory_store std_hash)).
#[local] Abbreviation mIncrBy := (IncrBy (Store := memory_store std_hash)).
#[local] Abbreviation mDel := (Del (Store := memory_store std_hash)).

Lemma init_simulates : simulates (H := memory_store std_hash) init_store ∅.
Proof.
  split; [apply wf_init_store|]. intros k. rewrite lookup_empty. apply (init_cell std_hash entriesL). constructor.
Qed.

(** C1: the sharded store implements one flat map of keys.  Any sequence of SET (with NX/XX and
    TTL), GET, DEL, EXISTS, TYPE, EXPIRE, TTL, PTTL, PERSIST and INCRBY calls on a new store, at
    any clock readings, returns exactly what the cell-by-cell specification returns on a single
    finite map; sharding and hashing are invisible.  Lazy eviction is part of the specification:
    every command but DEL treats an expired cell as absent and drops it, and DEL answers true
    for an expired cell that no command has dropped yet. *)
Theorem kv_commands_refine_map ops :
  (run_ops (H := memory_store std_hash) init_store ops).2 = (spec_ops ∅ ops).2.
Proof. apply run_ops_sim, init_simulates. Qed.

(** what SET wrote, GET reads until the deadline and not after it.  After SET key value with
    TTL ttl at time now (no 64-bit wrap), a GET at a later time returns the value while
    ttl = 0 or the time is before now + ttl, and nothing from the deadline on; every other key
    reads as before. *)
Theorem set_then_get st now now' k v ttl k' :
  wf_store std_hash st -> 0 <= now -> 0 <= ttl -> now + ttl < 2 ^ 64 -> now <= now' ->
  let r := mSet_ now st k v Always ttl in
  r.2 = true /\
  (mGet now' r.1 k').2 =
    if decide (k' = k)
    then if (0 <? ttl) && (now + ttl <=? now') then None else Some v
    else (mGet now' st k').2.
Proof. apply (set_get (H0 := memory_kv std_hash)). Qed.

(** EXPIRE and the two TTL queries agree.  After EXPIRE of a live key, PTTL at a later time
    reports exactly the milliseconds left and TTL those milliseconds rounded up to seconds;
    from the deadline on both report -2 and GET finds nothing. *)
Theorem expire_then_ttl_exact st now ttl now' k :
  wf_store std_hash st -> 0 <= now <= now' -> 0 < ttl -> now + ttl < 2 ^ 63 ->
  (mExists now st k).2 = true ->
  let r := mExpire now st k ttl in
  r.2 = true /\
  (if now' <? now + ttl
   then (mPttl now' r.1 k).2 = now + ttl - now' /\ (mTtl now' r.1 k).2 = (now + ttl - now' + 999) / 1000
   else (mPttl now' r.1 k).2 = -2 /\ (mTtl now' r.1 k).2 = -2 /\ (mGet now' r.1 k).2 = None).
Proof.
  intros Hw Hn Ht Hb He. apply (expire_then_ttl (H0 := memory_kv std_hash)); try done.
  destruct (kv_exists (KvStore := memory_kv std_hash) st now k Hw) as (_ & Hr & _). rewrite He in Hr. simpl in Hr.
  intros E. simpl in E. by rewrite E in Hr.
Qed.

(** INCRBY is exact 64-bit signed addition with overflow detection.  On a key that holds the
    numeral of v, INCRBY d returns v + d and GET then reads its numeral when v + d fits
    in 64 bits; otherwise the call answers ERR_OVERFLOW and the value is unchanged. *)
Theorem incrby_exact st now k v d ttl :
  wf_store std_hash st -> is_i64 v -> is_i64 d ->
  (mGet now st k).2 = Some (to_string v) ->
  (mType_ now st k).2 = DT_String ->
  let r := mIncrBy now st k d ttl in
  if decide (is_i64 (v + d))
  then r.2 = mkIncr true (v + d) "" "" /\ (mGet now r.1 k).2 = Some (to_string (v + d))
  else r.2 = err_overflow /\ (mGet now r.1 k).2 = Some (to_string v).
Proof.
  intros Hw Hv Hd Hg Hty r.
  rewrite (get_result (H0 := memory_kv std_hash)) in Hg by done. simpl in Hg.
  destruct (kv_type (KvStore := memory_kv std_hash) st now k Hw) as (_ & Ht & _). rewrite Hty in Ht. simpl in Ht.
  destruct (alive now (cell std_hash entriesL st k)) as [e|] eqn:He; [|done].
  simpl in Hg, Ht. injection Hg as Hval.
  assert (e_expired e now = false) as Hlive.
  { unfold alive in He. destruct (cell _ _ _ _) as [e'|]; [|done].
    destruct (e_expired e' now) eqn:?; by simplify_eq. }
  pose proof (incr_numeral (H0 := memory_kv std_hash) st now k d ttl e v Hw He) as HH.
  specialize (HH ltac:(done) Hv Hval Hd). fold r in HH. simpl in HH.
  destruct (kv_incr (KvStore := memory_kv std_hash) st now k d ttl Hw) as (Hw' & _ & _).
  rewrite (get_result (H0 := memory_kv std_hash)) by done. simpl.
  case_decide; destruct HH as [Hr1 Hr2]; (split; [done|]); rewrite Hr2; simpl;
    unfold e_expired in *; simpl; rewrite Hlive; simpl; by rewrite ?Hval.
Qed.

(** DEL answers true for a key that is already expired but not yet evicted, although GET,
    EXISTS and TTL treat that key as absent. *)
Theorem del_reports_expired_key st now k e :
  wf_store std_hash st -> cell std_hash entriesL st k = Some e -> e_expired e now = true ->
  (mGet now st k).2 = None /\
  (mExists now st k).2 = false /\
  (mDel st k).2 = true.
Proof.
  intros Hw Hc He.
  destruct (kv_get (KvStore := memory_kv std_hash) st now k Hw) as (_ & -> & _), (kv_exists (KvStore := memory_kv std_hash) st now k Hw) as (_ & -> & _),
    (kv_del (KvStore := memory_kv std_hash) st k Hw) as (_ & -> & _).
  simpl. rewrite Hc. simpl. by rewrite He.
Qed.
End Memory.

(** The store after SET counter 41 PX 5000 at time 1000. *)
Definition sample_store : MemoryStore :=
  (Set_ (Store := memory_store length_hash) 1000 init_store "counter" "41" Always 5000).1.

Lemma sample_store_wf : wf_store length_hash sample_store.
Proof.
  apply (kv_set (KvStore := memory_kv length_hash) init_store 1000). apply wf_init_store.
Defined.

Lemma set_then_get_witness :
  let r := Set_ (Store := memory_store length_hash) 2000 sample_store "k" "v" Always 100 in
  r.2 = true /\ (Get (Store := memory_store length_hash) 2099 r.1 "k").2 = Some "v".
Proof.
  apply (set_then_get length_hash sample_store 2000 2099 "k" "v" 100 "k");
    [apply sample_store_wf|lia..].
Defined.

Lemma expire_then_ttl_exact_witness :
  let r := Expire (Store := memory_store length_hash) 2000 sample_store "counter" 1500 in
  r.2 = true /\ (Pttl (Store := memory_store length_hash) 2001 r.1 "counter").2 = 1499 /\
  (Ttl (Store := memory_store length_hash) 2001 r.1 "counter").2 = 2.
Proof.
  apply (expire_then_ttl_exact length_hash sample_store 2000 1500 2001 "counter");
    [apply sample_store_wf|lia..|vm_compute; reflexivity].
Defined.

Lemma incrby_exact_witness :
  let r := IncrBy (Store := memory_store length_hash) 2000 sample_store "counter" 1 0 in
  r.2 = mkIncr true 42 "" "" /\
  (Get (Store := memory_store length_hash) 2000 r.1 "counter").2 = Some "42".
Proof.
  apply (incrby_exact length_hash sample_store 2000 "counter" 41 1 0);
    [apply sample_store_wf|lia|lia|vm_compute; reflexivity..].
Defined.

Lemma del_reports_expired_key_witness :
  (Get (Store := memory_store length_hash) 6000 sample_store "counter").2 = None /\
  (Exists (Store := memory_store length_hash) 6000 sample_store "counter").2 = false /\
  (Del (Store := memory_store length_hash) sample_store "counter").2 = true.
Proof.
  eapply (del_reports_expired_key length_hash);
    [apply sample_store_wf|vm_compute; reflexivity|vm_compute; reflexivity].
Defined.
