(* ===== verification/Enumerate.v ===== *)
(** * Enumeration of the key space: [DBSIZE], [KEYS] and [SCAN]

    The live keys of the store as one list, in shard, bucket and chain order; the
    three commands are related to it. *)
From S2P Require Import Prelude CStd HashTable Entry Store MemoryStore StoreWf KvStore KvTrace Glob.

Section filters.
Context {A B : Type}.

Lemma foldl_collect (p : A -> bool) (f : A -> B) (l : list A) acc :
  foldl (fun acc x => if p x then acc ++ [f x] else acc) acc l = acc ++ (f <$> List.filter p l).
Proof.
  revert acc. induction l as [|x l IH]; intros acc; simpl; [by rewrite app_nil_r|].
  rewrite IH. destruct (p x); [|done]. by rewrite <- app_assoc.
Qed.

Lemma foldl_count (p : A -> bool) (l : list A) n :
  foldl (fun n x => if p x then n + 1 else n) n l = n + Z.of_nat (length (List.filter p l)).
Proof.
  revert n. induction l as [|x l IH]; intros n; simpl; [lia|].
  rewrite IH. destruct (p x); simpl; lia.
Qed.
End filters.

Lemma Lfilter_app {A} (p : A -> bool) l l' :
  List.filter p (l ++ l') = List.filter p l ++ List.filter p l'.
Proof. induction l as [|x l IH]; simpl; [done|]. rewrite IH. by destruct (p x). Qed.

Lemma Lfilter_fst_sub {A B} (p : A * B -> bool) (l : list (A * B)) k :
  k ∈ (List.filter p l).*1 -> k ∈ l.*1.
Proof. induction l as [|x l IH]; simpl; [done|]. destruct (p x); set_solver. Qed.

Lemma Lfilter_NoDup {A B} (p : A * B -> bool) (l : list (A * B)) :
  NoDup l.*1 -> NoDup (List.filter p l).*1.
Proof.
  induction l as [|x l IH]; simpl; [done|]. intros [Hx Hl]%list.NoDup_cons.
  destruct (p x); [|auto]. simpl. constructor; [|auto].
  intros Hin. by eapply Hx, Lfilter_fst_sub.
Qed.

Lemma elem_of_Lfilter {A} (p : A -> bool) l x : x ∈ List.filter p l <-> x ∈ l /\ p x = true.
Proof. rewrite !list_elem_of_In, filter_In. done. Qed.

(** ** All nodes of a store *)

Definition shard_nodes (sh : StorageShard) : list (string * Entry) := HT.nodes (entries sh).
Definition all_nodes (st : MemoryStore) : list (string * Entry) :=
  concat (shard_nodes <$> shards_ st).
Definition live_node (now : Z) (kv : string * Entry) : bool := negb (e_expired kv.2 now).

Lemma foldl_shards {X} (f : X -> string -> Entry -> X) shards x :
  foldl (fun x sh => HT.ForEach f x (entries sh)) x shards =
  foldl (fun x kv => f x kv.1 kv.2) x (concat (shard_nodes <$> shards)).
Proof.
  revert x. induction shards as [|sh shards IH]; intros x; [done|].
  rewrite fmap_cons. simpl. rewrite IH, HT.ForEach_nodes, foldl_app. done.
Qed.

Lemma DbSize_nodes now st :
  DbSize_ now st = Z.of_nat (length (List.filter (live_node now) (all_nodes st))).
Proof.
  unfold DbSize_. rewrite foldl_shards. fold (all_nodes st).
  rewrite (foldl_count (live_node now)). lia.
Qed.

Lemma Keys_nodes now st pattern :
  Keys_ now st pattern =
  (List.filter (fun kv => live_node now kv && MatchPattern pattern kv.1) (all_nodes st)).*1.
Proof.
  unfold Keys_. rewrite foldl_shards. fold (all_nodes st).
  by rewrite (foldl_collect (fun kv => live_node now kv && MatchPattern pattern kv.1) fst).
Qed.

Section Wf.
Context (std_hash : string -> Z).

Lemma shard_node_iff i sh k e :
  wf_shard std_hash i sh -> (k, e) ∈ shard_nodes sh <-> HT.Find std_hash (entries sh) k = Some e.
Proof. intros Hw. symmetry. apply HT.Find_Some, Hw. Qed.

Lemma shard_node_home i sh k : wf_shard std_hash i sh -> k ∈ (shard_nodes sh).*1 -> GetShard k = i.
Proof.
  intros Hw Hk. apply list_elem_of_fmap in Hk as ([k' e] & -> & Hin).
  eapply (home_entries _ _ _ Hw). by eapply shard_node_iff.
Qed.

Lemma concat_nodes_nodup shards off :
  (forall i sh, shards !! i = Some sh -> wf_shard std_hash (off + i) sh) ->
  NoDup (concat (shard_nodes <$> shards)).*1 /\
  forall k, k ∈ (concat (shard_nodes <$> shards)).*1 -> (off <= GetShard k)%nat.
Proof.
  revert off. induction shards as [|sh shards IH]; intros off Hw; [split; [constructor|set_solver]|].
  destruct (IH (S off)) as [Hnd Hle].
  { intros i sh' Hi. replace (S off + i)%nat with (off + S i)%nat by lia. by apply Hw. }
  pose proof (Hw 0%nat sh eq_refl) as Hsh. rewrite Nat.add_0_r in Hsh.
  rewrite fmap_cons. cbn [concat]. rewrite fmap_app. split.
  - apply list.NoDup_app. split_and!; [|intros k Hk Hk'|done].
    + apply (HT.wf_nodup _ _ (wf_entries _ _ _ Hsh)).
    + pose proof (shard_node_home _ _ _ Hsh Hk). specialize (Hle k Hk'). lia.
  - intros k [Hk|Hk]%elem_of_app.
    + pose proof (shard_node_home _ _ _ Hsh Hk). lia.
    + specialize (Hle k Hk). lia.
Qed.

Lemma all_nodes_nodup st : wf_store std_hash st -> NoDup (all_nodes st).*1.
Proof. intros [_ Hs]. by apply (concat_nodes_nodup _ 0). Qed.

Lemma all_nodes_iff st k e :
  wf_store std_hash st -> (k, e) ∈ all_nodes st <-> cell std_hash entriesL st k = Some e.
Proof.
  intros Hw. unfold all_nodes. rewrite list_elem_of_In, in_concat. split.
  - intros (l & Hl & Hin). apply list_elem_of_In, list_elem_of_fmap in Hl as (sh & -> & Hsh).
    apply list_elem_of_lookup in Hsh as [i Hi].
    pose proof (wf_shards _ _ Hw i sh Hi) as Hwi. apply list_elem_of_In in Hin.
    assert (GetShard k = i) as <-.
    { eapply shard_node_home; [done|]. apply list_elem_of_fmap. by exists (k, e). }
    unfold cell, shard_at. rewrite Hi. simpl. by eapply shard_node_iff.
  - intros Hc. pose proof (GetShard_lt k) as Hk.
    pose proof (shard_at_lookup _ _ _ Hw Hk) as Hi.
    exists (shard_nodes (shard_at st (GetShard k))). rewrite <- !list_elem_of_In. split.
    + apply list_elem_of_fmap. eexists. split; [done|]. by eapply list_elem_of_lookup_2.
    + eapply shard_node_iff; [|exact Hc]. by apply wf_shard_at.
Qed.

Lemma live_key_iff st now k :
  wf_store std_hash st ->
  (exists e, (k, e) ∈ all_nodes st /\ live_node now (k, e) = true) <->
  alive now (cell std_hash entriesL st k) <> None.
Proof.
  intros Hw. split.
  - intros (e & He & Hl). apply all_nodes_iff in He; [|done]. rewrite He. simpl.
    unfold live_node in Hl. simpl in Hl. bool_prop. by rewrite Hl.
  - destruct (cell _ _ _ _) as [e|] eqn:E; simpl; [|done].
    destruct (e_expired e now) eqn:Ex; [done|]. intros _. exists e.
    split; [by apply all_nodes_iff|]. unfold live_node. simpl. by rewrite Ex.
Qed.

Lemma Keys_spec st now pattern :
  wf_store std_hash st ->
  NoDup (Keys_ now st pattern) /\
  forall k, k ∈ Keys_ now st pattern <->
    alive now (cell std_hash entriesL st k) <> None /\ MatchPattern pattern k = true.
Proof.
  intros Hw. rewrite Keys_nodes. split; [by apply Lfilter_NoDup, all_nodes_nodup|].
  intros k. rewrite <- live_key_iff by done. rewrite list_elem_of_fmap. split.
  - intros ([k' e] & -> & [Hin Hp]%elem_of_Lfilter). bool_prop. eauto.
  - intros [(e & He & Hl) Hm]. exists (k, e). split; [done|].
    apply elem_of_Lfilter. rewrite Hl. simpl. by rewrite Hm.
Qed.

Lemma Keys_star now st : Keys_ now st "*" = (List.filter (live_node now) (all_nodes st)).*1.
Proof.
  rewrite Keys_nodes. f_equal. apply filter_ext. intros [k e].
  unfold MatchPattern. rewrite decide_True by done. by rewrite andb_true_r.
Qed.

(** ** [SCAN] *)

(** Live keys of a run of buckets. *)
Definition live_seg (now : Z) (bs : list (list (string * Entry))) : list string :=
  (List.filter (live_node now) (concat bs)).*1.

Lemma live_seg_app now b1 b2 : live_seg now (b1 ++ b2) = live_seg now b1 ++ live_seg now b2.
Proof. unfold live_seg. by rewrite concat_app, Lfilter_app, fmap_app. Qed.

(** What is left to report from bucket [b] of the first shard on. *)
Definition rest (now : Z) (shards : list StorageShard) (b : nat) : list string :=
  match shards with
  | [] => []
  | sh :: shards => live_seg now (drop b (buckets_ (entries sh))) ++
                    (List.filter (live_node now) (concat (shard_nodes <$> shards))).*1
  end.

Definition buckets_left (shards : list StorageShard) (b : nat) : nat :=
  sum_list_with (fun sh => length (buckets_ (entries sh))) shards - b.

Definition scannable (shards : list StorageShard) : Prop :=
  Forall (fun sh => HT.wf std_hash (entries sh) /\
                    0 < Z.of_nat (length (buckets_ (entries sh))) < 2 ^ 32) shards.

Definition position (shards : list StorageShard) (b : nat) : Prop :=
  match shards with [] => b = 0%nat | sh :: _ => (b < length (buckets_ (entries sh)))%nat end.

Lemma live_keys_seg now sh (l : list (string * Entry)) :
  HT.wf std_hash (entries sh) -> (forall kv, kv ∈ l -> kv ∈ HT.nodes (entries sh)) ->
  live_keys std_hash now sh l.*1 = (List.filter (live_node now) l).*1.
Proof.
  intros Hw Hl. unfold live_keys. induction l as [|[k e] l IH]; [done|].
  rewrite fmap_cons. cbn [List.filter fst].
  assert (HT.Find std_hash (entries sh) k = Some e) as ->.
  { apply HT.Find_Some; [done|]. apply Hl. set_solver. }
  rewrite IH by set_solver. change (live_node now (k, e)) with (negb (e_expired e now)).
  by destruct (e_expired e now).
Qed.

Lemma elem_of_concat_take {A} n m (bs : list (list A)) x :
  x ∈ concat (take n (drop m bs)) -> x ∈ concat bs.
Proof.
  intros Hx. rewrite <- (take_drop m bs), concat_app. apply elem_of_app. right.
  rewrite <- (take_drop n (drop m bs)), concat_app. apply elem_of_app. by left.
Qed.

Lemma scan_shards_spec now count shards i b acc :
  scannable shards -> position shards b ->
  exists n b' part,
    scan_shards std_hash now shards i (Z.of_nat b) count acc =
      ((i + n)%nat, Z.of_nat b', acc ++ part) /\
    (n <= length shards)%nat /\ position (drop n shards) b' /\
    rest now shards b = part ++ rest now (drop n shards) b' /\
    (Z.of_nat (length acc) < count -> shards <> [] ->
     (buckets_left (drop n shards) b' < buckets_left shards b)%nat).
Proof.
  revert i b acc. induction shards as [|sh shards IH]; intros i b acc Hsc Hpos.
  { exists 0%nat, b, []. rewrite Nat.add_0_r, app_nil_r. split_and!; done. }
  apply list.Forall_cons in Hsc as [[Hwf Hcap] Hsc]. simpl in Hpos.
  cbn [scan_shards]. destruct (_ <? count) eqn:Hc; bool_prop.
  2:{ exists 0%nat, b, []. rewrite Nat.add_0_r, app_nil_r. split_and!; try done; try lia. }
  set (bs := buckets_ (entries sh)) in *.
  destruct (HT.Scan_spec (entries sh) b (count - Z.of_nat (length acc)) Hpos)
    as (j & Hj & ->); [lia|]. fold bs in Hj |- *.
  rewrite live_keys_seg; [|done|intros kv; apply elem_of_concat_take].
  fold (live_seg now (take (j - b) (drop b bs))).
  set (seg := live_seg now (take (j - b) (drop b bs))).
  assert (live_seg now (drop b bs) = seg ++ live_seg now (drop j bs)) as Hseg.
  { unfold seg. rewrite <- live_seg_app. f_equal.
    rewrite <- (take_drop (j - b) (drop b bs)) at 1. rewrite drop_drop. do 2 f_equal. lia. }
  destruct (_ <=? j)%nat eqn:Hl.
  - apply Nat.leb_le in Hl. rewrite Z.eqb_refl.
    destruct (IH (S i) 0%nat (acc ++ seg) Hsc) as (n & b' & part & Hs & Hn & Hp & Hr & Hleft).
    { destruct shards as [|sh' shards']; [done|]. apply list.Forall_cons in Hsc as [[_ ?] _].
      simpl. lia. }
    change 0 with (Z.of_nat 0). rewrite Hs. exists (S n), b', (seg ++ part).
    split_and!; try done.
    + f_equal; [f_equal; lia|by rewrite app_assoc].
    + simpl. lia.
    + simpl drop. rewrite <- app_assoc, <- Hr. cbn [rest]. fold bs. rewrite Hseg.
      rewrite (drop_ge bs j) by lia. rewrite <- app_assoc. f_equal.
      destruct shards as [|sh' shards']; [done|]. cbn [rest]. rewrite drop_0, fmap_cons.
      cbn [concat]. rewrite Lfilter_app, fmap_app. done.
    + intros _ _. simpl drop. unfold buckets_left in *. cbn [sum_list_with]. fold bs.
      destruct (decide (shards = [])) as [->|Hne]; [rewrite drop_nil; simpl; lia|].
      destruct (decide (Z.of_nat (length (acc ++ seg)) < count)) as [Hlt|Hge].
      * specialize (Hleft Hlt Hne). lia.
      * assert (sum_list_with (λ sh0, length (buckets_ (entries sh0))) (drop n shards) <=
                sum_list_with (λ sh0, length (buckets_ (entries sh0))) shards)%nat.
        { rewrite <- (take_drop n shards) at 2. rewrite sum_list_with_app. lia. }
        lia.
  - apply Nat.leb_gt in Hl. destruct (Z.of_nat j =? 0) eqn:?; bool_prop; [lia|].
    exists 0%nat, j, seg. rewrite Nat.add_0_r. split_and!; try done; try (simpl; lia).
    + cbn [rest drop]. fold bs. by rewrite Hseg, <- app_assoc.
    + intros _ _. unfold buckets_left. cbn [drop sum_list_with]. fold bs. lia.
Qed.

(** *** The cursor: shard index above bit 32, bucket below *)

Definition cursor_of (i b : nat) : Z := Z.of_nat i * 2 ^ 32 + Z.of_nat b.

Lemma cursor_shard i b : Z.of_nat b < 2 ^ 32 -> Z.shiftr (cursor_of i b) 32 = Z.of_nat i.
Proof.
  intros. unfold cursor_of. rewrite Z.shiftr_div_pow2 by lia.
  rewrite Z.div_add_l by lia. rewrite Z.div_small; lia.
Qed.

Lemma low32 z : Z.land z 4294967295 = z mod 2 ^ 32.
Proof. change 4294967295 with (Z.ones 32). apply Z.land_ones. lia. Qed.

Lemma cursor_bucket i b : Z.of_nat b < 2 ^ 32 -> Z.land (cursor_of i b) 4294967295 = Z.of_nat b.
Proof.
  intros. rewrite low32. unfold cursor_of.
  rewrite Z.add_comm, Z.mod_add, Z.mod_small; lia.
Qed.

Lemma cursor_encode i b :
  (i < kNumShards)%nat -> Z.of_nat b < 2 ^ 32 ->
  u64 (Z.lor (Z.shiftl (Z.of_nat i) 32) (Z.land (Z.of_nat b) 4294967295)) = cursor_of i b.
Proof.
  intros Hi Hb. unfold kNumShards in Hi. rewrite low32, Z.mod_small by lia.
  assert (Z.land (Z.shiftl (Z.of_nat i) 32) (Z.of_nat b) = 0) as Hd.
  { apply Z.bits_inj'. intros n Hn. rewrite Z.land_spec, Z.bits_0.
    destruct (decide (n < 32)) as [?|?].
    - by rewrite Z.shiftl_spec_low.
    - assert (Z.testbit (Z.of_nat b) n = false) as ->; [|apply andb_false_r].
      apply Z.testbit_false; [done|]. rewrite Z.div_small; [done|].
      pose proof (Z.pow_le_mono_r 2 32 n). lia. }
  rewrite <- Z.add_nocarry_lor by done. rewrite Z.shiftl_mul_pow2 by lia.
  fold (cursor_of i b). apply u64_id. unfold cursor_of. lia.
Qed.

(** The client's loop: [SCAN] with the returned cursor until it is 0. *)
Fixpoint scan_store (fuel : nat) (now : Z) (st : MemoryStore) (cursor count : Z) :
    option (list string) :=
  match fuel with
  | O => None
  | S fuel =>
      let '(next, ks) := Scan_ std_hash now st cursor count in
      if next =? 0 then Some ks
      else (fun r => ks ++ r) <$> scan_store fuel now st next count
  end.

Lemma Scan_step now st i b count :
  length (shards_ st) = kNumShards -> scannable (shards_ st) -> 0 <= count ->
  (i < kNumShards)%nat -> position (drop i (shards_ st)) b ->
  exists part,
    rest now (drop i (shards_ st)) b = part /\ Scan_ std_hash now st (cursor_of i b) count = (0, part) \/
    exists j b', (j < kNumShards)%nat /\ position (drop j (shards_ st)) b' /\
      Scan_ std_hash now st (cursor_of i b) count = (cursor_of j b', part) /\ cursor_of j b' <> 0 /\
      rest now (drop i (shards_ st)) b = part ++ rest now (drop j (shards_ st)) b' /\
      (buckets_left (drop j (shards_ st)) b' < buckets_left (drop i (shards_ st)) b)%nat.
Proof.
  intros Hlen Hsc Hc Hi Hpos.
  assert (forall n b, position (drop n (shards_ st)) b -> Z.of_nat b < 2 ^ 32) as Hsmall.
  { intros n b0 Hp. destruct (drop n (shards_ st)) as [|sh l] eqn:E; simpl in Hp; [lia|].
    assert (sh ∈ shards_ st) as Hin by (apply (list_elem_of_lookup_2 _ n);
      rewrite <- (Nat.add_0_r n), <- lookup_drop, E; done).
    apply Forall_forall with (x := sh) in Hsc; [lia|]. by apply list_elem_of_In. }
  assert (scannable (drop i (shards_ st))) as Hsci by by apply Forall_drop.
  set (count' := if count =? 0 then 10 else count).
  assert (0 < count') as Hc' by (unfold count'; destruct (count =? 0) eqn:?; bool_prop; lia).
  destruct (scan_shards_spec now count' (drop i (shards_ st)) i b [] Hsci Hpos)
    as (n & b' & part & Hs & Hn & Hp & Hr & Hl).
  assert (drop i (shards_ st) <> []) as Hne.
  { intros E%(f_equal length). rewrite length_drop, Hlen in E. simpl in E. lia. }
  specialize (Hl ltac:(simpl; lia) Hne). rewrite drop_drop in *. rewrite length_drop, Hlen in Hn.
  exists part. unfold Scan_. fold count'. rewrite cursor_shard, cursor_bucket by eauto.
  rewrite Nat2Z.id, Hs. destruct (_ <=? Z.of_nat i) eqn:?; bool_prop; [lia|].
  destruct (_ <? kNumShards)%nat eqn:Hj.
  - apply Nat.ltb_lt in Hj. right. exists (i + n)%nat, b'.
    rewrite cursor_encode by eauto. split_and!; try done.
    unfold cursor_of. destruct (decide ((i + n)%nat = 0%nat /\ b' = 0%nat)) as [[E1 ->]|?]; [|lia].
    assert (i = 0%nat /\ n = 0%nat) as [-> ->] by lia. unfold buckets_left in Hl.
    rewrite Nat.sub_0_r in Hl. simpl in Hl. lia.
  - apply Nat.ltb_ge in Hj. left. split; [|done]. rewrite Hr, (drop_ge _ (i + n)) by lia.
    simpl. by rewrite app_nil_r.
Qed.

Lemma scan_store_from fuel now st i b count :
  length (shards_ st) = kNumShards -> scannable (shards_ st) -> 0 <= count ->
  (i < kNumShards)%nat -> position (drop i (shards_ st)) b ->
  (buckets_left (drop i (shards_ st)) b < fuel)%nat ->
  scan_store fuel now st (cursor_of i b) count = Some (rest now (drop i (shards_ st)) b).
Proof.
  intros Hlen Hsc Hc. revert i b. induction fuel as [|fuel IH]; intros i b Hi Hp Hf; [lia|].
  cbn [scan_store].
  destruct (Scan_step now st i b count Hlen Hsc Hc Hi Hp)
    as (part & [[Hr ->]|(j & b' & Hj & Hpj & -> & Hnz & Hr & Hl)]).
  - simpl. by rewrite Hr.
  - destruct (_ =? 0) eqn:?; bool_prop; [done|]. rewrite IH by (done || lia). simpl. by rewrite Hr.
Qed.

Definition total_buckets (st : MemoryStore) : nat :=
  sum_list_with (fun sh => length (buckets_ (entries sh))) (shards_ st).

Lemma scan_store_complete fuel now st count :
  wf_store std_hash st -> scannable (shards_ st) -> 0 <= count ->
  (total_buckets st < fuel)%nat ->
  scan_store fuel now st 0 count = Some (Keys_ now st "*").
Proof.
  intros Hw Hsc Hc Hf. pose proof (wf_shard_count _ _ Hw) as Hlen.
  change 0 with (cursor_of 0 0).
  rewrite scan_store_from; try done; try (unfold kNumShards; lia).
  - f_equal. rewrite drop_0, Keys_star. unfold all_nodes, rest.
    destruct (shards_ st) as [|sh l]; [done|]. rewrite drop_0, fmap_cons. cbn [concat].
    by rewrite Lfilter_app, fmap_app.
  - rewrite drop_0. destruct (shards_ st) as [|sh l]; [done|].
    apply list.Forall_cons in Hsc as [[_ ?] _]. simpl. lia.
  - rewrite drop_0. unfold buckets_left. unfold total_buckets in Hf. lia.
Qed.

#[local] Abbreviation mKeys := (Keys (Store := memory_store std_hash)).
#[local] Abbreviation mExists := (Exists (Store := memory_store std_hash)).
#[local] Abbreviation mDbSize := (DbSize (Store := memory_store std_hash)).

(** KEYS and DBSIZE are exact.  KEYS returns each key at most once, and exactly those keys
    that EXISTS reports at that time and that MatchPattern accepts; DBSIZE is the number of
    keys KEYS * returns. *)
Theorem keys_dbsize_exact st now pattern :
  wf_store std_hash st ->
  NoDup (mKeys now st pattern) /\
  (forall k, k ∈ mKeys now st pattern <->
     (mExists now st k).2 = true /\ MatchPattern pattern k = true) /\
  mDbSize now st = Z.of_nat (length (mKeys now st "*")).
Proof.
  intros Hw. destruct (Keys_spec st now pattern Hw) as [Hnd Hk]. split_and!.
  - apply Hnd.
  - intros k. change (mKeys now st pattern) with (Keys_ now st pattern). rewrite Hk.
    destruct (kv_exists (KvStore := memory_kv std_hash) st now k Hw)
      as (_ & -> & _). simpl.
    destruct (alive now (cell std_hash entriesL st k)); naive_solver.
  - simpl. by rewrite DbSize_nodes, Keys_star, length_fmap.
Qed.

(** A SCAN loop over the whole store is complete and terminates.  Starting at cursor 0 and
    following the returned cursor (shard index in the high 32 bits, bucket in the low 32)
    until it is 0 again takes at most one call per bucket and returns exactly the keys of
    KEYS *, each once, for every COUNT including 0, provided no shard has 2^32 buckets. *)
Theorem scan_loop_complete st now count :
  wf_store std_hash st -> scannable (shards_ st) -> 0 <= count ->
  exists ks, scan_store (S (total_buckets st)) now st 0 count = Some ks /\
    ks = Keys (Store := memory_store std_hash) now st "*" /\ NoDup ks.
Proof.
  intros Hw Hsc Hc. exists (Keys_ now st "*"). split_and!; [|done|by apply Keys_spec].
  by rewrite scan_store_complete by (done || lia).
Qed.

End Wf.

(** Two keys, one of them expired at time 9000. *)
Definition sample_keys : MemoryStore :=
  (Set_ (Store := memory_store length_hash) 1500 sample_store "user:1" "x" Always 0).1.

Lemma sample_keys_wf : wf_store length_hash sample_keys.
Proof.
  apply (kv_set (KvStore := memory_kv length_hash) sample_store 1500). apply sample_store_wf.
Defined.

Lemma keys_dbsize_exact_witness :
  Keys (Store := memory_store length_hash) 9000 sample_keys "user:?" = ["user:1"] /\
  NoDup (Keys (Store := memory_store length_hash) 9000 sample_keys "user:?") /\
  DbSize (Store := memory_store length_hash) 9000 sample_keys = 1.
Proof.
  split; [vm_compute; reflexivity|].
  destruct (keys_dbsize_exact length_hash sample_keys 9000 "user:?") as (? & _ & Hd);
    [apply sample_keys_wf|].
  split; [assumption|]. rewrite Hd. vm_compute. reflexivity.
Defined.

Lemma sample_keys_scannable : scannable length_hash (shards_ sample_keys).
Proof.
  apply Forall_lookup. intros i sh Hi. split.
  - apply (wf_shards _ _ sample_keys_wf) in Hi. apply Hi.
  - assert (forallb (fun sh => length (buckets_ (entries sh)) =? 16)%nat (shards_ sample_keys) = true)
      as Hall by (vm_compute; reflexivity).
    rewrite forallb_forall in Hall. apply list_elem_of_lookup_2, list_elem_of_In in Hi.
    apply Hall, Nat.eqb_eq in Hi. lia.
Defined.

Lemma scan_loop_complete_witness :
  exists ks, scan_store length_hash (S (total_buckets sample_keys)) 2000 sample_keys 0 1 = Some ks /\
    ks = Keys (Store := memory_store length_hash) 2000 sample_keys "*" /\ NoDup ks.
Proof.
  apply (scan_loop_complete length_hash sample_keys 2000 1);
    [apply sample_keys_wf|apply sample_keys_scannable|lia].
Defined.
