(* ===== verification/RateLimit.v ===== *)
(** * The sliding-window rate limiter ([MemoryStore::RateLimit])

    One call rolls the record of its key over to the current window, estimates
    the load as the weighted previous count plus the current count, and admits
    the request when the estimate plus its cost stays within the limit.  The
    trace theorem says what that achieves: in every window the admitted cost of a
    key never exceeds the limit, whatever other keys do. *)
From S2P Require Import Prelude CStd Floats HashTable Entry Store MemoryStore StoreWf KvTrace.

(** ** What a call does to the record of its key *)

Definition new_window (key : string) (idx window_ms : Z) : RateLimitRecord :=
  mkRateRecord key idx 0 0 window_ms (u64 (u64 (idx + 2) * window_ms)).

Definition rolled (now : Z) (key : string) (window_ms : Z) (o : option RateLimitRecord) :
    RateLimitRecord :=
  match o with
  | Some r => roll_window now window_ms r
  | None => new_window key (now / window_ms) window_ms
  end.

Definition rate_cell now key limit window_ms cost (o : option RateLimitRecord) :
    option RateLimitRecord * RateLimitResult :=
  let record := rolled now key window_ms o in
  let estimated := estimated_count now window_ms record in
  if u64 (estimated + cost) <=? limit
  then (Some (admit_cost record cost),
        mkRateLimit true true (limit - u64 (estimated + cost)) 0 "" "")
  else (Some record,
        mkRateLimit true false (if estimated <=? limit then limit - estimated else 0)
          (let retry_after := u64 (window_ms - now mod window_ms) in
           if retry_after =? 0 then 1 else retry_after) "" "").

Definition charge (cost : Z) : Z := if cost =? 0 then 1 else cost.

Section Rate.
Context (std_hash : string -> Z).

Lemma RateLimit_local now key limit window_ms cost :
  local_op std_hash ratesL key (RateLimit_body std_hash now key limit window_ms cost)
    (rate_cell now key limit window_ms cost).
Proof.
  intros o sh Hw Ho. simpl in Hw, Ho. unfold RateLimit_body, rate_cell. rewrite Ho.
  set (rec := rolled now key window_ms o).
  set (t := match o with
            | Some _ => HT.Assign std_hash (rate_limits sh) key rec
            | None => (HT.Insert std_hash (rate_limits sh) key rec).1
            end).
  assert (HT.wf std_hash t /\ forall k', HT.Find std_hash t k' =
            if decide (k' = key) then Some rec else HT.Find std_hash (rate_limits sh) k') as [Ht Hf].
  { unfold t. destruct o as [r|]; (split; [|intros k']).
    - by eapply HT.Assign_map.
    - by eapply HT.Find_Assign.
    - by apply HT.Insert_map.
    - by apply HT.Find_Insert. }
  assert (match o with
          | Some r => (HT.Assign std_hash (rate_limits sh) key (roll_window now window_ms r),
                       roll_window now window_ms r)
          | None => ((HT.Insert std_hash (rate_limits sh) key
                        (new_window key (now / window_ms) window_ms)).1,
                     new_window key (now / window_ms) window_ms)
          end = (t, rec)) as E by by destruct o.
  cbv zeta. fold (new_window key (now / window_ms) window_ms). rewrite E.
  assert (HT.Find std_hash t key = Some rec) as Hk by by rewrite Hf, decide_True.
  destruct (u64 _ <=? limit); simpl; eexists; (split; [reflexivity|]); (split; [|intros k']).
  - by eapply HT.Assign_map.
  - rewrite (HT.Find_Assign _ _ _ _ _ _ Ht Hk), Hf. by case_decide.
  - done.
  - apply Hf.
Qed.

Lemma RateLimit_store now st key limit window_ms cost :
  wf_store std_hash st -> limit <> 0 -> window_ms <> 0 ->
  let '(st', r) := RateLimit_ std_hash now st key limit window_ms cost in
  let f := rate_cell now key limit window_ms (charge cost) in
  wf_store std_hash st' /\ r = (f (cell std_hash ratesL st key)).2 /\
  (forall k', cell std_hash ratesL st' k' =
     if decide (k' = key) then (f (cell std_hash ratesL st key)).1 else cell std_hash ratesL st k').
Proof.
  intros Hw Hl Hm. unfold RateLimit_.
  destruct (limit =? 0) eqn:?; bool_prop; [done|].
  destruct (window_ms =? 0) eqn:?; bool_prop; [done|]. fold (charge cost).
  pose proof (local_op_store std_hash ratesL key _ _ st keyed_rates
    (RateLimit_local now key limit window_ms (charge cost)) Hw) as H.
  destruct (on_shard _ _ _) as [st' r]. destruct H as (? & ? & ? & _). done.
Qed.

End Rate.

(** ** Arithmetic of one call: no wrap-around within the bounds *)

Record sane (limit window_ms cost now : Z) : Prop := mk_sane {
  sane_limit : 0 < limit < 2 ^ 52;
  sane_window : 0 < window_ms < 2 ^ 53;
  sane_cost : 0 < cost < 2 ^ 63;
  sane_now : 0 <= now < 2 ^ 63;
}.

Lemma weighted_previous_le prev elapsed window_ms :
  0 <= prev < 2 ^ 53 -> 0 <= elapsed <= window_ms -> 0 < window_ms < 2 ^ 53 ->
  0 <= weighted_previous prev elapsed window_ms <= prev.
Proof.
  intros Hp He Hw. unfold weighted_previous. apply trunc_at_most; [|done].
  replace prev with (prev * 1) at 1 by lia.
  apply mul_at_most; [by apply double_at_most| |lia..].
  apply one_minus_at_most, ratio_at_most; lia.
Qed.

(** At the beginning of a window all of the previous count counts. *)
Lemma weighted_previous_start prev window_ms :
  0 <= prev < 2 ^ 53 -> 0 < window_ms < 2 ^ 53 -> weighted_previous prev 0 window_ms = prev.
Proof.
  intros Hp Hw. unfold weighted_previous. rewrite one_minus_zero_ratio by done. rewrite mul_one by done. by apply trunc_double.
Qed.

(** ** Traces of requests with one limit and one window length *)

Record request := mkReq { q_now : Z; q_key : string; q_cost : Z }.

Fixpoint run_rates (std_hash : string -> Z) (limit window_ms : Z) (st : MemoryStore)
    (reqs : list request) : list (request * RateLimitResult) :=
  match reqs with
  | [] => []
  | q :: reqs =>
      let '(st, r) := RateLimit (Store := memory_store std_hash) (q_now q) st (q_key q)
                        limit window_ms (q_cost q) in
      (q, r) :: run_rates std_hash limit window_ms st reqs
  end.

(** The cost admitted for [key] in window [w]. *)
Definition admitted_one (window_ms : Z) (key : string) (w : Z) (h : request * RateLimitResult) : Z :=
  if bool_decide (q_key h.1 = key) && (q_now h.1 / window_ms =? w) && rr_allowed h.2
  then charge (q_cost h.1) else 0.
Definition admitted (window_ms : Z) (key : string) (w : Z)
    (hist : list (request * RateLimitResult)) : Z :=
  foldr (fun h n => admitted_one window_ms key w h + n) 0 hist.

(** The clock does not run backwards and every request is within bounds. *)
Fixpoint timely (limit window_ms last : Z) (reqs : list request) : Prop :=
  match reqs with
  | [] => True
  | q :: reqs => last <= q_now q /\ sane limit window_ms (charge (q_cost q)) (q_now q) /\
                 timely limit window_ms (q_now q) reqs
  end.

Section Trace.
Context (std_hash : string -> Z) (limit window_ms : Z).

(** What the record of a key says about the cost [adm w] admitted so far in each
    window [w]: it holds the costs of its window and of the one before; [last] is the
    latest clock reading. *)
Definition accounts (last : Z) (adm : Z -> Z) (o : option RateLimitRecord) : Prop :=
  (forall w, 0 <= adm w <= limit) /\
  match o with
  | None => forall w, adm w = 0
  | Some r =>
      let idx := rl_current_window_idx r in
      rl_window_ms r = window_ms /\ rl_expire_at_ms r = (idx + 2) * window_ms /\
      0 <= idx <= last / window_ms /\ rl_current_count r = adm idx /\
      rl_previous_count r = adm (idx - 1) /\ forall w, idx < w -> adm w = 0
  end.

Lemma next_deadline now : 0 < window_ms < 2 ^ 53 -> 0 <= now < 2 ^ 63 ->
  0 <= now / window_ms <= now /\ now < (now / window_ms + 1) * window_ms /\
  now / window_ms * window_ms <= now /\
  u64 (u64 (now / window_ms + 2) * window_ms) = (now / window_ms + 2) * window_ms.
Proof.
  intros Hw Hn. pose proof (Z.div_mod now window_ms ltac:(lia)) as Hd.
  pose proof (Z.mod_pos_bound now window_ms ltac:(lia)) as Hm.
  pose proof (Z.div_pos now window_ms ltac:(lia) ltac:(lia)).
  assert (now / window_ms <= now) by nia.
  split_and!; [lia|lia|lia|lia|]. rewrite (u64_id (_ + 2)) by lia. apply u64_id. nia.
Qed.

Lemma roll_accounts now last adm key o :
  0 < limit < 2 ^ 52 -> 0 < window_ms < 2 ^ 53 -> 0 <= last <= now -> now < 2 ^ 63 ->
  accounts last adm o ->
  accounts now adm (Some (rolled now key window_ms o)) /\
  rl_current_window_idx (rolled now key window_ms o) = now / window_ms.
Proof.
  intros Hl Hw Hn Hmax [Hadm Ho].
  destruct (next_deadline now Hw) as (Hi & Hup & Hlo & Hdl); [lia|].
  pose proof (Z.div_le_mono last now window_ms) as Hmono.
  destruct o as [r|]; simpl.
  2: { split; [|done]. split; [done|]. simpl. rewrite Hdl. split_and!; try done; lia. }
  destruct Ho as (E1 & E2 & Hidx & Hcur & Hprev & Hzero).
  assert (forall prev, prev = adm (now / window_ms - 1) -> rl_current_window_idx r < now / window_ms ->
    accounts now adm (Some (fresh_window r (now / window_ms) prev window_ms))) as Hfresh.
  { intros prev Hp Hlt. split; [done|]. simpl. rewrite Hdl.
    rewrite (Hzero (now / window_ms)) by lia. split_and!; try done; try lia.
    intros w Hw'. apply Hzero. lia. }
  unfold roll_window. destruct (rl_expired r now) eqn:Ex.
  { unfold rl_expired, IsExpired in Ex. bool_prop. rewrite E2 in *.
    assert (rl_current_window_idx r + 2 <= now / window_ms) by (apply Z.div_le_lower_bound; lia).
    split; [|done]. apply Hfresh; [symmetry; apply Hzero|]; lia. }
  rewrite E1, Z.eqb_refl. simpl.
  rewrite u64_id by lia.
  destruct (_ =? 1) eqn:?; bool_prop.
  { split; [|done]. apply Hfresh; [|lia]. rewrite Hcur. f_equal. lia. }
  destruct (1 <? _) eqn:?; bool_prop; [split; [|done]; apply Hfresh; [symmetry; apply Hzero|]; lia|].
  assert (rl_current_window_idx r = now / window_ms) as Heq by lia. split; [|done].
  split; [done|]. simpl. split_and!; try done; lia.
Qed.

(** The estimate of a record within bounds. *)
Lemma estimate_bounds now r :
  0 < limit < 2 ^ 52 -> 0 < window_ms < 2 ^ 53 ->
  0 <= rl_previous_count r <= limit -> 0 <= rl_current_count r <= limit ->
  exists wp, 0 <= wp <= rl_previous_count r /\
    estimated_count now window_ms r = wp + rl_current_count r.
Proof.
  intros Hl Hw Hp Hc. pose proof (Z.mod_pos_bound now window_ms ltac:(lia)).
  pose proof (weighted_previous_le (rl_previous_count r) (now mod window_ms) window_ms) as Hwp.
  exists (weighted_previous (rl_previous_count r) (now mod window_ms) window_ms).
  split; [apply Hwp; lia|]. unfold estimated_count. apply u64_id. lia.
Qed.

(** The costs that a key has been admitted, with one more request. *)
Definition with_request (adm : Z -> Z) (now cost : Z) (r : RateLimitResult) (w : Z) : Z :=
  (if (now / window_ms =? w) && rr_allowed r then cost else 0) + adm w.

Lemma rate_cell_accounts now last adm key cost o :
  sane limit window_ms cost now -> 0 <= last <= now -> accounts last adm o ->
  let '(o', r) := rate_cell now key limit window_ms cost o in
  let w := now / window_ms in
  accounts now (with_request adm now cost r) o' /\
  (rr_allowed r = true <->
   weighted_previous (adm (w - 1)) (now mod window_ms) window_ms + adm w + cost <= limit).
Proof.
  intros [Hl Hw Hc Hmax] Hn Ha.
  destruct (roll_accounts now last adm key o Hl Hw Hn ltac:(lia) Ha) as [[Hadm Hr] Hidx].
  unfold rate_cell. set (rec := rolled now key window_ms o) in *. rewrite Hidx in Hr.
  destruct Hr as (E1 & E2 & Hi & Hcur & Hprev & Hzero).
  pose proof (Hadm (now / window_ms)) as Hthis. pose proof (Hadm (now / window_ms - 1)) as Hbefore.
  pose proof (Z.mod_pos_bound now window_ms ltac:(lia)) as Hmod.
  assert (estimated_count now window_ms rec =
    weighted_previous (adm (now / window_ms - 1)) (now mod window_ms) window_ms + adm (now / window_ms)) as ->.
  { unfold estimated_count. rewrite Hprev, Hcur. apply u64_id.
    pose proof (weighted_previous_le (adm (now / window_ms - 1)) (now mod window_ms) window_ms). lia. }
  pose proof (weighted_previous_le (adm (now / window_ms - 1)) (now mod window_ms) window_ms
    ltac:(lia) ltac:(lia) ltac:(lia)) as Hwp.
  rewrite u64_id by lia. unfold accounts, with_request. destruct (_ <=? limit) eqn:?; bool_prop; simpl.
  - split; [|split; [lia|done]]. rewrite Hidx. rewrite Z.eqb_refl, u64_id by lia. simpl. split.
    + intros w. pose proof (Hadm w). destruct (_ =? w) eqn:?; bool_prop; subst; simpl; lia.
    + split_and!; try done; try lia.
      * destruct (_ =? now / window_ms - 1) eqn:?; bool_prop; [lia|done].
      * intros w Hw'. destruct (_ =? w) eqn:?; bool_prop; [lia|]. simpl. by apply Hzero.
  - split; [|split; [done|lia]]. rewrite Hidx, !andb_false_r. split.
    + intros w. rewrite andb_false_r. apply Hadm.
    + split_and!; try done; try lia. intros w Hw'. rewrite andb_false_r. by apply Hzero.
Qed.

(** The decision on every request of a trace, by the costs admitted before it. *)
Definition decided (adm : string -> Z -> Z) (hist : list (request * RateLimitResult)) : Prop :=
  forall before q r after, hist = before ++ (q, r) :: after ->
    let w := q_now q / window_ms in
    let admitted_in w := adm (q_key q) w + admitted window_ms (q_key q) w before in
    rr_allowed r = true <->
    weighted_previous (admitted_in (w - 1)) (q_now q mod window_ms) window_ms + admitted_in w +
      charge (q_cost q) <= limit.

Lemma run_rates_accounts reqs st last (adm : string -> Z -> Z) :
  wf_store std_hash st -> 0 <= last -> timely limit window_ms last reqs ->
  (forall k, accounts last (adm k) (cell std_hash ratesL st k)) ->
  let hist := run_rates std_hash limit window_ms st reqs in
  (forall k w, adm k w + admitted window_ms k w hist <= limit) /\ decided adm hist.
Proof.
  cbv zeta. revert st last adm. induction reqs as [|q reqs IH]; intros st last adm Hst Hl Ht Ha; simpl.
  { split; [|by intros [|? ?] ? ? ?]. intros k w. destruct (Ha k) as [Hk _]. specialize (Hk w). lia. }
  destruct Ht as (Hq & Hs & Ht). destruct Hs as [? ? ? ?] eqn:Es.
  pose proof (RateLimit_store std_hash (q_now q) st (q_key q) limit window_ms (q_cost q) Hst
    ltac:(lia) ltac:(lia)) as Hstep.
  destruct (RateLimit_ _ _ _ _ _ _ _) as [st' r]. destruct Hstep as (Hst' & Hr & Hcells).
  set (adm' := fun k w => admitted_one window_ms k w (q, r) + adm k w).
  pose proof (rate_cell_accounts (q_now q) last (adm (q_key q)) (q_key q) (charge (q_cost q)) _
    Hs ltac:(lia) (Ha (q_key q))) as Hc.
  destruct (rate_cell _ _ _ _ _ _) as [o' r'] eqn:Ecell. simpl in Hr. subst r'. destruct Hc as [Hc Hdec].
  assert (forall k', accounts (q_now q) (adm' k') (cell std_hash ratesL st' k')) as Ha'.
  { intros k'. rewrite Hcells. unfold adm', admitted_one. simpl. case_decide as E.
    - subst k'. rewrite bool_decide_eq_true_2 by done. exact Hc.
    - rewrite bool_decide_eq_false_2 by done. simpl. destruct (Ha k') as [H1 H2].
      split; [done|]. destruct (cell std_hash ratesL st k'); [|done].
      destruct H2 as (? & ? & ? & ? & ? & ?).
      pose proof (Z.div_le_mono last (q_now q) window_ms). simpl. split_and!; try done; lia. }
  destruct (IH st' (q_now q) adm' Hst' ltac:(lia) Ht Ha') as [Hcap Hall]. split.
  - intros k w. specialize (Hcap k w). unfold adm' in Hcap. simpl. lia.
  - intros [|[q1 r1] before] q2 r2 after [= -> -> E]; cbv zeta.
    + cbn [admitted foldr]. rewrite !Z.add_0_r. exact Hdec.
    + specialize (Hall before q2 r2 after E). cbv zeta in Hall. unfold adm' in Hall.
      assert (forall x y z : Z, x + (y + z) = y + x + z) as Hac by lia.
      unfold admitted. cbn [foldr].
      rewrite (Hac (adm (q_key q2) (q_now q2 / window_ms - 1))), (Hac (adm (q_key q2) (q_now q2 / window_ms))).
      exact Hall.
Qed.

(** C5: The rate limiter enforces its limit and slides.  On a new store, for every sequence
    of RateLimit calls on any keys with one limit and one window length, where the limit
    is positive and below 2^52, the window positive and below 2^53, every cost below 2^63
    (a cost of 0 counts as 1) and the clock below 2^63 and not running backwards: the
    total cost of the requests admitted for a key within any one aligned window is at
    most the limit; and a request is admitted exactly when its cost, plus the cost
    admitted for its key in its window before, plus the weighted cost admitted in the
    window before that, is at most the limit.  The weighted cost is never more than the
    cost, and all of it at the beginning of a window. *)
Theorem rate_limit_window_cap reqs :
  timely limit window_ms 0 reqs -> 0 < limit < 2 ^ 52 -> 0 < window_ms < 2 ^ 53 ->
  let hist := run_rates std_hash limit window_ms init_store reqs in
  (forall key w, admitted window_ms key w hist <= limit) /\
  (forall before q r after, hist = before ++ (q, r) :: after ->
     let w := q_now q / window_ms in
     let admitted_in w := admitted window_ms (q_key q) w before in
     rr_allowed r = true <->
     weighted_previous (admitted_in (w - 1)) (q_now q mod window_ms) window_ms + admitted_in w +
       charge (q_cost q) <= limit) /\
  (forall previous, 0 <= previous <= limit ->
     weighted_previous previous 0 window_ms = previous /\
     forall elapsed, 0 <= elapsed <= window_ms ->
       0 <= weighted_previous previous elapsed window_ms <= previous).
Proof.
  intros Ht Hl Hw. destruct (run_rates_accounts reqs init_store 0 (fun _ _ => 0) (wf_init_store std_hash)
    ltac:(lia) Ht) as [Hcap Hdec].
  { intros k. rewrite (init_cell std_hash ratesL) by constructor. split; [lia|done]. }
  split; [exact Hcap|]. split; [exact Hdec|]. intros previous Hp.
  split; [apply weighted_previous_start; lia|]. intros elapsed He. apply weighted_previous_le; lia.
Qed.

End Trace.

(** The record of [key] the next call at [now] works with. *)
Definition rate_record std_hash (now : Z) (st : MemoryStore) (key : string) (window_ms : Z) :
    RateLimitRecord :=
  rolled now key window_ms (cell std_hash ratesL st key).

(** One RateLimit call, on every branch.  With a record within bounds and no wrap-around, the
    load estimate lies between the current count and current + previous count; the request is
    admitted exactly when estimate + cost is within the limit, then the remaining budget is
    exact and the cost is added to the current count; otherwise the counts are unchanged, the
    remaining budget is limit - estimate (at least 0) and the retry hint is between 1 ms and
    the end of the window. *)
Theorem rate_limit_decision std_hash st now key limit window_ms cost :
  let rec := rate_record std_hash now st key window_ms in
  let est := estimated_count now window_ms rec in
  let r := RateLimit (Store := memory_store std_hash) now st key limit window_ms cost in
  wf_store std_hash st -> sane limit window_ms (charge cost) now ->
  0 <= rl_previous_count rec <= limit -> 0 <= rl_current_count rec <= limit ->
  rl_current_count rec <= est <= rl_current_count rec + rl_previous_count rec /\
  if est + charge cost <=? limit
  then r.2 = mkRateLimit true true (limit - est - charge cost) 0 "" "" /\
       cell std_hash ratesL r.1 key = Some (admit_cost rec (charge cost))
  else (exists retry, r.2 = mkRateLimit true false (Z.max 0 (limit - est)) retry "" "" /\
          retry = window_ms - now mod window_ms /\ 1 <= retry <= window_ms) /\
       cell std_hash ratesL r.1 key = Some rec.
Proof.
  intros rec est r Hw [Hl Hwin Hc Hn] Hp Hcur.
  destruct (estimate_bounds limit window_ms now rec Hl Hwin Hp Hcur) as (wp & Hwp & Hest).
  fold est in Hest. split; [lia|].
  pose proof (RateLimit_store std_hash now st key limit window_ms cost Hw ltac:(lia) ltac:(lia)) as H.
  unfold r. cbn [RateLimit memory_store]. destruct (RateLimit_ _ _ _ _ _ _ _) as [st' res].
  destruct H as (_ & -> & Hcell). specialize (Hcell key). rewrite decide_True in Hcell by done.
  cbn [fst snd]. rewrite Hcell. unfold rate_cell. fold (rate_record std_hash now st key window_ms).
  fold rec est. rewrite u64_id by lia. destruct (est + charge cost <=? limit) eqn:?; bool_prop; simpl.
  - split; [|done]. f_equal. lia.
  - pose proof (Z.mod_pos_bound now window_ms ltac:(lia)).
    split; [|done]. exists (window_ms - now mod window_ms). rewrite u64_id by lia.
    destruct (est <=? limit) eqn:?, (window_ms - now mod window_ms =? 0) eqn:?; bool_prop;
      (split; [f_equal; lia|lia]).
Qed.

(** the admission test adds the cost in 64 bits without a guard.  When the estimate of a key
    is positive, a request of cost 2^64 - estimate is admitted with the full budget
    remaining, whatever the limit is. *)
Theorem rate_limit_cost_wraps std_hash st now key limit window_ms :
  let est := estimated_count now window_ms (rate_record std_hash now st key window_ms) in
  let r := RateLimit (Store := memory_store std_hash) now st key limit window_ms (2 ^ 64 - est) in
  wf_store std_hash st -> 0 < limit -> 0 < window_ms -> 0 < est ->
  r.2 = mkRateLimit true true limit 0 "" "".
Proof.
  intros est r Hw Hl Hwin He.
  assert (est < 2 ^ 64) as Hest by apply u64_range.
  pose proof (RateLimit_store std_hash now st key limit window_ms (2 ^ 64 - est) Hw
    ltac:(lia) ltac:(lia)) as H.
  unfold r. cbn [RateLimit memory_store]. destruct (RateLimit_ _ _ _ _ _ _ _) as [st' res].
  destruct H as (_ & -> & _). cbn [snd]. unfold charge, rate_cell.
  fold (rate_record std_hash now st key window_ms). fold est.
  destruct (2 ^ 64 - est =? 0) eqn:?; bool_prop; [lia|].
  replace (est + (2 ^ 64 - est)) with (2 ^ 64) by lia. change (u64 (2 ^ 64)) with 0.
  destruct (0 <=? limit) eqn:?; bool_prop; [|lia]. simpl. f_equal. lia.
Qed.

(** ** Witnesses *)

Definition sample_reqs : list request :=
  [mkReq 1000 "a" 3; mkReq 1200 "b" 9; mkReq 1500 "a" 2; mkReq 2100 "a" 3; mkReq 2900 "a" 0].

Lemma rate_limit_window_cap_witness :
  (fun h => rr_allowed h.2) <$> run_rates length_hash 5 1000 init_store sample_reqs =
    [true; false; true; false; true] /\
  admitted 1000 "a" 1 (run_rates length_hash 5 1000 init_store sample_reqs) <= 5 /\
  weighted_previous 3 0 1000 = 3.
Proof.
  split; [vm_compute; reflexivity|].
  destruct (rate_limit_window_cap length_hash 5 1000 sample_reqs) as (Hcap & _ & Hprev); [|lia|lia|].
  - simpl. unfold charge. simpl. repeat split; lia.
  - split; [apply Hcap|]. apply Hprev. lia.
Defined.

Definition rated_store : MemoryStore :=
  (RateLimit (Store := memory_store length_hash) 1000 init_store "a" 5 1000 3).1.

Lemma rated_store_wf : wf_store length_hash rated_store.
Proof.
  pose proof (RateLimit_store length_hash 1000 init_store "a" 5 1000 3 (wf_init_store _)
    ltac:(lia) ltac:(lia)) as H.
  unfold rated_store. cbn [RateLimit memory_store]. destruct (RateLimit_ _ _ _ _ _ _ _). apply H.
Defined.

Lemma rate_limit_decision_witness :
  (RateLimit (Store := memory_store length_hash) 1500 rated_store "a" 5 1000 2).2 =
    mkRateLimit true true 0 0 "" "".
Proof.
  assert (sane 5 1000 (charge 2) 1500) as Hs by (split; vm_compute; done).
  destruct (rate_limit_decision length_hash rated_store 1500 "a" 5 1000 2 rated_store_wf Hs)
    as [_ H]; [vm_compute; done..|].
  match type of H with
  | (if ?b then _ else _) => assert (b = true) as E by (vm_compute; reflexivity); rewrite E in H
  end.
  destruct H as [H _]. rewrite H. vm_compute. reflexivity.
Defined.

Lemma rate_limit_cost_wraps_witness :
  (RateLimit (Store := memory_store length_hash) 1500 rated_store "a" 5 1000 (2 ^ 64 - 3)).2 =
    mkRateLimit true true 5 0 "" "".
Proof.
  assert (estimated_count 1500 1000 (rate_record length_hash 1500 rated_store "a" 1000) = 3) as E
    by (vm_compute; reflexivity).
  pose proof (rate_limit_cost_wraps length_hash rated_store 1500 "a" 5 1000 rated_store_wf) as H.
  rewrite E in H. apply H; lia.
Defined.
