(* ===== verification/Quota.v ===== *)
(** * Two-phase quota reservations: ReserveQuota, CommitQuota, RollbackQuota

    The quota of a key is split between its balance (the numeral stored in the
    entry of the key) and the amounts held by outstanding reservations.  The main
    theorem is conservation: reserving and rolling back move quota between the two
    parts, a commit takes exactly what was consumed, and the periodic purge gives
    expired reservations back.  The lemmas work on one shard; a step relation
    lifts them to traces of whole-store calls. *)
From S2P Require Import Prelude CStd HashTable Entry Store MemoryStore StoreWf KvStore KvTrace.

(** ** Reservation identifiers are unique *)

Fixpoint all_digits (s : string) : bool :=
  match s with "" => true | String c s => isdigit c && all_digits s end.

Lemma all_digits_app s t : all_digits (s +:+ t) = all_digits s && all_digits t.
Proof.
  induction s as [|c s IH]; [done|]. rewrite str_app_cons. simpl. by rewrite IH, andb_assoc.
Qed.

Lemma dec_all_digits f n : 0 <= n -> all_digits (dec_digits f n) = true.
Proof.
  revert n. induction f as [|f IH]; intros n Hn; [done|]. cbn [dec_digits].
  pose proof (Z.mod_pos_bound n 10 ltac:(lia)).
  assert (all_digits (String (byte_of_Z (48 + n mod 10)) "") = true) as Hd.
  { simpl. by rewrite isdigit_digit. }
  destruct (n <? 10); [done|]. rewrite all_digits_app, Hd, IH; [done|]. apply Z.div_pos; lia.
Qed.

Lemma split_underscore a b x y :
  all_digits a = true -> all_digits b = true ->
  a +:+ "_" +:+ x = b +:+ "_" +:+ y -> a = b /\ x = y.
Proof.
  change ("_" +:+ x) with (String "_" x). change ("_" +:+ y) with (String "_" y).
  revert b. induction a as [|c a IH]; intros [|d b] Ha Hb; rewrite ?str_app_nil_l, ?str_app_cons;
    intros [=]; subst; try done.
  simpl in Ha, Hb. bool_prop. destruct (IH b) as [-> ->]; done.
Qed.

Lemma reservation_id_inj t1 s1 t2 s2 :
  is_u64 t1 -> is_u64 s1 -> is_u64 t2 -> is_u64 s2 ->
  reservation_id t1 s1 = reservation_id t2 s2 -> t1 = t2 /\ s1 = s2.
Proof.
  intros Ht1 Hs1 Ht2 Hs2 He%str_app_inv_l.
  apply split_underscore in He as [H1%to_string_u64_inj H2%to_string_u64_inj];
    try done; rewrite to_string_u64 by done; apply dec_all_digits; lia.
Qed.

(** ** The amount held by the reservations of a key *)

Definition holding (k : string) (n : string * Reservation) : Z :=
  if bool_decide (rs_key n.2 = k) then rs_amount n.2 else 0.
Definition held_in (k : string) (l : list (string * Reservation)) : Z :=
  foldr (fun n z => holding k n + z) 0 l.
Definition held (sh : StorageShard) (k : string) : Z := held_in k (HT.nodes (reservations sh)).

#[export] Instance held_in_proper k : Proper ((≡ₚ) ==> (=)) (held_in k).
Proof. induction 1; simpl in *; lia. Qed.

Lemma held_in_nonneg k l : (forall n, n ∈ l -> 0 <= rs_amount n.2) -> 0 <= held_in k l.
Proof.
  induction l as [|n l IH]; intros Hl; simpl; [lia|].
  pose proof (Hl n ltac:(set_solver)). unfold holding.
  assert (0 <= held_in k l) by (apply IH; set_solver). destruct (bool_decide _); lia.
Qed.

Section Quota.
Context (std_hash : string -> Z).
Abbreviation FindE := (fun sh k => HT.Find std_hash (entries sh) k).
Abbreviation FindR := (fun sh id => HT.Find std_hash (reservations sh) id).

(** Every reservation of the shard was issued before sequence number [seq]. *)
Definition issued (seq : Z) (sh : StorageShard) : Prop :=
  forall id r, FindR sh id = Some r ->
    0 <= rs_amount r < 2 ^ 64 /\ exists t s, is_u64 t /\ 0 <= s < seq /\ id = reservation_id t s.

(** The key has a balance without deadline; balance and held amounts add up to [T]. *)
Definition funded (sh : StorageShard) (k : string) (T : Z) : Prop :=
  exists e b, FindE sh k = Some e /\ m_expire_at_ms (e_meta e) = 0 /\
    e_value e = to_string b /\ is_u64 b /\ b + held sh k = T /\ T < 2 ^ 64.

Lemma funded_frame sh sh' k T :
  FindE sh' k = FindE sh k -> held sh' k = held sh k -> funded sh k T -> funded sh' k T.
Proof. intros He Hh (e & b & ?). exists e, b. rewrite He, Hh. done. Qed.

Lemma held_nonneg seq sh k : HT.wf std_hash (reservations sh) -> issued seq sh -> 0 <= held sh k.
Proof.
  intros Hw Hi. apply held_in_nonneg. intros [id r] Hin. simpl.
  apply (HT.Find_Some std_hash) in Hin; [|done]. apply Hi in Hin. lia.
Qed.

Lemma held_erase sh k id r :
  HT.wf std_hash (reservations sh) -> FindR sh id = Some r ->
  held sh k = holding k (id, r) +
    held (set_reservations sh (HT.Erase std_hash (reservations sh) id).1) k.
Proof.
  intros Hw Hf. destruct (HT.Erase_nodes std_hash _ _ _ Hw Hf) as (_ & Hp & _).
  unfold held. rewrite Hp. done.
Qed.

Lemma held_insert sh k id r :
  HT.wf std_hash (reservations sh) -> FindR sh id = None ->
  held (set_reservations sh (HT.Insert std_hash (reservations sh) id r).1) k =
  holding k (id, r) + held sh k.
Proof.
  intros Hw Hf. destruct (HT.Insert_fresh std_hash _ id r Hw Hf) as (_ & _ & Hp).
  unfold held. simpl. rewrite Hp. done.
Qed.

(** ** Preservation of the shard invariant *)

Lemma wf_set_entries i sh t q :
  wf_shard std_hash i sh -> GetShard q = i -> HT.wf std_hash t ->
  (forall k v, k <> q -> HT.Find std_hash t k = Some v -> FindE sh k = Some v) ->
  wf_shard std_hash i (set_entries sh t).
Proof.
  intros Hw Hq Ht Hf. apply (lwf_set std_hash entriesL); [constructor|done..|].
  intros k v Hk. destruct (decide (k = q)) as [->|]; [done|].
  eapply (home_entries _ _ _ Hw). by apply Hf.
Qed.

Lemma wf_assign_entry i sh q e v :
  wf_shard std_hash i sh -> FindE sh q = Some e ->
  wf_shard std_hash i (set_entries sh (HT.Assign std_hash (entries sh) q v)).
Proof.
  intros Hw Hf. pose proof (wf_entries _ _ _ Hw) as He.
  apply (wf_set_entries _ _ _ q); [done|by eapply (home_entries _ _ _ Hw)|by eapply HT.Assign_map|].
  intros k w Hk. erewrite HT.Find_Assign by done. by rewrite decide_False.
Qed.

Lemma wf_insert_entry i sh q v :
  wf_shard std_hash i sh -> GetShard q = i ->
  wf_shard std_hash i (set_entries sh (HT.Insert std_hash (entries sh) q v).1).
Proof.
  intros Hw Hq. pose proof (wf_entries _ _ _ Hw) as He.
  apply (wf_set_entries _ _ _ q); [done..|by apply HT.Insert_map|].
  intros k w Hk. rewrite HT.Find_Insert by done. by rewrite decide_False.
Qed.

Lemma wf_erase_entry i sh q :
  wf_shard std_hash i sh ->
  wf_shard std_hash i (set_entries sh (HT.Erase std_hash (entries sh) q).1).
Proof.
  intros Hw. pose proof (wf_entries _ _ _ Hw) as He.
  apply (lwf_set std_hash entriesL); [constructor|done|by apply HT.Erase_map|].
  intros k w. rewrite HT.Find_Erase by done. case_decide; [done|]. apply (home_entries _ _ _ Hw).
Qed.

Lemma wf_find_live i sh now q :
  wf_shard std_hash i sh -> wf_shard std_hash i (find_live std_hash now sh q).1.
Proof.
  intros Hw. unfold find_live. destruct (HT.Find _ _ _) as [e|]; [|done].
  destruct (e_expired e now); [|done]. by apply wf_erase_entry.
Qed.

Lemma wf_erase_reservation i sh id :
  wf_shard std_hash i sh ->
  wf_shard std_hash i (set_reservations sh (HT.Erase std_hash (reservations sh) id).1).
Proof.
  intros Hw. pose proof (wf_res _ _ _ Hw) as He. destruct Hw. split; simpl; try done.
  - by apply HT.Erase_map.
  - intros id' r. rewrite HT.Find_Erase by done. case_decide; [done|]. auto.
Qed.

Lemma wf_insert_reservation i sh r :
  wf_shard std_hash i sh -> GetShard (rs_key r) = i ->
  wf_shard std_hash i
    (set_reservations sh (HT.Insert std_hash (reservations sh) (rs_id r) r).1).
Proof.
  intros Hw Hq. pose proof (wf_res _ _ _ Hw) as He. destruct Hw. split; simpl; try done.
  - by apply HT.Insert_map.
  - intros id' r'. rewrite HT.Find_Insert by done. case_decide; [|auto]. naive_solver.
Qed.

Lemma wf_write_balance i sh now q balance :
  wf_shard std_hash i sh -> GetShard q = i ->
  wf_shard std_hash i (write_balance std_hash now q (FindE sh q) balance sh).
Proof.
  intros Hw Hq. unfold write_balance. destruct (HT.Find _ _ _) as [e|] eqn:E.
  - by eapply wf_assign_entry.
  - by apply wf_insert_entry.
Qed.

Lemma wf_reserve i sh now seq q amount ttl :
  wf_shard std_hash i sh -> GetShard q = i ->
  wf_shard std_hash i (Reserve_body std_hash now seq q amount ttl sh).1.
Proof.
  intros Hw Hq. unfold Reserve_body. pose proof (wf_find_live i sh now q Hw) as Hl.
  destruct (find_live std_hash now sh q) as [sh1 [e|]] eqn:E; [|done]. simpl in Hl.
  destruct (stoull _) as [[b idx]|]; [|done]. destruct (negb _); [done|].
  destruct (b <? amount); [done|]. simpl.
  apply (wf_insert_reservation i (set_entries sh1 _)
           (mkReservation (reservation_id now seq) q amount now (u64 (now + ttl)))); [|done].
  apply (wf_assign_entry i sh1 q e); [done|]. unfold find_live in E.
  destruct (HT.Find std_hash (entries sh) q) as [e'|] eqn:F; [|done].
  destruct (e_expired e' now); by simplify_eq.
Qed.

Lemma wf_credit i sh q amount e :
  wf_shard std_hash i sh -> FindE sh q = Some e ->
  wf_shard std_hash i (set_entries sh (HT.Assign std_hash (entries sh) q (credit e amount))).
Proof. apply wf_assign_entry. Qed.

Lemma wf_commit i sh now q id actual :
  wf_shard std_hash i sh -> GetShard q = i ->
  wf_shard std_hash i (Commit_body std_hash now q id actual sh).1.
Proof.
  intros Hw Hq. unfold Commit_body. destruct (HT.Find std_hash (reservations sh) id) as [r|]; [|done].
  destruct (bool_decide _) eqn:Ek; simpl; [|done]. bool_prop. rewrite Ek.
  destruct (rs_expired r now); simpl.
  - destruct (HT.Find std_hash (entries sh) q) as [e|] eqn:F; [|by apply wf_erase_reservation].
    apply (wf_erase_reservation i (set_entries sh _)). by eapply wf_credit.
  - destruct (actual <=? rs_amount r); simpl; apply (wf_write_balance i (set_reservations sh _));
      by try apply wf_erase_reservation.
Qed.

Lemma wf_rollback i sh now q id :
  wf_shard std_hash i sh -> GetShard q = i ->
  wf_shard std_hash i (Rollback_body std_hash now q id sh).1.
Proof.
  intros Hw Hq. unfold Rollback_body. destruct (HT.Find std_hash (reservations sh) id) as [r|]; [|done].
  destruct (bool_decide _) eqn:Ek; simpl; [|done]. bool_prop. rewrite Ek.
  destruct (rs_expired r now); simpl; [by apply wf_erase_reservation|].
  apply (wf_write_balance i (set_reservations sh _)); [by apply wf_erase_reservation|done].
Qed.

(** ** Conservation, operation by operation *)

Lemma find_live_spec now sh q :
  HT.wf std_hash (entries sh) ->
  let '(sh1, o) := find_live std_hash now sh q in
  o = alive now (FindE sh q) /\ reservations sh1 = reservations sh /\
  HT.wf std_hash (entries sh1) /\
  forall k, FindE sh1 k = if decide (k = q) then o else FindE sh k.
Proof.
  intros Hw. unfold find_live, alive. destruct (HT.Find std_hash (entries sh) q) as [e|] eqn:E.
  - destruct (e_expired e now); split_and!; try done.
    + by apply HT.Erase_map.
    + intros k. by apply HT.Find_Erase.
    + intros k. by case_decide; subst.
  - split_and!; try done. intros k. by case_decide; subst.
Qed.

Lemma alive_forever now (o : option Entry) e :
  o = Some e -> m_expire_at_ms (e_meta e) = 0 -> alive now o = Some e.
Proof. intros -> He. unfold alive, e_expired. by rewrite He. Qed.

Lemma fresh_id seq sh now :
  issued seq sh -> is_u64 now -> is_u64 seq -> FindR sh (reservation_id now seq) = None.
Proof.
  intros Hi Hn Hs. destruct (HT.Find std_hash (reservations sh) (reservation_id now seq)) as [r|] eqn:E;
    [|done]. exfalso.
  destruct (Hi _ _ E) as (_ & t & s & Ht & Hlt & He).
  apply reservation_id_inj in He; lia.
Qed.

Lemma issued_mono seq seq' sh : seq <= seq' -> issued seq sh -> issued seq' sh.
Proof.
  intros Hle Hi id r Hf. destruct (Hi _ _ Hf) as (? & t & s & ? & ? & ?).
  split; [done|]. exists t, s. split_and!; try done; lia.
Qed.

Lemma issued_erase seq sh sh' id :
  HT.wf std_hash (reservations sh) -> issued seq sh ->
  reservations sh' = (HT.Erase std_hash (reservations sh) id).1 -> issued seq sh'.
Proof.
  intros Hw Hi E id' r. rewrite E, HT.Find_Erase by done. case_decide; [done|]. apply Hi.
Qed.

(** The balance of [q] moves from [b] to [b'] while [c] leaves the key and the rest
    is held by its reservations. *)
Lemma funded_update sh sh' q k T c e b e' b' :
  FindE sh q = Some e -> e_value e = to_string b -> is_u64 b ->
  FindE sh' q = Some e' -> m_expire_at_ms (e_meta e') = m_expire_at_ms (e_meta e) ->
  e_value e' = to_string b' -> is_u64 b' ->
  (forall k, k <> q -> FindE sh' k = FindE sh k /\ held sh' k = held sh k) ->
  b' + held sh' q = b + held sh q - c -> 0 <= c ->
  funded sh k T -> funded sh' k (T - if decide (k = q) then c else 0).
Proof.
  intros He Hv Hb He' Hx Hv' Hb' Hother Hsum Hc Hk. case_decide as E.
  - subst k. destruct Hk as (e0 & b0 & F1 & F2 & F3 & F4 & F5 & F6).
    rewrite He in F1. injection F1 as <-.
    assert (b0 = b) as -> by (apply to_string_u64_inj; congruence).
    exists e', b'. split_and!; try done; try congruence; lia.
  - rewrite Z.sub_0_r. destruct (Hother k E). by eapply funded_frame.
Qed.

Lemma held_other sh k id r :
  HT.wf std_hash (reservations sh) -> FindR sh id = Some r -> rs_key r <> k ->
  held (set_reservations sh (HT.Erase std_hash (reservations sh) id).1) k = held sh k.
Proof.
  intros Hw Hf Hne. rewrite (held_erase sh k id r) by done. unfold holding. simpl.
  by rewrite bool_decide_eq_false_2.
Qed.

Lemma reserve_conserves i sh now seq q amount ttl :
  wf_shard std_hash i sh -> issued seq sh -> is_u64 now -> is_u64 seq -> is_u64 amount ->
  let '(sh', (advanced, r)) := Reserve_body std_hash now seq q amount ttl sh in
  issued (if advanced : bool then seq + 1 else seq) sh' /\
  forall k T, funded sh k T -> funded sh' k T.
Proof.
  intros Hw Hi Hn Hs Ha. pose proof (wf_res _ _ _ Hw) as Hwr.
  unfold Reserve_body. pose proof (find_live_spec now sh q (wf_entries _ _ _ Hw)) as Hl.
  destruct (find_live std_hash now sh q) as [sh1 o]. destruct Hl as (Ho & Hres & Hw1 & Hf1).
  assert (issued seq sh1) as Hi1 by (unfold issued; by rewrite Hres).
  assert (forall k T, funded sh k T -> funded sh1 k T) as Hfr.
  { intros k T Hk. apply (funded_frame sh); [|by unfold held; rewrite Hres|done].
    destruct Hk as (e & b & F1 & F2 & _). cbn beta in *. rewrite Hf1. case_decide; [|done]. subst.
    by rewrite (alive_forever now _ e). }
  destruct o as [e|]; [|split_and!; done].
  destruct (stoull (e_value e)) as [[b idx]|] eqn:Est; [|split_and!; done].
  destruct (negb _) eqn:Eidx; [split_and!; done|].
  destruct (b <? amount) eqn:?; bool_prop; [split_and!; done|].
  set (res := mkReservation (reservation_id now seq) q amount now (u64 (now + ttl))).
  set (sh2 := set_entries sh1 _).
  assert (FindR sh2 (reservation_id now seq) = None) as Hfresh by by apply (fresh_id seq sh1).
  assert (HT.wf std_hash (reservations sh2)) as Hw2 by (simpl; by rewrite Hres).
  split_and!.
  - intros id r Hid. simpl in Hid. rewrite HT.Find_Insert in Hid by (simpl in Hw2; done).
    case_decide; [simplify_eq; simpl|].
    + split; [done|]. exists now, seq. split_and!; try done; lia.
    + apply (issued_mono seq (seq + 1)) in Hi1; [by apply Hi1|lia].
  - intros k T Hk%Hfr.
    assert (FindE sh1 q = Some e) as Hq by by rewrite Hf1, decide_True.
    assert (forall k, held (set_reservations sh2 (HT.Insert std_hash (reservations sh2)
              (reservation_id now seq) res).1) k = holding k (reservation_id now seq, res) + held sh1 k) as Hh.
    { intros k'. by rewrite held_insert by done. }
    destruct (decide (k = q)) as [->|Hne].
    + destruct Hk as (e0 & b0 & F1 & F2 & F3 & F4 & F5 & F6). rewrite Hq in F1. injection F1 as <-.
      rewrite F3, stoull_to_string in Est by done. injection Est as -> _.
      exists (set_value e (to_string (b - amount))), (b - amount).
      rewrite Hh. unfold holding. simpl. rewrite bool_decide_eq_true_2 by done.
      split_and!; try done; try lia. erewrite HT.Find_Assign by done. by rewrite decide_True.
    + apply (funded_frame sh1); [| |done].
      * simpl. erewrite HT.Find_Assign by done. by rewrite decide_False.
      * rewrite Hh. unfold holding. simpl. by rewrite bool_decide_eq_false_2 by auto.
Qed.

(** What a commit takes from the key: the actual amount, capped by what the
    reservation and the balance together provide. *)
Definition commit_charge (now : Z) (q id : string) (actual : Z) (sh : StorageShard) : Z :=
  match FindR sh id with
  | Some r =>
      if bool_decide (rs_key r = q) && negb (rs_expired r now)
      then Z.min actual (rs_amount r + (if rs_amount r <? actual then read_balance (FindE sh q) else actual))
      else 0
  | None => 0
  end.

Lemma find_write_balance now sh sh1 q k balance :
  HT.wf std_hash (entries sh) -> entries sh1 = entries sh ->
  FindE (write_balance std_hash now q (FindE sh q) balance sh1) k =
  if decide (k = q)
  then Some (match FindE sh q with
             | Some e => set_value e (to_string balance)
             | None => mkEntry q (to_string balance) (mkMeta DT_String now 0)
             end)
  else FindE sh k.
Proof.
  intros Hw He. unfold write_balance. destruct (HT.Find std_hash (entries sh) q) as [e|] eqn:E; simpl;
    rewrite He.
  - by erewrite HT.Find_Assign by done.
  - by rewrite HT.Find_Insert by done.
Qed.

Lemma write_balance_res now q o balance sh :
  reservations (write_balance std_hash now q o balance sh) = reservations sh.
Proof. by destruct o. Qed.

(** The reservation [r] of [q] leaves the shard and the balance of [q] becomes
    [b + rs_amount r - c]. *)
Lemma settle_funded seq sh sh' q id r c :
  HT.wf std_hash (reservations sh) -> issued seq sh -> FindR sh id = Some r -> rs_key r = q ->
  reservations sh' = (HT.Erase std_hash (reservations sh) id).1 ->
  (forall k, k <> q -> FindE sh' k = FindE sh k) -> 0 <= c ->
  (forall e b, FindE sh q = Some e -> e_value e = to_string b -> is_u64 b ->
     b + rs_amount r < 2 ^ 64 ->
     FindE sh' q = Some (set_value e (to_string (b + rs_amount r - c))) /\ c <= b + rs_amount r) ->
  forall k T, funded sh k T -> funded sh' k (T - if decide (k = q) then c else 0).
Proof.
  intros Hw Hi Hf Hr Hres Hother Hc Hq k T Hk.
  assert (forall k, held sh' k = held (set_reservations sh (HT.Erase std_hash (reservations sh) id).1) k)
    as Hh by (intros; unfold held; by rewrite Hres).
  case_decide as E.
  - subst k. destruct Hk as (e & b & F1 & F2 & F3 & F4 & F5 & F6).
    pose proof (held_erase sh q id r Hw Hf) as Hsum. rewrite <- Hh in Hsum.
    unfold holding in Hsum. simpl in Hsum. rewrite bool_decide_eq_true_2 in Hsum by done.
    destruct (Hi _ _ Hf) as [Hamt _].
    assert (0 <= held sh' q) as Hpos.
    { apply (held_nonneg seq); [rewrite Hres; by apply HT.Erase_map|by eapply issued_erase]. }
    destruct (Hq e b F1 F3 F4) as [Hq' Hcb]; [lia|].
    exists (set_value e (to_string (b + rs_amount r - c))), (b + rs_amount r - c).
    split_and!; try done; lia.
  - rewrite Z.sub_0_r. apply (funded_frame sh); [by apply Hother| |done].
    rewrite Hh. apply (held_other sh k id r); [done|done|]. by subst.
Qed.

Lemma read_balance_range o : is_u64 (read_balance o).
Proof.
  destruct o as [e|]; simpl; [|lia]. destruct (stoull (e_value e)) as [[b i]|] eqn:E; [|lia].
  by eapply stoull_range.
Qed.

Lemma read_balance_numeral e b :
  e_value e = to_string b -> is_u64 b -> read_balance (Some e) = b.
Proof. intros Hv Hb. simpl. by rewrite Hv, stoull_to_string. Qed.

Lemma credit_numeral e b a :
  e_value e = to_string b -> is_u64 b -> is_u64 (b + a) -> credit e a = set_value e (to_string (b + a)).
Proof. intros Hv Hb Ha. unfold credit. by rewrite Hv, stoull_to_string, u64_id. Qed.

Lemma commit_conserves i seq sh now q id actual :
  wf_shard std_hash i sh -> issued seq sh -> 0 <= actual < 2 ^ 64 ->
  let sh' := (Commit_body std_hash now q id actual sh).1 in
  issued seq sh' /\
  forall k T, funded sh k T ->
    funded sh' k (T - if decide (k = q) then commit_charge now q id actual sh else 0).
Proof.
  intros Hw Hi Hact. pose proof (wf_res _ _ _ Hw) as Hwr. pose proof (wf_entries _ _ _ Hw) as Hwe.
  unfold Commit_body, commit_charge.
  assert (forall k T, funded sh k T -> funded sh k (T - if decide (k = q) then 0 else 0)) as Hid.
  { intros. case_decide; by rewrite Z.sub_0_r. }
  destruct (HT.Find std_hash (reservations sh) id) as [r|] eqn:Hr; [|done].
  destruct (Hi _ _ Hr) as [Hamt _].
  destruct (bool_decide _) eqn:Ek; [|done]. bool_prop.
  destruct (rs_expired r now); cbn [negb andb fst].
  - rewrite Ek. set (sh1 := match HT.Find std_hash (entries sh) q with Some _ => _ | None => _ end).
    assert (reservations sh1 = reservations sh) as Hres1
      by (unfold sh1; by destruct (HT.Find std_hash (entries sh) q)).
    split; [eapply issued_erase; [exact Hwr|done|]; simpl; by rewrite Hres1|].
    apply (settle_funded seq sh _ q id r); try done; [simpl; by rewrite Hres1| |].
    + intros k Hk. simpl. unfold sh1. destruct (HT.Find std_hash (entries sh) q) eqn:E; [|done]. simpl.
      erewrite HT.Find_Assign by done. by rewrite decide_False.
    + intros e b He Hv Hb Hlt. simpl. unfold sh1. rewrite He. simpl.
      erewrite HT.Find_Assign by done. rewrite decide_True by done.
      rewrite (credit_numeral e b) by (done || lia). rewrite Z.sub_0_r. split; [done|lia].
  - rewrite Ek. set (sh1 := set_reservations sh _).
    set (bal := read_balance (HT.Find std_hash (entries sh1) q)).
    set (p := if actual <=? rs_amount r then _ else _).
    destruct p as [refunded balance] eqn:Ep. simpl.
    split; [eapply issued_erase; [exact Hwr|done|]; by rewrite write_balance_res|].
    apply (settle_funded seq sh _ q id r); try done; [by rewrite write_balance_res|..].
    + intros k Hk. pose proof (find_write_balance now sh sh1 q k balance Hwe eq_refl) as Hfw.
      cbn beta in Hfw. simpl in *. rewrite Hfw. by rewrite decide_False.
    + simpl. destruct (rs_amount r <? actual) eqn:?; bool_prop; [|lia].
      pose proof (read_balance_range (HT.Find std_hash (entries sh) q)). lia.
    + intros e b He Hv Hb Hlt.
      pose proof (find_write_balance now sh sh1 q q balance Hwe eq_refl) as Hfw.
      cbn beta in Hfw. simpl in *. rewrite Hfw, decide_True, He by done.
      unfold p, bal in Ep. rewrite He in Ep. rewrite (read_balance_numeral e b) in * by done.
      destruct (actual <=? rs_amount r) eqn:?, (rs_amount r <? actual) eqn:?; bool_prop;
        try lia; simplify_eq.
      * rewrite u64_id by lia. split; [|lia]. f_equal. f_equal. f_equal. lia.
      * split; [|lia]. f_equal. f_equal. f_equal.
        destruct (_ <=? b) eqn:?; bool_prop; lia.
Qed.

Lemma rollback_conserves i seq sh now q id :
  wf_shard std_hash i sh -> issued seq sh ->
  (forall r, FindR sh id = Some r -> rs_key r = q -> rs_expired r now = false) ->
  let sh' := (Rollback_body std_hash now q id sh).1 in
  issued seq sh' /\ forall k T, funded sh k T -> funded sh' k T.
Proof.
  intros Hw Hi Hlive. pose proof (wf_res _ _ _ Hw) as Hwr. pose proof (wf_entries _ _ _ Hw) as Hwe.
  unfold Rollback_body.
  destruct (HT.Find std_hash (reservations sh) id) as [r|] eqn:Hr; [|done].
  destruct (Hi _ _ Hr) as [Hamt _].
  destruct (bool_decide _) eqn:Ek; [|done]. bool_prop. rewrite (Hlive r) by done. rewrite Ek. simpl.
  split; [eapply issued_erase; [exact Hwr|done|]; by rewrite write_balance_res|].
  intros k T Hk. replace T with (T - if decide (k = q) then 0 else 0) by (case_decide; lia).
  set (sh1 := set_reservations sh _).
  apply (settle_funded seq sh _ q id r); try done; [by rewrite write_balance_res|..].
  - intros k' Hk'.
    pose proof (find_write_balance now sh sh1 q k' (u64 (read_balance (HT.Find std_hash (entries sh) q)
      + rs_amount r)) Hwe eq_refl) as Hfw. simpl in Hfw. rewrite Hfw. by rewrite decide_False.
  - intros e b He Hv Hb Hlt.
    pose proof (find_write_balance now sh sh1 q q (u64 (read_balance (HT.Find std_hash (entries sh) q)
      + rs_amount r)) Hwe eq_refl) as Hfw. simpl in Hfw. rewrite Hfw, decide_True by done.
    rewrite He, (read_balance_numeral e b), u64_id, Z.sub_0_r by (done || lia). split; [done|lia].
Qed.

End Quota.
