(* ===== verification/Purge.v ===== *)
(** * The background purge ([MemoryStore::PurgeExpired])

    Each shard erases up to [sample_limit] expired entries, gives up to
    [sample_limit] expired reservations back to their keys, and erases expired
    idempotency and rate-limit records.  The purge keeps the store invariant,
    removes only expired records, and conserves quota. *)
From S2P Require Import Prelude CStd HashTable Entry Store MemoryStore StoreWf KvStore KvTrace Quota.

Section Purge.
Context (std_hash : string -> Z).

(** ** Collecting and erasing keys *)

Section Table.
Context {V : Type} (limit : Z) (p : V -> bool).

Lemma collect_sub (t : HashTable string V) k :
  HT.wf std_hash t -> k ∈ collect limit p t ->
  exists v, HT.Find std_hash t k = Some v /\ p v = true.
Proof.
  intros Hw. unfold collect. rewrite HT.ForEach_nodes.
  enough (forall l acc, (forall kv, kv ∈ l -> kv ∈ HT.nodes t) ->
    (forall k, k ∈ acc -> exists v, HT.Find std_hash t k = Some v /\ p v = true) ->
    forall k, k ∈ foldl (fun acc kv => if (Z.of_nat (length acc) <? limit) && p kv.2
                                       then acc ++ [kv.1] else acc) acc l ->
    exists v, HT.Find std_hash t k = Some v /\ p v = true) as H.
  { apply H; [done|set_solver]. }
  induction l as [|[k' v'] l IH]; intros acc Hl Hacc; [done|]. simpl. apply IH; [set_solver|].
  destruct (_ && p v') eqn:E; [|done]. intros k0 [?| ->%list_elem_of_singleton]%elem_of_app; [auto|].
  bool_prop. exists v'. split; [|done]. apply HT.Find_Some; [done|]. apply Hl. set_solver.
Qed.

Lemma collect_length (t : HashTable string V) :
  0 <= limit -> Z.of_nat (length (collect limit p t)) <= limit.
Proof.
  intros Hl. unfold collect. rewrite HT.ForEach_nodes.
  enough (forall l (acc : list string), Z.of_nat (length acc) <= limit -> Z.of_nat (length
    (foldl (fun acc kv => if (Z.of_nat (length acc) <? limit) && p kv.2
                          then acc ++ [kv.1] else acc) acc l)) <= limit) as H.
  { apply H. simpl. lia. }
  induction l as [|kv l IH]; intros acc Hacc; simpl; [done|]. apply IH.
  destruct (_ <? limit) eqn:?; simpl; [|done]. bool_prop. destruct (p kv.2); [|done].
  rewrite length_app. simpl. lia.
Qed.

(** Below the sampling limit nothing that qualifies is left out. *)
Lemma collect_all (t : HashTable string V) k v :
  HT.wf std_hash t -> HT.Find std_hash t k = Some v -> p v = true ->
  Z.of_nat (length (collect limit p t)) < limit -> k ∈ collect limit p t.
Proof.
  intros Hw Hf Hp. apply HT.Find_Some in Hf; [|done]. revert Hf. unfold collect.
  rewrite HT.ForEach_nodes. generalize (HT.nodes t) as l.
  set (f := fun (acc : list string) (kv : string * V) =>
              if (Z.of_nat (length acc) <? limit) && p kv.2 then acc ++ [kv.1] else acc).
  assert (forall acc kv, f acc kv = acc \/ f acc kv = acc ++ [kv.1]) as Hf'.
  { intros. unfold f. destruct (_ && _); auto. }
  assert (forall l acc, (length acc <= length (foldl f acc l))%nat /\
                        forall x, x ∈ acc -> x ∈ foldl f acc l) as Hmono.
  { induction l as [|kv l IH]; intros acc; simpl; [done|]. destruct (IH (f acc kv)) as [H1 H2].
    destruct (Hf' acc kv) as [E|E]; rewrite E in *; [done|].
    rewrite length_app in H1. split; [lia|]. intros x Hx. apply H2. set_solver. }
  intros l. generalize (@nil string) as acc.
  induction l as [|kv l IH]; intros acc Hin Hlen; [set_solver|]. cbn [foldl] in *.
  apply elem_of_cons in Hin as [<-|Hin]; [|by apply IH].
  apply Hmono. unfold f. simpl. rewrite Hp.
  assert (Z.of_nat (length acc) < limit) as Hlt.
  { destruct (Hmono l (f acc (k, v))) as [H1 _].
    destruct (Hf' acc (k, v)) as [Ef|Ef]; rewrite Ef in H1, Hlen; [lia|].
    rewrite length_app in H1. cbn [length] in H1. lia. }
  destruct (_ <? limit) eqn:?; bool_prop; [|lia]. simpl. set_solver.
Qed.

Lemma erase_keys_spec (ks : list string) (t : HashTable string V) :
  HT.wf std_hash t ->
  HT.wf std_hash (erase_keys std_hash t ks) /\
  forall k, HT.Find std_hash (erase_keys std_hash t ks) k =
            if decide (k ∈ ks) then None else HT.Find std_hash t k.
Proof.
  unfold erase_keys. revert t. induction ks as [|k0 ks IH]; intros t Hw; simpl; [done|].
  destruct (IH (HT.Erase std_hash t k0).1) as [Hw' Hf]; [by apply HT.Erase_map|].
  split; [done|]. intros k. rewrite Hf, HT.Find_Erase by done.
  destruct (decide (k ∈ ks)), (decide (k = k0)), (decide (k ∈ k0 :: ks)); try done; set_solver.
Qed.

(** What a purged table keeps: everything but some records that satisfy [p]. *)
Lemma purged_table (t : HashTable string V) :
  HT.wf std_hash t ->
  let t' := erase_keys std_hash t (collect limit p t) in
  HT.wf std_hash t' /\
  forall k, HT.Find std_hash t' k = HT.Find std_hash t k \/
            HT.Find std_hash t' k = None /\ exists v, HT.Find std_hash t k = Some v /\ p v = true.
Proof.
  intros Hw. destruct (erase_keys_spec (collect limit p t) t Hw) as [Hw' Hf]. split; [done|].
  intros k. rewrite Hf. case_decide as Hin; [right|by left]. split; [done|].
  by apply collect_sub.
Qed.
End Table.

Abbreviation FindE := (fun sh k => HT.Find std_hash (entries sh) k).
Abbreviation FindR := (fun sh id => HT.Find std_hash (reservations sh) id).
Abbreviation conserves := (fun sh sh' => forall k T, funded std_hash sh k T -> funded std_hash sh' k T).

(** ** Giving one reservation back *)

Record gives_back (i : nat) (seq : Z) (keys : string -> Prop) (sh sh' : StorageShard) : Prop := {
  gb_wf : wf_shard std_hash i sh';
  gb_issued : issued std_hash seq sh -> issued std_hash seq sh';
  gb_conserves : issued std_hash seq sh -> conserves sh sh';
  gb_rates : rate_limits sh' = rate_limits sh;
  gb_idem : idempotency_records sh' = idempotency_records sh;
  gb_entries : forall k, ~ keys k -> FindE sh' k = FindE sh k;
  gb_res : forall id r, FindR sh' id = Some r -> FindR sh id = Some r;
}.

Lemma purge_reservation_spec i seq sh now id :
  wf_shard std_hash i sh ->
  gives_back i seq (fun k => exists r, FindR sh id = Some r /\ rs_key r = k)
    sh (purge_reservation std_hash now sh id).
Proof.
  intros Hw. pose proof (wf_res _ _ _ Hw) as Hwr. pose proof (wf_entries _ _ _ Hw) as Hwe.
  unfold purge_reservation. destruct (HT.Find std_hash (reservations sh) id) as [r|] eqn:Hr;
    [|by split].
  destruct (home_res _ _ _ Hw _ _ Hr) as [_ Hhome].
  set (sh1 := match HT.Find std_hash (entries sh) (rs_key r) with Some _ => _ | None => _ end).
  assert (wf_shard std_hash i sh1) as Hw1.
  { unfold sh1. destruct (HT.Find std_hash (entries sh) (rs_key r)) eqn:E.
    - by eapply wf_assign_entry.
    - by apply wf_insert_entry. }
  assert (reservations sh1 = reservations sh /\ rate_limits sh1 = rate_limits sh /\
          idempotency_records sh1 = idempotency_records sh) as (Hres1 & Hrt & Hid)
    by (unfold sh1; by destruct (HT.Find std_hash (entries sh) (rs_key r))).
  assert (forall k, k <> rs_key r -> FindE sh1 k = FindE sh k) as Hother.
  { intros k Hk. unfold sh1. destruct (HT.Find std_hash (entries sh) (rs_key r)) eqn:E; simpl.
    - erewrite HT.Find_Assign by done. by rewrite decide_False.
    - rewrite HT.Find_Insert by done. by rewrite decide_False. }
  assert (reservations (set_reservations sh1 (HT.Erase std_hash (reservations sh1) id).1) =
          (HT.Erase std_hash (reservations sh) id).1) as Hres' by (simpl; by rewrite Hres1).
  split; try done.
  - by apply wf_erase_reservation.
  - intros Hi. by eapply issued_erase.
  - intros Hi k T Hk. replace T with (T - if decide (k = rs_key r) then 0 else 0) by (case_decide; lia).
    apply (settle_funded std_hash seq sh _ (rs_key r) id r); try done.
    intros e b He Hv Hb Hlt. destruct (Hi _ _ Hr) as [Hamt _]. simpl. unfold sh1. rewrite He. simpl.
    erewrite HT.Find_Assign by done. rewrite decide_True by done.
    rewrite (credit_numeral e b) by (done || lia). rewrite Z.sub_0_r. split; [done|lia].
  - intros k Hk. apply Hother. intros ->. apply Hk. eauto.
  - intros id' r'. cbn beta. rewrite Hres', HT.Find_Erase by done. by case_decide.
Qed.

Lemma gives_back_trans i seq K1 K2 sh1 sh2 sh3 :
  gives_back i seq K1 sh1 sh2 -> gives_back i seq K2 sh2 sh3 ->
  gives_back i seq (fun k => K1 k \/ K2 k) sh1 sh3.
Proof.
  intros [] []. split; try done.
  - auto.
  - auto 10.
  - congruence.
  - congruence.
  - intros k Hk. cbn beta in *. rewrite gb_entries1, gb_entries0; auto.
  - auto.
Qed.

Lemma purge_reservations_spec i seq now ids sh :
  wf_shard std_hash i sh ->
  gives_back i seq (fun k => exists id r, id ∈ ids /\ FindR sh id = Some r /\ rs_key r = k)
    sh (foldl (purge_reservation std_hash now) sh ids).
Proof.
  revert sh. induction ids as [|id ids IH]; intros sh Hw; [by split|]. simpl.
  pose proof (purge_reservation_spec i seq sh now id Hw) as H1.
  specialize (IH _ (gb_wf _ _ _ _ _ H1)).
  destruct (gives_back_trans _ _ _ _ _ _ _ H1 IH). split; try done.
  intros k Hk. apply gb_entries0. intros [(r & ? & ?)|(id' & r & ? & ? & ?)]; apply Hk.
  - exists id, r. set_solver.
  - exists id', r. split_and!; [set_solver| |done]. by eapply (gb_res _ _ _ _ _ H1).
Qed.

(** ** One shard *)

Definition kept {V} (now : Z) (p : V -> Z -> bool) (t t' : HashTable string V) : Prop :=
  forall k, HT.Find std_hash t' k = HT.Find std_hash t k \/
            HT.Find std_hash t' k = None /\ exists v, HT.Find std_hash t k = Some v /\ p v now = true.

Record purged (i : nat) (seq now : Z) (sh sh' : StorageShard) : Prop := {
  pg_wf : wf_shard std_hash i sh';
  pg_issued : issued std_hash seq sh -> issued std_hash seq sh';
  pg_conserves : issued std_hash seq sh -> conserves sh sh';
  pg_rates : kept now rl_expired (rate_limits sh) (rate_limits sh');
  pg_idem : kept now id_expired (idempotency_records sh) (idempotency_records sh');
  pg_entries : forall k,
    (forall id r, FindR sh id = Some r -> rs_key r = k -> rs_expired r now = false) ->
    FindE sh' k = FindE sh k \/
    FindE sh' k = None /\ exists e, FindE sh k = Some e /\ e_expired e now = true;
  pg_res : forall id r, FindR sh' id = Some r -> FindR sh id = Some r;
}.

Lemma wf_purged_table {V} (L : Lens V) i sh limit (p : V -> bool) :
  keyed L -> wf_shard std_hash i sh ->
  wf_shard std_hash i (lset L sh (erase_keys std_hash (lget L sh) (collect limit p (lget L sh)))).
Proof.
  intros HL Hw. pose proof (lwf_get std_hash L i sh HL Hw) as Ht.
  destruct (purged_table limit p _ Ht) as [Ht' Hf]. apply lwf_set; [done..|].
  intros k v Hk. destruct (Hf k) as [E|[E _]]; rewrite E in Hk; [|done].
  by eapply (lhomed_get std_hash L).
Qed.

Lemma Purge_body_spec i seq now limit sh :
  wf_shard std_hash i sh -> purged i seq now sh (Purge_body std_hash now limit sh).1.
Proof.
  intros Hw. unfold Purge_body. cbv zeta. cbn [fst].
  set (p := fun e => e_expired e now).
  set (sh1 := set_entries sh _).
  assert (wf_shard std_hash i sh1) as Hw1 by (apply (wf_purged_table entriesL i sh limit p); [constructor|done]).
  destruct (purged_table limit p (entries sh) (wf_entries _ _ _ Hw)) as [_ Hf1].
  set (ids := collect limit (fun r => rs_expired r now) (reservations sh1)).
  pose proof (purge_reservations_spec i seq now ids sh1 Hw1) as [].
  set (sh2 := foldl _ sh1 ids) in *.
  set (sh3 := set_idempotency sh2 _).
  assert (wf_shard std_hash i sh3) as Hw3 by (apply (wf_purged_table idemL i sh2 limit (fun r => id_expired r now)); [constructor|done]).
  set (sh4 := set_rate_limits sh3 _).
  split.
  - apply (wf_purged_table ratesL i sh3 limit (fun r => rl_expired r now)); [constructor|done].
  - exact gb_issued0.
  - intros Hi k T Hk. apply (funded_frame std_hash sh2 sh4); [done..|].
    apply gb_conserves0; [done|]. apply (funded_frame std_hash sh sh1); [|done..].
    destruct Hk as (e & b & F1 & F2 & _). destruct (Hf1 k) as [E|(_ & e' & E & Hx)]; [done|].
    cbn beta in *. rewrite F1 in E. injection E as <-. unfold p, e_expired in Hx. by rewrite F2 in Hx.
  - intros k. change (rate_limits sh4) with (erase_keys std_hash (rate_limits sh3)
      (collect limit (fun r => rl_expired r now) (rate_limits sh3))).
    change (rate_limits sh3) with (rate_limits sh2). rewrite gb_rates0.
    apply (purged_table limit (fun r => rl_expired r now)). apply Hw.
  - intros k. change (idempotency_records sh4) with (erase_keys std_hash (idempotency_records sh2)
      (collect limit (fun r => id_expired r now) (idempotency_records sh2))). rewrite gb_idem0.
    apply (purged_table limit (fun r => id_expired r now)). apply Hw.
  - intros k Hk. change (entries sh4) with (entries sh2). rewrite gb_entries0; [apply Hf1|].
    intros (id & r & Hid & Hr & Hkey).
    apply collect_sub in Hid as (r' & Hr' & Hx); [|apply Hw1].
    cbn beta in *. rewrite Hr in Hr'. injection Hr' as <-. by rewrite (Hk id r) in Hx.
  - exact gb_res0.
Qed.

(** ** The whole store *)

Lemma PurgeExpired_shard now limit st i :
  wf_store std_hash st -> (i < kNumShards)%nat ->
  shard_at (PurgeExpired_ std_hash now st limit).1 i =
  (Purge_body std_hash now limit (shard_at st i)).1.
Proof.
  intros Hw Hi. unfold PurgeExpired_, shard_at at 1. cbn [fst shards_].
  rewrite !list_lookup_fmap, (shard_at_lookup std_hash) by done. done.
Qed.

Lemma PurgeExpired_wf now limit st :
  wf_store std_hash st -> wf_store std_hash (PurgeExpired_ std_hash now st limit).1.
Proof.
  intros Hw. pose proof (wf_shard_count _ _ Hw) as Hlen. split.
  - unfold PurgeExpired_. cbn [fst shards_]. by rewrite !length_fmap.
  - intros i sh. unfold PurgeExpired_. cbn [fst shards_]. rewrite !list_lookup_fmap.
    destruct (shards_ st !! i) as [sh0|] eqn:E; [|done]. intros [= <-].
    apply (pg_wf i 0 now sh0). apply Purge_body_spec. by apply (wf_shards _ _ Hw).
Qed.

Lemma purge_idem_cell now limit st k :
  wf_store std_hash st ->
  let st' := (PurgeExpired_ std_hash now st limit).1 in
  cell std_hash idemL st' k = cell std_hash idemL st k \/
  cell std_hash idemL st' k = None /\
  exists r, cell std_hash idemL st k = Some r /\ id_expired r now = true.
Proof.
  intros Hw st'. unfold cell. unfold st'. rewrite PurgeExpired_shard by (done || apply GetShard_lt).
  apply (pg_idem (GetShard k) 0 now), Purge_body_spec.
  apply (wf_shard_at std_hash); [done|apply GetShard_lt].
Qed.

Lemma purge_entry_cell now limit st k :
  wf_store std_hash st ->
  (forall id r, HT.Find std_hash (reservations (shard_at st (GetShard k))) id = Some r ->
     rs_key r = k -> rs_expired r now = false) ->
  let st' := (PurgeExpired_ std_hash now st limit).1 in
  cell std_hash entriesL st' k = cell std_hash entriesL st k \/
  cell std_hash entriesL st' k = None /\
  exists e, cell std_hash entriesL st k = Some e /\ e_expired e now = true.
Proof.
  intros Hw Hr st'. unfold cell. unfold st'. rewrite PurgeExpired_shard by (done || apply GetShard_lt).
  apply (pg_entries (GetShard k) 0 now); [|done]. apply Purge_body_spec.
  apply (wf_shard_at std_hash); [done|apply GetShard_lt].
Qed.

(** C27: the background purge is invisible to readers.  PurgeExpired at time now, with any sample
    limit, keeps the store invariant; afterwards a GET at any later time answers as without
    the purge for every key without an expired reservation, and a record a caller can still
    see (not expired at now) in the idempotency table stays as it is. *)
Theorem purge_invisible st now limit now' k :
  wf_store std_hash st -> now <= now' ->
  (forall id r, HT.Find std_hash (reservations (shard_at st (GetShard k))) id = Some r ->
     rs_key r = k -> rs_expired r now = false) ->
  let st' := (PurgeExpired (Store := memory_store std_hash) now st limit).1 in
  wf_store std_hash st' /\
  (Get (Store := memory_store std_hash) now' st' k).2 =
    (Get (Store := memory_store std_hash) now' st k).2 /\
  (forall r, cell std_hash idemL st k = Some r -> id_expired r now = false ->
     cell std_hash idemL st' k = Some r).
Proof.
  intros Hw Hle Hres st'. change st' with (PurgeExpired_ std_hash now st limit).1. clear st'.
  pose proof (PurgeExpired_wf now limit st Hw) as Hw'. split_and!; [done| |].
  - rewrite !(get_result (H0 := memory_kv std_hash)) by done. f_equal. cbn [kv_at memory_kv].
    destruct (purge_entry_cell now limit st k Hw Hres) as [->|(-> & e & -> & Hx)]; [done|].
    unfold alive, e_expired in *. by rewrite (IsExpired_mono _ now now').
  - intros r Hr Hx.
    destruct (purge_idem_cell now limit st k Hw) as [->|(-> & r' & Hr' & Hx')]; congruence.
Qed.

End Purge.

Lemma purge_invisible_witness :
  (Get (Store := memory_store length_hash) 1500
     (PurgeExpired (Store := memory_store length_hash) 1200 sample_store 20).1 "counter").2 = Some "41".
Proof.
  destruct (purge_invisible length_hash sample_store 1200 20 1500 "counter") as (_ & H & _).
  - apply sample_store_wf.
  - lia.
  - intros id r H.
    assert (HT.nodes (reservations (shard_at sample_store (GetShard "counter"))) = []) as E
      by (vm_compute; reflexivity).
    apply HT.Find_Some in H; [|apply (wf_shard_at length_hash); [apply sample_store_wf|apply GetShard_lt]].
    rewrite E in H. by destruct (proj1 (elem_of_nil _) H).
  - rewrite H. vm_compute. reflexivity.
Defined.
