(* ===== verification/Ledger.v ===== *)
(** * Quota conservation over traces of whole-store calls

    The step relation runs ReserveQuota, CommitQuota, RollbackQuota and the
    background PurgeExpired on arbitrary keys in any order; its label is what the
    step consumed of one key's quota.  A rollback of a reservation that already
    expired is excluded: the theorem [rollback_expired_loses_quota] shows what the
    code does then. *)
From S2P Require Import Prelude CStd HashTable Entry Store MemoryStore StoreWf KvStore KvTrace Quota Purge.

Section Ledger.
Context (std_hash : string -> Z).
#[local] Abbreviation mReserve := (ReserveQuota (Store := memory_store std_hash)).
#[local] Abbreviation mCommit := (CommitQuota (Store := memory_store std_hash)).
#[local] Abbreviation mRollback := (RollbackQuota (Store := memory_store std_hash)).
#[local] Abbreviation mPurge := (PurgeExpired (Store := memory_store std_hash)).

Definition home (st : MemoryStore) (q : string) : StorageShard := shard_at st (GetShard q).

(** The store invariant, and every reservation was issued by the counter. *)
Definition ledger (st : MemoryStore) : Prop :=
  wf_store std_hash st /\ 0 <= next_reservation_seq_ st /\
  forall i, (i < kNumShards)%nat -> issued std_hash (next_reservation_seq_ st) (shard_at st i).

(** Balance plus held reservations of [k]. *)
Definition quota_total (st : MemoryStore) (k : string) (T : Z) : Prop :=
  funded std_hash (home st k) k T.

Inductive quota_step (k : string) : MemoryStore -> Z -> MemoryStore -> Prop :=
| q_reserve st now q amount ttl :
    is_u64 now -> is_u64 amount -> next_reservation_seq_ st < 2 ^ 64 - 1 ->
    quota_step k st 0 (mReserve now st q amount ttl).1
| q_commit st now q id actual :
    is_u64 actual ->
    quota_step k st
      (if decide (k = q) then commit_charge std_hash now q id actual (home st q) else 0)
      (mCommit now st q id actual).1
| q_rollback st now q id :
    (forall r, HT.Find std_hash (reservations (home st q)) id = Some r -> rs_key r = q ->
       rs_expired r now = false) ->
    quota_step k st 0 (mRollback now st q id).1
| q_purge st now limit : quota_step k st 0 (mPurge now st limit).1.

Inductive quota_steps (k : string) : MemoryStore -> Z -> MemoryStore -> Prop :=
| qs_refl st : quota_steps k st 0 st
| qs_step st c st1 c' st2 :
    quota_step k st c st1 -> quota_steps k st1 c' st2 -> quota_steps k st (c + c') st2.

(** A change of one shard, with the counter moving from the store's to [seq']. *)
Lemma put_ledger st q sh' seq' idem (c : string -> Z) :
  ledger st -> next_reservation_seq_ st <= seq' ->
  wf_shard std_hash (GetShard q) sh' -> issued std_hash seq' sh' ->
  (forall k T, funded std_hash (home st q) k T -> funded std_hash sh' k (T - c k)) ->
  (forall k, GetShard k <> GetShard q -> c k = 0) ->
  let st' := mkStore (shards_ (put_shard st (GetShard q) sh')) seq' idem in
  ledger st' /\ forall k T, quota_total st k T -> quota_total st' k (T - c k).
Proof.
  intros (Hw & Hs & Hi) Hle Hwsh Hish Hc Hc0 st'.
  assert (forall i, shard_at st' i = shard_at (put_shard st (GetShard q) sh') i) as Hat by done.
  pose proof (GetShard_lt q) as Hq.
  split; [split_and!|].
  - destruct (wf_put_shard std_hash st (GetShard q) sh' Hw Hwsh). split; done.
  - simpl. lia.
  - intros i Hlt. rewrite Hat, (shard_at_put std_hash) by done. case_decide; [by subst|].
    simpl. eapply issued_mono; [done|]. by apply Hi.
  - intros k T. unfold quota_total, home. rewrite Hat, (shard_at_put std_hash) by done.
    case_decide as E.
    + intros Hk. apply Hc. unfold home. by rewrite <- E.
    + by rewrite Hc0, Z.sub_0_r.
Qed.

Lemma store_eta st q sh' :
  mkStore (shards_ (put_shard st (GetShard q) sh')) (next_reservation_seq_ st)
    (next_idempotency_seq_ st) = put_shard st (GetShard q) sh'.
Proof. done. Qed.

Lemma quota_step_ledger k st c st' :
  quota_step k st c st' -> ledger st ->
  ledger st' /\ forall T, quota_total st k T -> quota_total st' k (T - c).
Proof.
  destruct 1 as [st now q amount ttl Hn Ha Hs|st now q id actual Hact|st now q id Hlive|st now limit];
    intros HL; pose proof HL as (Hw & Hs0 & Hi).
  - pose proof (wf_shard_at std_hash st _ Hw (GetShard_lt q)) as Hsh.
    pose proof (Hi _ (GetShard_lt q)) as Hiq.
    simpl. unfold ReserveQuota_. assert (forall T, T - 0 = T) as H0 by lia.
    destruct (amount =? 0); [split; [done|]; intros; by rewrite H0|].
    destruct (ttl =? 0); [split; [done|]; intros; by rewrite H0|].
    pose proof (wf_reserve std_hash _ _ now (next_reservation_seq_ st) q amount ttl Hsh eq_refl) as Hwf.
    pose proof (reserve_conserves std_hash _ _ now (next_reservation_seq_ st) q amount ttl Hsh Hiq Hn
      ltac:(lia) Ha) as Hcons.
    unfold on_shard. destruct (Reserve_body _ _ _ _ _ _ _) as [sh' [adv r]].
    destruct Hcons as [Hiss Hcons]. cbn [fst snd put_shard next_reservation_seq_ shards_ next_idempotency_seq_] in *.
    destruct (put_ledger st q sh' (if adv : bool then next_reservation_seq_ st + 1
      else next_reservation_seq_ st) (next_idempotency_seq_ st) (fun _ => 0)) as [H1 H2]; try done.
    { destruct adv; lia. }
    { intros k' T Hk'. rewrite H0. by apply Hcons. }
    destruct adv; cbn [put_shard shards_] in *; [rewrite u64_id by lia|]; split; done || apply H2.
  - pose proof (wf_shard_at std_hash st _ Hw (GetShard_lt q)) as Hsh.
    pose proof (Hi _ (GetShard_lt q)) as Hiq. simpl. unfold on_shard.
    pose proof (wf_commit std_hash _ _ now q id actual Hsh eq_refl) as Hwf.
    destruct (commit_conserves std_hash _ _ _ now q id actual Hsh Hiq Hact) as [Hiss Hcons].
    fold (home st q) in *. destruct (Commit_body _ _ _ _ _ _) as [sh' r]. cbn [fst] in *.
    destruct (put_ledger st q sh' (next_reservation_seq_ st) (next_idempotency_seq_ st)
      (fun k => if decide (k = q) then commit_charge std_hash now q id actual (home st q) else 0))
      as [H1 H2]; try done.
    { intros k' Hne. case_decide; [by subst|done]. }
    rewrite store_eta in *. split; [done|]. intros T HT. by apply (H2 k T).
  - pose proof (wf_shard_at std_hash st _ Hw (GetShard_lt q)) as Hsh.
    pose proof (Hi _ (GetShard_lt q)) as Hiq. simpl. unfold on_shard.
    pose proof (wf_rollback std_hash _ _ now q id Hsh eq_refl) as Hwf.
    destruct (rollback_conserves std_hash _ _ _ now q id Hsh Hiq Hlive) as [Hiss Hcons].
    destruct (Rollback_body _ _ _ _ _) as [sh' r]. cbn [fst] in *.
    destruct (put_ledger st q sh' (next_reservation_seq_ st) (next_idempotency_seq_ st) (fun _ => 0))
      as [H1 H2]; try done.
    { intros k' T Hk'. rewrite Z.sub_0_r. by apply Hcons. }
    rewrite store_eta in *. split; [done|]. intros T HT. by apply (H2 k T).
  - assert (forall i, (i < kNumShards)%nat -> purged std_hash i (next_reservation_seq_ st) now
      (shard_at st i) (shard_at (mPurge now st limit).1 i)) as Hp.
    { intros i Hlt. change (mPurge now st limit) with (PurgeExpired_ std_hash now st limit).
      rewrite PurgeExpired_shard by done. apply Purge_body_spec.
      by apply (wf_shard_at std_hash). }
    split; [split_and!|].
    + by apply PurgeExpired_wf.
    + done.
    + intros i Hlt. by apply (pg_issued _ _ _ _ _ _ (Hp i Hlt)), Hi.
    + intros T HT. rewrite Z.sub_0_r. pose proof (GetShard_lt k) as Hk.
      apply (pg_conserves _ _ _ _ _ _ (Hp _ Hk)); [by apply Hi|done].
Qed.

Lemma quota_steps_ledger k st c st' :
  quota_steps k st c st' -> ledger st ->
  ledger st' /\ forall T, quota_total st k T -> quota_total st' k (T - c).
Proof.
  induction 1 as [st|st c st1 c' st2 Hstep _ IH]; intros HL.
  - split; [done|]. intros T. by rewrite Z.sub_0_r.
  - destruct (quota_step_ledger _ _ _ _ Hstep HL) as [HL1 H1]. destruct (IH HL1) as [HL2 H2].
    split; [done|]. intros T HT. replace (T - (c + c')) with (T - c - c') by lia. auto.
Qed.

Lemma init_ledger : ledger init_store.
Proof.
  split_and!; [apply wf_init_store|done|]. intros i _. rewrite shard_at_init. intros id r.
  simpl. by rewrite New_none.
Qed.

(** Key-value operations do not touch reservations. *)
Lemma kv_ledger {A} st q (body : StorageShard -> StorageShard * A) f :
  local_op std_hash entriesL q body f -> ledger st -> ledger (on_shard st q body).1.
Proof.
  intros Hl (Hw & Hs & Hi). pose proof (local_op_store std_hash entriesL q body f st keyed_entries Hl Hw) as H.
  destruct (on_shard st q body) as [st' r]. destruct H as (Hw' & _ & _ & t' & ->).
  split_and!; [done|done|]. intros i Hlt. simpl.
  rewrite (shard_at_put std_hash) by (done || apply GetShard_lt). case_decide; [|by apply Hi].
  subst i. intros id r0. by apply (Hi (GetShard q)).
Qed.

(** C4: Quota is conserved for a key without a time to live.  Let the key have no deadline, let
    its value be the decimal numeral of a 64-bit balance as the server writes it, and let the
    balance plus the amounts of its outstanding reservations be T, with T below 2^64; let the
    store satisfy its invariant with every reservation issued by its counter.  Then after any
    sequence of ReserveQuota, CommitQuota, RollbackQuota and PurgeExpired calls on any keys, at
    any times (64-bit clock readings and amounts; the reservation counter does not wrap; no
    rollback of a reservation that has expired and is not purged yet), the key still has no
    deadline and a 64-bit balance, and balance and outstanding reservations add up to T minus
    exactly what the commits on that key consumed: nothing is lost or granted twice. *)
Theorem quota_conserved k st c st' T :
  ledger st -> quota_steps k st c st' -> quota_total st k T ->
  ledger st' /\ quota_total st' k (T - c).
Proof.
  intros HL Hs HT. destruct (quota_steps_ledger _ _ _ _ Hs HL) as [HL' H]. auto.
Qed.

Lemma reserve_result st now q amount ttl e b :
  wf_store std_hash st -> amount <> 0 -> ttl <> 0 ->
  alive now (cell std_hash entriesL st q) = Some e ->
  stoull (e_value e) = Some (b, String.length (e_value e)) ->
  (mReserve now st q amount ttl).2 =
  if b <? amount then mkReserve true false "" b "INSUFFICIENT_QUOTA" "insufficient quota balance"
  else mkReserve true true (reservation_id now (next_reservation_seq_ st)) (b - amount) "" "".
Proof.
  intros Hw Ha Ht He Hv. simpl. unfold ReserveQuota_.
  destruct (amount =? 0) eqn:?; bool_prop; [done|]. destruct (ttl =? 0) eqn:?; bool_prop; [done|].
  unfold on_shard, Reserve_body.
  pose proof (find_live_spec std_hash now (shard_at st (GetShard q)) q
    (wf_entries _ _ _ (wf_shard_at std_hash st _ Hw (GetShard_lt q)))) as Hl.
  destruct (find_live _ _ _ _) as [sh1 o]. destruct Hl as (-> & _).
  change (HT.Find std_hash (entries (shard_at st (GetShard q))) q) with (cell std_hash entriesL st q).
  rewrite He, Hv, Nat.eqb_refl. cbn [negb]. by destruct (b <? amount).
Qed.

Lemma total_balance st k T :
  ledger st -> quota_total st k T -> exists e b, cell std_hash entriesL st k = Some e /\
    (forall now, alive now (cell std_hash entriesL st k) = Some e) /\
    stoull (e_value e) = Some (b, String.length (e_value e)) /\
    b + held (home st k) k = T /\ is_u64 b.
Proof.
  intros (Hw & _ & Hi) (e & b & F1 & F2 & F3 & F4 & F5 & F6). exists e, b. split_and!; try done; try lia.
  - intros now. by apply alive_forever.
  - by rewrite F3, stoull_to_string.
Qed.

(** A reservation is granted exactly when the balance covers it.  On a funded key with
    balance b, ReserveQuota of a positive amount with a positive ttl succeeds iff
    amount <= b; it then reports b - amount as remaining, and otherwise it reports
    INSUFFICIENT_QUOTA with the balance b; the total of balance and reservations is unchanged
    either way. *)
Theorem reserve_exact st now k amount ttl T :
  ledger st -> quota_total st k T -> is_u64 now -> 0 < amount < 2 ^ 64 -> 0 < ttl ->
  next_reservation_seq_ st < 2 ^ 64 - 1 ->
  let b := T - held (home st k) k in
  let r := mReserve now st k amount ttl in
  (if b <? amount
   then r.2 = mkReserve true false "" b "INSUFFICIENT_QUOTA" "insufficient quota balance"
   else r.2 = mkReserve true true (reservation_id now (next_reservation_seq_ st)) (b - amount) "" "") /\
  quota_total r.1 k T.
Proof.
  intros HL HT Hn Ha Ht Hs b r. destruct (total_balance st k T HL HT) as (e & b0 & _ & He & Hv & Hb & _).
  assert (b = b0) as -> by (unfold b; lia). split.
  - unfold r. rewrite (reserve_result st now k amount ttl e b0) by (apply HL || done || lia).
    by destruct (b0 <? amount).
  - destruct (quota_step_ledger k st 0 r.1 ltac:(constructor; (done || lia)) HL) as [_ H].
    specialize (H T HT). by rewrite Z.sub_0_r in H.
Qed.

(** reservation ids are never reused.  The id a successful ReserveQuota returns is not the
    id of any outstanding reservation of any shard. *)
Theorem reservation_id_fresh st now k amount ttl i :
  ledger st -> is_u64 now -> next_reservation_seq_ st < 2 ^ 64 -> (i < kNumShards)%nat ->
  let r := (mReserve now st k amount ttl).2 in
  rv_reserved r = true ->
  HT.Find std_hash (reservations (shard_at st i)) (rv_reservation_id r) = None.
Proof.
  intros (Hw & Hs0 & Hi) Hn Hs Hlt r Hr. revert Hr. unfold r. simpl. unfold ReserveQuota_.
  destruct (amount =? 0); [done|]. destruct (ttl =? 0); [done|].
  unfold on_shard, Reserve_body. destruct (find_live _ _ _ _) as [sh1 [e|]]; [|done].
  destruct (stoull _) as [[b idx]|]; [|done]. destruct (negb _); [done|].
  destruct (b <? amount); [done|]. simpl. intros _.
  apply (fresh_id std_hash (next_reservation_seq_ st)); [by apply Hi|done|lia].
Qed.

(** rolling back an expired reservation destroys quota.  RollbackQuota of a reservation whose
    deadline has passed but which the purge has not reached answers rolled_back with the full
    refund, but the balance is not credited: the total of balance and reservations drops by
    the reserved amount. *)
Theorem rollback_expired_loses_quota st now k id r T :
  ledger st -> quota_total st k T ->
  HT.Find std_hash (reservations (home st k)) id = Some r -> rs_key r = k ->
  rs_expired r now = true ->
  let res := mRollback now st k id in
  rb_rolled_back res.2 = true /\ rb_refunded res.2 = rs_amount r /\
  rb_remaining res.2 = T - held (home st k) k /\
  quota_total res.1 k (T - rs_amount r).
Proof.
  intros HL HT Hf Hk Hx res. pose proof HL as (Hw & _ & Hi).
  destruct (total_balance st k T HL HT) as (e & b & Hc & _ & Hv & Hb & _).
  unfold res. cbn [RollbackQuota memory_store]. unfold on_shard, Rollback_body. fold (home st k).
  rewrite Hf, bool_decide_eq_true_2 by done. rewrite Hx. cbn [negb].
  change (HT.Find std_hash (entries (set_reservations (home st k) _)) ?q) with
    (HT.Find std_hash (entries (home st k)) q).
  assert (read_balance (HT.Find std_hash (entries (home st k)) (rs_key r)) = b) as Hrb.
  { rewrite Hk. change (HT.Find std_hash (entries (home st k)) k) with (cell std_hash entriesL st k).
    rewrite Hc. simpl. by rewrite Hv. }
  simpl. rewrite Hrb. split_and!; try done; [lia|].
  unfold quota_total, home at 1. rewrite (shard_at_put std_hash) by (done || apply GetShard_lt).
  rewrite decide_True by done.
  pose proof (wf_shard_at std_hash st _ Hw (GetShard_lt k)) as Hsh.
  pose proof (held_erase std_hash (home st k) k id r (wf_res _ _ _ Hsh) Hf) as Hh.
  unfold holding in Hh. simpl in Hh. rewrite bool_decide_eq_true_2 in Hh by done.
  destruct (Hi _ (GetShard_lt k) _ _ Hf) as [Hamt _].
  destruct HT as (e0 & b0 & F1 & F2 & F3 & F4 & F5 & F6).
  exists e0, b0. split_and!; try done; lia.
Qed.

(** a negative counter is an almost unlimited quota.  std::stoull accepts a leading minus and
    negates modulo 2^64, so on a key that holds the numeral of -d, as DECRBY on an absent key
    leaves it, ReserveQuota grants any amount up to 2^64 - d. *)
Theorem negative_balance_reserves st now k d amount ttl :
  wf_store std_hash st -> (Exists (Store := memory_store std_hash) now st k).2 = false ->
  0 < d < 2 ^ 63 -> 0 < amount <= 2 ^ 64 - d -> 0 < ttl ->
  let st1 := (IncrBy (Store := memory_store std_hash) now st k (- d) 0).1 in
  rv_reserved (mReserve now st1 k amount ttl).2 = true /\
  rv_remaining (mReserve now st1 k amount ttl).2 = 2 ^ 64 - d - amount.
Proof.
  intros Hw Hex Hd Ha Ht st1.
  destruct (kv_exists (KvStore := memory_kv std_hash) st now k Hw) as (_ & Hr & _).
  rewrite Hex in Hr. simpl in Hr.
  destruct (kv_incr (KvStore := memory_kv std_hash) st now k (- d) 0 Hw) as (Hw1 & _ & Hk).
  specialize (Hk k). rewrite decide_True in Hk by done. simpl in Hk.
  unfold incr_cell in Hk. destruct (alive now (cell std_hash entriesL st k)); [done|].
  set (e := mkEntry k (to_string (- d)) (mkMeta DT_String now (deadline now 0))) in *.
  assert (stoull (e_value e) = Some (2 ^ 64 - d, String.length (e_value e))) as Hv.
  { simpl. unfold to_string, stoull. destruct (- d <? 0) eqn:?; bool_prop; [|lia].
    rewrite strto_neg_digits, Z.opp_involutive by lia.
    destruct (d <? 2 ^ 64) eqn:?; bool_prop; [|lia]. f_equal. f_equal.
    unfold u64. rewrite <- (Z.mod_add (- d) 1) by lia. rewrite Z.mod_small; lia. }
  rewrite (reserve_result st1 now k amount ttl e (2 ^ 64 - d)); try done; try lia.
  - destruct (2 ^ 64 - d <? amount) eqn:?; bool_prop; [lia|]. simpl. lia.
  - unfold st1. simpl. rewrite Hk. done.
Qed.

End Ledger.

(** ** Witnesses: a key with a quota of 100, and a reservation of 30 of it *)

Definition quota_store : MemoryStore :=
  (Set_ (Store := memory_store length_hash) 1000 init_store "tokens" "100" Always 0).1.
Definition reserved_store : MemoryStore :=
  (ReserveQuota (Store := memory_store length_hash) 2000 quota_store "tokens" 30 500).1.

Lemma quota_store_ledger : ledger length_hash quota_store.
Proof.
  apply (kv_ledger length_hash init_store "tokens" _ _ (Set_local length_hash 1000 "tokens" "100" Always 0)).
  apply init_ledger.
Defined.

Lemma quota_store_total : quota_total length_hash quota_store "tokens" 100.
Proof.
  exists (mkEntry "tokens" "100" (mkMeta DT_String 1000 0)), 100.
  split_and!; try (vm_compute; reflexivity); vm_compute; done.
Defined.

Lemma reserved_store_ledger :
  ledger length_hash reserved_store /\ quota_total length_hash reserved_store "tokens" (100 - 0).
Proof.
  destruct (quota_step_ledger length_hash "tokens" quota_store 0 reserved_store) as [HL HT].
  - apply q_reserve; vm_compute; done.
  - apply quota_store_ledger.
  - split; [exact HL|]. apply HT. apply quota_store_total.
Defined.

Lemma quota_conserved_witness :
  ledger length_hash (CommitQuota (Store := memory_store length_hash) 2100 reserved_store "tokens"
                        "res_2000_1" 20).1 /\
  quota_total length_hash (CommitQuota (Store := memory_store length_hash) 2100 reserved_store "tokens"
                        "res_2000_1" 20).1 "tokens" 80.
Proof.
  apply (quota_conserved length_hash "tokens" quota_store (0 + (20 + 0)) _ 100).
  - apply quota_store_ledger.
  - eapply qs_step; [apply (q_reserve _ _ _ 2000 "tokens" 30 500); vm_compute; done|].
    eapply qs_step; [|apply qs_refl].
    pose proof (q_commit length_hash "tokens" reserved_store 2100 "tokens" "res_2000_1" 20) as H.
    replace (if decide ("tokens" = "tokens") then _ else _) with 20 in H by (vm_compute; reflexivity).
    apply H. lia.
  - apply quota_store_total.
Defined.

Lemma reserve_exact_witness :
  (ReserveQuota (Store := memory_store length_hash) 2100 reserved_store "tokens" 71 500).2 =
    mkReserve true false "" 70 "INSUFFICIENT_QUOTA" "insufficient quota balance".
Proof.
  destruct reserved_store_ledger as [HL HT].
  destruct (reserve_exact length_hash reserved_store 2100 "tokens" 71 500 _ HL HT) as [H _];
    [lia..|vm_compute; done|].
  assert (held (home reserved_store "tokens") "tokens" = 30) as E by (vm_compute; reflexivity).
  rewrite E in H. exact H.
Defined.

Lemma reservation_id_fresh_witness :
  HT.Find length_hash (reservations (shard_at reserved_store (GetShard "tokens"))) "res_2100_2" = None.
Proof.
  pose proof (reservation_id_fresh length_hash reserved_store 2100 "tokens" 7 500 (GetShard "tokens")) as H.
  assert (rv_reserved (ReserveQuota (Store := memory_store length_hash) 2100 reserved_store
            "tokens" 7 500).2 = true) as Hr by (vm_compute; reflexivity).
  assert (rv_reservation_id (ReserveQuota (Store := memory_store length_hash) 2100 reserved_store
            "tokens" 7 500).2 = "res_2100_2") as Hid by (vm_compute; reflexivity).
  cbv zeta in H. rewrite Hid in H.
  apply H; [apply reserved_store_ledger|lia|vm_compute; done|apply GetShard_lt|exact Hr].
Defined.

Lemma rollback_expired_loses_quota_witness :
  rb_refunded (RollbackQuota (Store := memory_store length_hash) 9000 reserved_store "tokens" "res_2000_1").2 = 30 /\
  quota_total length_hash
    (RollbackQuota (Store := memory_store length_hash) 9000 reserved_store "tokens" "res_2000_1").1 "tokens" 70.
Proof.
  destruct reserved_store_ledger as [HL HT].
  destruct (rollback_expired_loses_quota length_hash reserved_store 9000 "tokens" "res_2000_1"
    (mkReservation "res_2000_1" "tokens" 30 2000 2500) _ HL HT) as (_ & H1 & _ & H2);
    [vm_compute; reflexivity..|].
  split; [exact H1|exact H2].
Defined.

Lemma negative_balance_reserves_witness :
  rv_reserved (ReserveQuota (Store := memory_store length_hash) 10
    (IncrBy (Store := memory_store length_hash) 10 init_store "q" (-5) 0).1 "q" 1000000 1000).2 = true.
Proof.
  apply (negative_balance_reserves length_hash init_store 10 "q" 5 1000000 1000);
    [apply wf_init_store|vm_compute; reflexivity|lia..].
Defined.
