(* ===== verification/Idem.v ===== *)
(** * Idempotency records: IdemBegin, IdemComplete, IdemFail, IdemGet

    A record is a small state machine: absent, in progress under an owner token,
    completed with a cached response, or failed.  The trace theorems state what
    callers rely on: one execution at a time, a stable replay after completion,
    and no interference by callers that do not hold the owner's token. *)
From S2P Require Import Prelude CStd HashTable Entry Store MemoryStore StoreWf KvTrace.

(** ** The state machine of one record *)

Definition alive_idem (now : Z) (o : option IdempotencyRecord) : option IdempotencyRecord :=
  match o with Some r => if id_expired r now then None else Some r | None => None end.

Definition begin_cell now seq key hash ttl token (o : option IdempotencyRecord) :
    option IdempotencyRecord * (bool * IdempotencyBeginResult) :=
  let tok := if is_nil token then idem_token now seq else token in
  match alive_idem now o with
  | None => (Some (mkIdem key hash IS_InProgress 0 "" tok now (deadline now ttl)),
             (is_nil token, mkBegin true IA_Execute tok 0 "" "" ""))
  | Some r =>
      if negb (bool_decide (id_request_hash r = hash))
      then (Some r, (false, mkBegin false IA_Conflict "" 0 "" "ERR_IDEMPOTENCY_CONFLICT"
                              "Request hash mismatch for idempotency key"))
      else match id_status r with
      | IS_InProgress =>
          (Some r, (false, mkBegin true
             (if negb (is_nil token) && bool_decide (id_owner_token r = token)
              then IA_Execute else IA_Park) (id_owner_token r) 0 "" "" ""))
      | IS_Completed => (Some r, (false, mkBegin true IA_Replay (id_owner_token r)
                           (id_response_code r) (id_response_body r) "" ""))
      | IS_Failed =>
          (Some (mkIdem (id_key r) (id_request_hash r) IS_InProgress 0 "" tok now (deadline now ttl)),
           (is_nil token, mkBegin true IA_Execute tok 0 "" "" ""))
      | IS_None => (Some r, (false, mkBegin false IA_Conflict "" 0 "" "ERR_UNKNOWN_STATUS"
                               "Unknown idempotency status"))
      end
  end.

(** The outcome of the ownership guards of IdemComplete and IdemFail. *)
Definition owner_guard now token (o : option IdempotencyRecord) :
    option IdempotencyRecord * (IdempotencyRecord + string * string) :=
  match o with
  | None => (None, inr ("ERR_NOT_FOUND", "Idempotency record not found"))
  | Some r =>
      if id_expired r now then (None, inr ("ERR_EXPIRED", "Idempotency record has expired"))
      else if negb (is_nil token) && negb (bool_decide (id_owner_token r = token))
      then (Some r, inr ("ERR_TOKEN_MISMATCH", "Owner token mismatch"))
      else (Some r, inl r)
  end.

Definition complete_cell now token code body (o : option IdempotencyRecord) :
    option IdempotencyRecord * IdempotencyCompleteResult :=
  match owner_guard now token o with
  | (o, inr (c, m)) => (o, mkComplete false false c m)
  | (o, inl r) =>
      if bool_decide (id_status r = IS_Completed) then (o, mkComplete true true "" "")
      else (Some (mkIdem (id_key r) (id_request_hash r) IS_Completed code body
                    (id_owner_token r) (id_created_at_ms r) (id_expire_at_ms r)),
            mkComplete true true "" "")
  end.

Definition fail_cell now token msg (o : option IdempotencyRecord) :
    option IdempotencyRecord * IdempotencyFailResult :=
  match owner_guard now token o with
  | (o, inr (c, m)) => (o, mkFail false false c m)
  | (_, inl r) =>
      (Some (mkIdem (id_key r) (id_request_hash r) IS_Failed (id_response_code r) msg
               (id_owner_token r) (id_created_at_ms r) (id_expire_at_ms r)),
       mkFail true true "" "")
  end.

Definition idem_get_cell now (o : option IdempotencyRecord) :
    option IdempotencyRecord * option IdempotencyRecord :=
  (alive_idem now o, alive_idem now o).

Section Local.
Context (std_hash : string -> Z).
#[local] Abbreviation local := (local_op std_hash idemL).

Ltac idem_step :=
  match goal with
  | |- local_at _ _ _ ?a (fun sh => (sh, _)) _ => apply (local_ret std_hash idemL); constructor
  | |- local_at _ _ _ _ (fun sh => (set_idempotency sh (HT.Assign _ _ _ _), _)) _ =>
      apply (local_assign std_hash idemL)
  | |- local_at _ _ _ _ (fun sh => (set_idempotency sh (HT.Insert _ _ _ _).1, _)) _ =>
      apply (local_insert std_hash idemL)
  | |- local_at _ _ _ _ (fun sh => (set_idempotency sh (HT.Erase _ _ _).1, _)) _ =>
      apply (local_erase std_hash idemL)
  end.

Lemma find_live_idem_local now k a :
  local_at std_hash idemL k a (fun sh => find_live_idem std_hash now sh k) (idem_get_cell now a).
Proof.
  apply (local_find std_hash idemL k a (fun o sh => match o with
    | None => (sh, None)
    | Some r => if id_expired r now
                then (set_idempotency sh (HT.Erase std_hash (idempotency_records sh) k).1, None)
                else (sh, Some r) end)).
  unfold idem_get_cell. destruct a as [r|]; simpl; [|idem_step].
  destruct (id_expired r now); idem_step.
Qed.

Lemma IdemGet_local now k : local k (IdemGet_body std_hash now k) (idem_get_cell now).
Proof. intros a. apply find_live_idem_local. Qed.

Lemma Begin_local now seq k hash ttl token :
  local k (Begin_body std_hash now seq k hash ttl token) (begin_cell now seq k hash ttl token).
Proof.
  intros a. unfold Begin_body. eapply (local_bind std_hash idemL); [constructor|apply find_live_idem_local|].
  unfold begin_cell. destruct (alive_idem now a) as [r|]; simpl; [|idem_step].
  destruct (negb (bool_decide (id_request_hash r = hash))); [idem_step|].
  destruct (id_status r); try idem_step. destruct (negb _ && _); idem_step.
Qed.

Lemma owned_local now k token a :
  local_at std_hash idemL k a (fun sh => owned_record std_hash now sh k token) (owner_guard now token a).
Proof.
  apply (local_find std_hash idemL k a (fun o sh => match o with
    | None => (sh, inr ("ERR_NOT_FOUND", "Idempotency record not found"))
    | Some r =>
        if id_expired r now then
          (set_idempotency sh (HT.Erase std_hash (idempotency_records sh) k).1,
           inr ("ERR_EXPIRED", "Idempotency record has expired"))
        else if negb (is_nil token) && negb (bool_decide (id_owner_token r = token)) then
          (sh, inr ("ERR_TOKEN_MISMATCH", "Owner token mismatch"))
        else (sh, inl r) end)).
  unfold owner_guard. destruct a as [r|]; simpl; [|idem_step].
  destruct (id_expired r now); [idem_step|]. destruct (_ && _); idem_step.
Qed.

Lemma owner_guard_inl now token a o r : owner_guard now token a = (o, inl r) -> o = Some r.
Proof. unfold owner_guard. destruct a as [r'|]; [|done]. split_ifs. by intros [= <- <-]. Qed.

Lemma Complete_local now k token code body :
  local k (Complete_body std_hash now k token code body) (complete_cell now token code body).
Proof.
  intros a. unfold Complete_body, complete_cell. pose proof (owned_local now k token a) as Hl.
  destruct (owner_guard now token a) as [o [r|[c m]]] eqn:E;
    (eapply (local_bind std_hash idemL k a o _ _ (fun x sh => match x with
       | inr (c, m) => (sh, mkComplete false false c m)
       | inl r => if bool_decide (id_status r = IS_Completed) then (sh, mkComplete true true "" "")
           else (set_idempotency sh (HT.Assign std_hash (idempotency_records sh) k
             (mkIdem (id_key r) (id_request_hash r) IS_Completed code body
                (id_owner_token r) (id_created_at_ms r) (id_expire_at_ms r))),
                 mkComplete true true "" "") end)); [constructor|exact Hl|]).
  - apply owner_guard_inl in E as ->. destruct (bool_decide _); idem_step.
  - cbv iota. idem_step.
Qed.

Lemma Fail_local now k token msg :
  local k (Fail_body std_hash now k token msg) (fail_cell now token msg).
Proof.
  intros a. unfold Fail_body, fail_cell. pose proof (owned_local now k token a) as Hl.
  destruct (owner_guard now token a) as [o [r|[c m]]] eqn:E;
    (eapply (local_bind std_hash idemL k a o _ _ (fun x sh => match x with
       | inr (c, m) => (sh, mkFail false false c m)
       | inl r => (set_idempotency sh (HT.Assign std_hash (idempotency_records sh) k
             (mkIdem (id_key r) (id_request_hash r) IS_Failed (id_response_code r) msg
                (id_owner_token r) (id_created_at_ms r) (id_expire_at_ms r))),
                 mkFail true true "" "") end)); [constructor|exact Hl|]).
  - apply owner_guard_inl in E as ->. cbv iota. idem_step.
  - cbv iota. idem_step.
Qed.

End Local.

(** ** Traces *)

Inductive idem_op :=
| IBegin (now : Z) (hash : string) (ttl : Z) (token : string)
| IComplete (now : Z) (token : string) (code : Z) (body : string)
| IFail (now : Z) (token msg : string)
| IGet (now : Z).

Inductive idem_res :=
| RBegin (r : IdempotencyBeginResult) | RComplete (r : IdempotencyCompleteResult)
| RFail (r : IdempotencyFailResult) | RGet (r : option IdempotencyRecord).

Definition op_time (o : idem_op) : Z :=
  match o with IBegin t _ _ _ | IComplete t _ _ _ | IFail t _ _ | IGet t => t end.

Definition run_idem (std_hash : string -> Z) (st : MemoryStore) (ko : string * idem_op) :
    MemoryStore * idem_res :=
  let '(k, o) := ko in
  match o with
  | IBegin now hash ttl token =>
      let '(st, r) := IdemBegin (Store := memory_store std_hash) now st k hash ttl token in (st, RBegin r)
  | IComplete now token code body =>
      let '(st, r) := IdemComplete (Store := memory_store std_hash) now st k token code body in
      (st, RComplete r)
  | IFail now token msg =>
      let '(st, r) := IdemFail (Store := memory_store std_hash) now st k token msg in (st, RFail r)
  | IGet now =>
      let '(st, r) := IdemGet (Store := memory_store std_hash) now st k in (st, RGet r)
  end.

Fixpoint run_idems (std_hash : string -> Z) (st : MemoryStore) (ops : list (string * idem_op)) :
    MemoryStore * list (string * idem_op * idem_res) :=
  match ops with
  | [] => (st, [])
  | o :: ops =>
      let '(st, r) := run_idem std_hash st o in
      let '(st, rs) := run_idems std_hash st ops in (st, (o, r) :: rs)
  end.

(** The same operation on the record of its key. *)
Definition idem_cell (seq : Z) (k : string) (o : idem_op) (c : option IdempotencyRecord) :
    option IdempotencyRecord * idem_res :=
  match o with
  | IBegin now hash ttl token =>
      let '(c, (_, r)) := begin_cell now seq k hash ttl token c in (c, RBegin r)
  | IComplete now token code body =>
      let '(c, r) := complete_cell now token code body c in (c, RComplete r)
  | IFail now token msg => let '(c, r) := fail_cell now token msg c in (c, RFail r)
  | IGet now => let '(c, r) := idem_get_cell now c in (c, RGet r)
  end.

Section Trace.
Context (std_hash : string -> Z).

Lemma run_idem_store st k o :
  wf_store std_hash st ->
  let '(st', r) := run_idem std_hash st (k, o) in
  wf_store std_hash st' /\
  r = (idem_cell (next_idempotency_seq_ st) k o (cell std_hash idemL st k)).2 /\
  forall k', cell std_hash idemL st' k' =
    if decide (k' = k) then (idem_cell (next_idempotency_seq_ st) k o (cell std_hash idemL st k)).1
    else cell std_hash idemL st k'.
Proof.
  intros Hw. destruct o as [now hash ttl token|now token code body|now token msg|now]; simpl.
  - unfold IdemBegin_. pose proof (local_op_store std_hash idemL k _ _ st keyed_idem
      (Begin_local std_hash now (next_idempotency_seq_ st) k hash ttl token) Hw) as H.
    destruct (on_shard _ _ _) as [st' [adv r]]. destruct H as (Hw' & Hr & Hc & _).
    destruct (begin_cell _ _ _ _ _ _ _) as [c [adv' r']]. simpl in *. simplify_eq.
    split_and!; [|done|exact Hc]. by destruct Hw'.
  - pose proof (local_op_store std_hash idemL k _ _ st keyed_idem
      (Complete_local std_hash now k token code body) Hw) as H.
    destruct (on_shard _ _ _) as [st' r]. destruct H as (? & -> & ? & _).
    by destruct (complete_cell _ _ _ _ _).
  - pose proof (local_op_store std_hash idemL k _ _ st keyed_idem
      (Fail_local std_hash now k token msg) Hw) as H.
    destruct (on_shard _ _ _) as [st' r]. destruct H as (? & -> & ? & _).
    by destruct (fail_cell _ _ _ _).
  - pose proof (local_op_store std_hash idemL k _ _ st keyed_idem (IdemGet_local std_hash now k) Hw) as H.
    destruct (on_shard _ _ _) as [st' r]. by destruct H as (? & -> & ? & _).
Qed.

(** [r] is the live record of an execution that [token] owns. *)
Definition owned (hash token : string) (dl : Z) (r : IdempotencyRecord) : Prop :=
  id_request_hash r = hash /\ id_owner_token r = token /\ id_expire_at_ms r = dl /\
  (id_status r = IS_InProgress \/ id_status r = IS_Completed).

(** Before the deadline, and not a failure report that carries the owner's token or none. *)
Definition benign (token : string) (dl : Z) (o : idem_op) : Prop :=
  IsExpired dl (op_time o) = false /\
  match o with IFail _ t _ => t <> "" /\ t <> token | _ => True end.

(** What a caller learns while [token] owns the record. *)
Definition excluded (hash token : string) (o : idem_op) (res : idem_res) : Prop :=
  match o, res with
  | IBegin _ h _ t, RBegin r =>
      (ib_action r = IA_Execute -> t = token /\ t <> "" /\ h = hash) /\
      (h <> hash -> ib_action r = IA_Conflict)
  | IFail _ _ _, RFail r => if_failed r = false
  | _, _ => True
  end.

Lemma is_nil_false t : t <> "" -> is_nil t = false.
Proof. by destruct t. Qed.

Lemma owned_cell seq k hash token dl o r :
  owned hash token dl r -> benign token dl o ->
  exists r', (idem_cell seq k o (Some r)).1 = Some r' /\ owned hash token dl r' /\
    (id_status r = IS_Completed -> r' = r) /\
    excluded hash token o (idem_cell seq k o (Some r)).2 /\
    match o, (idem_cell seq k o (Some r)).2 with
    | IBegin _ h _ _, RBegin b => h = hash -> id_status r = IS_Completed ->
        b = mkBegin true IA_Replay token (id_response_code r) (id_response_body r) "" ""
    | _, _ => True
    end.
Proof.
  intros Ho [Hlive Hfail]. pose proof Ho as (Hh & Ht & Hd & Hs).
  assert (forall now, now = op_time o -> id_expired r now = false) as Hx.
  { intros now ->. unfold id_expired. by rewrite Hd. }
  destruct o as [now h ttl t|now t code body|now t msg|now]; simpl in *.
  - unfold begin_cell, alive_idem. rewrite Hx by done. destruct (bool_decide _) eqn:Eh; bool_prop; simpl.
    + destruct Hs as [Hs|Hs]; rewrite Hs; simpl; exists r; split_and!; try done.
      * destruct (negb (is_nil t) && bool_decide _) eqn:E; [|done].
        bool_prop. destruct t; [done|]. intros _. split_and!; congruence.
      * congruence.
      * congruence.
      * intros _ _. by rewrite Ht.
    + exists r. split_and!; try done. intros. congruence.
  - unfold complete_cell, owner_guard. rewrite Hx by done. destruct (_ && _); [by exists r|].
    destruct (bool_decide _) eqn:E; bool_prop; [by exists r|]. simpl. eexists. split; [done|].
    split; [by split_and!; simpl; auto|]. by split_and!.
  - destruct Hfail as [Hne Hother]. unfold fail_cell, owner_guard. rewrite Hx by done.
    rewrite is_nil_false, bool_decide_eq_false_2 by congruence. simpl. by exists r.
  - unfold alive_idem. rewrite Hx by done. by exists r.
Qed.

(** Operations on other keys are unconstrained. *)
Definition all_benign (k token : string) (dl : Z) (ops : list (string * idem_op)) : Prop :=
  Forall (fun ko => ko.1 = k -> benign token dl ko.2) ops.

Lemma owned_trace ops st k hash token dl r :
  wf_store std_hash st -> cell std_hash idemL st k = Some r -> owned hash token dl r ->
  all_benign k token dl ops ->
  let '(st', rs) := run_idems std_hash st ops in
  wf_store std_hash st' /\
  (exists r', cell std_hash idemL st' k = Some r' /\ owned hash token dl r' /\
     (id_status r = IS_Completed -> r' = r)) /\
  Forall (fun x => x.1.1 = k -> excluded hash token x.1.2 x.2 /\
    match x.1.2, x.2 with
    | IBegin _ h _ _, RBegin b => h = hash -> id_status r = IS_Completed ->
        b = mkBegin true IA_Replay token (id_response_code r) (id_response_body r) "" ""
    | _, _ => True
    end) rs.
Proof.
  revert st r. induction ops as [|[k0 o] ops IH]; intros st r Hw Hc Ho Hb; cbn [run_idems].
  { split_and!; [done|by exists r|constructor]. }
  apply list.Forall_cons in Hb as [Hb1 Hb]. simpl in Hb1.
  pose proof (run_idem_store st k0 o Hw) as Hstep. destruct (run_idem _ _ _) as [st1 res].
  destruct Hstep as (Hw1 & Hres & Hcells). specialize (Hcells k).
  assert (exists r1, cell std_hash idemL st1 k = Some r1 /\ owned hash token dl r1 /\
    (id_status r = IS_Completed -> r1 = r) /\ (k0 = k -> excluded hash token o res /\
      match o, res with
      | IBegin _ h _ _, RBegin b => h = hash -> id_status r = IS_Completed ->
          b = mkBegin true IA_Replay token (id_response_code r) (id_response_body r) "" ""
      | _, _ => True
      end)) as (r1 & Hc1 & Ho1 & Hsame & Hx).
  { case_decide as E.
    - subst k0. rewrite Hc in *.
      destruct (owned_cell (next_idempotency_seq_ st) k hash token dl o r Ho (Hb1 eq_refl))
        as (r1 & H1 & H2 & H3 & H4 & H5).
      exists r1. rewrite H1 in Hcells. subst res. split_and!; try done. intros _. split; [done|].
      clear -H5. by destruct o.
    - exists r. rewrite Hcells. by split_and!. }
  specialize (IH st1 r1 Hw1 Hc1 Ho1 Hb). destruct (run_idems std_hash st1 ops) as [st2 rs].
  destruct IH as (Hw2 & (r2 & Hc2 & Ho2 & Hs2) & Hall). split_and!; [done| |].
  - exists r2. split_and!; try done. intros Hcomp. pose proof (Hsame Hcomp) as ->. auto.
  - constructor; [done|]. eapply list.Forall_impl; [exact Hall|]. cbn beta.
    intros [[k' o'] res'] H Hk. destruct (H Hk) as [H1 H2]. split; [done|].
    destruct o'; try done. destruct res'; try done. intros Hh Hcomp.
    pose proof (Hsame Hcomp) as ->. auto.
Qed.

(** C6: At most one execution at a time.  On a well-formed store, IdemBegin for a key without a
    live record grants Execute under a token (the caller's, if it gave one).  Take any later
    sequence of IdemBegin, IdemComplete, IdemFail and IdemGet calls in which the calls for this
    key are made before the record's deadline and no failure report for this key carries the
    owner's token or no token at all (the store accepts both, and then grants Execute again).
    Then for this key only a caller that presents that same token and request hash is told to
    execute; a different request hash is always a conflict; every failure report, which here
    carries another, non-empty token, is refused; the store invariant is kept. *)
Theorem idem_single_flight st now k hash ttl token ops :
  wf_store std_hash st -> alive_idem now (cell std_hash idemL st k) = None ->
  let b := IdemBegin (Store := memory_store std_hash) now st k hash ttl token in
  let owner := ib_owner_token b.2 in
  all_benign k owner (deadline now ttl) ops ->
  ib_action b.2 = IA_Execute /\ (token <> "" -> owner = token) /\
  wf_store std_hash (run_idems std_hash b.1 ops).1 /\
  Forall (fun x => x.1.1 = k -> excluded hash owner x.1.2 x.2) (run_idems std_hash b.1 ops).2.
Proof.
  intros Hw Ha b owner Hb.
  pose proof (run_idem_store st k (IBegin now hash ttl token) Hw) as Hstep. simpl in Hstep.
  change (IdemBegin_ std_hash now st k hash ttl token) with b in Hstep.
  destruct b as [st1 r]. destruct Hstep as (Hw1 & Hr & Hc). specialize (Hc k).
  rewrite decide_True in Hc by done. unfold begin_cell in Hr, Hc. rewrite Ha in Hr, Hc.
  simpl in Hr, Hc. injection Hr as ->. simpl in *.
  split; [done|]. split; [intros Ht; unfold owner; by rewrite is_nil_false|].
  pose proof (owned_trace ops st1 k hash owner (deadline now ttl) _ Hw1 Hc) as H.
  destruct (run_idems std_hash st1 ops) as [st2 rs].
  destruct H as (? & _ & Hall); [by split_and!; auto|done|]. split; [done|].
  eapply list.Forall_impl; [exact Hall|]. cbn beta. intros x Hx Hk. by apply Hx.
Qed.

(** C7: A completed response is replayed unchanged, unless a failure report with the owner's
    token or with no token comes in.  Once a record of a well-formed store is completed, every
    IdemBegin with the same request hash before the deadline gets Replay with exactly the
    stored code and body, whatever further IdemComplete calls (by anyone), failure reports
    with a non-empty token other than the owner's, and calls on other keys come in between;
    the record itself does not change.  (A failure report without a token or with the owner's
    does change it: [idem_fail_after_complete].) *)
Theorem idem_replay_stable st k hash token dl r ops :
  wf_store std_hash st -> cell std_hash idemL st k = Some r -> owned hash token dl r ->
  id_status r = IS_Completed -> all_benign k token dl ops ->
  cell std_hash idemL (run_idems std_hash st ops).1 k = Some r /\
  Forall (fun x => match x with
    | (k', IBegin _ h _ _, RBegin b) => k' = k -> h = hash ->
        b = mkBegin true IA_Replay token (id_response_code r) (id_response_body r) "" ""
    | _ => True
    end) (run_idems std_hash st ops).2.
Proof.
  intros Hw Hc Ho Hs Hb. pose proof (owned_trace ops st k hash token dl r Hw Hc Ho Hb) as H.
  destruct (run_idems std_hash st ops) as [st' rs]. destruct H as (_ & (r' & Hc' & _ & Hsame) & Hall).
  split; [by rewrite <- (Hsame Hs)|]. eapply list.Forall_impl; [exact Hall|]. cbn beta.
  intros [[k' o] res] Hx. destruct o; try done. destruct res; try done. intros Hk Hh.
  by apply (Hx Hk).
Qed.

(** a completed response is not final at the store level.  IdemFail accepts the owner's
    token, or no token at all, on a record that is already completed: the record becomes
    Failed, the cached response is overwritten by the error message, and the next IdemBegin
    with the same hash grants Execute again, so the operation can run twice. *)
Theorem idem_fail_after_complete st now now' k r msg ttl token :
  wf_store std_hash st -> cell std_hash idemL st k = Some r -> id_status r = IS_Completed ->
  id_expired r now = false -> id_expired r now' = false ->
  let f := IdemFail (Store := memory_store std_hash) now st k "" msg in
  if_failed f.2 = true /\
  ib_action (IdemBegin (Store := memory_store std_hash) now' f.1 k (id_request_hash r) ttl token).2
    = IA_Execute.
Proof.
  intros Hw Hc Hs Hx Hx' f.
  pose proof (run_idem_store st k (IFail now "" msg) Hw) as Hstep. simpl in Hstep.
  change (on_shard st k (Fail_body std_hash now k "" msg)) with f in Hstep.
  destruct f as [st1 rf]. destruct Hstep as (Hw1 & Hr & Hcell). specialize (Hcell k).
  rewrite decide_True in Hcell by done. rewrite Hc in *.
  unfold fail_cell, owner_guard in Hr, Hcell. rewrite Hx in Hr, Hcell. simpl in Hr, Hcell.
  injection Hr as ->. split; [done|].
  pose proof (run_idem_store st1 k (IBegin now' (id_request_hash r) ttl token) Hw1) as Hb. simpl in Hb.
  simpl. destruct (IdemBegin_ _ _ _ _ _ _ _) as [st2 b]. destruct Hb as (_ & Hb & _).
  rewrite Hcell in Hb. unfold begin_cell, alive_idem, id_expired in *. simpl in Hb. rewrite Hx' in Hb.
  rewrite bool_decide_eq_true_2 in Hb by done. simpl in Hb. by injection Hb as ->.
Qed.

End Trace.

(** ** Witnesses *)

Definition idem_ops : list (string * idem_op) :=
  [("pay", IBegin 1001 "h" 500 "B"); ("pay", IBegin 1002 "h2" 500 "A"); ("other", IBegin 1003 "h" 0 "");
   ("pay", IFail 1004 "B" "boom"); ("pay", IComplete 1005 "A" 200 "done"); ("pay", IBegin 1006 "h" 1 "C")].

Lemma idem_single_flight_witness :
  let b := IdemBegin (Store := memory_store length_hash) 1000 init_store "pay" "h" 500 "A" in
  ib_action b.2 = IA_Execute /\
  Forall (fun x => x.1.1 = "pay" -> excluded "h" "A" x.1.2 x.2) (run_idems length_hash b.1 idem_ops).2.
Proof.
  destruct (idem_single_flight length_hash init_store 1000 "pay" "h" 500 "A" idem_ops) as (H1 & _ & _ & H2).
  - apply wf_init_store.
  - rewrite (init_cell length_hash idemL) by constructor. reflexivity.
  - unfold all_benign, idem_ops.
    repeat (apply list.Forall_cons; split; [intros _; split; vm_compute; done|]). constructor.
  - split; [exact H1|exact H2].
Defined.

Definition completed_store : MemoryStore :=
  (run_idems length_hash init_store
     [("pay", IBegin 1000 "h" 500 "A"); ("pay", IComplete 1010 "A" 201 "ok")]).1.
Definition completed_record : IdempotencyRecord :=
  mkIdem "pay" "h" IS_Completed 201 "ok" "A" 1000 1500.

Lemma run_idems_wf std_hash ops st :
  wf_store std_hash st -> wf_store std_hash (run_idems std_hash st ops).1.
Proof.
  revert st. induction ops as [|[k o] ops IH]; intros st Hw; [done|]. cbn [run_idems].
  pose proof (run_idem_store std_hash st k o Hw) as H. destruct (run_idem _ _ _) as [st1 r].
  destruct H as (Hw1 & _). specialize (IH st1 Hw1). by destruct (run_idems std_hash st1 ops).
Qed.

Lemma idem_replay_stable_witness :
  Forall (fun x => match x with
    | (k', IBegin _ h _ _, RBegin b) => k' = "pay" -> h = "h" ->
        b = mkBegin true IA_Replay "A" 201 "ok" "" ""
    | _ => True
    end) (run_idems length_hash completed_store idem_ops).2.
Proof.
  apply (idem_replay_stable length_hash completed_store "pay" "h" "A" 1500 completed_record).
  - apply run_idems_wf, wf_init_store.
  - vm_compute. reflexivity.
  - repeat split. right. reflexivity.
  - reflexivity.
  - unfold all_benign, idem_ops.
    repeat (apply list.Forall_cons; split; [intros _; split; vm_compute; done|]). constructor.
Defined.

Lemma idem_fail_after_complete_witness :
  if_failed (IdemFail (Store := memory_store length_hash) 1020 completed_store "pay" "" "late").2 = true.
Proof.
  apply (idem_fail_after_complete length_hash completed_store 1020 1030 "pay" completed_record "late" 500 "B");
    [apply run_idems_wf, wf_init_store|vm_compute; reflexivity..].
Defined.
