(* ===== verification/Reach.v ===== *)
(** * The store invariant over every method of the class

    Whatever calls are made on a new store, in any order and at any clock
    readings, every shard stays well formed: four hash tables with distinct keys,
    true sizes and nodes in their buckets, every record in the shard its key
    hashes to, and every reservation filed under its own id. *)
From S2P Require Import Prelude CStd HashTable Entry Store MemoryStore StoreWf KvStore KvTrace RateLimit Quota Purge Idem.

Inductive store_call :=
| CKv (o : kv_op)
| CRateLimit (now : Z) (key : string) (limit window_ms cost : Z)
| CReserve (now : Z) (key : string) (amount ttl_ms : Z)
| CCommit (now : Z) (key id : string) (actual : Z)
| CRollback (now : Z) (key id : string)
| CIdem (key : string) (o : idem_op)
| CPurge (now limit : Z).

Definition run_call (std_hash : string -> Z) (st : MemoryStore) (c : store_call) : MemoryStore :=
  let MS := memory_store std_hash in
  match c with
  | CKv o => (run_op (H := memory_store std_hash) st o).1
  | CRateLimit now key limit window_ms cost => (RateLimit now st key limit window_ms cost).1
  | CReserve now key amount ttl_ms => (ReserveQuota now st key amount ttl_ms).1
  | CCommit now key id actual => (CommitQuota now st key id actual).1
  | CRollback now key id => (RollbackQuota now st key id).1
  | CIdem key o => (run_idem std_hash st (key, o)).1
  | CPurge now limit => (PurgeExpired now st limit).1
  end.

Section Reach.
Context (std_hash : string -> Z).

Lemma wf_on_shard {A} st q (body : StorageShard -> StorageShard * A) :
  wf_store std_hash st ->
  wf_shard std_hash (GetShard q) (body (shard_at st (GetShard q))).1 ->
  wf_store std_hash (on_shard st q body).1.
Proof.
  intros Hw Hb. unfold on_shard. destruct (body _) as [sh r]. by apply wf_put_shard.
Qed.

Lemma run_call_wf st c : wf_store std_hash st -> wf_store std_hash (run_call std_hash st c).
Proof.
  intros Hw. pose proof (fun q => wf_shard_at std_hash st _ Hw (GetShard_lt q)) as Hsh.
  destruct c as [o|now key limit win cost|now key amount ttl|now key id actual|now key id|key o|now limit].
  - cbn [run_call].
    destruct o; cbn [run_op tag fst];
      first [apply (kv_set (KvStore := memory_kv std_hash))|apply (kv_get (KvStore := memory_kv std_hash))
            |apply (kv_del (KvStore := memory_kv std_hash))|apply (kv_exists (KvStore := memory_kv std_hash))
            |apply (kv_type (KvStore := memory_kv std_hash))|apply (kv_expire (KvStore := memory_kv std_hash))
            |apply (kv_ttl (KvStore := memory_kv std_hash))|apply (kv_pttl (KvStore := memory_kv std_hash))
            |apply (kv_persist (KvStore := memory_kv std_hash))
            |apply (kv_incr (KvStore := memory_kv std_hash))]; done.
  - cbn [run_call RateLimit memory_store].
    destruct (decide (limit = 0)) as [->|Hl]; [done|].
    destruct (decide (win = 0)) as [->|Hz].
    { unfold RateLimit_. by destruct (limit =? 0). }
    pose proof (RateLimit_store std_hash now st key limit win cost Hw Hl Hz) as H.
    destruct (RateLimit_ _ _ _ _ _ _ _). apply H.
  - cbn [run_call ReserveQuota memory_store]. unfold ReserveQuota_.
    destruct (amount =? 0); [done|]. destruct (ttl =? 0); [done|].
    pose proof (wf_on_shard st key (Reserve_body std_hash now (next_reservation_seq_ st) key amount ttl)
      Hw (wf_reserve std_hash _ _ _ _ _ _ _ (Hsh key) eq_refl)) as H.
    destruct (on_shard _ _ _) as [st' [adv r]]. by destruct H.
  - cbn [run_call CommitQuota memory_store]. apply wf_on_shard; [done|]. by apply wf_commit.
  - cbn [run_call RollbackQuota memory_store]. apply wf_on_shard; [done|]. by apply wf_rollback.
  - cbn [run_call]. pose proof (run_idem_store std_hash st key o Hw) as H.
    destruct (run_idem _ _ _). apply H.
  - cbn [run_call PurgeExpired memory_store]. by apply PurgeExpired_wf.
Qed.

(** C3: the store invariant holds in every reachable state.  After any sequence of calls of any
    methods of MemoryStore on a new store, every hash table of every shard is well formed
    (distinct keys, exact size, each node in the bucket its hash selects), every record is in
    the shard its key hashes to, and every reservation is filed under its own id. *)
Theorem store_invariant calls : wf_store std_hash (foldl (run_call std_hash) init_store calls).
Proof.
  assert (forall st, wf_store std_hash st -> wf_store std_hash (foldl (run_call std_hash) st calls)) as H.
  { induction calls as [|c calls IH]; intros st Hw; [done|]. simpl. by apply IH, run_call_wf. }
  apply H, wf_init_store.
Qed.
End Reach.
