(* ===== verification/Cursor.v ===== *)
(** * Enumeration while the store changes (storage/memory_store.cpp: Keys, DbSize, Scan)

    The three methods lock one shard after the other, so other threads change the
    store while they run, and between the SCAN calls of a client.  An enumeration
    sees every shard in the state it has when it is locked: [seen] puts these shards
    together.  What a shard goes through is a sequence of calls on stores that hold
    it. *)
From S2P Require Import Prelude CStd HashTable Entry Store Glob MemoryStore StoreWf KvStore KvTrace Enumerate RateLimit Quota Purge Idem Reach.

(** ** Tables only grow by doubling *)

Definition grows {V} (t t' : HashTable string V) : Prop :=
  (0 < length (buckets_ t))%nat -> exists m, length (buckets_ t') = (length (buckets_ t) * 2 ^ m)%nat.

#[export] Instance grows_preorder {V} : PreOrder (@grows V).
Proof.
  split.
  - intros t _. exists 0%nat. simpl. lia.
  - intros t1 t2 t3 H12 H23 Hp. destruct (H12 Hp) as [m Hm].
    pose proof (Nat.pow_nonzero 2 m). destruct H23 as [m' Hm']; [nia|]. exists (m + m')%nat.
    rewrite Hm', Hm, Nat.pow_add_r. lia.
Qed.

Section tables.
Context (std_hash : string -> Z) {V : Type}.
Implicit Types t : HashTable string V.

Lemma same_length_grows t t' : length (buckets_ t') = length (buckets_ t) -> grows t t'.
Proof. intros H _. exists 0%nat. simpl. lia. Qed.

Lemma push_all_length n (bs : list (list (string * V))) acc :
  length (foldl (foldl (HT.push_node std_hash n)) acc bs) = length acc.
Proof.
  revert acc. induction bs as [|b bs IH]; intros acc; [done|]. cbn [foldl]. rewrite IH.
  revert acc. induction b as [|kv b IHb]; intros acc; [done|]. cbn [foldl]. rewrite IHb.
  unfold HT.push_node. by rewrite length_insert.
Qed.

Lemma Assign_grows t k v : grows t (HT.Assign std_hash t k v).
Proof. apply same_length_grows. cbn. by rewrite length_insert. Qed.

Lemma Erase_grows t k : grows t (HT.Erase std_hash t k).1.
Proof.
  apply same_length_grows. unfold HT.Erase. destruct (buckets_ t) as [|b bs] eqn:E.
  { cbn [fst]. by rewrite E. }
  destruct (HT.chain_find _ _); cbn [fst buckets_]; [by rewrite length_insert|by rewrite E].
Qed.

Lemma Insert_grows t k v : grows t (HT.Insert std_hash t k v).1.
Proof.
  intros Hp. unfold HT.Insert. destruct (buckets_ t) as [|b bs] eqn:E; [simpl in Hp; lia|]. rewrite <- E in *. clear E.
  destruct (HT.chain_find _ _); [by apply Assign_grows|]. cbn [fst buckets_]. unfold HT.push_node.
  rewrite length_insert. destruct (HT.over_loaded t); [|by apply same_length_grows].
  unfold HT.Resize. destruct (_ <=? _)%nat; [by apply same_length_grows|]. cbn [buckets_].
  rewrite push_all_length, length_replicate. by exists 1%nat.
Qed.

Lemma erase_keys_grows ks t : grows t (erase_keys std_hash t ks).
Proof.
  unfold erase_keys. revert t. induction ks as [|k ks IH]; intros t; [reflexivity|]. cbn [foldl].
  etransitivity; [|apply IH]. apply Erase_grows.
Qed.
End tables.
Create HintDb growing.
#[export] Hint Resolve Assign_grows Erase_grows Insert_grows erase_keys_grows : growing.

(** ** The methods on one shard *)

Definition shard_grows (sh sh' : StorageShard) : Prop := grows (entries sh) (entries sh').
#[export] Instance shard_grows_preorder : PreOrder shard_grows.
Proof.
  split; [intros sh; unfold shard_grows; reflexivity|].
  intros s1 s2 s3 H1 H2. unfold shard_grows in *. by etransitivity.
Qed.

Lemma same_entries_grow sh sh' : entries sh' = entries sh -> shard_grows sh sh'.
Proof. intros H. unfold shard_grows. by rewrite H. Qed.

Section methods.
Context (std_hash : string -> Z).

Lemma find_live_grows now sh k sh' o : find_live std_hash now sh k = (sh', o) -> shard_grows sh sh'.
Proof.
  unfold find_live. destruct (HT.Find _ _ _); [|by intros [= <- _]].
  destruct (e_expired _ _); intros [= <- _]; [apply Erase_grows|reflexivity].
Qed.

(** The cases of a method: what it does to the entries after the lookup. *)
Ltac grow_cases :=
  repeat match goal with
  | |- context [find_live ?h ?now ?sh ?k] =>
      let E := fresh in destruct (find_live h now sh k) eqn:E; apply find_live_grows in E;
      etransitivity; [exact E|]; clear E
  end;
  repeat case_match; unfold shard_grows; cbn [fst entries set_entries set_reservations set_rate_limits set_idempotency];
  simplify_eq/=; first [reflexivity | auto with growing].

Lemma kv_bodies_grow sh now k v c ttl d :
  shard_grows sh (Set_body std_hash now k v c ttl sh).1 /\ shard_grows sh (Get_body std_hash now k sh).1 /\
  shard_grows sh (Del_body std_hash k sh).1 /\ shard_grows sh (Exists_body std_hash now k sh).1 /\
  shard_grows sh (Type_body std_hash now k sh).1 /\ shard_grows sh (Expire_body std_hash now k ttl sh).1 /\
  shard_grows sh (Ttl_body std_hash now k sh).1 /\ shard_grows sh (Pttl_body std_hash now k sh).1 /\
  shard_grows sh (Persist_body std_hash now k sh).1 /\ shard_grows sh (IncrBy_body std_hash now k d ttl sh).1.
Proof.
  split_and!; unfold Set_body, Get_body, Exists_body, Type_body, Expire_body, Ttl_body, Pttl_body,
    Persist_body, IncrBy_body; try solve [grow_cases].
  unfold Del_body. pose proof (Erase_grows std_hash (entries sh) k). by destruct (HT.Erase _ _ _).
Qed.

Lemma write_balance_grows now k o b sh : shard_grows sh (write_balance std_hash now k o b sh).
Proof. unfold write_balance. grow_cases. Qed.

Lemma quota_bodies_grow sh now seq k id amount ttl :
  shard_grows sh (Reserve_body std_hash now seq k amount ttl sh).1 /\
  shard_grows sh (Commit_body std_hash now k id amount sh).1 /\
  shard_grows sh (Rollback_body std_hash now k id sh).1.
Proof.
  split_and!.
  - unfold Reserve_body. grow_cases.
  - unfold Commit_body. destruct (HT.Find _ (reservations sh) id); [|reflexivity].
    destruct (negb _); [reflexivity|]. destruct (rs_expired _ _); [grow_cases|].
    destruct (if _ <=? _ then _ else _). cbn [fst]. etransitivity; [|apply write_balance_grows]. by apply same_entries_grow.
  - unfold Rollback_body. destruct (HT.Find _ (reservations sh) id); [|reflexivity].
    destruct (negb _); [by apply same_entries_grow|]. destruct (rs_expired _ _); [by apply same_entries_grow|].
    cbn [fst]. etransitivity; [|apply write_balance_grows]. by apply same_entries_grow.
Qed.

Lemma RateLimit_body_grows sh now k l w c : shard_grows sh (RateLimit_body std_hash now k l w c sh).1.
Proof. unfold RateLimit_body. grow_cases. Qed.

Lemma idem_bodies_grow sh now seq k h ttl o code b :
  shard_grows sh (Begin_body std_hash now seq k h ttl o sh).1 /\
  shard_grows sh (Complete_body std_hash now k o code b sh).1 /\
  shard_grows sh (Fail_body std_hash now k o b sh).1 /\
  shard_grows sh (IdemGet_body std_hash now k sh).1.
Proof.
  split_and!; unfold Begin_body, Complete_body, Fail_body, IdemGet_body, find_live_idem, owned_record; grow_cases.
Qed.

Lemma purge_reservation_grows now sh id : shard_grows sh (purge_reservation std_hash now sh id).
Proof. unfold purge_reservation. grow_cases. Qed.

Lemma Purge_body_grows sh now limit : shard_grows sh (Purge_body std_hash now limit sh).1.
Proof.
  unfold Purge_body. cbn [fst]. set (sh1 := set_entries sh _).
  assert (shard_grows sh sh1) as H1 by apply erase_keys_grows. etransitivity; [exact H1|].
  assert (forall ids sh, shard_grows sh (foldl (purge_reservation std_hash now) sh ids)) as H2.
  { induction ids as [|id ids IH]; intros s; [reflexivity|]. cbn [foldl]. etransitivity; [|apply IH].
    apply purge_reservation_grows. }
  etransitivity; [apply H2|]. by apply same_entries_grow.
Qed.

(** ** The methods on a store *)

Lemma on_shard_grows {A} st k (body : StorageShard -> StorageShard * A) i :
  wf_store std_hash st -> (forall sh, shard_grows sh (body sh).1) ->
  shard_grows (shard_at st i) (shard_at (on_shard st k body).1 i).
Proof.
  intros Hw Hb. unfold on_shard. specialize (Hb (shard_at st (GetShard k))). destruct (body _) as [sh r]. cbn [fst] in *.
  rewrite (shard_at_put std_hash) by (done || apply GetShard_lt). by case_decide; [subst|reflexivity].
Qed.

Lemma run_call_grows st c i :
  wf_store std_hash st -> (i < kNumShards)%nat ->
  shard_grows (shard_at st i) (shard_at (run_call std_hash st c) i).
Proof.
  intros Hw Hi. destruct c as [o|now key limit win cost|now key amount ttl|now key id actual|now key id|key o|now limit];
    cbn [run_call].
  - destruct o as [now k v c ttl|now k|k|now k|now k|now k ttl|now k|now k|now k|now k d ttl];
      cbn [run_op tag fst Set_ Get Del Exists Type_ Expire Ttl Pttl Persist IncrBy memory_store];
      (apply on_shard_grows; [done|]); intros sh;
      first [eapply (kv_bodies_grow sh now)|eapply (kv_bodies_grow sh 0)].
    Unshelve. all: first [exact 0|exact ""|exact Always].
  - cbn [RateLimit memory_store]. unfold RateLimit_. destruct (limit =? 0); [reflexivity|].
    destruct (win =? 0); [reflexivity|]. apply on_shard_grows; [done|]. intros sh. apply RateLimit_body_grows.
  - cbn [ReserveQuota memory_store]. unfold ReserveQuota_. destruct (amount =? 0); [reflexivity|].
    destruct (ttl =? 0); [reflexivity|].
    pose proof (on_shard_grows st key (Reserve_body std_hash now (next_reservation_seq_ st) key amount ttl) i Hw
      (fun sh => proj1 (quota_bodies_grow sh now _ key "" amount ttl))) as H.
    by destruct (on_shard _ _ _) as [st' [adv r]].
  - apply on_shard_grows; [done|]. intros sh. apply (quota_bodies_grow sh now 0 key id actual 0).
  - apply on_shard_grows; [done|]. intros sh. apply (quota_bodies_grow sh now 0 key id 0 0).
  - destruct o as [now hash ttl token|now token code body|now token msg|now]; cbn [run_idem].
    + cbn [IdemBegin memory_store]. unfold IdemBegin_.
      pose proof (on_shard_grows st key (Begin_body std_hash now (next_idempotency_seq_ st) key hash ttl token) i Hw
        (fun sh => proj1 (idem_bodies_grow sh now _ key hash ttl token 0 ""))) as H.
      by destruct (on_shard _ _ _) as [st' [adv r]].
    + pose proof (on_shard_grows st key (Complete_body std_hash now key token code body) i Hw
        (fun sh => proj1 (proj2 (idem_bodies_grow sh now 0 key "" 0 token code body)))) as H.
      cbn [IdemComplete memory_store]. by destruct (on_shard _ _ _).
    + pose proof (on_shard_grows st key (Fail_body std_hash now key token msg) i Hw
        (fun sh => proj1 (proj2 (proj2 (idem_bodies_grow sh now 0 key "" 0 token 0 msg))))) as H.
      cbn [IdemFail memory_store]. by destruct (on_shard _ _ _).
    + pose proof (on_shard_grows st key (IdemGet_body std_hash now key) i Hw
        (fun sh => proj2 (proj2 (proj2 (idem_bodies_grow sh now 0 key "" 0 "" 0 ""))))) as H.
      cbn [IdemGet memory_store]. by destruct (on_shard _ _ _).
  - cbn [PurgeExpired memory_store]. rewrite (PurgeExpired_shard std_hash) by done. apply Purge_body_grows.
Qed.
End methods.

(** ** What an enumeration sees *)

Section seen.
Context (std_hash : string -> Z).
Abbreviation wf_at := (wf_shard std_hash).

(** A call of any method, looked at from one shard of the store it is made on. *)
Definition shard_call (i : nat) (sh sh' : StorageShard) : Prop :=
  exists st c, wf_store std_hash st /\ shard_at st i = sh /\ shard_at (run_call std_hash st c) i = sh'.

Lemma shard_calls_ok i sh sh' : (i < kNumShards)%nat -> rtc (shard_call i) sh sh' -> wf_at i sh ->
  wf_at i sh' /\ shard_grows sh sh'.
Proof.
  intros Hi Hc. induction Hc as [sh|sh1 sh2 sh3 (st & c & Hw & <- & <-) _ IH]; [done|]. intros _.
  destruct IH as [H1 H2]; [by apply wf_shard_at, Hi; apply run_call_wf|]. split; [done|].
  etransitivity; [by apply run_call_grows|done].
Qed.

(** The store as an enumeration sees it that locks shard [i] when it is [shards i]. *)
Definition seen (shards : nat -> StorageShard) : MemoryStore := mkStore (shards <$> seq 0 kNumShards) 0 0.

Lemma seen_lookup shards i : (i < kNumShards)%nat -> shards_ (seen shards) !! i = Some (shards i).
Proof. intros Hi. cbn [seen shards_]. by rewrite list_lookup_fmap, lookup_seq_lt by done. Qed.

Lemma seen_at shards i : (i < kNumShards)%nat -> shard_at (seen shards) i = shards i.
Proof. intros Hi. unfold shard_at. by rewrite seen_lookup. Qed.

(** A state that the shard can be in. *)
Definition reachable (shards : nat -> StorageShard) : Prop :=
  forall i, (i < kNumShards)%nat -> rtc (shard_call i) empty_shard (shards i).

Lemma seen_wf shards : reachable shards -> wf_store std_hash (seen shards).
Proof.
  intros Hr. split; [by cbn [seen shards_]; rewrite length_fmap, length_seq|]. intros i sh Hl.
  assert (i < kNumShards)%nat as Hi.
  { apply lookup_lt_Some in Hl. cbn [seen shards_] in Hl. by rewrite length_fmap, length_seq in Hl. }
  rewrite seen_lookup in Hl by done. injection Hl as <-.
  apply (shard_calls_ok i empty_shard); [done|by apply Hr|apply wf_empty_shard].
Qed.

(** The key is live in its shard. *)
Definition live_in (now : Z) (shards : nat -> StorageShard) (k : string) : Prop :=
  (Exists_body std_hash now k (shards (GetShard k))).2 = true.

Lemma live_in_seen now shards k :
  reachable shards ->
  live_in now shards k <-> alive now (cell std_hash entriesL (seen shards) k) <> None.
Proof.
  intros Hr. pose proof (seen_wf shards Hr) as Hw.
  pose proof (kv_exists (KvStore := memory_kv std_hash) (seen shards) now k Hw) as (_ & He & _).
  cbn [Exists memory_store] in He. unfold on_shard in He. rewrite seen_at in He by apply GetShard_lt.
  unfold live_in. destruct (Exists_body std_hash now k (shards (GetShard k))) as [sh b]. cbn [snd] in *. subst b.
  unfold exists_cell. cbn [snd]. change (kv_at (seen shards) k) with (cell std_hash entriesL (seen shards) k).
  by destruct (alive now _).
Qed.

(** C28: KEYS and DBSIZE while other threads change the store: each shard is seen in some
    state it can be in, the shards at different moments.  KEYS returns every key at most
    once, and exactly the keys that match and that are live in their shard when it is
    visited; DBSIZE counts the keys that KEYS * would return.  In particular a key that
    is live all the time is returned, and one that is never live is not. *)
Theorem keys_dbsize_while_changing shards now pattern :
  reachable shards ->
  let ks := Keys (Store := memory_store std_hash) now (seen shards) pattern in
  NoDup ks /\
  (forall k, k ∈ ks <-> live_in now shards k /\ MatchPattern pattern k = true) /\
  DbSize (Store := memory_store std_hash) now (seen shards) =
    Z.of_nat (length (Keys (Store := memory_store std_hash) now (seen shards) "*")).
Proof.
  intros Hr. cbv zeta. destruct (Keys_spec std_hash (seen shards) now pattern (seen_wf shards Hr)) as [Hnd Hk].
  split; [done|]. split.
  - intros k. rewrite live_in_seen by done. apply Hk.
  - cbn [Keys DbSize memory_store]. by rewrite DbSize_nodes, Keys_star, length_fmap.
Qed.

(** ** What is left to report behind a cursor *)

Lemma elem_of_concat_drop {A} b (bs : list (list A)) x :
  x ∈ concat (drop b bs) <-> exists j c, (b <= j)%nat /\ bs !! j = Some c /\ x ∈ c.
Proof.
  rewrite list_elem_of_In, in_concat. split.
  - intros (c & Hc & Hx). apply list_elem_of_In, list_elem_of_lookup in Hc as [j Hj].
    rewrite lookup_drop in Hj. exists (b + j)%nat, c. split; [lia|]. split; [done|by apply list_elem_of_In].
  - intros (j & c & Hb & Hj & Hx). exists c. rewrite <- !list_elem_of_In. split; [|done].
    apply (list_elem_of_lookup_2 _ (j - b)). rewrite lookup_drop, <- Hj. f_equal. lia.
Qed.

(** The key is at or behind bucket [b] of shard [i]. *)
Definition ahead (st : MemoryStore) (i b : nat) (k : string) : Prop :=
  (i < GetShard k)%nat \/
  i = GetShard k /\ (b <= HT.bucket_of std_hash (length (buckets_ (entries (shard_at st i)))) k)%nat.

Lemma rest_nodes st now i b k :
  wf_store std_hash st -> (i < kNumShards)%nat ->
  k ∈ rest now (drop i (shards_ st)) b <->
  exists e, live_node now (k, e) = true /\ cell std_hash entriesL st k = Some e /\ ahead st i b k.
Proof.
  intros Hw Hi. rewrite (drop_S _ _ _ (shard_at_lookup _ _ _ Hw Hi)). cbn [rest]. unfold live_seg.
  pose proof (wf_shard_at _ _ _ Hw Hi) as Hsh.
  rewrite elem_of_app, !list_elem_of_fmap. setoid_rewrite elem_of_Lfilter. setoid_rewrite elem_of_concat_drop.
  setoid_rewrite list_elem_of_In at 2. setoid_rewrite in_concat. split.
  - intros [([k' e] & -> & (j & c & Hj & Hc & Hx) & Hl)|([k' e] & -> & (c & Hc & Hx) & Hl)]; exists e; cbn [fst] in *.
    + pose proof (HT.wf_placed _ _ (wf_entries _ _ _ Hsh) j c _ Hc Hx) as Hp. cbn [fst] in Hp.
      assert ((k', e) ∈ shard_nodes (shard_at st i)) as Hn.
      { apply (proj2 (elem_of_concat_drop 0 _ _)). exists j, c. split; [lia|done]. }
      assert (GetShard k' = i) as <- by (eapply shard_node_home; [done|]; apply list_elem_of_fmap; by exists (k', e)).
      split; [done|]. split; [by apply (shard_node_iff _ _ _ _ _ Hsh)|]. right. split; [done|]. by rewrite Hp.
    + apply list_elem_of_In, list_elem_of_fmap in Hc as (sh & -> & Hc). apply list_elem_of_lookup in Hc as [j Hj].
      rewrite lookup_drop in Hj. pose proof (wf_shards _ _ Hw _ _ Hj) as Hsj. apply list_elem_of_In in Hx.
      assert (GetShard k' = (S i + j)%nat) as Hg
        by (eapply shard_node_home; [done|]; apply list_elem_of_fmap; by exists (k', e)).
      split; [done|]. split; [|left; lia]. unfold cell, shard_at. rewrite Hg, Hj.
      by apply (shard_node_iff _ _ _ _ _ Hsj).
  - intros (e & Hl & Hc & [Hlt|[-> Hb]]).
    + right. exists (k, e). split; [done|]. split; [|done].
      exists (shard_nodes (shard_at st (GetShard k))). rewrite <- !list_elem_of_In. split.
      * apply list_elem_of_fmap. eexists. split; [done|]. apply (list_elem_of_lookup_2 _ (GetShard k - S i)).
        rewrite lookup_drop. replace (S i + (GetShard k - S i))%nat with (GetShard k) by lia.
        apply (shard_at_lookup std_hash); [done|apply GetShard_lt].
      * eapply shard_node_iff; [apply wf_shard_at; [done|apply GetShard_lt]|exact Hc].
    + left. exists (k, e). split; [done|]. split; [|done].
      assert ((k, e) ∈ shard_nodes (shard_at st (GetShard k))) as Hn by (by apply (shard_node_iff _ _ _ _ _ Hsh)).
      unfold shard_nodes, HT.nodes in Hn. rewrite <- (drop_0 (buckets_ _)) in Hn.
      apply elem_of_concat_drop in Hn as (j & c & _ & Hj & Hx). exists j, c.
      pose proof (HT.wf_placed _ _ (wf_entries _ _ _ Hsh) j c _ Hj Hx) as Hp. cbn [fst] in Hp. subst j. done.
Qed.

(** Doubling a table moves a key to its old bucket or to one behind all old ones. *)
Lemma bucket_of_grows n m k : (0 < n)%nat ->
  (HT.bucket_of std_hash n k <= HT.bucket_of std_hash (n * 2 ^ m) k)%nat.
Proof.
  intros Hn. pose proof (Nat.pow_nonzero 2 m). unfold HT.bucket_of.
  apply Z2Nat.inj_le; try (apply Z.mod_pos_bound; lia).
  rewrite <- (Z.mod_mod_divide (std_hash k) (Z.of_nat (n * 2 ^ m)) (Z.of_nat n))
    by (exists (Z.of_nat (2 ^ m)); lia).
  apply Z.mod_le; [apply Z.mod_pos_bound|]; lia.
Qed.

Lemma buckets_left_lex shards i j b b' :
  position (drop j shards) b' -> (j < length shards)%nat ->
  (buckets_left (drop j shards) b' < buckets_left (drop i shards) b)%nat ->
  (i < j)%nat \/ i = j /\ (b < b')%nat.
Proof.
  intros Hp Hj Hl. destruct (Nat.lt_trichotomy i j) as [?|[->|Hlt]]; [by left| |exfalso].
  - right. split; [done|]. unfold buckets_left in Hl. lia.
  - apply lookup_lt_is_Some in Hj as [sh Hj]. rewrite (drop_S _ _ _ Hj) in Hp, Hl. cbn [position] in Hp.
    unfold buckets_left in Hl. cbn [sum_list_with] in Hl.
    rewrite <- (take_drop (i - S j) (drop (S j) shards)) in Hl at 1. rewrite sum_list_with_app, drop_drop in Hl.
    replace (S j + (i - S j))%nat with i in Hl by lia. lia.
Qed.

(** ** SCAN *)

(** A client's loop: the [n]-th call of SCAN sees [views n] and the time [times n]. *)
Fixpoint scan_changing (fuel : nat) (times : nat -> Z) (views : nat -> nat -> StorageShard) (n : nat)
    (cursor count : Z) : option (list string) :=
  match fuel with
  | O => None
  | S fuel =>
      let '(next, ks) := Scan (Store := memory_store std_hash) (times n) (seen (views n)) cursor count in
      if next =? 0 then Some ks
      else (fun r => ks ++ r) <$> scan_changing fuel times views (S n) next count
  end.

Section scan.
Context (times : nat -> Z) (views : nat -> nat -> StorageShard) (count : Z).
Context (Hfirst : reachable (views 0%nat)).
Context (Hnext : forall n i, (i < kNumShards)%nat -> rtc (shard_call i) (views n i) (views (S n) i)).
Context (Hsmall : forall n i, (i < kNumShards)%nat -> Z.of_nat (length (buckets_ (entries (views n i)))) < 2 ^ 32).
Context (Hcount : 0 <= count).

Lemma views_reachable n : reachable (views n).
Proof.
  induction n as [|n IH]; [done|]. intros i Hi. etransitivity; [by apply IH|]. by apply Hnext.
Qed.

Lemma view_buckets n i : (i < kNumShards)%nat -> (0 < length (buckets_ (entries (views n i))))%nat.
Proof.
  intros Hi. destruct (shard_calls_ok i empty_shard (views n i) Hi) as [_ Hg];
    [by apply views_reachable|apply wf_empty_shard|].
  destruct Hg as [m ->]; [apply Nat.ltb_lt; reflexivity|].
  pose proof (Nat.pow_nonzero 2 m). change (length (buckets_ (entries empty_shard))) with 16%nat. lia.
Qed.

Lemma view_scannable n : scannable std_hash (shards_ (seen (views n))).
Proof.
  pose proof (seen_wf _ (views_reachable n)) as Hw. apply Forall_lookup. intros i sh Hl.
  pose proof (wf_shards _ _ Hw i sh Hl) as Hsh. split; [apply Hsh|].
  assert (i < kNumShards)%nat as Hi by (rewrite <- (wf_shard_count _ _ Hw); by apply lookup_lt_Some in Hl).
  rewrite seen_lookup in Hl by done. injection Hl as <-. pose proof (view_buckets n i Hi). specialize (Hsmall n i Hi). lia.
Qed.

Lemma view_grows n i : (i < kNumShards)%nat ->
  exists m, length (buckets_ (entries (shard_at (seen (views (S n))) i))) =
            (length (buckets_ (entries (shard_at (seen (views n)) i))) * 2 ^ m)%nat.
Proof.
  intros Hi. rewrite !seen_at by done.
  destruct (shard_calls_ok i (views n i) (views (S n) i) Hi (Hnext n i Hi)) as [_ Hg]; [|by apply Hg, view_buckets].
  apply (shard_calls_ok i empty_shard); [done|by apply views_reachable|apply wf_empty_shard].
Qed.

(** A position stays valid and no key that is ahead falls behind. *)
Lemma view_next n i b : (i < kNumShards)%nat ->
  position (drop i (shards_ (seen (views n)))) b ->
  position (drop i (shards_ (seen (views (S n))))) b /\
  forall k, ahead (seen (views n)) i b k -> ahead (seen (views (S n))) i b k.
Proof.
  intros Hi. rewrite !(drop_S _ _ _ (seen_lookup _ _ Hi)). cbn [position]. intros Hb.
  destruct (view_grows n i Hi) as [m Hm]. unfold ahead. rewrite Hm. rewrite !seen_at in * by done.
  pose proof (Nat.pow_nonzero 2 m). rewrite Hm. split; [nia|]. intros k [?|[-> Hk]]; [by left|]. right. split; [done|].
  etransitivity; [exact Hk|]. apply bucket_of_grows. by apply view_buckets.
Qed.

Lemma rest_live n i b k : (i < kNumShards)%nat ->
  k ∈ rest (times n) (drop i (shards_ (seen (views n)))) b <->
  live_in (times n) (views n) k /\ ahead (seen (views n)) i b k.
Proof.
  intros Hi. rewrite rest_nodes by (done || apply seen_wf, views_reachable).
  rewrite live_in_seen by apply views_reachable. unfold live_node. cbn [snd].
  destruct (cell _ _ _ _) as [e|]; cbn [alive]; [|naive_solver].
  split.
  - intros (e' & Hl & [= <-] & Ha). split; [|done]. by destruct (e_expired e (times n)).
  - intros [Hl Ha]. exists e. destruct (e_expired e (times n)); naive_solver.
Qed.

Lemma scan_changing_from fuel n i b :
  (i < kNumShards)%nat -> position (drop i (shards_ (seen (views n)))) b ->
  Z.of_nat kNumShards * 2 ^ 32 - cursor_of i b < Z.of_nat fuel ->
  exists ks, scan_changing fuel times views n (cursor_of i b) count = Some ks /\
    (forall k, (forall m, (n <= m)%nat -> live_in (times m) (views m) k) -> ahead (seen (views n)) i b k -> k ∈ ks) /\
    (forall k, k ∈ ks -> exists m, live_in (times m) (views m) k).
Proof.
  revert n i b. induction fuel as [|fuel IH]; intros n i b Hi Hp Hf.
  { exfalso. assert (Z.of_nat b < 2 ^ 32) as Hb.
    { rewrite (drop_S _ _ _ (seen_lookup _ _ Hi)) in Hp. cbn [position] in Hp. specialize (Hsmall n i Hi). lia. }
    unfold cursor_of in Hf. lia. }
  cbn [scan_changing Scan memory_store].
  pose proof (wf_shard_count _ _ (seen_wf _ (views_reachable n))) as Hlen.
  destruct (Scan_step std_hash (times n) _ i b count Hlen (view_scannable n) Hcount Hi Hp)
    as (part & [[Hr ->]|(j & b' & Hj & Hpj & -> & Hnz & Hr & Hl)]).
  - exists part. split; [done|]. split.
    + intros k Hk Ha. rewrite <- Hr. apply rest_live; [done|]. split; [by apply Hk|done].
    + intros k Hk. rewrite <- Hr in Hk. apply rest_live in Hk as [Hk _]; [by exists n|done].
  - rewrite (proj2 (Z.eqb_neq _ _) Hnz). destruct (view_next n j b' Hj Hpj) as [Hp' Hahead].
    apply buckets_left_lex in Hl; [|done|by rewrite Hlen].
    assert (Z.of_nat b < 2 ^ 32 /\ Z.of_nat b' < 2 ^ 32) as [Hb Hb'].
    { rewrite (drop_S _ _ _ (seen_lookup _ _ Hi)) in Hp. rewrite (drop_S _ _ _ (seen_lookup _ _ Hj)) in Hpj.
      cbn [position] in Hp, Hpj. pose proof (Hsmall n i Hi). pose proof (Hsmall n j Hj). lia. }
    destruct (IH (S n) j b' Hj Hp') as (ks & -> & Hcomp & Hsound).
    { unfold cursor_of in *. lia. }
    exists (part ++ ks). split; [done|]. split.
    + intros k Hk Ha. apply elem_of_app.
      assert (k ∈ part ++ rest (times n) (drop j (shards_ (seen (views n)))) b') as [?|Hin]%elem_of_app; [|by left|].
      { rewrite <- Hr. apply rest_live; [done|]. split; [by apply Hk|done]. }
      right. apply rest_live in Hin as [_ Hin]; [|done]. apply Hcomp; [|by apply Hahead].
      intros m Hm. apply Hk. lia.
    + intros k [Hk|Hk]%elem_of_app; [|by apply Hsound]. exists n.
      apply (rest_live n i b k Hi). rewrite Hr. apply elem_of_app. by left.
Qed.
End scan.

(** C29: SCAN while other threads change the store.  A client calls SCAN from cursor 0 and
    follows the returned cursor until it is 0; between the calls, and between the shards
    of one call, every shard may go through any calls of any methods (tables grow, keys
    move to other buckets).  As long as no table reaches 2^32 buckets, the loop ends
    whatever the others do; every key that is live at all calls is returned at least
    once; and every key that is returned was live at some call. *)
Theorem scan_while_changing times views count :
  reachable (views 0%nat) ->
  (forall n i, (i < kNumShards)%nat -> rtc (shard_call i) (views n i) (views (S n) i)) ->
  (forall n i, (i < kNumShards)%nat -> Z.of_nat (length (buckets_ (entries (views n i)))) < 2 ^ 32) ->
  0 <= count ->
  exists fuel ks, scan_changing fuel times views 0 0 count = Some ks /\
    (forall k, (forall n, live_in (times n) (views n) k) -> k ∈ ks) /\
    (forall k, k ∈ ks -> exists n, live_in (times n) (views n) k).
Proof.
  intros Hfirst Hnext Hsmall Hcount. assert (0 < kNumShards)%nat as H0 by (apply Nat.ltb_lt; reflexivity).
  destruct (scan_changing_from times views count Hfirst Hnext Hsmall Hcount
    (Z.to_nat (Z.of_nat kNumShards * 2 ^ 32 + 1)) 0 0 0 H0) as (ks & Hs & Hcomp & Hsound).
  - rewrite (drop_S _ _ _ (seen_lookup _ _ H0)). cbn [position]. by apply view_buckets.
  - rewrite Z2Nat.id by (unfold kNumShards; lia). unfold cursor_of. lia.
  - eexists _, ks. split; [exact Hs|]. split; [|done]. intros k Hk. apply Hcomp; [by intros m _|].
    unfold ahead. destruct (GetShard k); [by right; split; [|lia]|left; lia].
Qed.
End seen.

(** ** Concrete runs *)

Lemma calls_shard_calls std_hash st calls i :
  wf_store std_hash st -> rtc (shard_call std_hash i) (shard_at st i) (shard_at (foldl (run_call std_hash) st calls) i).
Proof.
  revert st. induction calls as [|c calls IH]; intros st Hw; [done|]. cbn [foldl].
  eapply rtc_l; [by exists st, c|]. apply IH, run_call_wf, Hw.
Qed.

(** A store, and the same store after one more call. *)
Definition before_call : MemoryStore := foldl (run_call length_hash) init_store [CKv (OSet 1000 "user:1" "x" Always 0)].
Definition after_call : MemoryStore := foldl (run_call length_hash) before_call [CKv (OSet 1001 "b" "y" Always 5)].

Lemma before_call_wf : wf_store length_hash before_call.
Proof. apply run_call_wf, wf_init_store. Qed.

Lemma before_reachable i : rtc (shard_call length_hash i) empty_shard (shard_at before_call i).
Proof. rewrite <- (shard_at_init i). apply calls_shard_calls, wf_init_store. Qed.
Lemma after_reachable i : rtc (shard_call length_hash i) (shard_at before_call i) (shard_at after_call i).
Proof. apply calls_shard_calls, before_call_wf. Qed.

(** The shards from 32 on are seen after the call. *)
Lemma keys_dbsize_while_changing_witness :
  let shards i := shard_at (if (i <? 32)%nat then before_call else after_call) i in
  NoDup (Keys (Store := memory_store length_hash) 1002 (seen shards) "user:?") /\
  "user:1" ∈ Keys (Store := memory_store length_hash) 1002 (seen shards) "user:?".
Proof.
  cbv zeta. set (shards i := shard_at (if (i <? 32)%nat then before_call else after_call) i).
  destruct (keys_dbsize_while_changing length_hash shards 1002 "user:?") as (Hnd & Hk & _).
  - intros i _. unfold shards. destruct (i <? 32)%nat; [apply before_reachable|].
    etransitivity; [apply before_reachable|apply after_reachable].
  - split; [exact Hnd|]. apply Hk. split; vm_compute; reflexivity.
Defined.

Definition few_buckets (st : MemoryStore) (i : nat) : bool :=
  Z.of_nat (length (buckets_ (entries (shard_at st i)))) <? 2 ^ 32.

Lemma scan_while_changing_witness :
  let views n := shard_at (match n with O => before_call | S _ => after_call end) in
  exists fuel ks, scan_changing length_hash fuel (fun _ => 2000) views 0 0 1 = Some ks /\ "user:1" ∈ ks.
Proof.
  cbv zeta. set (views n := shard_at (match n with O => before_call | S _ => after_call end)).
  destruct (scan_while_changing length_hash (fun _ => 2000) views 1) as (fuel & ks & Hs & Hk & _).
  - intros i _. apply before_reachable.
  - intros n i _. destruct n as [|n]; [apply after_reachable|apply rtc_refl].
  - assert (forallb (fun i => few_buckets before_call i && few_buckets after_call i) (seq 0 kNumShards) = true) as Hb
      by (vm_compute; reflexivity).
    intros n i Hi. apply (proj1 (forallb_forall _ _)) with (x := i) in Hb; [|apply in_seq; lia].
    apply andb_true_iff in Hb as [H1 H2]. destruct n as [|n]; [apply Z.ltb_lt, H1|apply Z.ltb_lt, H2].
  - lia.
  - exists fuel, ks. split; [exact Hs|]. apply Hk. intros [|n]; vm_compute; reflexivity.
Defined.
