(* ===== verification/Frame.v ===== *)
(** * GKWP/2 frames (protocol/gkwp2: header.h, frame.h, frame.cpp)

    A packed 24-byte header in network byte order, followed by the payload.
    Byte vectors and byte views are strings of bytes. *)
From S2P Require Import Prelude.

Definition kMagic : Z := 0x474B.
Definition kVersion : Z := 2.
Definition kHeaderSize : nat := 24.
Definition kMaxPayloadLength : Z := 16 * 1024 * 1024.

Inductive MsgType := MT_Request | MT_Response | MT_Event | MT_Error.
Definition msg_type_byte (t : MsgType) : Z :=
  match t with MT_Request => 1 | MT_Response => 2 | MT_Event => 3 | MT_Error => 4 end.

Definition kEndStream : Z := 8.

Record Header := mkHeader {
  h_magic : Z;
  h_version : Z;
  h_flags : Z;
  h_msg_type : Z;
  h_reserved : string;
  h_request_id : Z;
  h_stream_id : Z;
  h_payload_len : Z;
}.

Record Frame := mkFrame { f_header : Header; f_payload : string }.

Definition IsComplete (f : Frame) : bool := slen (f_payload f) =? h_payload_len (f_header f).

(** The three zero bytes of [Header hdr{}]. *)
Definition zero3 : string := be 3 0.

(** The 24 bytes of a header whose multi-byte fields were put in network order. *)
Definition header_bytes (h : Header) : string :=
  be 2 (h_magic h) +:+ be 1 (h_version h) +:+ be 1 (h_flags h) +:+ be 1 (h_msg_type h) +:+
  h_reserved h +:+ be 8 (h_request_id h) +:+ be 4 (h_stream_id h) +:+ be 4 (h_payload_len h).

Definition EncodeFrame (header : Header) (payload : string) : string :=
  let net_header := mkHeader (h_magic header) (h_version header) (h_flags header)
    (h_msg_type header) (h_reserved header) (h_request_id header) (h_stream_id header)
    (u32 (slen payload)) in
  header_bytes net_header +:+ payload.

Definition make_header (flags : Z) (t : MsgType) (request_id stream_id : Z) (payload : string) : Header :=
  mkHeader kMagic kVersion flags (msg_type_byte t) zero3 request_id stream_id (u32 (slen payload)).

Definition EncodeResponse (request_id stream_id : Z) (payload : string) (end_stream : bool) : string :=
  EncodeFrame (make_header (if end_stream then kEndStream else 0) MT_Response request_id stream_id
                 payload) payload.

Definition error_payload (error_code message : string) : string :=
  jq "{'code':'" +:+ error_code +:+ jq "','message':'" +:+ message +:+ jq "'}".

Definition EncodeError (request_id stream_id : Z) (error_code message : string) (end_stream : bool) :
    string :=
  let err_payload := error_payload error_code message in
  EncodeFrame (make_header (if end_stream then kEndStream else 0) MT_Error request_id stream_id
                 err_payload) err_payload.

Definition EncodeEvent (request_id stream_id : Z) (event_type data : string) : string :=
  let evt_payload :=
    jq "{'event_type':'" +:+ event_type +:+ jq "','data':" +:+
    (if is_nil data then "{}" else data) +:+ "}" in
  EncodeFrame (make_header 0 MT_Event request_id stream_id evt_payload) evt_payload.

(** ** Reading a header back *)

Definition read_header (s : string) : Header :=
  mkHeader (be_val (bytes_at 0 2 s)) (be_val (bytes_at 2 1 s)) (be_val (bytes_at 3 1 s))
    (be_val (bytes_at 4 1 s)) (bytes_at 5 3 s) (be_val (bytes_at 8 8 s)) (be_val (bytes_at 16 4 s))
    (be_val (bytes_at 20 4 s)).

Record wf_header (h : Header) : Prop := mk_wf_header {
  wh_magic : is_u16 (h_magic h);
  wh_version : is_u8 (h_version h);
  wh_flags : is_u8 (h_flags h);
  wh_type : is_u8 (h_msg_type h);
  wh_reserved : String.length (h_reserved h) = 3%nat;
  wh_request : is_u64 (h_request_id h);
  wh_stream : is_u32 (h_stream_id h);
  wh_len : is_u32 (h_payload_len h);
}.

Lemma header_bytes_length h :
  String.length (h_reserved h) = 3%nat -> String.length (header_bytes h) = kHeaderSize.
Proof. intros H. unfold header_bytes. rewrite !str_length_app, !be_length, H. done. Qed.

Lemma read_header_bytes h s : wf_header h -> read_header (header_bytes h +:+ s) = h.
Proof.
  intros Hw. destruct h as [mg ve fl mt rs rq sd pl]. destruct Hw as [H1 H2 H3 H4 H5 H6 H7 H8].
  cbn [h_magic h_version h_flags h_msg_type h_reserved h_request_id h_stream_id h_payload_len] in *.
  destruct rs as [|c1 [|c2 [|c3 [|]]]]; try done. unfold read_header, header_bytes.
  cbn [h_magic h_version h_flags h_msg_type h_reserved h_request_id h_stream_id h_payload_len].
  f_equal.
  - transitivity (be_val (be 2 mg)); [reflexivity|by apply be_val_id].
  - transitivity (be_val (be 1 ve)); [reflexivity|by apply be_val_id].
  - transitivity (be_val (be 1 fl)); [reflexivity|by apply be_val_id].
  - transitivity (be_val (be 1 mt)); [reflexivity|by apply be_val_id].
  - transitivity (be_val (be 8 rq)); [reflexivity|by apply be_val_id].
  - transitivity (be_val (be 4 sd)); [reflexivity|by apply be_val_id].
  - transitivity (be_val (be 4 pl)); [reflexivity|by apply be_val_id].
Qed.

Lemma EncodeFrame_length h p :
  String.length (h_reserved h) = 3%nat ->
  String.length (EncodeFrame h p) = (kHeaderSize + String.length p)%nat.
Proof. intros H. unfold EncodeFrame. by rewrite str_length_app, header_bytes_length. Qed.
