(* ===== verification/Decoder.v ===== *)
(** * The incremental frame decoder (protocol/gkwp2: decoder.h, decoder.cpp)

    [Push] appends the incoming bytes to its buffer and cuts off complete frames;
    the consumed prefix is dropped lazily.  The main theorem: however the byte
    stream of a sequence of frames is cut into reads, the decoder returns exactly
    those frames, in order. *)
From S2P Require Import Prelude Frame.

Definition kMaxDecoderBufferSize : Z := 16 * 1024 * 1024.

(** Above this offset the consumed prefix is erased. *)
Definition compact_above : nat := Z.to_nat 65536.

Record Decoder := mkDecoder { buffer_ : string; read_offset_ : nat }.

Definition new_decoder : Decoder := mkDecoder "" 0.
Definition Reset (d : Decoder) : Decoder := mkDecoder "" 0.

(** One round of the loop on the unread bytes: wait for more, give up, or a frame
    and the number of bytes it takes. *)
Inductive round := Wait | Reject (msg : string) | Got (f : Frame) (n : nat).

Definition decode_round (unread : string) : round :=
  if (String.length unread <? kHeaderSize)%nat then Wait
  else
    let hdr := read_header unread in
    if negb (h_magic hdr =? kMagic) then Reject "Invalid GKWP/2 magic bytes"
    else if negb (h_version hdr =? kVersion) then Reject "Unsupported GKWP/2 version"
    else if kMaxPayloadLength <? h_payload_len hdr
    then Reject "Payload length exceeds maximum allowed limit"
    else
      let total_frame_len := (kHeaderSize + Z.to_nat (h_payload_len hdr))%nat in
      if (String.length unread <? total_frame_len)%nat then Wait
      else Got (mkFrame hdr (bytes_at kHeaderSize (Z.to_nat (h_payload_len hdr)) unread))
               total_frame_len.

(** The [while] loop; [fuel] bounds the number of frames, each takes 24 bytes or
    more. *)
Fixpoint push_loop (fuel : nat) (buffer : string) (off : nat) (out : list Frame) :
    nat * list Frame * option string :=
  match fuel with
  | O => (off, out, None)
  | S fuel =>
      match decode_round (str_drop off buffer) with
      | Wait => (off, out, None)
      | Reject msg => (off, out, Some msg)
      | Got f n => push_loop fuel buffer (off + n) (out ++ [f])
      end
  end.

(** The new decoder, the frames appended to [out_frames], and the error message
    when the call returns false. *)
Definition Push (d : Decoder) (incoming : string) : Decoder * list Frame * option string :=
  if kMaxDecoderBufferSize <? slen (buffer_ d) + slen incoming
  then (d, [], Some "Incoming buffer limit exceeded")
  else
    let buffer := buffer_ d +:+ incoming in
    let '(off, out, err) := push_loop (S (String.length buffer)) buffer (read_offset_ d) [] in
    match err with
    | Some msg => (mkDecoder buffer off, out, Some msg)
    | None =>
        let d' :=
          if (0 <? off)%nat then
            if (off =? String.length buffer)%nat then mkDecoder "" 0
            else if (compact_above <? off)%nat then mkDecoder (str_drop off buffer) 0
            else mkDecoder buffer off
          else mkDecoder buffer off in
        (d', out, None)
    end.

(** The caller's loop over the chunks it reads from the socket. *)
Fixpoint push_all (d : Decoder) (chunks : list string) : option (Decoder * list Frame) :=
  match chunks with
  | [] => Some (d, [])
  | c :: chunks =>
      match Push d c with
      | (d, out, None) => (fun r => (r.1, out ++ r.2)) <$> push_all d chunks
      | (_, _, Some _) => None
      end
  end.

(** ** The reference parse of a whole byte string *)

Fixpoint parse (fuel : nat) (s : string) : list Frame * string * option string :=
  match fuel with
  | O => ([], s, None)
  | S fuel =>
      match decode_round s with
      | Wait => ([], s, None)
      | Reject msg => ([], s, Some msg)
      | Got f n => let '(fs, rest, err) := parse fuel (str_drop n s) in (f :: fs, rest, err)
      end
  end.

Lemma str_take_long n s t :
  (n <= String.length s)%nat -> str_take n (s +:+ t) = str_take n s.
Proof. apply str_take_app_le. Qed.

Lemma bytes_at_long off n s t :
  (off + n <= String.length s)%nat -> bytes_at off n (s +:+ t) = bytes_at off n s.
Proof.
  intros H. unfold bytes_at. rewrite str_drop_app_le by lia.
  apply str_take_app_le. rewrite str_drop_length. lia.
Qed.

Lemma read_header_long s t :
  (kHeaderSize <= String.length s)%nat -> read_header (s +:+ t) = read_header s.
Proof.
  intros H. unfold kHeaderSize in H. unfold read_header. by rewrite !bytes_at_long by lia.
Qed.

Lemma be_val_nonneg s : 0 <= be_val s.
Proof.
  unfold be_val. assert (forall acc, 0 <= acc -> 0 <= be_acc acc s) as H; [|by apply H].
  induction s as [|c s IH]; intros acc Ha; simpl; [done|]. apply IH.
  pose proof (Z_of_byte_range c). lia.
Qed.

(** A frame that is complete stays the same when more bytes follow. *)
Lemma round_more s t f n :
  decode_round s = Got f n ->
  decode_round (s +:+ t) = Got f n /\ (kHeaderSize <= n <= String.length s)%nat.
Proof.
  unfold decode_round. destruct (_ <? _)%nat eqn:E1; [done|]. apply Nat.ltb_ge in E1.
  rewrite str_length_app, read_header_long by done.
  destruct (String.length s + String.length t <? kHeaderSize)%nat eqn:E2;
    [apply Nat.ltb_lt in E2; lia|].
  destruct (negb _); [done|]. destruct (negb _); [done|]. destruct (_ <? _); [done|].
  destruct (String.length s <? _)%nat eqn:E3; [done|]. apply Nat.ltb_ge in E3.
  rewrite (proj2 (Nat.ltb_ge (String.length s + String.length t)
    (kHeaderSize + Z.to_nat (h_payload_len (read_header s))))) by lia.
  rewrite bytes_at_long by lia. intros H. split; [done|].
  assert (n = kHeaderSize + Z.to_nat (h_payload_len (read_header s)))%nat as -> by congruence. lia.
Qed.

Lemma parse_fuel f1 f2 s :
  (String.length s < f1)%nat -> (String.length s < f2)%nat -> parse f1 s = parse f2 s.
Proof.
  revert f2 s. induction f1 as [|f1 IH]; intros [|f2] s H1 H2; try lia. simpl.
  destruct (decode_round s) as [| |f n] eqn:E; [done..|].
  apply (round_more s "") in E as [_ Hn]. unfold kHeaderSize in Hn.
  rewrite (IH f2); [done|..]; rewrite str_drop_length; lia.
Qed.

Lemma parse_rest_le f s fs rest err :
  parse f s = (fs, rest, err) -> (String.length rest <= String.length s)%nat.
Proof.
  revert s fs. induction f as [|f IH]; intros s fs; simpl; [by intros [= _ ->]|].
  destruct (decode_round s) as [| |f0 m]; [by intros [= _ ->]|by intros [= _ ->]|].
  destruct (parse f (str_drop m s)) as [[a b] e] eqn:E. intros [= _ -> ->].
  apply IH in E. rewrite str_drop_length in E. lia.
Qed.

(** Parsing a longer string continues where the shorter one stopped. *)
Lemma parse_app f s t fs rest :
  (String.length s < f)%nat -> parse f s = (fs, rest, None) ->
  forall f', (String.length (s +:+ t) < f')%nat ->
  parse f' (s +:+ t) =
    let '(fs', rest', err) := parse f' (rest +:+ t) in (fs ++ fs', rest', err).
Proof.
  revert s fs. induction f as [|f IH]; intros s fs Hl Hp f' Hf'; [lia|]. simpl in Hp.
  destruct (decode_round s) as [| |fr n] eqn:E; [|done|].
  - simplify_eq. by destruct (parse f' (rest +:+ t)) as [[? ?] ?].
  - destruct (round_more s t fr n E) as [E' Hn]. unfold kHeaderSize in Hn.
    destruct (parse f (str_drop n s)) as [[fs0 rest0] err0] eqn:Ep. simplify_eq.
    destruct f' as [|f']; [lia|].
    assert (parse (S f') (s +:+ t) = let '(a, b, c) := parse f' (str_drop n (s +:+ t)) in
      (fr :: a, b, c)) as -> by (cbn [parse]; by rewrite E').
    rewrite str_drop_app_le by lia.
    rewrite str_length_app in Hf'.
    rewrite (IH (str_drop n s) fs0) by (done || rewrite ?str_length_app, ?str_drop_length; lia).
    assert (String.length rest <= String.length (str_drop n s))%nat as Hrest.
    { by eapply parse_rest_le. }
    rewrite str_drop_length in Hrest.
    rewrite (parse_fuel f' (S f') (rest +:+ t)) by (rewrite str_length_app; lia).
    by destruct (parse (S f') (rest +:+ t)) as [[? ?] ?].
Qed.

(** The loop of [Push] computes the reference parse of the unread bytes. *)
Lemma push_loop_parse fuel buffer off out :
  (off <= String.length buffer)%nat -> (String.length buffer - off < fuel)%nat ->
  let '(fs, rest, err) := parse fuel (str_drop off buffer) in
  exists off', push_loop fuel buffer off out = (off', out ++ fs, err) /\
    rest = str_drop off' buffer /\ (off <= off' <= String.length buffer)%nat.
Proof.
  revert off out. induction fuel as [|fuel IH]; intros off out Ho Hf; [lia|]. cbn [parse push_loop].
  destruct (decode_round (str_drop off buffer)) as [| |f n] eqn:E.
  - exists off. rewrite app_nil_r. split_and!; (done || lia).
  - exists off. rewrite app_nil_r. split_and!; (done || lia).
  - apply (round_more _ "") in E as [_ Hn]. rewrite str_drop_length in Hn. unfold kHeaderSize in Hn.
    rewrite str_drop_drop. specialize (IH (off + n)%nat (out ++ [f])).
    destruct (parse fuel _) as [[fs rest] err]. destruct IH as (off' & -> & -> & ?); [lia..|].
    exists off'. rewrite <- app_assoc. split_and!; (done || lia).
Qed.

Definition parse_full (s : string) : list Frame * string * option string :=
  parse (S (String.length s)) s.

(** [d] has consumed the stream [s] and delivered [fs]; what it still buffers is
    the incomplete rest. *)
Definition tracks (d : Decoder) (s : string) (fs : list Frame) : Prop :=
  parse_full s = (fs, str_drop (read_offset_ d) (buffer_ d), None) /\
  (read_offset_ d <= String.length (buffer_ d))%nat /\ (read_offset_ d <= compact_above)%nat /\
  (str_drop (read_offset_ d) (buffer_ d) = "" -> d = new_decoder).

Lemma tracks_new : tracks new_decoder "" [].
Proof. by split_and!; simpl; try lia. Qed.

Lemma drop_nil_length n s : str_drop n s = "" -> (String.length s <= n)%nat.
Proof. intros H%(f_equal String.length). rewrite str_drop_length in H. simpl in H. lia. Qed.

Lemma Push_tracks d s fs c fs' rest :
  tracks d s fs -> parse_full (s +:+ c) = (fs', rest, None) ->
  slen (buffer_ d) + slen c <= kMaxDecoderBufferSize ->
  exists d' out, Push d c = (d', out, None) /\ fs' = fs ++ out /\ tracks d' (s +:+ c) fs'.
Proof.
  intros (Hp & Ho & Ho' & _) Hp' Hmax. unfold Push.
  rewrite (proj2 (Z.ltb_ge kMaxDecoderBufferSize (slen (buffer_ d) + slen c))) by done.
  set (buffer := buffer_ d +:+ c).
  assert (String.length buffer = String.length (buffer_ d) + String.length c)%nat as Hlb
    by apply str_length_app.
  pose proof Hp' as Hp2. unfold parse_full in Hp, Hp2.
  rewrite (parse_app (S (String.length s)) s c fs _ ltac:(lia) Hp) in Hp2 by lia.
  rewrite <- str_drop_app_le in Hp2 by done. fold buffer in Hp2.
  assert (String.length (buffer_ d) - read_offset_ d <= String.length s)%nat as Hsl.
  { apply parse_rest_le in Hp. by rewrite str_drop_length in Hp. }
  pose proof (push_loop_parse (S (String.length buffer)) buffer (read_offset_ d) []
    ltac:(lia) ltac:(lia)) as Hl.
  rewrite (parse_fuel (S (String.length buffer)) (S (String.length (s +:+ c)))) in Hl
    by (rewrite str_drop_length, ?str_length_app; lia).
  destruct (parse (S (String.length (s +:+ c))) (str_drop (read_offset_ d) buffer))
    as [[fs2 rest2] err2].
  injection Hp2 as <- <- ->. destruct Hl as (off & -> & -> & Hoff). simpl app.
  eexists _, fs2. split; [reflexivity|]. split; [done|].
  assert (forall d', str_drop (read_offset_ d') (buffer_ d') = str_drop off buffer ->
    (read_offset_ d' <= String.length (buffer_ d'))%nat -> (read_offset_ d' <= compact_above)%nat ->
    (str_drop off buffer = "" -> d' = new_decoder) -> tracks d' (s +:+ c) (fs ++ fs2)) as Hmk.
  { intros d' H1 H2 H3 H4. unfold tracks. rewrite H1. by split_and!. }
  destruct (0 <? off)%nat eqn:E0; [apply Nat.ltb_lt in E0|apply Nat.ltb_ge in E0].
  - destruct (off =? String.length buffer)%nat eqn:E1.
    + apply Nat.eqb_eq in E1. apply Hmk; simpl; try lia; [|done].
      symmetry. apply length_zero_nil. rewrite str_drop_length. lia.
    + apply Nat.eqb_neq in E1. destruct (compact_above <? off)%nat eqn:E2.
      * apply Hmk; simpl; try lia; [by destruct (str_drop off buffer)|].
        intros H%drop_nil_length. lia.
      * apply Nat.ltb_ge in E2. apply Hmk; simpl; try done; try lia.
        intros H%drop_nil_length. lia.
  - apply Hmk; simpl; try done; try lia. intros H%drop_nil_length.
    assert (off = 0%nat) as -> by lia. rewrite (length_zero_nil buffer) by lia. done.
Qed.

(** ** Streams of valid frames *)

Record valid_frame (f : Frame) : Prop := mk_valid {
  vf_header : wf_header (f_header f);
  vf_magic : h_magic (f_header f) = kMagic;
  vf_version : h_version (f_header f) = kVersion;
  vf_len : h_payload_len (f_header f) = slen (f_payload f);
  vf_max : slen (f_payload f) <= kMaxPayloadLength;
}.

Definition encode (f : Frame) : string := EncodeFrame (f_header f) (f_payload f).
Fixpoint encode_all (fs : list Frame) : string :=
  match fs with [] => "" | f :: fs => encode f +:+ encode_all fs end.

Lemma encode_bytes f : valid_frame f -> encode f = header_bytes (f_header f) +:+ f_payload f.
Proof.
  intros [Hw _ _ Hl Hm]. unfold encode, EncodeFrame. rewrite u32_id; [|split; [apply slen_nonneg|]].
  - rewrite <- Hl. by destruct (f_header f).
  - unfold kMaxPayloadLength in Hm. lia.
Qed.

Lemma encode_length f :
  valid_frame f -> String.length (encode f) = (kHeaderSize + String.length (f_payload f))%nat.
Proof. intros Hv. apply EncodeFrame_length, Hv. Qed.

Lemma round_encode f s :
  valid_frame f -> decode_round (encode f +:+ s) = Got f (String.length (encode f)).
Proof.
  intros Hv. pose proof (encode_length f Hv) as Hl. destruct Hv as [Hw Hmg Hve Hlen Hmax] eqn:E.
  unfold decode_round. rewrite str_length_app, Hl.
  rewrite (proj2 (Nat.ltb_ge (kHeaderSize + String.length (f_payload f) + String.length s) kHeaderSize))
    by lia.
  rewrite encode_bytes by done. rewrite str_app_assoc, read_header_bytes by done.
  rewrite Hmg, Hve, Hlen, !Z.eqb_refl. cbn [negb].
  destruct (kMaxPayloadLength <? slen (f_payload f)) eqn:?; bool_prop; [lia|].
  unfold slen. rewrite Nat2Z.id.
  rewrite (proj2 (Nat.ltb_ge (kHeaderSize + String.length (f_payload f) + String.length s)
    (kHeaderSize + String.length (f_payload f)))) by lia.
  f_equal. destruct f as [h p]. f_equal. unfold bytes_at.
  rewrite str_drop_app by (symmetry; apply header_bytes_length, Hw). by apply str_take_app.
Qed.

Lemma round_partial f s t :
  valid_frame f -> encode f = s +:+ t -> t <> "" -> decode_round s = Wait.
Proof.
  intros Hv He Ht. pose proof (encode_length f Hv) as Hl. rewrite He, str_length_app in Hl.
  assert (0 < String.length t)%nat as Hpos by (destruct t; [done|simpl; lia]).
  unfold decode_round. destruct (_ <? _)%nat eqn:E1; [done|]. apply Nat.ltb_ge in E1.
  rewrite <- (read_header_long s t), <- He, encode_bytes by done.
  destruct Hv as [Hw Hmg Hve Hlen Hmax]. rewrite read_header_bytes by done.
  rewrite Hmg, Hve, Hlen, !Z.eqb_refl. cbn [negb].
  destruct (kMaxPayloadLength <? slen (f_payload f)) eqn:?; bool_prop; [lia|].
  unfold slen. rewrite Nat2Z.id.
  by rewrite (proj2 (Nat.ltb_lt (String.length s) (kHeaderSize + String.length (f_payload f)))) by lia.
Qed.

Lemma str_app_cut a b s t :
  a +:+ b = s +:+ t ->
  (String.length s < String.length a)%nat /\ (exists u, a = s +:+ u /\ u <> "" /\ t = u +:+ b) \/
  exists s', s = a +:+ s' /\ b = s' +:+ t.
Proof.
  revert s. induction a as [|c a IH]; intros s He.
  - right. by exists s.
  - destruct s as [|d s].
    + left. simpl. split; [lia|]. exists (String c a). by split_and!.
    + rewrite !str_app_cons in He. injection He as -> He.
      destruct (IH s He) as [(Hl & u & -> & ? & ?)|(s' & -> & ?)].
      * left. simpl. split; [lia|]. exists u. by rewrite str_app_cons.
      * right. exists s'. by rewrite str_app_cons.
Qed.

Lemma parse_prefix fs s t :
  Forall valid_frame fs -> encode_all fs = s +:+ t ->
  exists fs1 fs2 rest, fs = fs1 ++ fs2 /\ parse_full s = (fs1, rest, None) /\
    encode_all fs2 = rest +:+ t /\
    match fs2 with [] => rest = "" | f :: _ => (String.length rest < String.length (encode f))%nat end.
Proof.
  revert s. induction fs as [|f fs IH]; intros s Hv He.
  { simpl in He. destruct s; [|done]. by exists [], [], "". }
  apply list.Forall_cons in Hv as [Hf Hv]. cbn [encode_all] in He.
  destruct (str_app_cut _ _ _ _ He) as [(Hl & u & Hu & Hne & ->)|(s' & -> & He')].
  - exists [], (f :: fs), s. split_and!; [done| |by rewrite <- He|done].
    unfold parse_full. cbn [parse]. by rewrite (round_partial f s u).
  - destruct (IH s' Hv He') as (fs1 & fs2 & rest & -> & Hp & Hr & Hm).
    exists (f :: fs1), fs2, rest. split_and!; try done.
    unfold parse_full. cbn [parse]. rewrite round_encode, str_drop_app by done.
    rewrite (parse_fuel _ (S (String.length s'))).
    + fold (parse_full s'). by rewrite Hp.
    + rewrite str_length_app, encode_length by done. unfold kHeaderSize. lia.
    + lia.
Qed.

Fixpoint str_concat (l : list string) : string :=
  match l with [] => "" | s :: l => s +:+ str_concat l end.

Lemma push_all_tracks fs chunks P C d s :
  Forall valid_frame fs -> Forall (fun f => (String.length (f_payload f) <= P)%nat) fs ->
  Forall (fun c => (String.length c <= C)%nat) chunks ->
  65560 + Z.of_nat P + Z.of_nat C <= 2 ^ 24 ->
  encode_all fs = s +:+ str_concat chunks ->
  forall fs1, tracks d s fs1 ->
  exists out, push_all d chunks = Some (new_decoder, out) /\ fs = fs1 ++ out.
Proof.
  intros Hv HP HC Hmax. revert d s. induction chunks as [|c chunks IH]; intros d s He fs1 Ht.
  - simpl in He. exists []. simpl. rewrite app_nil_r.
    destruct (parse_prefix fs s "" Hv He) as (a & b & rest & Hab & Hp & Hr & Hm).
    pose proof Ht as (Hp' & _ & _ & Hnew). rewrite Hp in Hp'. injection Hp' as -> Hrest.
    rewrite str_app_nil_r in Hr. destruct b as [|f b].
    + rewrite app_nil_r in Hab. split; [|done]. by rewrite Hnew by congruence.
    + cbn [encode_all] in Hr. rewrite <- Hr, str_length_app in Hm. lia.
  - apply list.Forall_cons in HC as [Hc HC]. cbn [str_concat] in He.
    destruct (parse_prefix fs (s +:+ c) (str_concat chunks) Hv) as (a & b & rest & Hab & Hp & Hr & Hm).
    { by rewrite str_app_assoc. }
    destruct (parse_prefix fs s (c +:+ str_concat chunks) Hv He) as (a0 & b0 & r0 & Hab0 & Hp0 & Hr0 & Hm0).
    pose proof Ht as (Hp' & Ho & Ho' & _). rewrite Hp0 in Hp'. injection Hp' as -> Hrest.
    assert (String.length r0 <= kHeaderSize + P)%nat as Hb0.
    { destruct b0 as [|f b0]; [subst r0; simpl; lia|]. rewrite Hab0 in Hv, HP.
      apply list.Forall_app in Hv as [_ Hv]. apply list.Forall_app in HP as [_ HP].
      apply list.Forall_cons in Hv as [Hf _]. apply list.Forall_cons in HP as [HPf _].
      rewrite encode_length in Hm0 by done. lia. }
    rewrite Hrest, str_drop_length in Hb0. unfold kHeaderSize in Hb0.
    destruct (Push_tracks d s fs1 c a rest Ht Hp) as (d' & out & Hpush & -> & Ht').
    { unfold slen, kMaxDecoderBufferSize, compact_above in *. lia. }
    destruct (IH HC d' (s +:+ c) ltac:(by rewrite str_app_assoc) (fs1 ++ out) Ht') as (out' & Hall & Hfs).
    exists (out ++ out'). cbn [push_all]. rewrite Hpush, Hall. simpl. by rewrite app_assoc, <- Hfs.
Qed.

(** C31: decoding inverts encoding, however the stream is cut.  Encode any list of valid frames
    (magic, version, truthful length) back to back, cut the bytes into arbitrary chunks of at
    most C bytes, with payloads of at most P bytes and 65560 + P + C <= 16 MiB: pushing the
    chunks one by one into a new decoder succeeds every time, delivers exactly those frames in
    order, and leaves the decoder empty. *)
Theorem decoder_roundtrip fs chunks P C :
  Forall valid_frame fs -> Forall (fun f => (String.length (f_payload f) <= P)%nat) fs ->
  Forall (fun c => (String.length c <= C)%nat) chunks ->
  65560 + Z.of_nat P + Z.of_nat C <= 2 ^ 24 ->
  str_concat chunks = encode_all fs ->
  push_all new_decoder chunks = Some (new_decoder, fs).
Proof.
  intros Hv HP HC Hmax He.
  destruct (push_all_tracks fs chunks P C new_decoder "" Hv HP HC Hmax) with (fs1 := @nil Frame)
    as (out & -> & ->); [by rewrite He|apply tracks_new|done].
Qed.

Lemma round_size s f n :
  decode_round s = Got f n ->
  (n <= String.length s)%nat /\ IsComplete f = true /\
  n = (kHeaderSize + String.length (f_payload f))%nat /\
  h_magic (f_header f) = kMagic /\ h_version (f_header f) = kVersion.
Proof.
  unfold decode_round. destruct (_ <? _)%nat; [done|].
  destruct (negb (h_magic _ =? _)) eqn:E1; [done|]. destruct (negb (h_version _ =? _)) eqn:E2; [done|].
  destruct (_ <? _); [done|]. bool_prop.
  destruct (String.length s <? _)%nat eqn:E3; [done|]. apply Nat.ltb_ge in E3. intros H.
  assert (f = mkFrame (read_header s) (bytes_at kHeaderSize (Z.to_nat (h_payload_len (read_header s))) s))
    as -> by congruence.
  assert (n = kHeaderSize + Z.to_nat (h_payload_len (read_header s)))%nat as -> by congruence.
  assert (String.length (bytes_at kHeaderSize (Z.to_nat (h_payload_len (read_header s))) s) =
          Z.to_nat (h_payload_len (read_header s))) as Hb.
  { unfold bytes_at. rewrite str_take_length, str_drop_length. lia. }
  pose proof (be_val_nonneg (bytes_at 20 4 s)).
  split_and!; [done| |cbn [f_payload]; lia|done|done].
  unfold IsComplete, slen. cbn [f_payload f_header]. apply Z.eqb_eq. rewrite Hb. simpl. lia.
Qed.

Lemma push_loop_sizes fuel buffer off out off' out' err :
  push_loop fuel buffer off out = (off', out', err) ->
  Forall (fun f => IsComplete f = true /\
            (kHeaderSize + String.length (f_payload f) <= String.length buffer)%nat) out ->
  Forall (fun f => IsComplete f = true /\
            (kHeaderSize + String.length (f_payload f) <= String.length buffer)%nat) out'.
Proof.
  revert off out. induction fuel as [|fuel IH]; intros off out; simpl; [by intros [= _ -> _]|].
  destruct (decode_round _) as [| |f n] eqn:E; [by intros [= _ -> _]..|].
  intros Hp Ho. apply (IH _ _ Hp). apply list.Forall_app. split; [done|].
  apply round_size in E as (Hn & Hc & -> & _). rewrite str_drop_length in Hn.
  constructor; [|constructor]. split; [done|]. lia.
Qed.

(** C33: the buffer limit is below the frame limit.  Every frame that any Push delivers, whether
    the call succeeds or not, is complete, and frame header and payload together fit in the
    16 MiB buffer limit: a frame with the largest payload the protocol allows (16 MiB) can
    never be received. *)
Theorem decoder_frame_bound d incoming :
  Forall (fun f => IsComplete f = true /\ slen (f_payload f) <= kMaxPayloadLength - 24)
    (Push d incoming).1.2.
Proof.
  unfold Push. destruct (_ <? _) eqn:E; [constructor|]. apply Z.ltb_ge in E.
  destruct (push_loop _ _ _ _) as [[off out] err] eqn:Ep.
  apply push_loop_sizes in Ep; [|constructor].
  assert (Forall (fun f => IsComplete f = true /\ slen (f_payload f) <= kMaxPayloadLength - 24) out) as H.
  { eapply list.Forall_impl; [exact Ep|]. cbn beta. intros f [Hc Hl]. split; [done|].
    rewrite str_length_app in Hl. unfold slen, kHeaderSize, kMaxPayloadLength, kMaxDecoderBufferSize in *.
    lia. }
  by destruct err.
Qed.

(** C32: malformed input is refused.  When the unread bytes start with a full header whose magic
    or version is wrong or whose length field exceeds 16 MiB, Push returns the error for the
    first violation in that order, delivers no frame and consumes nothing. *)
Theorem decoder_rejects d incoming :
  let buffer := buffer_ d +:+ incoming in
  let hdr := read_header (str_drop (read_offset_ d) buffer) in
  slen (buffer_ d) + slen incoming <= kMaxDecoderBufferSize ->
  (read_offset_ d + kHeaderSize <= String.length buffer)%nat ->
  h_magic hdr <> kMagic \/ h_version hdr <> kVersion \/ kMaxPayloadLength < h_payload_len hdr ->
  Push d incoming = (mkDecoder buffer (read_offset_ d), [],
    Some (if negb (h_magic hdr =? kMagic) then "Invalid GKWP/2 magic bytes"
          else if negb (h_version hdr =? kVersion) then "Unsupported GKWP/2 version"
          else "Payload length exceeds maximum allowed limit")).
Proof.
  intros buffer hdr Hmax Hlen Hbad. unfold Push.
  rewrite (proj2 (Z.ltb_ge kMaxDecoderBufferSize (slen (buffer_ d) + slen incoming))) by done.
  fold buffer. cbn [push_loop]. unfold decode_round. fold hdr.
  rewrite (proj2 (Nat.ltb_ge (String.length (str_drop (read_offset_ d) buffer)) kHeaderSize))
    by (rewrite str_drop_length; lia).
  destruct (h_magic hdr =? kMagic) eqn:?; [|done].
  destruct (h_version hdr =? kVersion) eqn:?; [|done]. cbn [negb].
  destruct (kMaxPayloadLength <? h_payload_len hdr) eqn:?; [done|]. bool_prop. lia.
Qed.

(** ** Witnesses *)

Definition sample_frame (p : string) : Frame :=
  mkFrame (make_header 0 MT_Request 7 3 p) p.

Lemma sample_frame_valid p : slen p < 1000 -> valid_frame (sample_frame p).
Proof.
  intros Hp. pose proof (slen_nonneg p).
  assert (u32 (slen p) = slen p) as E by (apply u32_id; lia).
  split; [split|..]; cbn; try rewrite E; try done; try lia; unfold kMaxPayloadLength; lia.
Defined.

Lemma decoder_roundtrip_witness :
  push_all new_decoder
    [str_take 10 (encode_all [sample_frame "hello"; sample_frame ""]);
     str_take 30 (str_drop 10 (encode_all [sample_frame "hello"; sample_frame ""]));
     str_drop 40 (encode_all [sample_frame "hello"; sample_frame ""])] =
  Some (new_decoder, [sample_frame "hello"; sample_frame ""]).
Proof.
  apply (decoder_roundtrip _ _ 5 40).
  - repeat constructor; apply sample_frame_valid; vm_compute; reflexivity.
  - repeat constructor; simpl; lia.
  - repeat constructor; vm_compute; lia.
  - lia.
  - vm_compute. reflexivity.
Defined.

Lemma decoder_rejects_witness :
  Push new_decoder (be 24 0) =
  (mkDecoder (be 24 0) 0, [], Some "Invalid GKWP/2 magic bytes").
Proof.
  apply (decoder_rejects new_decoder (be 24 0)).
  - vm_compute. discriminate.
  - simpl. unfold kHeaderSize. lia.
  - left. vm_compute. discriminate.
Defined.
