(* ===== verification/Streams.v ===== *)
(** * Multiplexed streams (protocol/gkwp2: stream_manager.h, stream_manager.cpp)

    The [std::unordered_map] of streams is a finite map.  [GetOrCreateStream] and
    [FindStream] return a pointer into the map: the model returns the key of the
    entry, through which a caller reads and writes it.  The order in which
    [PurgeIdleStreams] reports timeouts is the map's iteration order, which C++
    leaves open: the model lists them in some order and the theorems do not depend
    on it. *)
From S2P Require Import Prelude.

Inductive StreamState := SS_Idle | SS_Open | SS_HalfClosedRemote | SS_HalfClosedLocal | SS_Closed.

Record Stream := mkStream {
  s_id : Z;
  s_state : StreamState;
  s_last_activity_ms : Z;
  s_fragment_buffer : string;
}.

Record StreamManager := mkManager {
  max_concurrent_streams_ : Z;
  idle_timeout_ms_ : Z;
  streams_ : gmap Z Stream;
}.

Definition new_manager (max_concurrent_streams idle_timeout_ms : Z) : StreamManager :=
  mkManager max_concurrent_streams idle_timeout_ms ∅.

Definition with_streams (m : StreamManager) (s : gmap Z Stream) : StreamManager :=
  mkManager (max_concurrent_streams_ m) (idle_timeout_ms_ m) s.

Definition ActiveStreamCount (m : StreamManager) : Z := Z.of_nat (size (streams_ m)).

Definition CanOpenStream (m : StreamManager) (stream_id : Z) : bool :=
  match streams_ m !! stream_id with
  | Some _ => true
  | None => ActiveStreamCount m <? max_concurrent_streams_ m
  end.

(** [None] is the null pointer. *)
Definition GetOrCreateStream (m : StreamManager) (stream_id now_ms : Z) : StreamManager * option Z :=
  match streams_ m !! stream_id with
  | Some s =>
      let s := mkStream (s_id s) (s_state s) now_ms (s_fragment_buffer s) in
      (with_streams m (<[stream_id := s]> (streams_ m)), Some stream_id)
  | None =>
      if max_concurrent_streams_ m <=? ActiveStreamCount m then (m, None)
      else
        let stream := mkStream stream_id SS_Open now_ms "" in
        (with_streams m (<[stream_id := stream]> (streams_ m)), Some stream_id)
  end.

Definition FindStream (m : StreamManager) (stream_id : Z) : option Stream := streams_ m !! stream_id.

Definition CloseStream (m : StreamManager) (stream_id : Z) : StreamManager :=
  with_streams m (delete stream_id (streams_ m)).

Definition idle (m : StreamManager) (now_ms : Z) (s : Stream) : bool :=
  (s_last_activity_ms s <? now_ms) && (idle_timeout_ms_ m <=? now_ms - s_last_activity_ms s).

(** The new manager, the ids handed to [on_timeout], and the count. *)
Definition PurgeIdleStreams (m : StreamManager) (now_ms : Z) : StreamManager * list Z * Z :=
  let to_remove := (List.filter (fun p => idle m now_ms p.2) (map_to_list (streams_ m))).*1 in
  (with_streams m (foldl (fun s id => delete id s) (streams_ m) to_remove), to_remove,
   Z.of_nat (length to_remove)).

(** ** Reachable managers *)

Inductive stream_call :=
| SOpen (id now : Z) | SClose (id : Z) | SPurge (now : Z)
| SWrite (id : Z) (f : Stream -> Stream).

Definition run_stream (m : StreamManager) (c : stream_call) : StreamManager :=
  match c with
  | SOpen id now => (GetOrCreateStream m id now).1
  | SClose id => CloseStream m id
  | SPurge now => (PurgeIdleStreams m now).1.1
  | SWrite id f => with_streams m (alter f id (streams_ m))
  end.

Lemma delete_list_lookup (l : list Z) (s : gmap Z Stream) id :
  foldl (fun s i => delete i s) s l !! id = if decide (id ∈ l) then None else s !! id.
Proof.
  revert s. induction l as [|i l IH]; intros s; simpl; [done|]. rewrite IH, lookup_delete.
  destruct (decide (id ∈ l)), (decide (i = id)), (decide (id ∈ i :: l)); try done; set_solver.
Qed.

Lemma size_delete_le (s : gmap Z Stream) i : (size (delete i s) <= size s)%nat.
Proof. rewrite map_size_delete. destruct (s !! i); unfold id; lia. Qed.

Lemma size_delete_list (l : list Z) (s : gmap Z Stream) :
  (size (foldl (fun s i => delete i s) s l) <= size s)%nat.
Proof.
  revert s. induction l as [|i l IH]; intros s; simpl; [lia|].
  etrans; [apply IH|]. apply size_delete_le.
Qed.

Lemma to_remove_iff m now id :
  id ∈ (PurgeIdleStreams m now).1.2 <-> exists s, streams_ m !! id = Some s /\ idle m now s = true.
Proof.
  simpl. rewrite list_elem_of_fmap. split.
  - intros ([i s] & -> & Hin). rewrite list_elem_of_In, filter_In, <- list_elem_of_In in Hin.
    destruct Hin as [Hin Hi]. apply elem_of_map_to_list in Hin. eauto.
  - intros (s & Hs & Hi). exists (id, s). split; [done|].
    rewrite list_elem_of_In, filter_In, <- list_elem_of_In. split; [|done]. by apply elem_of_map_to_list.
Qed.

Lemma run_stream_bound m c :
  0 <= max_concurrent_streams_ m -> ActiveStreamCount m <= max_concurrent_streams_ m ->
  max_concurrent_streams_ (run_stream m c) = max_concurrent_streams_ m /\
  ActiveStreamCount (run_stream m c) <= max_concurrent_streams_ m.
Proof.
  intros H0 Hb. unfold ActiveStreamCount in *. destruct c as [id now|id|now|id f]; simpl.
  - unfold GetOrCreateStream. destruct (streams_ m !! id) eqn:E; simpl.
    + rewrite map_size_insert_Some by done. done.
    + destruct (_ <=? _) eqn:?; bool_prop; [done|]. simpl. unfold ActiveStreamCount in *.
      rewrite map_size_insert_None by done. split; [done|lia].
  - split; [done|]. pose proof (size_delete_le (streams_ m) id). lia.
  - split; [done|]. pose proof (size_delete_list (PurgeIdleStreams m now).1.2 (streams_ m)).
    simpl in *. lia.
  - split; [done|]. enough (size (alter f id (streams_ m)) = size (streams_ m)) as -> by done.
    rewrite <- !size_dom. by rewrite dom_alter_L.
Qed.

(** the stream limit holds.  Whatever sequence of opens, closes, purges and writes through
    stream pointers a connection performs, the number of live streams never exceeds
    max_concurrent_streams, and CanOpenStream answers true exactly when GetOrCreateStream
    would return a stream. *)
Theorem stream_limit max_streams timeout calls id now :
  0 <= max_streams ->
  let m := foldl run_stream (new_manager max_streams timeout) calls in
  ActiveStreamCount m <= max_streams /\
  (CanOpenStream m id = true <-> (GetOrCreateStream m id now).2 = Some id).
Proof.
  intros H0 m. split.
  - enough (max_concurrent_streams_ m = max_streams /\ ActiveStreamCount m <= max_streams) by tauto.
    unfold m.
    assert (forall m0, max_concurrent_streams_ m0 = max_streams -> ActiveStreamCount m0 <= max_streams ->
      max_concurrent_streams_ (foldl run_stream m0 calls) = max_streams /\
      ActiveStreamCount (foldl run_stream m0 calls) <= max_streams) as H.
    { induction calls as [|c calls IH]; intros m0 E Hb; [done|]. simpl.
      destruct (run_stream_bound m0 c); [lia..|]. apply IH; lia. }
    apply H; [done|]. unfold ActiveStreamCount, new_manager. simpl. rewrite map_size_empty. lia.
  - unfold CanOpenStream, GetOrCreateStream. destruct (streams_ m !! id); [done|].
    destruct (_ <? _) eqn:E1, (_ <=? _) eqn:E2; bool_prop; simpl; try done; lia.
Qed.

Lemma stream_limit_witness :
  ActiveStreamCount (foldl run_stream (new_manager 2 30000) [SOpen 1 0; SOpen 2 0; SOpen 3 0]) <= 2 /\
  CanOpenStream (foldl run_stream (new_manager 2 30000) [SOpen 1 0; SOpen 2 0; SOpen 3 0]) 3 = false.
Proof.
  destruct (stream_limit 2 30000 [SOpen 1 0; SOpen 2 0; SOpen 3 0] 3 5) as [H _]; [lia|].
  split; [exact H|vm_compute; reflexivity].
Defined.

(** the idle purge is exact.  PurgeIdleStreams reports and removes exactly the streams whose
    last activity lies in the past by at least the timeout, each once, counts them, and leaves
    every other stream untouched. *)
Theorem purge_idle_exact m now :
  let '(m', removed, n) := PurgeIdleStreams m now in
  NoDup removed /\ n = Z.of_nat (length removed) /\
  (forall id, id ∈ removed <-> exists s, FindStream m id = Some s /\ idle m now s = true) /\
  (forall id, FindStream m' id =
     match FindStream m id with
     | Some s => if idle m now s then None else Some s
     | None => None
     end).
Proof.
  pose proof (to_remove_iff m now) as Hiff. unfold FindStream.
  destruct (PurgeIdleStreams m now) as [[m' removed] n] eqn:E. simpl in Hiff.
  unfold PurgeIdleStreams in E. injection E as <- Hr <-. rewrite <- Hr in *.
  split_and!; [|done|exact Hiff|].
  - assert (NoDup (map_to_list (streams_ m)).*1) as Hnd by apply NoDup_fst_map_to_list.
    revert Hnd. generalize (map_to_list (streams_ m)) as l. clear.
    induction l as [|p l IH]; simpl; [done|]. intros [Hp Hl]%list.NoDup_cons.
    destruct (idle m now p.2); [|auto]. simpl. constructor; [|auto].
    intros Hin. apply Hp. clear -Hin. induction l as [|q l IH]; simpl in *; [set_solver|].
    destruct (idle m now q.2); set_solver.
  - intros id. simpl. rewrite delete_list_lookup. specialize (Hiff id).
    destruct (streams_ m !! id) as [s|] eqn:Es; case_decide as Hd; try done.
    + destruct (proj1 Hiff Hd) as (s' & [= <-] & ->). done.
    + destruct (idle m now s) eqn:Ei; [|done]. exfalso. apply Hd, Hiff. eauto.
Qed.
