(* ===== verification/Json.v ===== *)
(** * JSON text (protocol: response.cpp, json_reader.h, json_reader.cpp)

    [QuoteJson] writes a byte string as a JSON string; [JsonReader] is the
    cursor that the command handlers read request bodies with.  The reader's
    state is the unread suffix of [input_] (from [pos_] on).  [Fail] throws
    [std::invalid_argument]: the [inr] of the result is its message.  A name that
    Rocq already uses has a trailing underscore. *)
From S2P Require Import Prelude CStd.

(** ** Writing *)

Definition hex_digit (n : Z) : ascii :=
  if n <? 10 then byte_of_Z (48 + n) else byte_of_Z (97 + (n - 10)).

Definition dquote : ascii := ascii_of_nat 34.
Definition backslash : ascii := ascii_of_nat 92.

Definition quote_char (c : ascii) : string :=
  let z := Z_of_byte c in
  let esc (e : ascii) := String backslash (String e "") in
  if z =? 34 then esc dquote
  else if z =? 92 then esc backslash
  else if z =? 10 then esc "n"%char
  else if z =? 13 then esc "r"%char
  else if z =? 9 then esc "t"%char
  else if z =? 8 then esc "b"%char
  else if z =? 12 then esc "f"%char
  else if z <? 32 then
    String backslash ("u00" +:+ String (hex_digit (Z.shiftr z 4)) (String (hex_digit (Z.land z 15)) ""))
  else String c "".

Fixpoint quote_body (value : string) : string :=
  match value with
  | "" => ""
  | String c value => quote_char c +:+ quote_body value
  end.

Definition QuoteJson (value : string) : string :=
  String dquote (quote_body value) +:+ String dquote "".

Record Error := mkError { code : string; message : string }.

Definition EncodeSuccessResponse (id result_json : string) : string :=
  jq "{'id':" +:+ QuoteJson id +:+ jq ",'ok':true,'result':" +:+ result_json +:+ "}".

Definition EncodeErrorResponse (id : string) (error : Error) : string :=
  jq "{'id':" +:+ QuoteJson id +:+ jq ",'ok':false,'error':{'code':" +:+ QuoteJson (code error) +:+
  jq ",'message':" +:+ QuoteJson (message error) +:+ "}}".

(** ** Reading: a state and error monad over the unread input *)

Definition reader (A : Type) : Type := string -> (A * string) + string.

Definition ret {A} (a : A) : reader A := fun s => inl (a, s).
Definition bind {A B} (m : reader A) (f : A -> reader B) : reader B := fun s =>
  match m s with
  | inl (a, s') => f a s'
  | inr e => inr e
  end.

Declare Scope reader_scope.
Delimit Scope reader_scope with reader.
Notation "x <~ m ; k" := (bind m (fun x => k))
  (at level 20, m at level 100, k at level 200, right associativity) : reader_scope.
Global Open Scope reader_scope.

Lemma bind_ok {A B} (m : reader A) (f : A -> reader B) s a s' :
  m s = inl (a, s') -> bind m f s = f a s'.
Proof. intros H. unfold bind. by rewrite H. Qed.
Lemma bind_err {A B} (m : reader A) (f : A -> reader B) s e :
  m s = inr e -> bind m f s = inr e.
Proof. intros H. unfold bind. by rewrite H. Qed.

(** A reader only moves forward: what is left unread never grows. *)
Definition shrinks {A} (m : reader A) : Prop :=
  forall s a s', m s = inl (a, s') -> (String.length s' <= String.length s)%nat.

Lemma shrinks_ret {A} (a : A) : shrinks (ret a).
Proof. by intros s b s' [= _ <-]. Qed.
Lemma shrinks_bind {A B} (m : reader A) (f : A -> reader B) :
  shrinks m -> (forall a, shrinks (f a)) -> shrinks (bind m f).
Proof.
  intros Hm Hf s b s'. unfold bind. destruct (m s) as [[a s1]|] eqn:H1; [|done].
  intros H2%Hf. apply Hm in H1. lia.
Qed.
Lemma shrinks_fail {A} (e : string) : shrinks (A := A) (fun _ => inr e).
Proof. done. Qed.
Lemma shrinks_if {A} (b : bool) (m1 m2 : reader A) :
  shrinks m1 -> shrinks m2 -> shrinks (if b then m1 else m2).
Proof. by destruct b. Qed.
Create HintDb shrink.
#[export] Hint Resolve shrinks_ret shrinks_bind shrinks_fail shrinks_if : shrink.

(** [static_cast<char>] of the bytes of a code point. *)
Definition AppendUtf8 (code_point : Z) : string :=
  let cont (sh : Z) := byte_of_Z (Z.lor 0x80 (Z.land (Z.shiftr code_point sh) 0x3F)) in
  if code_point <? 0x80 then String (byte_of_Z code_point) ""
  else if code_point <? 0x800 then
    String (byte_of_Z (Z.lor 0xC0 (Z.shiftr code_point 6))) (String (cont 0) "")
  else if code_point <? 0x10000 then
    String (byte_of_Z (Z.lor 0xE0 (Z.shiftr code_point 12))) (String (cont 6) (String (cont 0) ""))
  else
    String (byte_of_Z (Z.lor 0xF0 (Z.shiftr code_point 18)))
      (String (cont 12) (String (cont 6) (String (cont 0) ""))).

(** The value of a hexadecimal digit. *)
Definition hex_val (c : ascii) : option Z :=
  let z := Z_of_byte c in
  if (48 <=? z) && (z <=? 57) then Some (z - 48)
  else if (97 <=? z) && (z <=? 102) then Some (z - 97 + 10)
  else if (65 <=? z) && (z <=? 70) then Some (z - 65 + 10)
  else None.

(** The escapes that stand for one byte. *)
Definition simple_escape (esc : ascii) : option ascii :=
  let z := Z_of_byte esc in
  if z =? 34 then Some dquote
  else if z =? 92 then Some backslash
  else if z =? 47 then Some "/"%char
  else if z =? 98 then Some (byte_of_Z 8)
  else if z =? 102 then Some (byte_of_Z 12)
  else if z =? 110 then Some (byte_of_Z 10)
  else if z =? 114 then Some (byte_of_Z 13)
  else if z =? 116 then Some (byte_of_Z 9)
  else None.

Definition char_is (c : ascii) (z : Z) : bool := Z_of_byte c =? z.

Fixpoint scan_u64 (val : Z) (s : string) : Z * string :=
  match s with
  | String c s' => if isdigit c then scan_u64 (u64 (u64 (val * 10) + digit_val c)) s' else (val, s)
  | "" => (val, "")
  end.

Module JsonReader.

Definition Fail_ {A} (message : string) : reader A := fun _ => inr message.

Definition Skip : reader unit := fun s => inl (tt, skip_space s).

Definition Peek : reader ascii := fun s =>
  let s := skip_space s in
  inl (match s with String c _ => c | "" => byte_of_Z 0 end, s).

Definition Take (c : ascii) : reader bool := fun s =>
  let s := skip_space s in
  match s with
  | String d s' => if bool_decide (d = c) then inl (true, s') else inl (false, s)
  | "" => inl (false, s)
  end.

Definition Expect (c : ascii) : reader unit :=
  ok <~ Take c;
  if ok : bool then ret tt else Fail_ ("expected '" +:+ String c "'").

Definition End_ : reader unit := fun s =>
  match skip_space s with
  | "" => inl (tt, "")
  | _ => inr "unexpected trailing characters"
  end.

Fixpoint hex_loop (n : nat) (value : Z) : reader Z :=
  match n with
  | O => ret value
  | S n => fun s =>
      match s with
      | "" => inr "incomplete unicode escape"
      | String c s' =>
          match hex_val c with
          | Some d => hex_loop n (value * 16 + d) s'
          | None => inr "invalid hex in unicode escape"
          end
      end
  end.
Definition Hex : reader Z := hex_loop 4 0.

(** The code point of a [\u] escape, surrogate pairs joined. *)
Definition unicode_escape : reader Z :=
  cp <~ Hex;
  if (0xD800 <=? cp) && (cp <=? 0xDBFF) then
    fun s =>
      match s with
      | String b (String u s') =>
          if char_is b 92 && char_is u 117 then
            (low <~ Hex;
             if (low <? 0xDC00) || (0xDFFF <? low)
             then Fail_ "invalid low surrogate in unicode escape"
             else ret (0x10000 + Z.shiftl (cp - 0xD800) 10 + (low - 0xDC00))) s'
          else inr "missing low surrogate in unicode escape"
      | _ => inr "missing low surrogate in unicode escape"
      end
  else ret cp.

(** One iteration of the loop of [String] that is not the end of the string:
    what the byte [c] (already read) adds to [out]. *)
Definition string_piece (c : ascii) : reader string :=
  if char_is c 92 then fun s =>
    match s with
    | "" => inr "incomplete escape sequence"
    | String esc s' =>
        match simple_escape esc with
        | Some e => inl (String e "", s')
        | None =>
            if char_is esc 117 then (cp <~ unicode_escape; ret (AppendUtf8 cp)) s'
            else inr ("invalid escape sequence: " +:+ String backslash (String esc ""))
        end
    end
  else ret (String c "").

(** The [while] loop of [String]: each iteration reads at least one byte, so the
    length of the unread input is enough fuel. *)
Fixpoint string_loop (fuel : nat) (out : string) (s : string) : (string * string) + string :=
  match fuel, s with
  | S fuel, String c s' =>
      if char_is c 34 then inl (out, s')
      else match string_piece c s' with
           | inl (piece, s'') => string_loop fuel (out +:+ piece) s''
           | inr e => inr e
           end
  | _, _ => inr "unterminated string"
  end.

Definition String_ : reader string :=
  _ <~ Expect dquote; fun s => string_loop (String.length s) "" s.

Definition UnsignedNumber : reader Z := fun s =>
  match skip_space s with
  | String c _ as s' => if isdigit c then inl (scan_u64 0 s') else inr "expected unsigned number"
  | "" => inr "expected unsigned number"
  end.

(** The negation of the least 64-bit number overflows, which the language leaves
    undefined.  The reader then stops with this mark, which is no message of the
    program: an outcome that carries it stands for an undefined execution. *)
Definition signed_overflow : string := "(undefined: signed overflow)".

(** [-static_cast<std::int64_t>(uval)] *)
Definition negated (uval : Z) : reader Z := fun s =>
  if i64 uval =? - 2 ^ 63 then inr signed_overflow else inl (- i64 uval, s).

Definition SignedNumber : reader Z := fun s =>
  match skip_space s with
  | "" => inr "expected signed number"
  | String c s' as s0 =>
      if char_is c 45 then (uval <~ UnsignedNumber; negated uval) s'
      else if char_is c 43 then (uval <~ UnsignedNumber; ret (i64 uval)) s'
      else (uval <~ UnsignedNumber; ret (i64 uval)) s0
  end.

Definition Boolean : reader bool := fun s =>
  let s := skip_space s in
  if bool_decide (str_take 4 s = "true") then inl (true, str_drop 4 s)
  else if bool_decide (str_take 5 s = "false") then inl (false, str_drop 5 s)
  else inr "expected boolean value".

(** The [do] loop of [StringArray]: every element reads at least two bytes. *)
Fixpoint array_loop (fuel : nat) (arr : list string) : reader (list string) :=
  match fuel with
  | O => Fail_ ("expected '" +:+ String dquote "'")
  | S fuel =>
      x <~ String_;
      let arr := arr ++ [x] in
      closed <~ Take "]"%char;
      if closed : bool then ret arr else (_ <~ Expect ","%char; array_loop fuel arr)
  end.

Definition StringArray : reader (list string) := fun s =>
  (_ <~ Expect "["%char;
   closed <~ Take "]"%char;
   if closed : bool then ret [] else array_loop (S (String.length s)) []) s.

(** ** Facts *)

Lemma Expect_head c s : isspace c = false -> Expect c (String c s) = inl (tt, s).
Proof.
  intros Hc. unfold Expect. rewrite (bind_ok _ _ _ true s); [done|].
  unfold Take. cbn [skip_space]. rewrite Hc. by rewrite bool_decide_true.
Qed.

Lemma hex_loop_shorter n v s r s' :
  hex_loop n v s = inl (r, s') -> (String.length s' <= String.length s)%nat.
Proof.
  revert v s. induction n as [|n IH]; intros v s; [by intros [= _ <-]|].
  cbn [hex_loop]. destruct s as [|c s]; [done|]. destruct (hex_val c); [|done].
  intros H%IH. simpl. lia.
Qed.

Lemma unicode_escape_shorter s r s' :
  unicode_escape s = inl (r, s') -> (String.length s' <= String.length s)%nat.
Proof.
  unfold unicode_escape. unfold bind at 1.
  destruct (Hex s) as [[cp s1]|] eqn:Hh; [|done]. apply hex_loop_shorter in Hh.
  destruct (_ && _); [|by intros [= _ <-]].
  destruct s1 as [|b [|u s1]]; try done. destruct (_ && _); [|done].
  unfold bind. destruct (Hex s1) as [[low s2]|] eqn:Hl; [|done].
  apply hex_loop_shorter in Hl. destruct (_ || _); [done|]. intros [= _ <-]. simpl in Hh. lia.
Qed.

Lemma string_piece_shorter c s r s' :
  string_piece c s = inl (r, s') -> (String.length s' <= String.length s)%nat.
Proof.
  unfold string_piece. destruct (char_is c 92); [|by intros [= _ <-]].
  destruct s as [|e s]; [done|]. destruct (simple_escape e); [intros [= _ <-]; simpl; lia|].
  destruct (char_is e 117); [|done]. unfold bind.
  destruct (unicode_escape s) as [[cp s1]|] eqn:Hu; [|done]. intros [= _ <-].
  apply unicode_escape_shorter in Hu. simpl. lia.
Qed.

(** More fuel than the unread length changes nothing: the loop is never cut. *)
Lemma string_loop_fuel f g out s :
  (String.length s <= f)%nat -> (String.length s <= g)%nat ->
  string_loop f out s = string_loop g out s.
Proof.
  revert g out s. induction f as [|f IH]; intros g out s Hf Hg.
  { destruct s; [by destruct g|simpl in Hf; lia]. }
  destruct s as [|c s]; [by destruct g|]. simpl in Hf, Hg. destruct g as [|g]; [lia|].
  cbn [string_loop]. destruct (char_is c 34); [done|].
  destruct (string_piece c s) as [[p s1]|] eqn:Hp; [|done].
  apply string_piece_shorter in Hp. apply IH; lia.
Qed.

Lemma string_loop_shorter f out s r s' :
  string_loop f out s = inl (r, s') -> (String.length s' < String.length s)%nat.
Proof.
  revert out s. induction f as [|f IH]; intros out s; [done|]. cbn [string_loop].
  destruct s as [|c s]; [done|]. destruct (char_is c 34); [intros [= _ <-]; simpl; lia|].
  destruct (string_piece c s) as [[p s1]|] eqn:Hp; [|done].
  apply string_piece_shorter in Hp. intros H%IH. simpl. lia.
Qed.

Lemma String_loop s : String_ (String dquote s) = string_loop (String.length s) "" s.
Proof. unfold String_. by rewrite (bind_ok _ _ _ tt s) by (by apply Expect_head). Qed.

(** What [QuoteJson] writes for a byte, one iteration of the loop reads back. *)
Lemma string_loop_quote_char f out c s :
  string_loop (S f) out (quote_char c +:+ s) = string_loop f (out +:+ String c "") s.
Proof. destruct c as [[] [] [] [] [] [] [] []]; reflexivity. Qed.

Lemma string_loop_quote_body v f out s :
  (String.length v < f)%nat ->
  string_loop f out (quote_body v +:+ String dquote s) = inl (out +:+ v, s).
Proof.
  revert f out. induction v as [|c v IH]; intros f out Hf.
  - destruct f; [simpl in Hf; lia|]. cbn [quote_body]. rewrite str_app_nil_l, str_app_nil_r. done.
  - simpl in Hf. destruct f as [|f]; [lia|]. cbn [quote_body].
    rewrite str_app_assoc, string_loop_quote_char, IH by lia. by rewrite str_app_assoc.
Qed.

Lemma quote_char_length c : (1 <= String.length (quote_char c))%nat.
Proof. apply Nat.leb_le. revert c. apply byte_forall. vm_compute. reflexivity. Qed.
Lemma quote_body_length v : (String.length v <= String.length (quote_body v))%nat.
Proof.
  induction v as [|c v IH]; [done|]. cbn [quote_body]. rewrite str_length_app.
  pose proof (quote_char_length c). simpl. lia.
Qed.

Lemma String_QuoteJson v s : String_ (QuoteJson v +:+ s) = inl (v, s).
Proof.
  unfold QuoteJson. rewrite !str_app_cons, String_loop.
  rewrite !str_app_assoc, str_app_cons, str_app_nil_l.
  rewrite string_loop_quote_body, str_app_nil_l; [done|].
  rewrite str_length_app. cbn [String.length]. pose proof (quote_body_length v). simpl. lia.
Qed.

(** ** Numbers *)

Definition ends_number (s : string) : bool :=
  match s with String c _ => negb (isdigit c) | "" => true end.

(** [UnsignedNumber] reads the number that the digits denote, modulo 2^64. *)
Lemma scan_u64_spec s a k :
  scan_u64 (u64 a) s =
  (u64 (scan_digits a k s).1, str_drop ((scan_digits a k s).2 - k)%nat s) /\
  (k <= (scan_digits a k s).2)%nat.
Proof.
  revert a k. induction s as [|c s IH]; intros a k.
  { cbn [scan_u64 scan_digits fst snd]. by rewrite Nat.sub_diag. }
  cbn [scan_u64 scan_digits]. destruct (isdigit c).
  - replace (u64 (u64 (u64 a * 10) + digit_val c)) with (u64 (a * 10 + digit_val c)).
    2:{ unfold u64. rewrite Zplus_mod_idemp_l, <- Zplus_mod_idemp_l.
        rewrite <- (Zplus_mod_idemp_l (_ * 10)). by rewrite Zmult_mod_idemp_l. }
    destruct (IH (a * 10 + digit_val c) (S k)) as [-> Hk]. split; [|lia].
    f_equal. replace ((scan_digits (a * 10 + digit_val c) (S k) s).2 - k)%nat with
      (S ((scan_digits (a * 10 + digit_val c) (S k) s).2 - S k)) by lia. done.
  - cbn [fst snd]. by rewrite Nat.sub_diag.
Qed.

Lemma scan_digits_stop s a k : ends_number s = true -> scan_digits a k s = (a, k).
Proof. destruct s as [|c s]; [done|]. cbn. by destruct (isdigit c). Qed.

Lemma digit_not_space c : isdigit c = true -> isspace c = false.
Proof.
  unfold isdigit, isspace. intros. bool_prop.
  destruct (Z_of_byte c =? 32) eqn:?, (Z_of_byte c <=? 13) eqn:?; bool_prop; try lia.
Qed.

Lemma UnsignedNumber_digits f n s :
  (0 < f)%nat -> 0 <= n < 10 ^ Z.of_nat f -> ends_number s = true ->
  UnsignedNumber (dec_digits f n +:+ s) = inl (u64 n, s).
Proof.
  intros Hf Hn He. unfold UnsignedNumber.
  destruct (dec_digits_head f n Hf) as (d & t & Hd & Heq).
  assert (skip_space (dec_digits f n +:+ s) = dec_digits f n +:+ s) as ->.
  { rewrite Heq, str_app_cons. cbn [skip_space].
    by rewrite digit_not_space by (by apply isdigit_digit). }
  rewrite Heq at 1. rewrite str_app_cons. cbv iota. rewrite isdigit_digit by done.
  rewrite <- str_app_cons, <- Heq. f_equal.
  destruct (scan_u64_spec (dec_digits f n +:+ s) 0 0) as [Hs _].
  change (u64 0) with 0 in Hs. rewrite Hs, scan_dec_digits, scan_digits_stop by done.
  cbn [fst snd]. f_equal. by apply str_drop_app; lia.
Qed.

Lemma UnsignedNumber_to_string n s :
  is_u64 n -> ends_number s = true -> UnsignedNumber (to_string n +:+ s) = inl (n, s).
Proof.
  intros Hn He. rewrite to_string_u64, UnsignedNumber_digits by (done || lia). by rewrite u64_id.
Qed.

Lemma SignedNumber_to_string z s :
  - 2 ^ 63 < z < 2 ^ 63 -> ends_number s = true -> SignedNumber (to_string z +:+ s) = inl (z, s).
Proof.
  intros Hz He. unfold SignedNumber, to_string. destruct (z <? 0) eqn:Hs; bool_prop.
  - rewrite str_app_cons. cbn [skip_space].
    change (isspace "-") with false. change (char_is "-" 45) with true. cbv iota.
    unfold bind, negated. rewrite UnsignedNumber_digits by (done || lia).
    rewrite u64_id, i64_id by lia. rewrite (proj2 (Z.eqb_neq _ _)) by lia. do 2 f_equal. lia.
  - destruct (dec_digits_head 20 z) as (d & t & Hd & Heq); [lia|].
    assert (skip_space (dec_digits 20 z +:+ s) = dec_digits 20 z +:+ s) as ->.
    { rewrite Heq, str_app_cons. cbn [skip_space].
      by rewrite digit_not_space by (by apply isdigit_digit). }
    rewrite Heq at 1. rewrite str_app_cons. cbv iota.
    unfold char_is. rewrite !Z_of_byte_of_Z, !Z.mod_small by lia.
    destruct (48 + d =? 45) eqn:?, (48 + d =? 43) eqn:?; bool_prop; try lia.
    unfold bind. rewrite <- str_app_cons, <- Heq, UnsignedNumber_digits by (done || lia).
    unfold ret. by rewrite u64_id, i64_id by lia.
Qed.

(** The least signed number is the one whose negation overflows. *)
Lemma SignedNumber_least s :
  ends_number s = true -> SignedNumber (to_string (- 2 ^ 63) +:+ s) = inr signed_overflow.
Proof.
  intros He. change (to_string (- 2 ^ 63)) with (String "-" (dec_digits 20 (2 ^ 63))).
  rewrite str_app_cons. unfold SignedNumber, bind, negated. cbn [skip_space].
  change (isspace "-") with false. change (char_is "-" 45) with true. cbv iota.
  by rewrite UnsignedNumber_digits by (done || lia).
Qed.

(** ** Arrays *)

Lemma skip_space_shorter s : (String.length (skip_space s) <= String.length s)%nat.
Proof. induction s as [|c s IH]; [done|]. cbn [skip_space]. destruct (isspace c); simpl; lia. Qed.

Lemma Take_shorter c s b s' :
  Take c s = inl (b, s') -> (String.length s' + (if b then 1 else 0) <= String.length s)%nat.
Proof.
  unfold Take. pose proof (skip_space_shorter s). destruct (skip_space s) as [|d t].
  - intros [= <- <-]. simpl. lia.
  - simpl in *. destruct (bool_decide _); intros [= <- <-]; simpl; lia.
Qed.

Lemma Expect_shorter c s u s' :
  Expect c s = inl (u, s') -> (String.length s' < String.length s)%nat.
Proof.
  unfold Expect, bind. destruct (Take c s) as [[[] s1]|] eqn:Ht; try done.
  intros [= _ <-]. apply Take_shorter in Ht. lia.
Qed.

Lemma String_shorter s r s' :
  String_ s = inl (r, s') -> (String.length s' < String.length s)%nat.
Proof.
  unfold String_, bind. destruct (Expect dquote s) as [[u s1]|] eqn:He; [|done].
  apply Expect_shorter in He. intros H%string_loop_shorter. lia.
Qed.

(** The fuel of the array loop is never exhausted either. *)
Lemma array_loop_fuel f g arr s :
  (String.length s <= f)%nat -> (String.length s <= g)%nat ->
  array_loop f arr s = array_loop g arr s.
Proof.
  assert (forall g arr, array_loop g arr "" = Fail_ ("expected '" +:+ String dquote "'") "") as Hnil.
  { intros [|g0] arr0; reflexivity. }
  revert g arr s. induction f as [|f IH]; intros g arr s Hf Hg.
  { destruct s; [|simpl in Hf; lia]. by rewrite !Hnil. }
  destruct s as [|c s]; [by rewrite !Hnil|]. destruct g as [|g]; [simpl in Hg; lia|].
  cbn [array_loop]. unfold bind at 1 4.
  destruct (String_ (String c s)) as [[x s1]|] eqn:Hs; [|done]. apply String_shorter in Hs.
  unfold bind at 1 3. destruct (Take "]"%char s1) as [[b s2]|] eqn:Ht; [|done].
  apply Take_shorter in Ht. destruct b; [done|].
  unfold bind. destruct (Expect ","%char s2) as [[u s3]|] eqn:He; [|done].
  apply Expect_shorter in He. apply IH; lia.
Qed.

(** The text of a JSON array of strings. *)
Fixpoint array_tail (l : list string) : string :=
  match l with
  | [] => "]"
  | x :: l => "," +:+ QuoteJson x +:+ array_tail l
  end.
Definition array_text (l : list string) : string :=
  "[" +:+ match l with [] => "]" | x :: l => QuoteJson x +:+ array_tail l end.

Lemma Take_head c s : isspace c = false -> Take c (String c s) = inl (true, s).
Proof. intros Hc. unfold Take. cbn [skip_space]. rewrite Hc. by rewrite bool_decide_true. Qed.
Lemma Take_other c d s :
  isspace d = false -> d <> c -> Take c (String d s) = inl (false, String d s).
Proof. intros Hd Hn. unfold Take. cbn [skip_space]. rewrite Hd. by rewrite bool_decide_false. Qed.

Lemma array_loop_text l x arr f s :
  (length l < f)%nat ->
  array_loop f arr (QuoteJson x +:+ array_tail l +:+ s) = inl (arr ++ x :: l, s).
Proof.
  revert x arr f. induction l as [|y l IH]; intros x arr f Hf;
    (destruct f as [|f]; [simpl in Hf; lia|]); cbn [array_loop]; simpl in Hf;
    rewrite (bind_ok _ _ _ _ _ (String_QuoteJson x _)); cbn [array_tail].
  - by rewrite (bind_ok _ _ _ true s) by (by apply Take_head).
  - rewrite !str_app_assoc, str_app_cons, str_app_nil_l.
    rewrite (bind_ok _ _ _ _ _ (Take_other "]"%char ","%char _ eq_refl ltac:(done))).
    rewrite (bind_ok _ _ _ _ _ (Expect_head ","%char _ eq_refl)), IH by lia.
    by rewrite <- app_assoc.
Qed.

Lemma array_tail_length l s : (length l < String.length (array_tail l +:+ s))%nat.
Proof.
  induction l as [|x l IH]; cbn [array_tail]; rewrite ?str_length_app in *; [simpl; lia|].
  unfold QuoteJson. rewrite !str_length_app. simpl. lia.
Qed.

Lemma StringArray_text l s : StringArray (array_text l +:+ s) = inl (l, s).
Proof.
  unfold StringArray, array_text. rewrite !str_app_assoc, str_app_cons, str_app_nil_l.
  rewrite (bind_ok _ _ _ _ _ (Expect_head "["%char _ eq_refl)).
  destruct l as [|x l].
  - by rewrite (bind_ok _ _ _ true s) by (by apply Take_head).
  - rewrite str_app_assoc. unfold QuoteJson at 2. rewrite !str_app_cons.
    rewrite (bind_ok _ _ _ _ _ (Take_other "]"%char dquote _ eq_refl ltac:(done))).
    rewrite <- !str_app_cons. change (String dquote (quote_body x) +:+ String dquote "") with (QuoteJson x).
    rewrite array_loop_text; [done|].
    rewrite str_app_cons. cbn [String.length]. rewrite str_length_app.
    pose proof (array_tail_length l s). lia.
Qed.

Lemma shrinks_String : shrinks String_.
Proof. intros s r s' H%String_shorter. lia. Qed.
Lemma shrinks_Take c : shrinks (Take c).
Proof. intros s r s' H%Take_shorter. lia. Qed.
Lemma shrinks_Expect c : shrinks (Expect c).
Proof. intros s r s' H%Expect_shorter. lia. Qed.
Lemma shrinks_Fail {A} e : shrinks (A := A) (Fail_ e).
Proof. done. Qed.
Lemma scan_u64_shorter s v : (String.length (scan_u64 v s).2 <= String.length s)%nat.
Proof.
  revert v. induction s as [|c s IH]; intros v; [done|]. cbn [scan_u64].
  destruct (isdigit c); [|done]. specialize (IH (u64 (u64 (v * 10) + digit_val c))). simpl. lia.
Qed.
Lemma shrinks_UnsignedNumber : shrinks UnsignedNumber.
Proof.
  intros s r s'. unfold UnsignedNumber. pose proof (skip_space_shorter s).
  destruct (skip_space s) as [|c t] eqn:Ht; [done|]. destruct (isdigit c); [|done].
  pose proof (scan_u64_shorter (String c t) 0). destruct (scan_u64 0 (String c t)).
  intros [= _ <-]. simpl in *. lia.
Qed.
Lemma shrinks_negated n : shrinks (negated n).
Proof. intros s r s'. unfold negated. destruct (_ =? _); [done|]. by intros [= _ <-]. Qed.
Lemma shrinks_SignedNumber : shrinks SignedNumber.
Proof.
  intros s r s'. unfold SignedNumber. pose proof (skip_space_shorter s).
  destruct (skip_space s) as [|c t] eqn:Ht; [done|]. simpl in *.
  assert (forall (f : Z -> reader Z) u, (forall v, shrinks (f v)) -> (uval <~ UnsignedNumber; f uval) u = inl (r, s') ->
    (String.length s' <= String.length u)%nat) as Hn.
  { intros f u Hf H1. by eapply (shrinks_bind UnsignedNumber f) in H1; [|apply shrinks_UnsignedNumber|]. }
  destruct (char_is c 45); [intros H1%Hn; [lia|apply shrinks_negated]|].
  destruct (char_is c 43); intros H1%(Hn (fun v => ret (i64 v))); simpl in *; auto using shrinks_ret; lia.
Qed.
Lemma shrinks_array f arr : shrinks (array_loop f arr).
Proof.
  revert arr. induction f as [|f IH]; intros arr; [done|]. cbn [array_loop].
  auto 8 using shrinks_String, shrinks_Take, shrinks_Expect with shrink.
Qed.
Lemma shrinks_StringArray : shrinks StringArray.
Proof.
  intros s r s'. unfold StringArray. revert r s'.
  assert (forall f, shrinks (_ <~ Expect "["%char; closed <~ Take "]"%char;
    if closed : bool then ret [] else array_loop f [])) as Hs.
  { intros f. auto 8 using shrinks_array, shrinks_Take, shrinks_Expect with shrink. }
  intros r s' H. by apply Hs in H.
Qed.

(** C30: What the server writes with QuoteJson and to_string the JSON reader reads
    back exactly, whatever follows it: a string of arbitrary bytes (quotes, control
    characters and bytes above 127 included), an array of such strings, and, up to
    the first byte that is not a digit, an unsigned 64-bit number and a signed one
    above -2^63.  At -2^63 the negation in SignedNumber overflows, which is undefined.
    A decimal numeral of any length is read as its value modulo 2^64. *)
Theorem json_roundtrip s :
  (forall v, String_ (QuoteJson v +:+ s) = inl (v, s)) /\
  (forall l, StringArray (array_text l +:+ s) = inl (l, s)) /\
  (ends_number s = true ->
    (forall n, is_u64 n -> UnsignedNumber (to_string n +:+ s) = inl (n, s)) /\
    (forall z, is_i64 z ->
       SignedNumber (to_string z +:+ s) = if z =? - 2 ^ 63 then inr signed_overflow else inl (z, s)) /\
    (forall digits n, (0 < digits)%nat -> 0 <= n < 10 ^ Z.of_nat digits ->
       UnsignedNumber (dec_digits digits n +:+ s) = inl (n mod 2 ^ 64, s))).
Proof.
  split; [|split]; [intros; apply String_QuoteJson|intros; apply StringArray_text|].
  intros He. split; [|split]; intros.
  - by apply UnsignedNumber_to_string.
  - destruct (Z.eqb_spec z (- 2 ^ 63)) as [->|]; [by apply SignedNumber_least|].
    apply SignedNumber_to_string; [lia|done].
  - by apply UnsignedNumber_digits.
Qed.

Lemma json_roundtrip_witness :
  ends_number "}" = true /\
  String_ (jq "'a\nb'}") = inl (String "a" (String (byte_of_Z 10) "b"), "}") /\
  StringArray (jq "['x','']") = inl (["x"; ""], "") /\
  SignedNumber "-9223372036854775807}" = inl (- 2 ^ 63 + 1, "}") /\
  UnsignedNumber "18446744073709551617}" = inl (1, "}").
Proof.
  split; [done|]. split; [exact (proj1 (json_roundtrip "}") (String "a" (String (byte_of_Z 10) "b")))|].
  split; [exact (proj1 (proj2 (json_roundtrip "")) ["x"; ""])|].
  destruct (proj2 (proj2 (json_roundtrip "}")) eq_refl) as (_ & Hs & Hu).
  split; [exact (Hs (- 2 ^ 63 + 1) ltac:(lia))|exact (Hu 25%nat (2 ^ 64 + 1) ltac:(lia) ltac:(lia))].
Defined.

End JsonReader.

#[export] Hint Resolve JsonReader.shrinks_String JsonReader.shrinks_Take JsonReader.shrinks_Expect
  JsonReader.shrinks_Fail JsonReader.shrinks_UnsignedNumber JsonReader.shrinks_SignedNumber
  JsonReader.shrinks_StringArray : shrink.
