(* ===== verification/StringBody.v ===== *)
(** * Request bodies of SET and GET (domain/kv/string_body.h, string_body.cpp)

    A second JSON reader, private to the string commands: an object with string,
    boolean and unsigned fields, no field twice.  [std::map] keeps the fields in
    byte order: the model is the list of pairs in that order. *)
From S2P Require Import Prelude CStd Json.

Inductive BodyValue := BV_String (s : string) | BV_Bool (b : bool) | BV_Uint (n : Z).
Definition StringBody : Type := list (string * BodyValue).

Definition str_ltb (x y : string) : bool :=
  match String.compare x y with Lt => true | _ => false end.

(** [std::map::find] and [std::map::emplace] ([None]: the key is present). *)
Fixpoint find (body : StringBody) (field : string) : option BodyValue :=
  match body with
  | [] => None
  | (k, v) :: body => if bool_decide (k = field) then Some v else find body field
  end.

Fixpoint map_insert (body : StringBody) (key : string) (value : BodyValue) : StringBody :=
  match body with
  | [] => [(key, value)]
  | (k, v) :: body' =>
      if str_ltb key k then (key, value) :: body else (k, v) :: map_insert body' key value
  end.

Definition emplace (body : StringBody) (key : string) (value : BodyValue) : option StringBody :=
  match find body key with
  | Some _ => None
  | None => Some (map_insert body key value)
  end.

Module Reader.

Definition fail_message : string := "body must contain unique string or boolean fields".
Definition Fail_ {A} : reader A := fun _ => inr fail_message.

Definition is_ws (c : ascii) : bool :=
  char_is c 32 || char_is c 9 || char_is c 10 || char_is c 13.

Fixpoint skip (s : string) : string :=
  match s with
  | String c s' => if is_ws c then skip s' else s
  | "" => ""
  end.
Definition Skip : reader unit := fun s => inl (tt, skip s).

Definition Peek (s : string) : ascii := match s with String c _ => c | "" => byte_of_Z 0 end.

Definition Take (c : ascii) : reader bool := fun s =>
  match skip s with
  | String d s' => if bool_decide (d = c) then inl (true, s') else inl (false, String d s')
  | "" => inl (false, "")
  end.

Definition Expect (c : ascii) : reader unit :=
  ok <~ Take c; if ok : bool then ret tt else Fail_.

Definition End_ : reader unit := fun s =>
  match skip s with "" => inl (tt, "") | _ => Fail_ s end.

Definition Literal (text : string) : reader bool := fun s =>
  if bool_decide (str_take (String.length text) s = text)
  then inl (true, str_drop (String.length text) s) else inl (false, s).

Definition Number : reader Z := fun s =>
  match skip s with
  | String c _ as s' => if isdigit c then inl (scan_u64 0 s') else Fail_ s'
  | "" => Fail_ ""
  end.

Fixpoint hex_loop (n : nat) (value : Z) : reader Z :=
  match n with
  | O => ret value
  | S n => fun s =>
      match s with
      | "" => Fail_ s
      | String c s' =>
          match hex_val c with Some d => hex_loop n (value * 16 + d) s' | None => Fail_ s' end
      end
  end.
Definition Hex : reader Z := hex_loop 4 0.

(** A code point: a high surrogate needs a low one, a low one alone is refused. *)
Definition unicode_escape : reader Z :=
  cp <~ Hex;
  if (0xD800 <=? cp) && (cp <=? 0xDBFF) then
    ok <~ Literal (String backslash "u");
    if ok : bool then
      low <~ Hex;
      if (low <? 0xDC00) || (0xDFFF <? low) then Fail_
      else ret (0x10000 + Z.shiftl (cp - 0xD800) 10 + low - 0xDC00)
    else Fail_
  else if (0xDC00 <=? cp) && (cp <=? 0xDFFF) then Fail_
  else ret cp.

Definition string_piece (c : ascii) : reader string :=
  if Z_of_byte c <? 0x20 then Fail_
  else if negb (char_is c 92) then ret (String c "")
  else fun s =>
    match s with
    | "" => Fail_ s
    | String esc s' =>
        match simple_escape esc with
        | Some e => inl (String e "", s')
        | None => if char_is esc 117 then (cp <~ unicode_escape; ret (AppendUtf8 cp)) s' else Fail_ s'
        end
    end.

(** The loops consume at least one byte an iteration. *)
Fixpoint string_loop (fuel : nat) (out : string) : reader string := fun s =>
  match fuel, s with
  | S fuel, String c s' =>
      if char_is c 34 then inl (out, s')
      else (piece <~ string_piece c; string_loop fuel (out +:+ piece)) s'
  | _, _ => Fail_ s
  end.

Definition String_ : reader string :=
  _ <~ Expect dquote; fun s => string_loop (String.length s) "" s.

Definition value_ : reader BodyValue :=
  _ <~ Skip; fun s =>
    if char_is (Peek s) 34 then (v <~ String_; ret (BV_String v)) s
    else (t <~ Literal "true";
          if t : bool then ret (BV_Bool true)
          else f <~ Literal "false";
               if f : bool then ret (BV_Bool false)
               else if isdigit (Peek s) then n <~ Number; ret (BV_Uint n)
               else Fail_) s.

Fixpoint read_loop (fuel : nat) (result : StringBody) : reader StringBody :=
  match fuel with
  | O => Fail_
  | S fuel =>
      key <~ String_;
      _ <~ Expect ":"%char;
      value <~ value_;
      match emplace result key value with
      | None => Fail_
      | Some result =>
          closed <~ Take "}"%char;
          if closed : bool then _ <~ End_; ret result
          else _ <~ Expect ","%char; read_loop fuel result
      end
  end.

Definition Read : reader StringBody := fun s =>
  (_ <~ Expect "{"%char;
   closed <~ Take "}"%char;
   if closed : bool then _ <~ End_; ret []
   else read_loop (String.length s) []) s.

End Reader.

Definition ParseStringBody (json : string) : StringBody + string :=
  match Reader.Read json with
  | inl (body, _) => inl body
  | inr e => inr e
  end.

(** ** Facts *)

Module ReaderFacts.
Import Reader.

Lemma body_Take_head c s : is_ws c = false -> Take c (String c s) = inl (true, s).
Proof. intros Hc. unfold Take. cbn [skip]. rewrite Hc. by rewrite bool_decide_true. Qed.
Lemma body_Take_other c d s : is_ws d = false -> d <> c -> Take c (String d s) = inl (false, String d s).
Proof. intros Hd Hn. unfold Take. cbn [skip]. rewrite Hd. by rewrite bool_decide_false. Qed.
Lemma body_Expect_head c s : is_ws c = false -> Expect c (String c s) = inl (tt, s).
Proof. intros Hc. unfold Expect. by rewrite (bind_ok _ _ _ _ _ (body_Take_head _ _ Hc)). Qed.

Lemma body_string_loop_quote_char f out c s :
  string_loop (S f) out (quote_char c +:+ s) = string_loop f (out +:+ String c "") s.
Proof. destruct c as [[] [] [] [] [] [] [] []]; reflexivity. Qed.

Lemma body_string_loop_quote_body v f out s :
  (String.length v < f)%nat ->
  string_loop f out (quote_body v +:+ String dquote s) = inl (out +:+ v, s).
Proof.
  revert f out. induction v as [|c v IH]; intros f out Hf.
  - destruct f; [simpl in Hf; lia|]. cbn [quote_body]. rewrite str_app_nil_l, str_app_nil_r. done.
  - simpl in Hf. destruct f as [|f]; [lia|]. cbn [quote_body].
    rewrite str_app_assoc, body_string_loop_quote_char, IH by lia. by rewrite str_app_assoc.
Qed.

Lemma body_String_QuoteJson v s : String_ (QuoteJson v +:+ s) = inl (v, s).
Proof.
  unfold QuoteJson, String_. rewrite !str_app_cons.
  rewrite (bind_ok _ _ _ _ _ (body_Expect_head dquote _ eq_refl)).
  rewrite !str_app_assoc, str_app_cons, str_app_nil_l.
  rewrite body_string_loop_quote_body, str_app_nil_l; [done|].
  rewrite str_length_app. cbn [String.length]. pose proof (JsonReader.quote_body_length v). lia.
Qed.

Lemma Number_to_string n s :
  is_u64 n -> JsonReader.ends_number s = true -> Number (to_string n +:+ s) = inl (n, s).
Proof.
  intros Hn He. rewrite <- (JsonReader.UnsignedNumber_to_string n s) by done.
  rewrite to_string_u64 by done. unfold Number, JsonReader.UnsignedNumber.
  destruct (dec_digits_head 20 n) as (d & t & Hd & Heq); [lia|].
  rewrite Heq, str_app_cons. cbn [skip skip_space].
  rewrite JsonReader.digit_not_space by (by apply isdigit_digit).
  replace (is_ws (byte_of_Z (48 + d))) with false; [by rewrite isdigit_digit|].
  unfold is_ws, char_is. rewrite Z_of_byte_of_Z, Z.mod_small by lia.
  symmetry. rewrite !orb_false_iff, !Z.eqb_neq. lia.
Qed.

Lemma value_string v s : value_ (QuoteJson v +:+ s) = inl (BV_String v, s).
Proof.
  unfold value_. rewrite (bind_ok _ _ _ tt (QuoteJson v +:+ s)) by done.
  change (char_is (Peek (QuoteJson v +:+ s)) 34) with true. cbv iota.
  by rewrite (bind_ok _ _ _ _ _ (body_String_QuoteJson v s)).
Qed.

Lemma digit_head_facts d :
  0 <= d < 10 ->
  is_ws (byte_of_Z (48 + d)) = false /\ char_is (byte_of_Z (48 + d)) 34 = false /\
  byte_of_Z (48 + d) <> "t"%char /\ byte_of_Z (48 + d) <> "f"%char.
Proof.
  intros Hd. unfold is_ws, char_is. rewrite !Z_of_byte_of_Z, !Z.mod_small by lia.
  rewrite !orb_false_iff, !Z.eqb_neq.
  split; [lia|]. split; [lia|].
  split; intros Heq; apply (f_equal Z_of_byte) in Heq;
    rewrite Z_of_byte_of_Z, Z.mod_small in Heq by lia;
    change (Z_of_byte "t") with 116 in Heq; change (Z_of_byte "f") with 102 in Heq; lia.
Qed.

Lemma value_uint n s :
  is_u64 n -> JsonReader.ends_number s = true -> value_ (to_string n +:+ s) = inl (BV_Uint n, s).
Proof.
  intros Hn He. pose proof (Number_to_string n s Hn He) as HN.
  rewrite to_string_u64 in * by done.
  destruct (dec_digits_head 20 n) as (d & t & Hd & Heq); [lia|].
  rewrite Heq, str_app_cons in *. destruct (digit_head_facts d Hd) as (Hw & Hq & Ht & Hf).
  unfold value_. rewrite (bind_ok _ _ _ tt (String (byte_of_Z (48 + d)) (t +:+ s)))
    by (unfold Skip; cbn [skip]; by rewrite Hw).
  cbn [Peek]. rewrite Hq. cbv iota.
  rewrite (bind_ok _ _ _ false (String (byte_of_Z (48 + d)) (t +:+ s))).
  2:{ unfold Literal. rewrite bool_decide_false; [done|]. by intros [= ?]. }
  rewrite (bind_ok _ _ _ false (String (byte_of_Z (48 + d)) (t +:+ s))).
  2:{ unfold Literal. rewrite bool_decide_false; [done|]. by intros [= ?]. }
  rewrite isdigit_digit by done. by rewrite (bind_ok _ _ _ _ _ HN).
Qed.

(** *** The loops are never cut by their fuel *)

Lemma skip_shorter s : (String.length (skip s) <= String.length s)%nat.
Proof. induction s as [|c s IH]; [done|]. cbn [skip]. destruct (is_ws c); simpl; lia. Qed.

Lemma body_Take_shorter c s b s' :
  Take c s = inl (b, s') -> (String.length s' + (if b then 1 else 0) <= String.length s)%nat.
Proof.
  unfold Take. pose proof (skip_shorter s). destruct (skip s) as [|d t].
  - intros [= <- <-]. simpl. lia.
  - simpl in *. destruct (bool_decide _); intros [= <- <-]; simpl; lia.
Qed.
Lemma body_shrinks_Take c : shrinks (Take c).
Proof. intros s b s' H%body_Take_shorter. lia. Qed.
Lemma body_Expect_shorter c s u s' : Expect c s = inl (u, s') -> (String.length s' < String.length s)%nat.
Proof.
  unfold Expect, bind. destruct (Take c s) as [[[] s1]|] eqn:Ht; try done.
  intros [= _ <-]. apply body_Take_shorter in Ht. lia.
Qed.
Lemma body_shrinks_Expect c : shrinks (Expect c).
Proof. intros s b s' H%body_Expect_shorter. lia. Qed.
Lemma shrinks_Literal t : shrinks (Literal t).
Proof.
  intros s b s'. unfold Literal. destruct (bool_decide _); intros [= _ <-]; [|done].
  rewrite str_drop_length. lia.
Qed.
Lemma shrinks_Skip : shrinks Skip.
Proof. intros s b s' [= _ <-]. apply skip_shorter. Qed.
Lemma shrinks_Fail_ {A} : shrinks (A := A) Fail_.
Proof. done. Qed.
Lemma shrinks_hex n v : shrinks (hex_loop n v).
Proof.
  revert v. induction n as [|n IH]; intros v; [apply shrinks_ret|]. intros s r s'. cbn [hex_loop].
  destruct s as [|c s]; [done|]. destruct (hex_val c); [|done]. intros H%IH. simpl. lia.
Qed.
Hint Resolve body_shrinks_Take body_shrinks_Expect shrinks_Literal shrinks_Skip shrinks_Fail_ shrinks_hex : shrink.

Lemma shrinks_unicode : shrinks unicode_escape.
Proof. unfold unicode_escape, Hex. auto 12 with shrink. Qed.
Lemma shrinks_piece c : shrinks (string_piece c).
Proof.
  unfold string_piece. repeat apply shrinks_if; auto with shrink.
  intros s r s'. destruct s as [|e s]; [done|]. destruct (simple_escape e); [intros [= _ <-]; simpl; lia|].
  destruct (char_is e 117); [|done]. intros H.
  assert (shrinks (cp <~ unicode_escape; ret (AppendUtf8 cp))) as Hs
    by auto using shrinks_unicode with shrink.
  apply Hs in H. simpl. lia.
Qed.
Lemma shrinks_string_loop f out : shrinks (string_loop f out).
Proof.
  revert out. induction f as [|f IH]; intros out s r s'; [done|]. cbn [string_loop].
  destruct s as [|c s]; [done|]. destruct (char_is c 34); [intros [= _ <-]; simpl; lia|].
  intros H. assert (shrinks (piece <~ string_piece c; string_loop f (out +:+ piece))) as Hs
    by auto using shrinks_piece with shrink.
  apply Hs in H. simpl. lia.
Qed.
Lemma body_String_shorter s r s' : String_ s = inl (r, s') -> (String.length s' < String.length s)%nat.
Proof.
  unfold String_, bind. destruct (Expect dquote s) as [[u s1]|] eqn:He; [|done].
  apply body_Expect_shorter in He. intros H%shrinks_string_loop. lia.
Qed.
Lemma shrinks_Number : shrinks Number.
Proof.
  intros s r s'. unfold Number. pose proof (skip_shorter s).
  destruct (skip s) as [|c t] eqn:Ht; [done|]. destruct (isdigit c); [|done].
  pose proof (JsonReader.scan_u64_shorter (String c t) 0). destruct (scan_u64 0 (String c t)).
  intros [= _ <-]. simpl in *. lia.
Qed.
Lemma body_shrinks_String : shrinks String_.
Proof. intros s r s' H%body_String_shorter. lia. Qed.
Lemma shrinks_value : shrinks value_.
Proof.
  unfold value_. apply shrinks_bind; [apply shrinks_Skip|]. intros _ s r s'.
  destruct (char_is (Peek s) 34); intros H.
  - assert (shrinks (v <~ String_; ret (BV_String v))) as Hs by auto using body_shrinks_String with shrink.
    by apply Hs in H.
  - revert H. match goal with |- ?m s = _ -> _ => assert (shrinks m) as Hs end.
    { auto 12 using shrinks_Number with shrink. }
    apply Hs.
Qed.

Lemma body_string_loop_fuel f g out s :
  (String.length s <= f)%nat -> (String.length s <= g)%nat ->
  string_loop f out s = string_loop g out s.
Proof.
  revert g out s. induction f as [|f IH]; intros g out s Hf Hg.
  { destruct s; [by destruct g|simpl in Hf; lia]. }
  destruct s as [|c s]; [by destruct g|]. simpl in Hf, Hg. destruct g as [|g]; [lia|].
  cbn [string_loop]. destruct (char_is c 34); [done|]. unfold bind.
  destruct (string_piece c s) as [[p s1]|] eqn:Hp; [|done].
  apply shrinks_piece in Hp. apply IH; lia.
Qed.

Lemma read_loop_fuel f g body s :
  (String.length s <= f)%nat -> (String.length s <= g)%nat ->
  read_loop f body s = read_loop g body s.
Proof.
  assert (forall h b, read_loop h b "" = Fail_ "") as Hnil by (intros [|h] b; reflexivity).
  revert g body s. induction f as [|f IH]; intros g body s Hf Hg.
  { destruct s; [|simpl in Hf; lia]. by rewrite !Hnil. }
  destruct s as [|c s]; [by rewrite !Hnil|]. destruct g as [|g]; [simpl in Hg; lia|].
  cbn [read_loop]. unfold bind.
  destruct (String_ (String c s)) as [[k s1]|] eqn:H1; [|done]. apply body_String_shorter in H1.
  destruct (Expect ":"%char s1) as [[u s2]|] eqn:H2; [|done]. apply body_Expect_shorter in H2.
  destruct (value_ s2) as [[v s3]|] eqn:H3; [|done]. apply shrinks_value in H3.
  destruct (emplace body k v); [|done].
  destruct (Take "}"%char s3) as [[[] s4]|] eqn:H4; [done| |done]. apply body_Take_shorter in H4.
  destruct (Expect ","%char s4) as [[u' s5]|] eqn:H5; [|done]. apply body_Expect_shorter in H5.
  apply IH; lia.
Qed.

End ReaderFacts.
