(* ===== verification/Command.v ===== *)
(** * Commands: requests, results and the shape the handlers share
    (protocol/request.h, command/result.h, the [Validated] wrappers of the
    domain files)

    A handler reads its JSON body, throws [std::invalid_argument] or calls the
    store, and answers a [Result].  [clock i] is the reading of the clock of the
    handler's [i]-th store call. *)
From S2P Require Import Prelude CStd Entry Store Json.
Import JsonReader.

Record Request := mkRequest { rq_id : string; rq_op : string; rq_body_json : string }.
Record Result := mkResult { ok : bool; result_json : string; error : Error }.

Definition success (json : string) : Result := mkResult true json (mkError "" "").
Definition failure (c m : string) : Result := mkResult false "" (mkError c m).

Definition clock : Type := nat -> Z.

(** A handler: the state and result, or the message of the exception, which is
    only thrown before the store is called. *)
Definition handler (S : Type) : Type := clock -> S -> Request -> (S * Result) + string.

(** [what()] is a C string: the message ends at its first zero byte. *)
Fixpoint c_str (s : string) : string :=
  match s with
  | String c s => if Z_of_byte c =? 0 then "" else String c (c_str s)
  | "" => ""
  end.

Definition Validated {S} (h : handler S) (clk : clock) (st : S) (request : Request) : S * Result :=
  match h clk st request with
  | inl r => r
  | inr what => (st, failure "INVALID_ARGUMENTS" (c_str what))
  end.

(** ** Reading an object *)

Section object.
Context {A : Type} (field : string -> A -> reader A).

(** [do { field = String(); Expect(':'); ...; if (Take('}')) break; Expect(','); } while (true)] *)
Fixpoint field_loop (fuel : nat) (acc : A) : reader A :=
  match fuel with
  | O => Fail_ ("expected '" +:+ String dquote "'")
  | S fuel =>
      name <~ String_;
      _ <~ Expect ":"%char;
      acc <~ field name acc;
      closed <~ Take "}"%char;
      if closed : bool then ret acc else _ <~ Expect ","%char; field_loop fuel acc
  end.

(** A body with at least one field, up to the end of the text. *)
Definition fields (init : A) : reader A := fun s =>
  (_ <~ Expect "{"%char;
   acc <~ field_loop (String.length s) init;
   _ <~ End_; ret acc) s.

(** A body that may have no field. *)
Definition opt_fields (init : A) : reader A := fun s =>
  (_ <~ Expect "{"%char;
   empty <~ Take "}"%char;
   acc <~ (if empty : bool then ret init else field_loop (String.length s) init);
   _ <~ End_; ret acc) s.

End object.

(** A body with the single field [key]. *)
Definition only_key (missing : string) : reader string :=
  _ <~ Expect "{"%char;
  field <~ String_;
  _ <~ Expect ":"%char;
  if negb (bool_decide (field = "key")) then Fail_ missing
  else key <~ String_; _ <~ Expect "}"%char; _ <~ End_; ret key.

(** Reading a body and going on with its value. *)
Definition with_body {A S} (m : reader A) (request : Request) (k : A -> (S * Result) + string) :
    (S * Result) + string :=
  match m (rq_body_json request) with
  | inl (a, _) => k a
  | inr e => inr e
  end.

Definition throw {S} (what : string) : (S * Result) + string := inr what.

(** ** Facts: the loop is never cut, and it reads back an object *)

Section object_facts.
Context {A : Type} (field : string -> A -> reader A).

Lemma field_loop_fuel f g acc s :
  (forall n a, shrinks (field n a)) ->
  (String.length s <= f)%nat -> (String.length s <= g)%nat ->
  field_loop field f acc s = field_loop field g acc s.
Proof.
  intros Hfield.
  assert (forall h a, field_loop field h a "" = Fail_ ("expected '" +:+ String dquote "'") "") as Hnil
    by (intros [|h] a; reflexivity).
  revert g acc s. induction f as [|f IH]; intros g acc s Hf Hg.
  { destruct s; [|simpl in Hf; lia]. by rewrite !Hnil. }
  destruct s as [|c s]; [by rewrite !Hnil|]. destruct g as [|g]; [simpl in Hg; lia|].
  cbn [field_loop]. unfold bind.
  destruct (String_ (String c s)) as [[k s1]|] eqn:H1; [|done]. apply String_shorter in H1.
  destruct (Expect ":"%char s1) as [[u s2]|] eqn:H2; [|done]. apply Expect_shorter in H2.
  destruct (field k acc s2) as [[v s3]|] eqn:H3; [|done]. apply Hfield in H3.
  destruct (Take "}"%char s3) as [[[] s4]|] eqn:H4; [done| |done]. apply Take_shorter in H4.
  destruct (Expect ","%char s4) as [[u' s5]|] eqn:H5; [|done]. apply Expect_shorter in H5.
  apply IH; lia.
Qed.

(** Reading the fields [l] (names and value texts) takes [acc] to [acc']. *)
Inductive reads : A -> list (string * string) -> A -> Prop :=
| reads_nil acc : reads acc [] acc
| reads_cons acc acc1 acc2 name text l :
    (forall s, ends_number s = true -> field name acc (text +:+ s) = inl (acc1, s)) ->
    reads acc1 l acc2 -> reads acc ((name, text) :: l) acc2.

Definition member (p : string * string) : string := QuoteJson p.1 +:+ ":" +:+ p.2.
Fixpoint members_tail (l : list (string * string)) : string :=
  match l with
  | [] => "}"
  | p :: l => "," +:+ member p +:+ members_tail l
  end.
Definition object_text (p : string * string) (l : list (string * string)) : string :=
  "{" +:+ member p +:+ members_tail l.

Lemma field_loop_text l p acc acc' f s :
  (length l < f)%nat -> reads acc (p :: l) acc' ->
  field_loop field f acc (member p +:+ members_tail l +:+ s) = inl (acc', s).
Proof.
  revert p acc f. induction l as [|q l IH]; intros [n t] acc f Hf Hr;
    (destruct f as [|f]; [simpl in Hf; lia|]); simpl in Hf;
    inversion_clear Hr as [|? acc1 ? ? ? ? Hfield Hl]; cbn [field_loop];
    unfold member; cbn [fst snd]; rewrite !str_app_assoc;
    rewrite (bind_ok _ _ _ _ _ (String_QuoteJson n _)), str_app_cons, str_app_nil_l;
    rewrite (bind_ok _ _ _ _ _ (Expect_head ":"%char _ eq_refl));
    rewrite (bind_ok _ _ _ acc1 (members_tail _ +:+ s)) by (by apply Hfield); cbn [members_tail].
  - inversion_clear Hl. by rewrite (bind_ok _ _ _ true s) by (by apply Take_head).
  - rewrite !str_app_assoc, str_app_cons, str_app_nil_l.
    rewrite (bind_ok _ _ _ _ _ (Take_other "}"%char ","%char _ eq_refl ltac:(done))).
    rewrite (bind_ok _ _ _ _ _ (Expect_head ","%char _ eq_refl)). apply IH; [lia|done].
Qed.

Lemma members_tail_length l s : (length l < String.length (members_tail l +:+ s))%nat.
Proof.
  induction l as [|x l IH]; cbn [members_tail]; rewrite ?str_length_app in *; simpl; lia.
Qed.

Lemma fields_text p l acc acc' :
  reads acc (p :: l) acc' -> fields field acc (object_text p l) = inl (acc', "").
Proof.
  intros Hr. unfold fields, object_text. rewrite str_app_cons, str_app_nil_l.
  rewrite (bind_ok _ _ _ _ _ (Expect_head "{"%char _ eq_refl)).
  rewrite (bind_ok _ _ _ acc' ""); [done|].
  rewrite <- (str_app_nil_r (members_tail l)). apply field_loop_text; [|done].
  cbn [String.length]. rewrite str_length_app. pose proof (members_tail_length l "").
  rewrite str_app_nil_r in *. lia.
Qed.

(** A field that is refused, after the fields [pre]. *)
Lemma field_loop_err pre p l n t post acc acc1 e f s :
  p :: l = pre ++ (n, t) :: post -> reads acc pre acc1 -> (forall u, field n acc1 u = inr e) ->
  (length pre < f)%nat ->
  field_loop field f acc (member p +:+ members_tail l +:+ s) = inr e.
Proof.
  revert p l acc f. induction pre as [|q pre IH]; intros p l acc f Heq Hr He Hf;
    (destruct f as [|f]; [simpl in Hf; lia|]); simpl in Hf; injection Heq as -> Hl; cbn [field_loop].
  - inversion Hr; subst. unfold member. cbn [fst snd]. rewrite !str_app_assoc.
    rewrite (bind_ok _ _ _ _ _ (String_QuoteJson n _)), str_app_cons, str_app_nil_l.
    rewrite (bind_ok _ _ _ _ _ (Expect_head ":"%char _ eq_refl)). by apply bind_err.
  - inversion Hr as [|? acc2 ? n' t' ? Hfield Hrest]; subst. unfold member. cbn [fst snd].
    rewrite !str_app_assoc.
    rewrite (bind_ok _ _ _ _ _ (String_QuoteJson n' _)), str_app_cons, str_app_nil_l.
    rewrite (bind_ok _ _ _ _ _ (Expect_head ":"%char _ eq_refl)).
    destruct pre as [|q pre]; cbn [app];
    rewrite (bind_ok _ _ _ acc2 (members_tail _ +:+ s)) by (by apply Hfield); cbn [members_tail];
      rewrite !str_app_assoc, str_app_cons, str_app_nil_l;
      rewrite (bind_ok _ _ _ _ _ (Take_other "}"%char ","%char _ eq_refl ltac:(done)));
      rewrite (bind_ok _ _ _ _ _ (Expect_head ","%char _ eq_refl));
      (apply IH; [done|done|done|simpl in *; lia]).
Qed.

Lemma fields_text_err pre p l n t post acc acc1 e :
  p :: l = pre ++ (n, t) :: post -> reads acc pre acc1 -> (forall u, field n acc1 u = inr e) ->
  fields field acc (object_text p l) = inr e.
Proof.
  intros Heq Hr He. unfold fields, object_text. rewrite str_app_cons, str_app_nil_l.
  rewrite (bind_ok _ _ _ _ _ (Expect_head "{"%char _ eq_refl)). apply bind_err.
  rewrite <- (str_app_nil_r (members_tail l)). eapply field_loop_err; [done..|].
  apply (f_equal length) in Heq. rewrite length_app in Heq. simpl in Heq.
  rewrite str_app_nil_r. cbn [String.length]. rewrite str_length_app.
  pose proof (members_tail_length l ""). rewrite str_app_nil_r in *. lia.
Qed.

Lemma opt_fields_text p l acc acc' :
  reads acc (p :: l) acc' -> opt_fields field acc (object_text p l) = inl (acc', "").
Proof.
  intros Hr. unfold opt_fields, object_text. rewrite str_app_cons, str_app_nil_l.
  rewrite (bind_ok _ _ _ _ _ (Expect_head "{"%char _ eq_refl)).
  unfold member at 2, QuoteJson at 1. rewrite !str_app_cons.
  rewrite (bind_ok _ _ _ _ _ (Take_other "}"%char dquote _ eq_refl ltac:(done))).
  rewrite <- !str_app_cons.
  change (String dquote (quote_body p.1) +:+ String dquote "") with (QuoteJson p.1).
  change (QuoteJson p.1 +:+ ":" +:+ p.2) with (member p). cbv iota.
  rewrite (bind_ok _ _ _ acc' ""); [done|].
  rewrite <- (str_app_nil_r (members_tail l)). apply field_loop_text; [|done].
  rewrite str_app_cons. cbn [String.length]. rewrite str_length_app. pose proof (members_tail_length l "").
  rewrite str_app_nil_r in *. lia.
Qed.

End object_facts.

Lemma only_key_text missing k :
  only_key missing (object_text ("key", QuoteJson k) []) = inl (k, "").
Proof.
  unfold only_key, object_text, member. cbn [fst snd members_tail].
  rewrite !str_app_assoc, str_app_cons, str_app_nil_l.
  rewrite (bind_ok _ _ _ _ _ (Expect_head "{"%char _ eq_refl)).
  rewrite (bind_ok _ _ _ _ _ (String_QuoteJson "key" _)), str_app_cons, str_app_nil_l.
  rewrite (bind_ok _ _ _ _ _ (Expect_head ":"%char _ eq_refl)). cbn [negb bool_decide].
  change (negb (bool_decide ("key" = "key"))) with false. cbv iota.
  rewrite (bind_ok _ _ _ _ _ (String_QuoteJson k _)).
  by rewrite (bind_ok _ _ _ _ _ (Expect_head "}"%char _ eq_refl)).
Qed.
