(* ===== verification/KvOps.v ===== *)
(** * Key-value commands (domain/kv: string_ops.cpp, key_ops.cpp, ttl_ops.cpp) *)
From S2P Require Import Prelude CStd Entry Store Json StringBody Command.
Import JsonReader.

Definition json_bool (b : bool) : string := if b then "true" else "false".

Module StringOps.

Definition RequiredString (body : StringBody) (field : string) : string + string :=
  match find body field with
  | Some (BV_String s) => inl s
  | _ => inr (field +:+ " must be a string")
  end.

Definition Flag (body : StringBody) (field : string) : bool + string :=
  match find body field with
  | None => inl false
  | Some (BV_Bool b) => inl b
  | Some _ => inr (field +:+ " must be a boolean")
  end.

(** The loop over the fields of SET: the [ttl_ms] it leaves. *)
Fixpoint set_fields (body : StringBody) (ttl_ms : Z) : Z + string :=
  match body with
  | [] => inl ttl_ms
  | (name, value) :: body =>
      if bool_decide (name = "key") || bool_decide (name = "value") ||
         bool_decide (name = "if_exists") || bool_decide (name = "if_not_exists")
      then set_fields body ttl_ms
      else if bool_decide (name = "ttl_ms") then
        match value with
        | BV_Uint n =>
            if n =? 0 then inr "ttl_ms must be greater than zero" else set_fields body n
        | _ => inr "ttl_ms must be an unsigned integer"
        end
      else inr ("unsupported SET field: " +:+ name)
  end.

Section handlers.
Context {S : Type} `{!Store S}.

Definition Set_ : handler S := fun clk st request =>
  match ParseStringBody (rq_body_json request) with
  | inr e => throw e
  | inl body =>
  match set_fields body 0 with
  | inr e => throw e
  | inl ttl_ms =>
  match RequiredString body "key" with
  | inr e => throw e
  | inl key =>
  match RequiredString body "value" with
  | inr e => throw e
  | inl value =>
  if is_nil key then throw "key must not be empty" else
  match Flag body "if_not_exists" with
  | inr e => throw e
  | inl nx =>
  match Flag body "if_exists" with
  | inr e => throw e
  | inl xx =>
  if nx && xx then throw "SET conditions conflict" else
  let condition := if nx : bool then IfAbsent else if xx : bool then IfPresent else Always in
  let '(st, stored) := Store.Set_ (clk O) st key value condition ttl_ms in
  inl (st, success (if stored : bool then jq "{'stored':true}" else jq "{'stored':false}"))
  end end end end end end.

Definition Get : handler S := fun clk st request =>
  match ParseStringBody (rq_body_json request) with
  | inr e => throw e
  | inl body =>
  match RequiredString body "key" with
  | inr e => throw e
  | inl key =>
  if negb (length body =? 1)%nat || is_nil key then throw "GET requires only a non-empty key" else
  let '(st, value) := Store.Get (clk O) st key in
  match value with
  | None => inl (st, failure "KEY_NOT_FOUND" "key does not exist")
  | Some v => inl (st, success (jq "{'value':" +:+ QuoteJson v +:+ "}"))
  end end end.

End handlers.
End StringOps.

Module KeyOps.

(** The fields of DEL and EXISTS. *)
Definition keys_field (field : string) (keys : list string) : reader (list string) :=
  if bool_decide (field = "key") then k <~ String_; ret (keys ++ [k])
  else if bool_decide (field = "keys") then arr <~ StringArray; ret (keys ++ arr)
  else Fail_ ("unsupported field: " +:+ field).

Definition scan_field (field : string) (acc : Z * Z) : reader (Z * Z) :=
  if bool_decide (field = "cursor") then n <~ UnsignedNumber; ret (n, acc.2)
  else if bool_decide (field = "count") then n <~ UnsignedNumber; ret (acc.1, n)
  else Fail_ ("unsupported SCAN field: " +:+ field).

(** The comma-separated quoted keys of KEYS and SCAN. *)
Fixpoint key_list (first : bool) (keys : list string) : string :=
  match keys with
  | [] => ""
  | k :: keys => (if first then "" else ",") +:+ QuoteJson k +:+ key_list false keys
  end.

Section handlers.
Context {S : Type} `{!Store S}.

Fixpoint del_loop (st : S) (keys : list string) (deleted : Z) : S * Z :=
  match keys with
  | [] => (st, deleted)
  | key :: keys =>
      let '(st, b) := Store.Del st key in
      del_loop st keys (if b : bool then deleted + 1 else deleted)
  end.

Definition Del : handler S := fun clk st request =>
  with_body (opt_fields keys_field []) request (fun keys =>
    let '(st, deleted) := del_loop st keys 0 in
    inl (st, success (jq "{'deleted':" +:+ to_string deleted +:+ "}"))).

Fixpoint exists_loop (clk : clock) (i : nat) (st : S) (keys : list string) (count : Z) : S * Z :=
  match keys with
  | [] => (st, count)
  | key :: keys =>
      let '(st, b) := Store.Exists (clk i) st key in
      exists_loop clk (Datatypes.S i) st keys (if b : bool then count + 1 else count)
  end.

Definition Exists : handler S := fun clk st request =>
  with_body (opt_fields keys_field []) request (fun keys =>
    let '(st, count) := exists_loop clk 0 st keys 0 in
    inl (st, success (jq "{'count':" +:+ to_string count +:+ "}"))).

Definition Type_ : handler S := fun clk st request =>
  with_body (only_key "TYPE requires key field") request (fun key =>
    let '(st, type) := Store.Type_ (clk O) st key in
    let type_str := if bool_decide (type = DT_String) then "string" else "none" in
    inl (st, success (jq "{'type':'" +:+ type_str +:+ jq "'}"))).

Definition DbSize : handler S := fun clk st request =>
  with_body (_ <~ Expect "{"%char; _ <~ Expect "}"%char; End_) request (fun _ =>
    inl (st, success (jq "{'size':" +:+ to_string (Store.DbSize (clk O) st) +:+ "}"))).

Definition Keys : handler S := fun clk st request =>
  with_body
    (_ <~ Expect "{"%char;
     empty <~ Take "}"%char;
     pattern <~ (if empty : bool then ret "*"
                 else field <~ String_;
                      _ <~ Expect ":"%char;
                      if negb (bool_decide (field = "pattern"))
                      then Fail_ "KEYS supports pattern field"
                      else p <~ String_; _ <~ Expect "}"%char; ret p);
     _ <~ End_; ret pattern) request (fun pattern =>
    let keys := Store.Keys (clk O) st pattern in
    inl (st, success (jq "{'keys':[" +:+ key_list true keys +:+ "]}"))).

Definition Scan : handler S := fun clk st request =>
  with_body (opt_fields scan_field (0, 10)) request (fun '(cursor, count) =>
    let '(next_cursor, keys) := Store.Scan (clk O) st cursor count in
    inl (st, success (jq "{'cursor':" +:+ to_string next_cursor +:+ jq ",'keys':[" +:+
                      key_list true keys +:+ "]}"))).

End handlers.
End KeyOps.

Module TtlOps.

(** [key], the duration if one was given. *)
Definition expire_field (field : string) (acc : string * option Z) : reader (string * option Z) :=
  if bool_decide (field = "key") then k <~ String_; ret (k, acc.2)
  else if bool_decide (field = "ttl_seconds") || bool_decide (field = "seconds")
  then n <~ UnsignedNumber; ret (acc.1, Some n)
  else Fail_ ("unsupported EXPIRE field: " +:+ field).

Definition pexpire_field (field : string) (acc : string * option Z) : reader (string * option Z) :=
  if bool_decide (field = "key") then k <~ String_; ret (k, acc.2)
  else if bool_decide (field = "ttl_ms") || bool_decide (field = "milliseconds")
  then n <~ UnsignedNumber; ret (acc.1, Some n)
  else Fail_ ("unsupported PEXPIRE field: " +:+ field).

Section handlers.
Context {S : Type} `{!Store S}.

Definition Expire : handler S := fun clk st request =>
  with_body (fields expire_field ("", None)) request (fun '(key, seconds) =>
    match is_nil key, seconds with
    | false, Some seconds =>
        let '(st, set) := Store.Expire (clk O) st key (u64 (seconds * 1000)) in
        inl (st, success (jq "{'set':" +:+ json_bool set +:+ "}"))
    | _, _ => throw "EXPIRE requires key and ttl_seconds"
    end).

Definition PExpire : handler S := fun clk st request =>
  with_body (fields pexpire_field ("", None)) request (fun '(key, ms) =>
    match is_nil key, ms with
    | false, Some ms =>
        let '(st, set) := Store.Expire (clk O) st key ms in
        inl (st, success (jq "{'set':" +:+ json_bool set +:+ "}"))
    | _, _ => throw "PEXPIRE requires key and ttl_ms"
    end).

Definition Ttl : handler S := fun clk st request =>
  with_body (only_key "TTL requires key field") request (fun key =>
    if is_nil key then throw "key must not be empty" else
    let '(st, ttl) := Store.Ttl (clk O) st key in
    inl (st, success (jq "{'ttl_seconds':" +:+ to_string ttl +:+ "}"))).

Definition Pttl : handler S := fun clk st request =>
  with_body (only_key "PTTL requires key field") request (fun key =>
    if is_nil key then throw "key must not be empty" else
    let '(st, ttl) := Store.Pttl (clk O) st key in
    inl (st, success (jq "{'ttl_ms':" +:+ to_string ttl +:+ "}"))).

Definition Persist : handler S := fun clk st request =>
  with_body (only_key "PERSIST requires key field") request (fun key =>
    if is_nil key then throw "key must not be empty" else
    let '(st, persisted) := Store.Persist (clk O) st key in
    inl (st, success (jq "{'persisted':" +:+ json_bool persisted +:+ "}"))).

End handlers.
End TtlOps.
