(* ===== verification/CounterOps.v ===== *)
(** * Counter and rate-limit commands (domain/ratelimit/counter_ops.cpp) *)
From S2P Require Import Prelude CStd Entry Store Json Command KvOps.
Import JsonReader.

(** What a handler answers for an [IncrResult]. *)
Definition incr_result (res : IncrResult) : Result :=
  if negb (ir_ok res) then failure (ir_error_code res) (ir_error_message res)
  else success (jq "{'value':" +:+ to_string (ir_value res) +:+ "}").

(** [key], [delta] if given, [ttl_ms]. *)
Definition incrby_field (field : string) (acc : string * option Z * Z) : reader (string * option Z * Z) :=
  let '(key, delta, ttl_ms) := acc in
  if bool_decide (field = "key") then k <~ String_; ret (k, delta, ttl_ms)
  else if bool_decide (field = "delta") || bool_decide (field = "by")
  then n <~ SignedNumber; ret (key, Some n, ttl_ms)
  else if bool_decide (field = "ttl_ms") then n <~ UnsignedNumber; ret (key, delta, n)
  else if bool_decide (field = "ttl_seconds")
  then n <~ UnsignedNumber; ret (key, delta, u64 (n * 1000))
  else Fail_ ("unsupported INCRBY field: " +:+ field).

(** [key], [limit] and [window_ms] if given, [cost]. *)
Definition rate_field (field : string) (acc : string * option Z * option Z * Z) :
    reader (string * option Z * option Z * Z) :=
  let '(key, limit, window_ms, cost) := acc in
  if bool_decide (field = "key") then k <~ String_; ret (k, limit, window_ms, cost)
  else if bool_decide (field = "limit") then n <~ UnsignedNumber; ret (key, Some n, window_ms, cost)
  else if bool_decide (field = "window_ms") then n <~ UnsignedNumber; ret (key, limit, Some n, cost)
  else if bool_decide (field = "window_seconds")
  then n <~ UnsignedNumber; ret (key, limit, Some (u64 (n * 1000)), cost)
  else if bool_decide (field = "cost") then n <~ UnsignedNumber; ret (key, limit, window_ms, n)
  else Fail_ ("unsupported GK.RATE_LIMIT field: " +:+ field).

Definition rate_json (res : RateLimitResult) : string :=
  jq "{'allowed':" +:+ json_bool (rr_allowed res) +:+ jq ",'remaining':" +:+
  to_string (rr_remaining res) +:+ jq ",'retry_after_ms':" +:+ to_string (rr_retry_after_ms res) +:+ "}".

Module CounterOps.
Section handlers.
Context {S : Type} `{!Store S}.

Definition Incr : handler S := fun clk st request =>
  with_body (only_key "INCR requires key field") request (fun key =>
    if is_nil key then throw "key must not be empty" else
    let '(st, res) := Store.IncrBy (clk O) st key 1 0 in inl (st, incr_result res)).

Definition Decr : handler S := fun clk st request =>
  with_body (only_key "DECR requires key field") request (fun key =>
    if is_nil key then throw "key must not be empty" else
    let '(st, res) := Store.IncrBy (clk O) st key (-1) 0 in inl (st, incr_result res)).

Definition IncrBy : handler S := fun clk st request =>
  with_body (fields incrby_field ("", None, 0)) request (fun '(key, delta, ttl_ms) =>
    match is_nil key, delta with
    | false, Some delta =>
        let '(st, res) := Store.IncrBy (clk O) st key delta ttl_ms in inl (st, incr_result res)
    | _, _ => throw "INCRBY requires key and delta"
    end).

Definition RateLimit : handler S := fun clk st request =>
  with_body (fields rate_field ("", None, None, 1)) request (fun '(key, limit, window_ms, cost) =>
    match is_nil key, limit, window_ms with
    | false, Some limit, Some window_ms =>
        let '(st, res) := Store.RateLimit (clk O) st key limit window_ms cost in
        if negb (rr_ok res) then inl (st, failure (rr_error_code res) (rr_error_message res))
        else inl (st, success (rate_json res))
    | _, _, _ => throw "GK.RATE_LIMIT requires key, limit and window_ms"
    end).

End handlers.
End CounterOps.
