(* ===== verification/QuotaOps.v ===== *)
(** * Quota commands (domain/quota/reservation_ops.cpp) *)
From S2P Require Import Prelude CStd Entry Store Json Command.
Import JsonReader.

(** [key], [amount] and [ttl_ms] if given. *)
Definition reserve_field (field : string) (acc : string * option Z * option Z) :
    reader (string * option Z * option Z) :=
  let '(key, amount, ttl_ms) := acc in
  if bool_decide (field = "key") then k <~ String_; ret (k, amount, ttl_ms)
  else if bool_decide (field = "amount") then n <~ UnsignedNumber; ret (key, Some n, ttl_ms)
  else if bool_decide (field = "ttl_ms") then n <~ UnsignedNumber; ret (key, amount, Some n)
  else if bool_decide (field = "ttl_seconds")
  then n <~ UnsignedNumber; ret (key, amount, Some (u64 (n * 1000)))
  else Fail_ ("unsupported GK.RESERVE field: " +:+ field).

Definition commit_field (field : string) (acc : string * string * option Z) :
    reader (string * string * option Z) :=
  let '(key, reservation_id, actual_amount) := acc in
  if bool_decide (field = "key") then k <~ String_; ret (k, reservation_id, actual_amount)
  else if bool_decide (field = "reservation_id") then i <~ String_; ret (key, i, actual_amount)
  else if bool_decide (field = "actual_amount") || bool_decide (field = "amount")
  then n <~ UnsignedNumber; ret (key, reservation_id, Some n)
  else Fail_ ("unsupported GK.COMMIT field: " +:+ field).

Definition rollback_field (field : string) (acc : string * string) : reader (string * string) :=
  let '(key, reservation_id) := acc in
  if bool_decide (field = "key") then k <~ String_; ret (k, reservation_id)
  else if bool_decide (field = "reservation_id") then i <~ String_; ret (key, i)
  else Fail_ ("unsupported GK.ROLLBACK field: " +:+ field).

Definition init_field (field : string) (acc : string * option Z) : reader (string * option Z) :=
  let '(key, amount) := acc in
  if bool_decide (field = "key") then k <~ String_; ret (k, amount)
  else if bool_decide (field = "amount") || bool_decide (field = "balance")
  then n <~ UnsignedNumber; ret (key, Some n)
  else Fail_ ("unsupported GK.QUOTA_INIT field: " +:+ field).

Module QuotaOps.
Section handlers.
Context {S : Type} `{!Store S}.

Definition Reserve : handler S := fun clk st request =>
  with_body (fields reserve_field ("", None, None)) request (fun '(key, amount, ttl_ms) =>
    match is_nil key, amount, ttl_ms with
    | false, Some amount, Some ttl_ms =>
        let '(st, res) := Store.ReserveQuota (clk O) st key amount ttl_ms in
        if negb (rv_ok res) || negb (rv_reserved res)
        then inl (st, failure (rv_error_code res) (rv_error_message res))
        else inl (st, success (jq "{'reserved':true,'reservation_id':" +:+
                               QuoteJson (rv_reservation_id res) +:+ jq ",'remaining':" +:+
                               to_string (rv_remaining res) +:+ "}"))
    | _, _, _ => throw "GK.RESERVE requires key, amount and ttl_ms"
    end).

Definition Commit : handler S := fun clk st request =>
  with_body (fields commit_field ("", "", None)) request (fun '(key, reservation_id, actual) =>
    match is_nil key, is_nil reservation_id, actual with
    | false, false, Some actual_amount =>
        let '(st, res) := Store.CommitQuota (clk O) st key reservation_id actual_amount in
        if negb (cr_ok res) || negb (cr_committed res)
        then inl (st, failure (cr_error_code res) (cr_error_message res))
        else inl (st, success (jq "{'committed':true,'actual_amount':" +:+
                               to_string (cr_actual_amount res) +:+ jq ",'refunded':" +:+
                               to_string (cr_refunded res) +:+ jq ",'remaining':" +:+
                               to_string (cr_remaining res) +:+ "}"))
    | _, _, _ => throw "GK.COMMIT requires key, reservation_id and actual_amount"
    end).

Definition Rollback : handler S := fun clk st request =>
  with_body (fields rollback_field ("", "")) request (fun '(key, reservation_id) =>
    if is_nil key || is_nil reservation_id
    then throw "GK.ROLLBACK requires key and reservation_id"
    else
      let '(st, res) := Store.RollbackQuota (clk O) st key reservation_id in
      if negb (rb_ok res) || negb (rb_rolled_back res)
      then inl (st, failure (rb_error_code res) (rb_error_message res))
      else inl (st, success (jq "{'rolled_back':true,'refunded':" +:+ to_string (rb_refunded res) +:+
                             jq ",'remaining':" +:+ to_string (rb_remaining res) +:+ "}"))).

Definition QuotaInit : handler S := fun clk st request =>
  with_body (fields init_field ("", None)) request (fun '(key, amount) =>
    match is_nil key, amount with
    | false, Some amount =>
        let '(st, _) := Store.Set_ (clk O) st key (to_string amount) Always 0 in
        inl (st, success (jq "{'initialized':true,'key':" +:+ QuoteJson key +:+ jq ",'balance':" +:+
                          to_string amount +:+ "}"))
    | _, _ => throw "GK.QUOTA_INIT requires key and amount"
    end).

Definition QuotaGet : handler S := fun clk st request =>
  with_body (only_key "GK.QUOTA_GET requires key field") request (fun key =>
    if is_nil key then throw "key must not be empty" else
    let '(st, val) := Store.Get (clk O) st key in
    match val with
    | None => inl (st, failure "KEY_NOT_FOUND" "quota key does not exist")
    | Some val =>
        match stoull val with
        | None => inl (st, failure "ERR_NOT_AN_INTEGER" "quota balance is not an integer")
        | Some (balance, _) =>
            inl (st, success (jq "{'key':" +:+ QuoteJson key +:+ jq ",'balance':" +:+
                              to_string balance +:+ "}"))
        end
    end).

End handlers.
End QuotaOps.
