(* ===== verification/IdemOps.v ===== *)
(** * Idempotency commands (domain/idempotency/idempotency_ops.cpp) *)
From S2P Require Import Prelude CStd Entry Store Json Command.
Import JsonReader.

Definition ActionToString (action : IdempotencyAction) : string :=
  match action with
  | IA_Execute => "EXECUTE"
  | IA_Park => "PARK"
  | IA_Replay => "REPLAY"
  | IA_Conflict => "CONFLICT"
  end.

Definition StatusToString (status : IdempotencyStatus) : string :=
  match status with
  | IS_InProgress => "IN_PROGRESS"
  | IS_Completed => "COMPLETED"
  | IS_Failed => "FAILED"
  | IS_None => "NONE"
  end.

(** [key], [request_hash], [ttl_ms], [owner_token]. *)
Definition begin_field (field : string) (acc : string * string * Z * string) :
    reader (string * string * Z * string) :=
  let '(key, request_hash, ttl_ms, owner_token) := acc in
  if bool_decide (field = "key") then k <~ String_; ret (k, request_hash, ttl_ms, owner_token)
  else if bool_decide (field = "request_hash")
  then h <~ String_; ret (key, h, ttl_ms, owner_token)
  else if bool_decide (field = "ttl_ms")
  then n <~ UnsignedNumber; ret (key, request_hash, n, owner_token)
  else if bool_decide (field = "ttl_seconds")
  then n <~ UnsignedNumber; ret (key, request_hash, u64 (n * 1000), owner_token)
  else if bool_decide (field = "owner_token")
  then t <~ String_; ret (key, request_hash, ttl_ms, t)
  else Fail_ ("unsupported GK.IDEM_BEGIN field: " +:+ field).

(** [key], [owner_token], [response_code], [response_body]. *)
Definition complete_field (field : string) (acc : string * string * Z * string) :
    reader (string * string * Z * string) :=
  let '(key, owner_token, response_code, response_body) := acc in
  if bool_decide (field = "key") then k <~ String_; ret (k, owner_token, response_code, response_body)
  else if bool_decide (field = "owner_token")
  then t <~ String_; ret (key, t, response_code, response_body)
  else if bool_decide (field = "response_code")
  then n <~ SignedNumber; ret (key, owner_token, i32 n, response_body)
  else if bool_decide (field = "response_body")
  then b <~ String_; ret (key, owner_token, response_code, b)
  else Fail_ ("unsupported GK.IDEM_COMPLETE field: " +:+ field).

Definition fail_field (field : string) (acc : string * string * string) :
    reader (string * string * string) :=
  let '(key, owner_token, error_message) := acc in
  if bool_decide (field = "key") then k <~ String_; ret (k, owner_token, error_message)
  else if bool_decide (field = "owner_token") then t <~ String_; ret (key, t, error_message)
  else if bool_decide (field = "error_message") then e <~ String_; ret (key, owner_token, e)
  else Fail_ ("unsupported GK.IDEM_FAIL field: " +:+ field).

Definition get_field (field : string) (key : string) : reader string :=
  if bool_decide (field = "key") then String_
  else Fail_ ("unsupported GK.IDEM_GET field: " +:+ field).

Definition begin_json (r : IdempotencyBeginResult) : string :=
  jq "{'action':'" +:+ ActionToString (ib_action r) +:+ jq "'" +:+
  jq ",'owner_token':" +:+ QuoteJson (ib_owner_token r) +:+
  (if bool_decide (ib_action r = IA_Replay)
   then jq ",'response_code':" +:+ to_string (ib_cached_code r) +:+
        jq ",'response_body':" +:+ QuoteJson (ib_cached_response r)
   else "") +:+ "}".

Definition record_json (r : IdempotencyRecord) : string :=
  jq "{'key':" +:+ QuoteJson (id_key r) +:+
  jq ",'status':'" +:+ StatusToString (id_status r) +:+ jq "'" +:+
  jq ",'request_hash':" +:+ QuoteJson (id_request_hash r) +:+
  jq ",'owner_token':" +:+ QuoteJson (id_owner_token r) +:+
  jq ",'response_code':" +:+ to_string (id_response_code r) +:+
  jq ",'response_body':" +:+ QuoteJson (id_response_body r) +:+ "}".

Module IdemOps.
Section handlers.
Context {S : Type} `{!Store S}.

Definition IdemBegin : handler S := fun clk st request =>
  with_body (fields begin_field ("", "", 60000, "")) request
    (fun '(key, request_hash, ttl_ms, owner_token) =>
    if is_nil key then throw "key must not be empty"
    else if is_nil request_hash then throw "request_hash must not be empty"
    else
      let '(st, r) := Store.IdemBegin (clk O) st key request_hash ttl_ms owner_token in
      if negb (ib_ok r) then inl (st, failure (ib_error_code r) (ib_error_message r))
      else inl (st, success (begin_json r))).

Definition IdemComplete : handler S := fun clk st request =>
  with_body (fields complete_field ("", "", 200, "")) request
    (fun '(key, owner_token, response_code, response_body) =>
    if is_nil key then throw "key must not be empty"
    else if is_nil owner_token then throw "owner_token must not be empty"
    else
      let '(st, r) := Store.IdemComplete (clk O) st key owner_token response_code response_body in
      if negb (ic_ok r) then inl (st, failure (ic_error_code r) (ic_error_message r))
      else inl (st, success (jq "{'completed':true}"))).

Definition IdemFail : handler S := fun clk st request =>
  with_body (fields fail_field ("", "", "")) request (fun '(key, owner_token, error_message) =>
    if is_nil key then throw "key must not be empty"
    else if is_nil owner_token then throw "owner_token must not be empty"
    else
      let '(st, r) := Store.IdemFail (clk O) st key owner_token error_message in
      if negb (if_ok r) then inl (st, failure (if_error_code r) (if_error_message r))
      else inl (st, success (jq "{'failed':true}"))).

Definition IdemGet : handler S := fun clk st request =>
  with_body (fields get_field "") request (fun key =>
    if is_nil key then throw "key must not be empty" else
    let '(st, record) := Store.IdemGet (clk O) st key in
    match record with
    | None => inl (st, failure "KEY_NOT_FOUND" "idempotency record does not exist or has expired")
    | Some record => inl (st, success (record_json record))
    end).

End handlers.
End IdemOps.
