(* ===== verification/Codec.v ===== *)
(** * The binary commands of GKWP/2 (protocol/gkwp2/binary_codec.h)

    Opcodes, status bytes, the requests of the protocol as data, and the
    encoders of [BinaryCodec].  A length field keeps the low bits of the size, as
    [static_cast<std::uint16_t>] and [static_cast<std::uint32_t>] do. *)
From S2P Require Import Prelude.

Inductive BinaryOpcode :=
| Op_Ping | Op_Set | Op_Get | Op_Del | Op_Exists | Op_Type | Op_Expire | Op_Ttl
| Op_Incr | Op_Decr | Op_IncrBy | Op_RateLimit | Op_Reserve | Op_Commit | Op_Rollback
| Op_QuotaInit | Op_QuotaGet | Op_IdemBegin | Op_IdemComplete | Op_IdemFail.

#[export] Instance BinaryOpcode_eq_dec : EqDecision BinaryOpcode.
Proof. solve_decision. Defined.

Definition opcode_value (o : BinaryOpcode) : Z :=
  match o with
  | Op_Ping => 0x0001 | Op_Set => 0x0010 | Op_Get => 0x0011 | Op_Del => 0x0012
  | Op_Exists => 0x0013 | Op_Type => 0x0014 | Op_Expire => 0x0015 | Op_Ttl => 0x0016
  | Op_Incr => 0x0020 | Op_Decr => 0x0021 | Op_IncrBy => 0x0022
  | Op_RateLimit => 0x0100 | Op_Reserve => 0x0101 | Op_Commit => 0x0102 | Op_Rollback => 0x0103
  | Op_QuotaInit => 0x0110 | Op_QuotaGet => 0x0111
  | Op_IdemBegin => 0x0120 | Op_IdemComplete => 0x0121 | Op_IdemFail => 0x0122
  end.

Definition all_opcodes : list BinaryOpcode :=
  [Op_Ping; Op_Set; Op_Get; Op_Del; Op_Exists; Op_Type; Op_Expire; Op_Ttl; Op_Incr; Op_Decr;
   Op_IncrBy; Op_RateLimit; Op_Reserve; Op_Commit; Op_Rollback; Op_QuotaInit; Op_QuotaGet;
   Op_IdemBegin; Op_IdemComplete; Op_IdemFail].

(** The enumerator with a given value, if there is one. *)
Definition opcode_of (z : Z) : option BinaryOpcode :=
  List.find (fun o => opcode_value o =? z) all_opcodes.

Inductive BinaryStatus := St_Ok | St_Error | St_NotFound | St_Denied | St_Conflict.
Definition status_value (s : BinaryStatus) : Z :=
  match s with St_Ok => 0 | St_Error => 1 | St_NotFound => 2 | St_Denied => 3 | St_Conflict => 4 end.
Definition status_byte (s : BinaryStatus) : string := be 1 (status_value s).

Inductive SetCondition := SC_Always | SC_IfAbsent | SC_IfPresent.
#[export] Instance SetCondition_eq_dec : EqDecision SetCondition.
Proof. solve_decision. Defined.
Definition condition_byte (c : SetCondition) : Z :=
  match c with SC_Always => 0 | SC_IfAbsent => 1 | SC_IfPresent => 2 end.

(** [PeekOpcode]: the casted value need not be an enumerator. *)
Definition PeekOpcode (payload : string) : option Z :=
  if slen payload <? 2 then None else Some (be_val (str_take 2 payload)).

(** ** Encoders *)

Definition op_bytes (o : BinaryOpcode) : string := be 2 (opcode_value o).
(** A field with a 16-bit length, as [htons(size)] and the bytes. *)
Definition field16 (s : string) : string := be 2 (u16 (slen s)) +:+ s.
Definition field32 (s : string) : string := be 4 (u32 (slen s)) +:+ s.

Definition EncodePing : string := op_bytes Op_Ping.
Definition EncodeGet (key : string) : string := op_bytes Op_Get +:+ field16 key.
Definition EncodeSet (key val : string) (cond : SetCondition) (ttl_ms : Z) : string :=
  op_bytes Op_Set +:+ field16 key +:+ field32 val +:+ be 8 ttl_ms +:+ be 1 (condition_byte cond).
Definition EncodeDel (key : string) : string := op_bytes Op_Del +:+ field16 key.
Definition EncodeExists (key : string) : string := op_bytes Op_Exists +:+ field16 key.
Definition EncodeType (key : string) : string := op_bytes Op_Type +:+ field16 key.
Definition EncodeExpire (key : string) (ttl_ms : Z) : string :=
  op_bytes Op_Expire +:+ field16 key +:+ be 8 ttl_ms.
Definition EncodeTtl (key : string) : string := op_bytes Op_Ttl +:+ field16 key.
Definition EncodeIncrBy (key : string) (delta init_ttl_ms : Z) : string :=
  op_bytes Op_Incr +:+ field16 key +:+ be 8 (u64 delta) +:+ be 8 init_ttl_ms.
Definition EncodeRateLimit (key : string) (limit window_ms cost : Z) : string :=
  op_bytes Op_RateLimit +:+ field16 key +:+ be 8 limit +:+ be 8 window_ms +:+ be 4 cost.
Definition EncodeQuotaInit (key : string) (amount : Z) : string :=
  op_bytes Op_QuotaInit +:+ field16 key +:+ be 8 amount.
Definition EncodeQuotaGet (key : string) : string := op_bytes Op_QuotaGet +:+ field16 key.
Definition EncodeReserve (key : string) (amount ttl_ms : Z) : string :=
  op_bytes Op_Reserve +:+ field16 key +:+ be 8 amount +:+ be 8 ttl_ms.
Definition EncodeCommit (key res_id : string) (actual_amount : Z) : string :=
  op_bytes Op_Commit +:+ field16 key +:+ field16 res_id +:+ be 8 actual_amount.
Definition EncodeRollback (key res_id : string) : string :=
  op_bytes Op_Rollback +:+ field16 key +:+ field16 res_id.
Definition EncodeIdemBegin (key request_hash : string) (ttl_ms : Z) (owner_token : string) : string :=
  op_bytes Op_IdemBegin +:+ field16 key +:+ field16 request_hash +:+ be 8 ttl_ms +:+
  field16 owner_token.
Definition EncodeIdemComplete (key owner_token : string) (response_code : Z) (response_body : string) :
    string :=
  op_bytes Op_IdemComplete +:+ field16 key +:+ field16 owner_token +:+ be 2 (u16 response_code) +:+
  field32 response_body.
Definition EncodeIdemFail (key owner_token error_message : string) : string :=
  op_bytes Op_IdemFail +:+ field16 key +:+ field16 owner_token +:+ field16 error_message.

(** ** Requests as data *)

Inductive BinaryRequest :=
| RPing
| RGet (key : string)
| RSet (key val : string) (cond : SetCondition) (ttl_ms : Z)
| RDel (key : string)
| RExists (key : string)
| RType (key : string)
| RExpire (key : string) (ttl_ms : Z)
| RTtl (key : string)
| RIncr (key : string) (delta init_ttl_ms : Z)
| RRateLimit (key : string) (limit window_ms cost : Z)
| RQuotaInit (key : string) (amount : Z)
| RQuotaGet (key : string)
| RReserve (key : string) (amount ttl_ms : Z)
| RCommit (key res_id : string) (actual_amount : Z)
| RRollback (key res_id : string)
| RIdemBegin (key request_hash : string) (ttl_ms : Z) (owner_token : string)
| RIdemComplete (key owner_token : string) (code : Z) (body : string)
| RIdemFail (key owner_token err_msg : string).

Definition encode_request (r : BinaryRequest) : string :=
  match r with
  | RPing => EncodePing
  | RGet k => EncodeGet k
  | RSet k v c t => EncodeSet k v c t
  | RDel k => EncodeDel k
  | RExists k => EncodeExists k
  | RType k => EncodeType k
  | RExpire k t => EncodeExpire k t
  | RTtl k => EncodeTtl k
  | RIncr k d t => EncodeIncrBy k d t
  | RRateLimit k l w c => EncodeRateLimit k l w c
  | RQuotaInit k a => EncodeQuotaInit k a
  | RQuotaGet k => EncodeQuotaGet k
  | RReserve k a t => EncodeReserve k a t
  | RCommit k i a => EncodeCommit k i a
  | RRollback k i => EncodeRollback k i
  | RIdemBegin k h t o => EncodeIdemBegin k h t o
  | RIdemComplete k o c b => EncodeIdemComplete k o c b
  | RIdemFail k o m => EncodeIdemFail k o m
  end.

(** The values the wire format can carry. *)
Definition short (s : string) : Prop := slen s < 2 ^ 16.
Definition wf_request (r : BinaryRequest) : Prop :=
  match r with
  | RPing => True
  | RGet k | RDel k | RExists k | RType k | RTtl k | RQuotaGet k => short k
  | RSet k v _ t => short k /\ slen v < 2 ^ 32 - 9 /\ is_u64 t
  | RExpire k t => short k /\ is_u64 t
  | RIncr k d t => short k /\ is_i64 d /\ is_u64 t
  | RRateLimit k l w c => short k /\ is_u64 l /\ is_u64 w /\ is_u32 c
  | RQuotaInit k a => short k /\ is_u64 a
  | RReserve k a t => short k /\ is_u64 a /\ is_u64 t
  | RCommit k i a => short k /\ short i /\ is_u64 a
  | RRollback k i => short k /\ short i
  | RIdemBegin k h t o => short k /\ short h /\ is_u64 t /\ short o
  | RIdemComplete k o c b => short k /\ short o /\ is_u16 c /\ slen b < 2 ^ 32
  | RIdemFail k o m => short k /\ short o /\ short m
  end.
