(* ===== verification/Processor.v ===== *)
(** * The binary request processor (service/processor.h, service/processor.cpp)

    [Process] decodes one payload and calls the store.  The decoding of a case
    ends before its store call, so a case is a parser of the payload followed by
    the call and the response.  [Undefined] marks a read or a [remove_prefix]
    beyond the end of the [string_view], which the language leaves undefined. *)
From S2P Require Import Prelude CStd Entry Store Json Codec.

(** ** The cursor over the payload *)

Inductive step (A : Type) :=
| Go (a : A) (rest : string)
| Return (response : string)
| Undefined.
Arguments Go {A}. Arguments Return {A}. Arguments Undefined {A}.

Definition cursor (A : Type) : Type := string -> step A.
Definition cret {A} (a : A) : cursor A := fun p => Go a p.
Definition cbind {A B} (m : cursor A) (f : A -> cursor B) : cursor B := fun p =>
  match m p with
  | Go a p' => f a p'
  | Return r => Return r
  | Undefined => Undefined
  end.

Declare Scope cursor_scope.
Delimit Scope cursor_scope with cursor.
Notation "x <~ m ; k" := (cbind m (fun x => k))
  (at level 20, m at level 100, k at level 200, right associativity) : cursor_scope.
Local Open Scope cursor_scope.

(** [if (payload.size() < n) return Error] *)
Definition need (n : Z) : cursor unit := fun p =>
  if slen p <? n then Return (status_byte St_Error) else Go tt p.

(** [memcpy] of [n] bytes, conversion from network order, [remove_prefix(n)] *)
Definition uint (n : nat) : cursor Z := fun p =>
  if (String.length p <? n)%nat then Undefined else Go (be_val (str_take n p)) (str_drop n p).

(** [substr(0, n)] and [remove_prefix(n)] *)
Definition view (n : Z) : cursor string := fun p =>
  if slen p <? n then Undefined else Go (str_take (Z.to_nat n) p) (str_drop (Z.to_nat n) p).

(** The length-prefixed key, with [extra] bytes required after it. *)
Definition key_field (extra : Z) : cursor string :=
  _ <~ need 2;
  key_len <~ uint 2;
  _ <~ need (key_len + extra);
  view key_len.

(** ** The cases, up to the store call *)

Definition parse_Get : cursor BinaryRequest := key <~ key_field 0; cret (RGet key).

Definition condition_of (b : Z) : SetCondition :=
  if b =? 1 then SC_IfAbsent else if b =? 2 then SC_IfPresent else SC_Always.

Definition parse_Set : cursor BinaryRequest :=
  key <~ key_field 4;
  val_len <~ uint 4;
  _ <~ need (u32 (val_len + 8 + 1));
  val <~ view val_len;
  ttl_ms <~ uint 8;
  cond_byte <~ uint 1;
  cret (RSet key val (condition_of cond_byte) ttl_ms).

Definition parse_Del : cursor BinaryRequest := key <~ key_field 0; cret (RDel key).
Definition parse_Exists : cursor BinaryRequest := key <~ key_field 0; cret (RExists key).
Definition parse_Type : cursor BinaryRequest := key <~ key_field 0; cret (RType key).

Definition parse_Expire : cursor BinaryRequest :=
  _ <~ need (2 + 8); key <~ key_field 8; ttl_ms <~ uint 8; cret (RExpire key ttl_ms).

Definition parse_Ttl : cursor BinaryRequest := key <~ key_field 0; cret (RTtl key).

Definition parse_Incr : cursor BinaryRequest :=
  key <~ key_field (8 + 8);
  delta <~ uint 8;
  init_ttl_ms <~ uint 8;
  cret (RIncr key (i64 delta) init_ttl_ms).

Definition parse_RateLimit : cursor BinaryRequest :=
  key <~ key_field (8 + 8 + 4);
  limit <~ uint 8;
  window_ms <~ uint 8;
  cost <~ uint 4;
  cret (RRateLimit key limit window_ms cost).

Definition parse_QuotaInit : cursor BinaryRequest :=
  _ <~ need (2 + 8); key <~ key_field 8; amount <~ uint 8; cret (RQuotaInit key amount).

Definition parse_QuotaGet : cursor BinaryRequest := key <~ key_field 0; cret (RQuotaGet key).

Definition parse_Reserve : cursor BinaryRequest :=
  key <~ key_field (8 + 8); amount <~ uint 8; ttl_ms <~ uint 8; cret (RReserve key amount ttl_ms).

Definition parse_Commit : cursor BinaryRequest :=
  key <~ key_field 2;
  rlen <~ uint 2;
  _ <~ need (rlen + 8);
  res_id <~ view rlen;
  actual_amount <~ uint 8;
  cret (RCommit key res_id actual_amount).

Definition parse_Rollback : cursor BinaryRequest :=
  key <~ key_field 2; rlen <~ uint 2; _ <~ need rlen; res_id <~ view rlen; cret (RRollback key res_id).

(** [if (olen > 0 && payload.size() >= olen) owner_token = payload.substr(0, olen)] *)
Definition optional_view (n : Z) : cursor string := fun p =>
  if (0 <? n) && (n <=? slen p) then Go (str_take (Z.to_nat n) p) p else Go "" p.

Definition parse_IdemBegin : cursor BinaryRequest :=
  key <~ key_field 2;
  hlen <~ uint 2;
  _ <~ need (hlen + 8 + 2);
  req_hash <~ view hlen;
  ttl_ms <~ uint 8;
  olen <~ uint 2;
  owner_token <~ optional_view olen;
  cret (RIdemBegin key req_hash ttl_ms owner_token).

Definition parse_IdemComplete : cursor BinaryRequest :=
  key <~ key_field 2;
  olen <~ uint 2;
  _ <~ need (olen + 2 + 4);
  owner_token <~ view olen;
  code <~ uint 2;
  blen <~ uint 4;
  _ <~ need blen;
  body <~ view blen;
  cret (RIdemComplete key owner_token code body).

(** The error message at the end of IdemFail, when it is there. *)
Definition error_message_field : cursor string := fun p =>
  if 2 <=? slen p then
    let mlen := be_val (str_take 2 p) in
    if 2 + mlen <=? slen p then Go (str_take (Z.to_nat mlen) (str_drop 2 p)) p else Go "" p
  else Go "" p.

Definition parse_IdemFail : cursor BinaryRequest :=
  key <~ key_field 2;
  olen <~ uint 2;
  _ <~ need olen;
  owner_token <~ view olen;
  err_msg <~ error_message_field;
  cret (RIdemFail key owner_token err_msg).

Definition parse : cursor BinaryRequest :=
  _ <~ need 2;
  opcode <~ uint 2;
  match opcode_of opcode with
  | Some Op_Ping => cret RPing
  | Some Op_Get => parse_Get
  | Some Op_Set => parse_Set
  | Some Op_Del => parse_Del
  | Some Op_Exists => parse_Exists
  | Some Op_Type => parse_Type
  | Some Op_Expire => parse_Expire
  | Some Op_Ttl => parse_Ttl
  | Some Op_Incr => parse_Incr
  | Some Op_RateLimit => parse_RateLimit
  | Some Op_QuotaInit => parse_QuotaInit
  | Some Op_QuotaGet => parse_QuotaGet
  | Some Op_Reserve => parse_Reserve
  | Some Op_Commit => parse_Commit
  | Some Op_Rollback => parse_Rollback
  | Some Op_IdemBegin => parse_IdemBegin
  | Some Op_IdemComplete => parse_IdemComplete
  | Some Op_IdemFail => parse_IdemFail
  | Some Op_Decr | Some Op_IncrBy | None => fun _ => Return (status_byte St_Error)
  end.

(** ** The store calls and responses *)

(** A line handed to [AofWriter::Append]: operation and JSON body. *)
Definition aof_line : Type := string * string.

(** [std::string(1, status)] and a response of a status and a flag byte. *)
Definition flag_byte (b : bool) : string := be 1 (if b then 1 else 0).

Definition aof_set (key val : string) (cond : SetCondition) (ttl_ms : Z) : string :=
  jq "{'key':" +:+ QuoteJson key +:+ jq ",'value':" +:+ QuoteJson val +:+
  (if 0 <? ttl_ms then jq ",'ttl_ms':" +:+ to_string ttl_ms else "") +:+
  match cond with
  | SC_IfAbsent => jq ",'if_not_exists':true"
  | SC_IfPresent => jq ",'if_exists':true"
  | SC_Always => ""
  end +:+ "}".

Definition aof_key (key : string) : string := jq "{'key':" +:+ QuoteJson key +:+ "}".

Definition aof_pexpire (key : string) (ttl_ms : Z) : string :=
  jq "{'key':" +:+ QuoteJson key +:+ jq ",'ttl_ms':" +:+ to_string ttl_ms +:+ "}".

Definition aof_incrby (key : string) (delta init_ttl_ms : Z) : string :=
  jq "{'key':" +:+ QuoteJson key +:+ jq ",'delta':" +:+ to_string delta +:+
  (if 0 <? init_ttl_ms then jq ",'ttl_ms':" +:+ to_string init_ttl_ms else "") +:+ "}".

Definition aof_quota_init (key : string) (amount : Z) : string :=
  jq "{'key':" +:+ QuoteJson key +:+ jq ",'amount':" +:+ to_string amount +:+ "}".

Definition aof_reserve (key : string) (amount ttl_ms : Z) (reservation_id : string) : string :=
  jq "{'key':'" +:+ key +:+ jq "','amount':" +:+ to_string amount +:+ jq ",'ttl_ms':" +:+
  to_string ttl_ms +:+ jq ",'reservation_id':'" +:+ reservation_id +:+ jq "'}".

Definition aof_commit (key res_id : string) (actual_amount : Z) : string :=
  jq "{'key':'" +:+ key +:+ jq "','reservation_id':'" +:+ res_id +:+
  jq "','actual_amount':" +:+ to_string actual_amount +:+ "}".

Definition aof_rollback (key res_id : string) : string :=
  jq "{'key':" +:+ QuoteJson key +:+ jq ",'reservation_id':" +:+ QuoteJson res_id +:+ "}".

Definition aof_idem_begin (key req_hash : string) (ttl_ms : Z) (owner_token : string) : string :=
  jq "{'key':'" +:+ key +:+ jq "','request_hash':'" +:+ req_hash +:+ jq "','ttl_ms':" +:+
  to_string ttl_ms +:+ jq ",'owner_token':'" +:+ owner_token +:+ jq "'}".

Definition aof_idem_complete (key owner_token : string) (code : Z) (body : string) : string :=
  jq "{'key':'" +:+ key +:+ jq "','owner_token':'" +:+ owner_token +:+ jq "','response_code':" +:+
  to_string code +:+ jq ",'response_body':'" +:+ body +:+ jq "'}".

Definition aof_idem_fail (key owner_token : string) : string :=
  jq "{'key':'" +:+ key +:+ jq "','owner_token':'" +:+ owner_token +:+ jq "'}".

Definition write_condition (c : SetCondition) : WriteCondition :=
  match c with SC_Always => Always | SC_IfAbsent => IfAbsent | SC_IfPresent => IfPresent end.

Section serve.
Context {S : Type} `{!Store S}.
(** The clock reading of the call and whether there is an [aof_writer_]. *)
Context (now : Z) (aof : bool).

Definition answer : Type := S * list aof_line * string.

Definition log (guard : bool) (op json : string) : list aof_line :=
  if guard && aof then [(op, json)] else [].

Definition serve_Get (st : S) (key : string) : answer :=
  let '(st, val_opt) := Get now st key in
  match val_opt with
  | None => (st, [], status_byte St_NotFound)
  | Some v => (st, [], status_byte St_Ok +:+ field32 v)
  end.

Definition serve_Set (st : S) (key val : string) (cond : SetCondition) (ttl_ms : Z) : answer :=
  let '(st, stored) := Set_ now st key val (write_condition cond) ttl_ms in
  if negb stored then (st, [], status_byte St_NotFound)
  else (st, log true "SET" (aof_set key val cond ttl_ms), status_byte St_Ok).

Definition serve_Del (st : S) (key : string) : answer :=
  let '(st, deleted) := Del st key in
  (st, log deleted "DEL" (aof_key key), status_byte St_Ok +:+ flag_byte deleted).

Definition serve_Exists (st : S) (key : string) : answer :=
  let '(st, exists_) := Exists now st key in
  (st, [], status_byte St_Ok +:+ flag_byte exists_).

Definition serve_Type (st : S) (key : string) : answer :=
  let '(st, type) := Type_ now st key in
  let type_name := if bool_decide (type = DT_String) then "string" else "none" in
  (st, [], status_byte St_Ok +:+ field16 type_name).

Definition serve_Expire (st : S) (key : string) (ttl_ms : Z) : answer :=
  let '(st, success) := Expire now st key ttl_ms in
  (st, log success "PEXPIRE" (aof_pexpire key ttl_ms), status_byte St_Ok +:+ flag_byte success).

Definition serve_Ttl (st : S) (key : string) : answer :=
  let '(st, ttl) := Ttl now st key in (st, [], status_byte St_Ok +:+ be 8 (u64 ttl)).

Definition serve_Incr (st : S) (key : string) (delta init_ttl_ms : Z) : answer :=
  let '(st, res) := IncrBy now st key delta init_ttl_ms in
  if negb (ir_ok res) then (st, [], status_byte St_Error)
  else (st, log true "INCRBY" (aof_incrby key delta init_ttl_ms),
        status_byte St_Ok +:+ be 8 (u64 (ir_value res))).

Definition serve_RateLimit (st : S) (key : string) (limit window_ms cost : Z) : answer :=
  let '(st, res) := RateLimit now st key limit window_ms cost in
  if negb (rr_ok res) then (st, [], status_byte St_Error)
  else (st, [], status_byte St_Ok +:+ flag_byte (rr_allowed res) +:+ be 8 (rr_remaining res) +:+
                be 8 (rr_retry_after_ms res)).

Definition serve_QuotaInit (st : S) (key : string) (amount : Z) : answer :=
  let '(st, _) := Set_ now st key (to_string amount) Always 0 in
  (st, log true "GK.QUOTA_INIT" (aof_quota_init key amount), status_byte St_Ok).

Definition serve_QuotaGet (st : S) (key : string) : answer :=
  let '(st, val_opt) := Get now st key in
  let balance := match val_opt with
                 | Some v => match stoull v with Some (b, _) => b | None => 0 end
                 | None => 0
                 end in
  (st, [], status_byte St_Ok +:+ be 8 balance).

Definition serve_Reserve (st : S) (key : string) (amount ttl_ms : Z) : answer :=
  let '(st, res) := ReserveQuota now st key amount ttl_ms in
  if negb (rv_ok res) then (st, [], status_byte St_Error)
  else (st, log (rv_reserved res) "GK.RESERVE" (aof_reserve key amount ttl_ms (rv_reservation_id res)),
        status_byte St_Ok +:+ flag_byte (rv_reserved res) +:+ be 8 (rv_remaining res) +:+
        field16 (rv_reservation_id res)).

Definition serve_Commit (st : S) (key res_id : string) (actual_amount : Z) : answer :=
  let '(st, res) := CommitQuota now st key res_id actual_amount in
  if negb (cr_ok res) then (st, [], status_byte St_Error)
  else (st, log true "GK.COMMIT" (aof_commit key res_id actual_amount),
        status_byte St_Ok +:+ flag_byte (cr_committed res) +:+ be 8 (cr_refunded res) +:+
        be 8 (cr_remaining res)).

Definition serve_Rollback (st : S) (key res_id : string) : answer :=
  let '(st, res) := RollbackQuota now st key res_id in
  if negb (rb_ok res) then (st, [], status_byte St_Error)
  else (st, log true "GK.ROLLBACK" (aof_rollback key res_id),
        status_byte St_Ok +:+ flag_byte (rb_rolled_back res) +:+ be 8 (rb_refunded res) +:+
        be 8 (rb_remaining res)).

Definition action_byte (a : IdempotencyAction) : Z :=
  match a with IA_Execute => 0 | IA_Park => 1 | IA_Replay => 2 | IA_Conflict => 3 end.

Definition serve_IdemBegin (st : S) (key req_hash : string) (ttl_ms : Z) (owner_token : string) :
    answer :=
  let '(st, res) := IdemBegin now st key req_hash ttl_ms owner_token in
  if negb (ib_ok res) then
    (st, [], status_byte (if bool_decide (ib_action res = IA_Conflict) then St_Conflict else St_Error))
  else
    (st, log (bool_decide (ib_action res = IA_Execute)) "GK.IDEM_BEGIN"
           (aof_idem_begin key req_hash ttl_ms (ib_owner_token res)),
     status_byte St_Ok +:+ be 1 (action_byte (ib_action res)) +:+ field16 (ib_owner_token res) +:+
     be 2 (u16 (ib_cached_code res)) +:+ field32 (ib_cached_response res)).

Definition serve_IdemComplete (st : S) (key owner_token : string) (code : Z) (body : string) : answer :=
  let '(st, res) := IdemComplete now st key owner_token code body in
  if negb (ic_ok res) then (st, [], status_byte St_Error)
  else (st, log true "GK.IDEM_COMPLETE" (aof_idem_complete key owner_token code body),
        status_byte St_Ok +:+ be 1 1).

Definition serve_IdemFail (st : S) (key owner_token err_msg : string) : answer :=
  let '(st, res) := IdemFail now st key owner_token err_msg in
  if negb (if_ok res) then (st, [], status_byte St_Error)
  else (st, log true "GK.IDEM_FAIL" (aof_idem_fail key owner_token), status_byte St_Ok +:+ be 1 1).

Definition serve (st : S) (r : BinaryRequest) : answer :=
  match r with
  | RPing => (st, [], status_byte St_Ok +:+ be 2 4 +:+ "PONG")
  | RGet k => serve_Get st k
  | RSet k v c t => serve_Set st k v c t
  | RDel k => serve_Del st k
  | RExists k => serve_Exists st k
  | RType k => serve_Type st k
  | RExpire k t => serve_Expire st k t
  | RTtl k => serve_Ttl st k
  | RIncr k d t => serve_Incr st k d t
  | RRateLimit k l w c => serve_RateLimit st k l w c
  | RQuotaInit k a => serve_QuotaInit st k a
  | RQuotaGet k => serve_QuotaGet st k
  | RReserve k a t => serve_Reserve st k a t
  | RCommit k i a => serve_Commit st k i a
  | RRollback k i => serve_Rollback st k i
  | RIdemBegin k h t o => serve_IdemBegin st k h t o
  | RIdemComplete k o c b => serve_IdemComplete st k o c b
  | RIdemFail k o m => serve_IdemFail st k o m
  end.

(** The whole of [Process]: [None] when a case leaves the payload's bounds. *)
Definition Process (st : S) (payload : string) : option answer :=
  match parse payload with
  | Go r _ => Some (serve st r)
  | Return response => Some (st, [], response)
  | Undefined => None
  end.

End serve.

(** ** Reading back what the encoders write *)

Lemma need_ok n p : n <= slen p -> need n p = Go tt p.
Proof. intros H. unfold need. by rewrite (proj2 (Z.ltb_ge _ _) H). Qed.

Lemma uint_be n z p : 0 <= z < 2 ^ (8 * Z.of_nat n) -> uint n (be n z +:+ p) = Go z p.
Proof.
  intros Hz. unfold uint. rewrite str_length_app, be_length.
  destruct (Nat.ltb_spec (n + String.length p) n); [lia|].
  rewrite str_take_app, str_drop_app by (by rewrite be_length). by rewrite be_val_id.
Qed.

Lemma view_app s p : view (slen s) (s +:+ p) = Go s p.
Proof.
  unfold view. rewrite slen_app. pose proof (slen_nonneg p).
  rewrite (proj2 (Z.ltb_ge _ _)) by lia.
  by rewrite str_take_app, str_drop_app by (unfold slen; lia).
Qed.

Lemma cbind_go {A B} (m : cursor A) (f : A -> cursor B) p a p' :
  m p = Go a p' -> cbind m f p = f a p'.
Proof. intros H. unfold cbind. by rewrite H. Qed.

(** A 16-bit length and its bytes, as the cases read them. *)
Lemma field16_app s p : short s -> field16 s +:+ p = be 2 (slen s) +:+ s +:+ p.
Proof.
  intros Hs. unfold field16. rewrite str_app_assoc. rewrite u16_id; [done|].
  pose proof (slen_nonneg s). unfold short in Hs. lia.
Qed.
Lemma field32_app s p : slen s < 2 ^ 32 -> field32 s +:+ p = be 4 (slen s) +:+ s +:+ p.
Proof.
  intros Hs. unfold field32. rewrite str_app_assoc. rewrite u32_id; [done|].
  pose proof (slen_nonneg s). lia.
Qed.

Ltac measure :=
  repeat match goal with
  | s : string |- _ => lazymatch goal with
                       | _ : 0 <= slen s |- _ => fail
                       | _ => pose proof (slen_nonneg s)
                       end
  end;
  unfold short in *; rewrite ?slen_app, ?slen_be, ?slen_nil in *; lia.

Lemma key_field_app key extra p :
  short key -> extra <= slen p -> key_field extra (field16 key +:+ p) = Go key p.
Proof.
  intros Hk He. rewrite field16_app by done. unfold key_field.
  rewrite (cbind_go _ _ _ tt (be 2 (slen key) +:+ key +:+ p)) by (apply need_ok; measure).
  rewrite (cbind_go _ _ _ (slen key) (key +:+ p)) by (apply uint_be; measure).
  rewrite (cbind_go _ _ _ tt (key +:+ p)) by (apply need_ok; measure).
  apply view_app.
Qed.

(** One step of a parser on an encoded request. *)
Ltac parse_field :=
  match goal with
  | |- cbind (key_field _) _ (field16 ?k +:+ ?p) = _ =>
      rewrite (cbind_go _ _ _ k p) by (apply key_field_app; measure)
  | |- cbind (uint ?n) _ (be ?n ?z +:+ ?p) = _ =>
      rewrite (cbind_go _ _ _ z p) by (apply uint_be; measure)
  | |- cbind (uint 2) _ (field16 ?s +:+ ?p) = _ => rewrite field16_app by measure
  | |- cbind (uint 4) _ (field32 ?s +:+ ?p) = _ => rewrite field32_app by measure
  | |- cbind (need _) _ ?p = _ => rewrite (cbind_go _ _ _ tt p) by (apply need_ok; measure)
  | |- cbind (view _) _ (?s +:+ ?p) = _ =>
      rewrite (cbind_go _ _ _ s p) by apply view_app
  end.

Lemma parse_opcode o p :
  parse (op_bytes o +:+ p) =
  match o with
  | Op_Ping => cret RPing | Op_Get => parse_Get | Op_Set => parse_Set | Op_Del => parse_Del
  | Op_Exists => parse_Exists | Op_Type => parse_Type | Op_Expire => parse_Expire
  | Op_Ttl => parse_Ttl | Op_Incr => parse_Incr | Op_RateLimit => parse_RateLimit
  | Op_QuotaInit => parse_QuotaInit | Op_QuotaGet => parse_QuotaGet | Op_Reserve => parse_Reserve
  | Op_Commit => parse_Commit | Op_Rollback => parse_Rollback | Op_IdemBegin => parse_IdemBegin
  | Op_IdemComplete => parse_IdemComplete | Op_IdemFail => parse_IdemFail
  | Op_Decr | Op_IncrBy => fun _ => Return (status_byte St_Error)
  end p.
Proof.
  unfold parse, op_bytes. rewrite (cbind_go _ _ _ tt (be 2 (opcode_value o) +:+ p))
    by (apply need_ok; measure).
  rewrite (cbind_go _ _ _ (opcode_value o) p) by (apply uint_be; by destruct o).
  by destruct o.
Qed.

Lemma optional_view_app s p : optional_view (slen s) (s +:+ p) = Go s (s +:+ p).
Proof.
  unfold optional_view. destruct (decide (s = "")) as [->|Hs]; [done|].
  assert (0 < slen s) by (destruct s; [done|rewrite slen_cons; measure]).
  rewrite (proj2 (Z.ltb_lt _ _)), (proj2 (Z.leb_le _ _)) by measure. cbn [andb].
  by rewrite str_take_app by (unfold slen; lia).
Qed.

Lemma error_message_app s p : short s -> error_message_field (field16 s +:+ p) = Go s (field16 s +:+ p).
Proof.
  intros Hs. unfold error_message_field. rewrite field16_app by done.
  rewrite (proj2 (Z.leb_le _ _)) by measure.
  rewrite str_take_app, str_drop_app, be_val_id by (measure || by rewrite be_length).
  rewrite (proj2 (Z.leb_le _ _)) by measure. by rewrite str_take_app by (unfold slen; lia).
Qed.

Lemma condition_roundtrip c : condition_of (condition_byte c) = c.
Proof. by destruct c. Qed.

Lemma i64_u64 z : is_i64 z -> i64 (u64 z) = z.
Proof.
  intros Hz. unfold i64, u64. rewrite Zplus_mod_idemp_l. by apply i64_id.
Qed.

Lemma parse_encode r p : wf_request r -> exists rest, parse (encode_request r +:+ p) = Go r rest.
Proof.
  intros Hw.
  destruct r; cbn [wf_request encode_request] in *;
    unfold EncodePing, EncodeGet, EncodeSet, EncodeDel, EncodeExists, EncodeType, EncodeExpire,
      EncodeTtl, EncodeIncrBy, EncodeRateLimit, EncodeQuotaInit, EncodeQuotaGet, EncodeReserve,
      EncodeCommit, EncodeRollback, EncodeIdemBegin, EncodeIdemComplete, EncodeIdemFail;
    rewrite ?str_app_assoc, parse_opcode; eexists.
  - reflexivity.
  - unfold parse_Get. parse_field. reflexivity.
  - destruct Hw as (Hk & Hv & Ht). unfold parse_Set.
    rewrite (field32_app val) by lia. do 2 parse_field.
    rewrite (cbind_go _ _ _ tt (val +:+ be 8 ttl_ms +:+ be 1 (condition_byte cond) +:+ p)).
    2:{ apply need_ok. rewrite u32_id by measure. measure. }
    repeat parse_field.
    rewrite (cbind_go _ _ _ (condition_byte cond) p) by (apply uint_be; by destruct cond).
    by rewrite condition_roundtrip.
  - unfold parse_Del. parse_field. reflexivity.
  - unfold parse_Exists. parse_field. reflexivity.
  - unfold parse_Type. parse_field. reflexivity.
  - destruct Hw as (Hk & Ht). unfold parse_Expire.
    rewrite (cbind_go _ _ _ tt (field16 key +:+ be 8 ttl_ms +:+ p))
      by (apply need_ok; rewrite field16_app by done; measure).
    repeat parse_field. reflexivity.
  - unfold parse_Ttl. parse_field. reflexivity.
  - destruct Hw as (Hk & Hd & Ht). unfold parse_Incr. pose proof (u64_range delta).
    repeat parse_field. by rewrite i64_u64.
  - destruct Hw as (Hk & Hl & Hwin & Hc). unfold parse_RateLimit. repeat parse_field. reflexivity.
  - destruct Hw as (Hk & Ha). unfold parse_QuotaInit.
    rewrite (cbind_go _ _ _ tt (field16 key +:+ be 8 amount +:+ p))
      by (apply need_ok; rewrite field16_app by done; measure).
    repeat parse_field. reflexivity.
  - unfold parse_QuotaGet. parse_field. reflexivity.
  - destruct Hw as (Hk & Ha & Ht). unfold parse_Reserve. repeat parse_field. reflexivity.
  - destruct Hw as (Hk & Hi & Ha). unfold parse_Commit.
    rewrite (field16_app res_id) by done. repeat parse_field. reflexivity.
  - destruct Hw as (Hk & Hi). unfold parse_Rollback.
    rewrite (field16_app res_id) by done. repeat parse_field. reflexivity.
  - destruct Hw as (Hk & Hh & Ht & Ho). unfold parse_IdemBegin.
    rewrite (field16_app request_hash), (field16_app owner_token) by done. repeat parse_field.
    by rewrite (cbind_go _ _ _ _ _ (optional_view_app owner_token p)).
  - destruct Hw as (Hk & Ho & Hc & Hb). unfold parse_IdemComplete.
    rewrite (field16_app owner_token), (field32_app body), u16_id by done. repeat parse_field. reflexivity.
  - destruct Hw as (Hk & Ho & Hm). unfold parse_IdemFail.
    rewrite (field16_app owner_token) by done. pose proof (slen_nonneg (field16 err_msg)).
    repeat parse_field. by rewrite (cbind_go _ _ _ _ _ (error_message_app err_msg p Hm)).
Qed.

(** ** Bounds: which payloads leave the [string_view] *)

(** Weakest precondition of a cursor: it stays in bounds, and [Q] holds when it goes on. *)
Definition wp {A} (m : cursor A) (p : string) (Q : A -> string -> Prop) : Prop :=
  match m p with Go a p' => Q a p' | Return _ => True | Undefined => False end.

Lemma wp_bind {A B} (m : cursor A) (f : A -> cursor B) p Q :
  wp m p (fun a p' => wp (f a) p' Q) -> wp (cbind m f) p Q.
Proof. unfold wp, cbind. by destruct (m p). Qed.
Lemma wp_ret {A} (a : A) p (Q : A -> string -> Prop) : Q a p -> wp (cret a) p Q.
Proof. done. Qed.
Lemma wp_need n p (Q : unit -> string -> Prop) : (n <= slen p -> Q tt p) -> wp (need n) p Q.
Proof. intros H. unfold wp, need. destruct (slen p <? n) eqn:?; bool_prop; [done|auto]. Qed.
Lemma wp_uint n p (Q : Z -> string -> Prop) :
  Z.of_nat n <= slen p ->
  (forall z p', p = be n z +:+ p' -> 0 <= z < 2 ^ (8 * Z.of_nat n) ->
                slen p' = slen p - Z.of_nat n -> Q z p') ->
  wp (uint n) p Q.
Proof.
  intros Hn HQ. unfold wp, uint. unfold slen in Hn.
  destruct (Nat.ltb_spec (String.length p) n); [lia|].
  pose proof (str_take_length n p) as Hl. rewrite Nat.min_l in Hl by lia.
  pose proof (be_val_range (str_take n p)) as Hr. unfold slen in Hr. rewrite Hl in Hr.
  apply HQ; [|done|].
  - pose proof (be_be_val (str_take n p)) as Hb. rewrite Hl in Hb. by rewrite Hb, str_take_drop.
  - unfold slen. rewrite str_drop_length. lia.
Qed.
Lemma wp_view n p (Q : string -> string -> Prop) :
  0 <= n <= slen p ->
  (forall s p', p = s +:+ p' -> slen s = n -> slen p' = slen p - n -> Q s p') ->
  wp (view n) p Q.
Proof.
  intros Hn HQ. unfold wp, view. destruct (slen p <? n) eqn:?; bool_prop; [lia|].
  unfold slen in *. apply HQ.
  - by rewrite str_take_drop.
  - rewrite str_take_length. lia.
  - rewrite str_drop_length. lia.
Qed.
Lemma wp_key_field extra p (Q : string -> string -> Prop) :
  0 <= extra ->
  (forall key p', p = field16 key +:+ p' -> short key -> extra <= slen p' -> Q key p') ->
  wp (key_field extra) p Q.
Proof.
  intros He HQ. unfold key_field. apply wp_bind, wp_need. intros H2.
  apply wp_bind, wp_uint; [done|]. intros len p1 Hp Hlen Hl1.
  apply wp_bind, wp_need. intros H3. apply wp_view; [lia|].
  intros key p' Hp1 Hkey Hl'. assert (short key) as Hs by (unfold short; lia).
  apply HQ; [|done|lia]. rewrite field16_app by done. by rewrite Hp, Hp1, Hkey.
Qed.
Lemma wp_optional n p (Q : string -> string -> Prop) :
  (forall s p', Q s p') -> wp (optional_view n) p Q.
Proof. intros HQ. unfold wp, optional_view. by destruct (_ && _). Qed.
Lemma wp_message p (Q : string -> string -> Prop) :
  (forall s p', Q s p') -> wp error_message_field p Q.
Proof. intros HQ. unfold wp, error_message_field. repeat split_if; auto. Qed.

Ltac wp_step :=
  match goal with
  | |- wp (cbind _ _) _ _ => apply wp_bind
  | |- wp (cret _) _ _ => apply wp_ret; done
  | |- wp (need _) _ _ => apply wp_need; intros ?
  | |- wp (uint _) _ _ => apply wp_uint; [lia|intros ? ? _ ? ?]
  | |- wp (view _) _ _ => apply wp_view; [lia|intros ? ? _ ? ?]
  | |- wp (key_field _) _ _ => apply wp_key_field; [lia|intros ? ? _ ? ?]
  | |- wp (optional_view _) _ _ => apply wp_optional; intros ? ?
  | |- wp error_message_field _ _ => apply wp_message; intros ? ?
  end.

(** A SET whose 32-bit length wraps when the trailer is added to it, on a payload
    too short for that length. *)
Definition set_overread (payload : string) : Prop :=
  exists key val_len rest,
    payload = op_bytes Op_Set +:+ field16 key +:+ be 4 val_len +:+ rest /\
    short key /\ is_u32 val_len /\ (val_len + 9) mod 2 ^ 32 <= slen rest < val_len + 9.

Lemma opcode_of_spec z o : opcode_of z = Some o -> z = opcode_value o.
Proof. unfold opcode_of. intros H. apply find_some in H as [_ H]. by bool_prop. Qed.

Lemma parse_Set_undefined p :
  parse_Set p = Undefined <->
  exists key val_len rest,
    p = field16 key +:+ be 4 val_len +:+ rest /\
    short key /\ is_u32 val_len /\ (val_len + 9) mod 2 ^ 32 <= slen rest < val_len + 9.
Proof.
  split.
  - intros HU. destruct (key_field 4 p) as [key p1| |] eqn:Hk.
    3:{ pose proof (wp_key_field 4 p (fun _ _ => True)) as Hwp. unfold wp in Hwp.
        rewrite Hk in Hwp. destruct Hwp; [done|auto]. }
    2:{ unfold parse_Set, cbind in HU. by rewrite Hk in HU. }
    pose proof (wp_key_field 4 p (fun k q => p = field16 k +:+ q /\ short k /\ 4 <= slen q)) as Hwp.
    unfold wp in Hwp. rewrite Hk in Hwp. destruct Hwp as (Hp & Hs & Hl); [done|auto|].
    pose proof (wp_uint 4 p1 (fun z q => p1 = be 4 z +:+ q /\ is_u32 z) ltac:(lia)) as Hw4.
    unfold wp in Hw4. destruct (uint 4 p1) as [len rest| |] eqn:H4; [|by unfold uint in H4; destruct (_ <? _)%nat|by destruct Hw4].
    destruct Hw4 as (Hp1 & Hlen); [auto|].
    exists key, len, rest. split; [by rewrite Hp, Hp1|]. split; [done|]. split; [done|].
    unfold parse_Set in HU. rewrite (cbind_go _ _ _ _ _ Hk), (cbind_go _ _ _ _ _ H4) in HU.
    unfold u32 in HU. rewrite <- Z.add_assoc in HU. change (8 + 1) with 9 in HU.
    destruct (decide ((len + 9) mod 2 ^ 32 <= slen rest)) as [Hle|Hgt].
    2:{ unfold cbind at 1, need in HU. rewrite (proj2 (Z.ltb_lt _ _)) in HU by lia. done. }
    split; [done|]. destruct (decide (slen rest < len + 9)) as [|Hge]; [done|exfalso].
    rewrite (cbind_go _ _ _ tt rest) in HU by (by apply need_ok).
    assert (wp (val <~ view len; ttl_ms <~ uint 8; cond_byte <~ uint 1;
      cret (RSet key val (condition_of cond_byte) ttl_ms)) rest (fun _ _ => True)) as Hsafe
      by (repeat wp_step).
    unfold wp in Hsafe. by rewrite HU in Hsafe.
  - intros (key & len & rest & -> & Hs & Hlen & Hle & Hlt). pose proof (slen_nonneg rest).
    unfold parse_Set.
    rewrite (cbind_go _ _ _ key (be 4 len +:+ rest)) by (apply key_field_app; measure).
    rewrite (cbind_go _ _ _ len rest) by (by apply uint_be).
    rewrite (cbind_go _ _ _ tt rest)
      by (apply need_ok; unfold u32; rewrite <- Z.add_assoc; exact Hle).
    unfold cbind at 1, view. destruct (slen rest <? len) eqn:Hv; bool_prop; [done|].
    unfold cbind at 1, uint. pose proof (str_drop_length (Z.to_nat len) rest) as Hd.
    destruct (Nat.ltb_spec (String.length (str_drop (Z.to_nat len) rest)) 8); [done|].
    unfold cbind. rewrite str_drop_length.
    destruct (Nat.ltb_spec (String.length (str_drop (Z.to_nat len) rest) - 8) 1); [done|].
    unfold slen in *. lia.
Qed.

Lemma parse_undefined p : parse p = Undefined <-> set_overread p.
Proof.
  split.
  - intros HU. unfold parse in HU.
    destruct (decide (2 <= slen p)) as [H2|H2].
    2:{ unfold cbind, need in HU. by rewrite (proj2 (Z.ltb_lt _ _)) in HU by lia. }
    rewrite (cbind_go _ _ _ tt p) in HU by (by apply need_ok).
    pose proof (wp_uint 2 p (fun z q => p = be 2 z +:+ q) ltac:(lia)) as Hw. unfold wp in Hw.
    destruct (uint 2 p) as [z q| |] eqn:Hu; [|by unfold uint in Hu; destruct (_ <? _)%nat|by destruct Hw; auto].
    rewrite (cbind_go _ _ _ _ _ Hu) in HU. specialize (Hw ltac:(auto)).
    destruct (opcode_of z) as [o|] eqn:Ho; [|done]. apply opcode_of_spec in Ho as ->.
    destruct (decide (o = Op_Set)) as [->|Hn].
    + apply parse_Set_undefined in HU as (key & len & rest & -> & ?).
      exists key, len, rest. split; [|done]. exact Hw.
    + exfalso. clear Hw Hu.
      match type of HU with ?m q = _ => assert (wp m q (fun _ _ => True)) as Hwp end.
      { destruct o; try done;
        unfold parse_Get, parse_Del, parse_Exists, parse_Type, parse_Expire, parse_Ttl, parse_Incr,
          parse_RateLimit, parse_QuotaInit, parse_QuotaGet, parse_Reserve, parse_Commit,
          parse_Rollback, parse_IdemBegin, parse_IdemComplete, parse_IdemFail; repeat wp_step. }
      unfold wp in Hwp. by rewrite HU in Hwp.
  - intros (key & len & rest & -> & H). rewrite parse_opcode. apply parse_Set_undefined. eauto.
Qed.

(** A SET of the key "k" that announces a value of 2^32-1 bytes and carries eight. *)
Definition short_set : string :=
  op_bytes Op_Set +:+ field16 "k" +:+ be 4 (2 ^ 32 - 1) +:+ be 8 0.

Lemma short_set_overread : set_overread short_set.
Proof. exists "k", (2 ^ 32 - 1), (be 8 0). by vm_compute. Qed.

(** C25: The server understands its own client: for every request whose fields fit
    the wire format, the processor decodes the bytes of the matching encoder back
    to exactly that request, makes its one store call and answers its response,
    whatever the store implementation, the clock and the bytes after it. *)
Theorem process_encoded {S} {Store0 : Store S} now aof (st : S) r trailing :
  wf_request r ->
  Process now aof st (encode_request r +:+ trailing) = Some (serve now aof st r).
Proof.
  intros Hw. destruct (parse_encode r trailing Hw) as [rest Hp].
  unfold Process. by rewrite Hp.
Qed.

(** C26: The processor reads beyond its payload for the SET requests of
    [set_overread] and for no other payload of any length: there the 32-bit sum
    [val_len + 8 + 1] wraps, so a length of at least 2^32-9 passes the size check
    on a payload that does not hold it.  A 17-byte request does it. *)
Theorem process_out_of_bounds {S} {Store0 : Store S} now aof (st : S) payload :
  (Process now aof st payload = None <-> set_overread payload) /\
  slen short_set = 17 /\ Process now aof st short_set = None.
Proof.
  assert (forall p, Process now aof st p = None <-> set_overread p) as Hu.
  { intros p. rewrite <- parse_undefined. unfold Process. by destruct (parse p). }
  split; [apply Hu|]. split; [done|]. apply Hu, short_set_overread.
Qed.
