(* ===== verification/Dispatcher.v ===== *)
(** * The command table (command/name.cpp, dispatcher.h, dispatcher.cpp)

    [Register] keeps one handler per normalised name; [Dispatch] runs the handler
    of a request and appends successful writes to the log. *)
From S2P Require Import Prelude CStd Entry Store Json Command KvOps CounterOps QuotaOps IdemOps.

Definition upper (c : ascii) : ascii :=
  let z := Z_of_byte c in if (97 <=? z) && (z <=? 122) then byte_of_Z (z - 97 + 65) else c.
Fixpoint NormalizeName (name : string) : string :=
  match name with
  | "" => ""
  | String c name => String (upper c) (NormalizeName name)
  end.

Definition write_ops : list string :=
  ["SET"; "DEL"; "EXPIRE"; "PEXPIRE"; "PERSIST"; "GK.RATE_LIMIT"; "GK.RESERVE"; "GK.COMMIT";
   "GK.ROLLBACK"; "GK.QUOTA_INIT"; "GK.IDEM_BEGIN"; "GK.IDEM_COMPLETE"; "GK.IDEM_FAIL"].
Definition IsWriteOp (op : string) : bool := bool_decide (op ∈ write_ops).

(** [std::string::find] and [rfind] of a character, [insert]. *)
Fixpoint find_char (c : ascii) (s : string) : option nat :=
  match s with
  | "" => None
  | String d s => if bool_decide (d = c) then Some O else S <$> find_char c s
  end.
Fixpoint rfind_char (c : ascii) (s : string) : option nat :=
  match s with
  | "" => None
  | String d s =>
      match rfind_char c s with
      | Some i => Some (S i)
      | None => if bool_decide (d = c) then Some O else None
      end
  end.
Definition insert_at (i : nat) (t s : string) : string := str_take i s +:+ t +:+ str_drop i s.

(** The body that is logged for GK.IDEM_BEGIN: the owner token of the answer is
    added when the request has none. *)
Definition begin_aof_body (body_json result_json : string) : string :=
  match String.index 0 (jq "'owner_token'") body_json with
  | Some _ => body_json
  | None =>
      match String.index 0 (jq "'owner_token':'") result_json with
      | None => body_json
      | Some token_pos =>
          let rest := str_drop (token_pos + 15) result_json in
          match find_char dquote rest with
          | None => body_json
          | Some n =>
              let token := str_take n rest in
              match rfind_char "}" body_json with
              | None => body_json
              | Some last_brace =>
                  insert_at last_brace (jq ",'owner_token':'" +:+ token +:+ jq "'") body_json
              end
          end
      end
  end.

Section dispatcher.
Context {S : Type} `{!Store S}.

Definition Handler : Type := clock -> S -> Request -> S * Result.
Definition table : Type := list (string * Handler).

Fixpoint find_command (commands : table) (name : string) : option Handler :=
  match commands with
  | [] => None
  | (n, h) :: commands => if bool_decide (n = name) then Some h else find_command commands name
  end.

(** [None]: "invalid or duplicate command registration" is thrown. *)
Definition Register (commands_ : table) (name : string) (h : Handler) : option table :=
  let name := NormalizeName name in
  if is_nil name then None
  else match find_command commands_ name with
       | Some _ => None
       | None => Some (commands_ ++ [(name, h)])
       end.

Fixpoint register_all (commands_ : table) (regs : table) : option table :=
  match regs with
  | [] => Some commands_
  | (name, h) :: regs => Register commands_ name h ≫= fun t => register_all t regs
  end.

Definition ping : Handler := fun _ st _ => (st, success (jq "{'pong':true}")).

Definition RegisterStringOps : table :=
  [("SET", Validated StringOps.Set_); ("GET", Validated StringOps.Get)].
Definition RegisterKeyOps : table :=
  [("DEL", Validated KeyOps.Del); ("EXISTS", Validated KeyOps.Exists);
   ("TYPE", Validated KeyOps.Type_); ("DBSIZE", Validated KeyOps.DbSize);
   ("KEYS", Validated KeyOps.Keys); ("SCAN", Validated KeyOps.Scan)].
Definition RegisterTtlOps : table :=
  [("EXPIRE", Validated TtlOps.Expire); ("PEXPIRE", Validated TtlOps.PExpire);
   ("TTL", Validated TtlOps.Ttl); ("PTTL", Validated TtlOps.Pttl);
   ("PERSIST", Validated TtlOps.Persist)].
Definition RegisterCounterOps : table :=
  [("INCR", Validated CounterOps.Incr); ("DECR", Validated CounterOps.Decr);
   ("INCRBY", Validated CounterOps.IncrBy); ("GK.RATE_LIMIT", Validated CounterOps.RateLimit)].
Definition RegisterReservationOps : table :=
  [("GK.RESERVE", Validated QuotaOps.Reserve); ("GK.COMMIT", Validated QuotaOps.Commit);
   ("GK.ROLLBACK", Validated QuotaOps.Rollback); ("GK.QUOTA_INIT", Validated QuotaOps.QuotaInit);
   ("GK.QUOTA_GET", Validated QuotaOps.QuotaGet)].
Definition RegisterIdempotencyOps : table :=
  [("GK.IDEM_BEGIN", Validated IdemOps.IdemBegin);
   ("GK.IDEM_COMPLETE", Validated IdemOps.IdemComplete);
   ("GK.IDEM_FAIL", Validated IdemOps.IdemFail); ("GK.IDEM_GET", Validated IdemOps.IdemGet)].

Definition registrations : table :=
  ("PING", ping) :: RegisterStringOps ++ RegisterKeyOps ++ RegisterTtlOps ++ RegisterCounterOps ++
  RegisterReservationOps ++ RegisterIdempotencyOps.

(** The constructor: [None] if a registration throws. *)
Definition new_dispatcher : option table := register_all [] registrations.

(** [aof]: an [aof_writer_] is set.  The lines handed to it are returned. *)
Definition Dispatch (clk : clock) (commands_ : table) (aof : bool) (st : S) (request : Request) :
    S * Result * list (string * string) :=
  match find_command commands_ (NormalizeName (rq_op request)) with
  | None => (st, failure "UNKNOWN_COMMAND" ("unsupported command: " +:+ rq_op request), [])
  | Some h =>
      let '(st, res) := h clk st request in
      let lines :=
        if ok res && aof && IsWriteOp (rq_op request) then
          if bool_decide (rq_op request = "GK.IDEM_BEGIN")
          then [(rq_op request, begin_aof_body (rq_body_json request) (result_json res))]
          else [(rq_op request, rq_body_json request)]
        else [] in
      (st, res, lines)
  end.

Definition PurgeExpired (now : Z) (st : S) (sample_limit : Z) : S * Z :=
  Store.PurgeExpired now st sample_limit.

(** The constructor registers every command under its own name. *)
Lemma new_dispatcher_ok : new_dispatcher = Some registrations.
Proof. reflexivity. Qed.

End dispatcher.

Lemma upper_idem c : upper (upper c) = upper c.
Proof.
  apply (bool_decide_eq_true_1 (upper (upper c) = upper c)). revert c.
  apply byte_forall. by vm_compute.
Qed.
Lemma NormalizeName_idem name : NormalizeName (NormalizeName name) = NormalizeName name.
Proof.
  induction name as [|c name IH]; [done|]. cbn [NormalizeName]. by rewrite IH, upper_idem.
Qed.
