(* ===== verification/Aof.v ===== *)
(** * The append-only file (storage/aof: aof_writer.h, aof_writer.cpp, aof_loader.h, aof_loader.cpp)

    The writer's state is whether the descriptor is open and the bytes of the
    file.  The answers of the [write] system call are given by a script, one
    entry per call. *)
From S2P Require Import Prelude CStd Entry Store Json Command Dispatcher.

Record AofWriter := mkAof { fd_open : bool; file_bytes : string }.

(** What one [write(fd, ptr, remaining)] does: it accepts [n] bytes (at most the
    remaining ones), is interrupted, or fails. *)
Inductive write_result := Wrote (n : nat) | Interrupted | WriteFailed.

Definition newline : ascii := byte_of_Z 10.
Definition line_text (op payload_json : string) : string :=
  op +:+ " " +:+ payload_json +:+ String newline "".

(** The loop on the rest [ptr] of the line.  The boolean is the loop's verdict;
    [None] means that the script ended while the loop still waits on [write]. *)
Fixpoint write_loop (script : list write_result) (ptr file : string) : option bool * string :=
  match ptr with
  | "" => (Some true, file)
  | _ =>
      match script with
      | [] => (None, file)
      | Interrupted :: script => write_loop script ptr file
      | WriteFailed :: _ | Wrote O :: _ => (Some false, file)
      | Wrote n :: script => write_loop script (str_drop n ptr) (file +:+ str_take n ptr)
      end
  end.

Definition Append (script : list write_result) (w : AofWriter) (op payload_json : string) :
    option bool * AofWriter :=
  if is_nil op then (Some false, w)
  else if negb (fd_open w) then (Some false, w)
  else let '(r, file) := write_loop script (line_text op payload_json) (file_bytes w) in
       (r, mkAof true file).

Definition Close (w : AofWriter) : AofWriter := mkAof false (file_bytes w).
Definition IsOpen (w : AofWriter) : bool := fd_open w.

(** ** Loading *)

Record LoadResult := mkLoad {
  lr_ok : bool; lines_replayed : Z; lines_skipped : Z; lr_error_message : string }.

Inductive aof_file := Missing | Unreadable | Readable (content : string).

(** [std::getline] until the end of the file: the text between newlines, without
    an empty line after the last one. *)
Fixpoint getlines (cur s : string) : list string :=
  match s with
  | "" => match cur with "" => [] | _ => [cur] end
  | String c s =>
      if char_is c 10 then cur :: getlines "" s else getlines (cur +:+ String c "") s
  end.

Definition line_is_skipped (line : string) : bool :=
  match line with "" => true | String c _ => char_is c 35 end.

Section loader.
Context {S : Type}.

(** One line: the new state and whether it was replayed ([None]: a comment). *)
Definition load_line (clk : clock) (dispatcher : table) (aof : bool) (st : S) (line : string) :
    S * option bool :=
  if line_is_skipped line then (st, None)
  else match find_char " " line with
       | None => (st, Some false)
       | Some space_pos =>
           let op := str_take space_pos line in
           let body_json := str_drop (Datatypes.S space_pos) line in
           let '(st, res, _) := Dispatch clk dispatcher aof st (mkRequest "aof" op body_json) in
           (st, Some (ok res))
       end.

(** [clks i] is the clock during line [i]. *)
Fixpoint load_lines (clks : nat -> clock) (dispatcher : table) (aof : bool) (i : nat) (st : S)
    (lines : list string) (replayed skipped : Z) : S * LoadResult :=
  match lines with
  | [] => (st, mkLoad true replayed skipped "")
  | line :: lines =>
      let '(st, r) := load_line (clks i) dispatcher aof st line in
      match r with
      | None => load_lines clks dispatcher aof (Datatypes.S i) st lines replayed skipped
      | Some true => load_lines clks dispatcher aof (Datatypes.S i) st lines (replayed + 1) skipped
      | Some false => load_lines clks dispatcher aof (Datatypes.S i) st lines replayed (skipped + 1)
      end
  end.

Definition Load (clks : nat -> clock) (dispatcher : table) (aof : bool) (st : S) (file : aof_file) :
    S * LoadResult :=
  match file with
  | Missing => (st, mkLoad true 0 0 "")
  | Unreadable => (st, mkLoad false 0 0 "failed to open AOF file for reading")
  | Readable content => load_lines clks dispatcher aof 0 st (getlines "" content) 0 0
  end.

End loader.

(** ** The writer *)

Lemma write_loop_spec script ptr file r file' :
  write_loop script ptr file = (r, file') ->
  exists k, file' = file +:+ str_take k ptr /\ (k <= String.length ptr)%nat /\
            (r = Some true <-> k = String.length ptr).
Proof.
  revert ptr file. induction script as [|w script IH]; intros ptr file; destruct ptr as [|c ptr];
    cbn [write_loop].
  1,3: intros [= <- <-]; exists 0%nat; cbn [str_take String.length]; rewrite str_app_nil_r;
    split; [done|]; split; [lia|]; by split.
  { intros [= <- <-]. exists 0%nat. cbn [str_take]. rewrite str_app_nil_r. split; [done|].
    split; [lia|]. by split. }
  assert ((Some false, file) = (r, file') -> exists k, file' = file +:+ str_take k (String c ptr) /\
    (k <= String.length (String c ptr))%nat /\ (r = Some true <-> k = String.length (String c ptr)))
    as Hstop.
  { intros [= <- <-]. exists 0%nat. cbn [str_take]. rewrite str_app_nil_r. split; [done|].
    split; [lia|]. by split. }
  destruct w as [[|n]| |]; [exact Hstop| |apply IH|exact Hstop].
  intros (k & -> & Hk & Hr)%IH. rewrite str_drop_length in Hk, Hr.
  exists (Nat.min (S n + k) (String.length (String c ptr))). split; [|split; [lia|]].
  - rewrite str_app_assoc. f_equal. by rewrite str_take_min, str_take_add.
  - rewrite Hr. cbn [String.length] in *. lia.
Qed.

Lemma write_loop_live script ptr file :
  Forall (fun w => match w with Wrote n => (0 < n)%nat | Interrupted => True | WriteFailed => False end)
    script ->
  (String.length ptr <= length (List.filter (fun w => match w with Wrote _ => true | _ => false end) script))%nat ->
  (write_loop script ptr file).1 = Some true.
Proof.
  intros Hs. revert ptr file. induction Hs as [|w script Hw Hs IH]; intros ptr file Hl;
    destruct ptr as [|c ptr]; cbn [write_loop]; try done; [simpl in Hl; lia|].
  destruct w as [[|n]| |]; [lia| |by apply IH|done].
  apply IH. rewrite str_drop_length. cbn in Hl. cbn [String.length]. lia.
Qed.

(** An append writes exactly one whole line or a strict prefix of one: for
    every behaviour of the [write] calls (short writes, interruptions, failure),
    it answers true exactly when "op json newline" was added to the file, and
    otherwise the file gained a proper prefix of it; when no call fails and
    enough calls make progress it answers true. *)
Theorem append_writes_line script w op json :
  fd_open w = true -> op <> "" ->
  exists k, file_bytes (Append script w op json).2 = file_bytes w +:+ str_take k (line_text op json) /\
    (k <= String.length (line_text op json))%nat /\
    ((Append script w op json).1 = Some true <-> k = String.length (line_text op json)) /\
    (Forall (fun r => match r with Wrote n => (0 < n)%nat | Interrupted => True | WriteFailed => False end)
       script ->
     (String.length (line_text op json) <=
      length (List.filter (fun r => match r with Wrote _ => true | _ => false end) script))%nat ->
     (Append script w op json).1 = Some true).
Proof.
  intros Hopen Hop. unfold Append. destruct (is_nil op) eqn:Hn; [by destruct op|].
  rewrite Hopen. cbn [negb].
  pose proof (write_loop_live script (line_text op json) (file_bytes w)) as Hlive.
  destruct (write_loop script (line_text op json) (file_bytes w)) as [r file] eqn:Hw.
  apply write_loop_spec in Hw as (k & -> & Hk & Hr). exists k. cbn [fst snd file_bytes] in *.
  split; [done|]. split; [done|]. split; [done|]. exact Hlive.
Qed.

Lemma append_writes_line_witness :
  (Append [Wrote 3; Interrupted; Wrote 100] (mkAof true "") "DEL" "{}").1 = Some true /\
  file_bytes (Append [Wrote 3; WriteFailed] (mkAof true "") "DEL" "{}").2 = "DEL".
Proof.
  split; [|reflexivity].
  destruct (append_writes_line [Wrote 3; Interrupted; Wrote 100] (mkAof true "") "DEL" "{}")
    as (k & Hf & Hk & Hr & _); [done|done|]. apply Hr.
  assert (str_take k (line_text "DEL" "{}") = line_text "DEL" "{}") as Ht
    by (rewrite str_app_nil_l in Hf; rewrite <- Hf; reflexivity).
  apply (f_equal String.length) in Ht. rewrite str_take_length in Ht. lia.
Defined.

(** ** Reading the lines back *)

Fixpoint no_newline (s : string) : bool :=
  match s with
  | "" => true
  | String c s => negb (char_is c 10) && no_newline s
  end.
Fixpoint no_space (s : string) : bool :=
  match s with
  | "" => true
  | String c s => negb (bool_decide (c = " "%char)) && no_space s
  end.

Lemma no_newline_app s t : no_newline (s +:+ t) = no_newline s && no_newline t.
Proof. induction s as [|c s IH]; [done|]. rewrite str_app_cons. cbn. by rewrite IH, andb_assoc. Qed.

Lemma getlines_line s t cur :
  no_newline s = true -> getlines cur (s +:+ String newline t) = (cur +:+ s) :: getlines "" t.
Proof.
  revert cur. induction s as [|c s IH]; intros cur Hs.
  - rewrite str_app_nil_l, str_app_nil_r. done.
  - rewrite str_app_cons. cbn [getlines]. cbn in Hs. bool_prop. rewrite H.
    rewrite IH by done. by rewrite str_app_assoc.
Qed.

Lemma find_char_app s t : no_space s = true -> find_char " " (s +:+ String " " t) = Some (String.length s).
Proof.
  induction s as [|c s IH]; intros Hs; [done|]. rewrite str_app_cons. cbn [find_char].
  cbn in Hs. bool_prop. rewrite bool_decide_false by done. rewrite IH by done. done.
Qed.

(** Lines that the loader reads back as they were appended. *)
Definition wf_line (l : string * string) : Prop :=
  line_is_skipped l.1 = false /\ no_space l.1 = true /\ no_newline l.1 = true /\
  no_newline l.2 = true.

Fixpoint file_of (ls : list (string * string)) : string :=
  match ls with
  | [] => ""
  | (op, json) :: ls => line_text op json +:+ file_of ls
  end.

Section roundtrip.
Context {S : Type}.

(** Dispatching the commands one after the other. *)
Fixpoint replay (clks : nat -> clock) (dispatcher : table) (aof : bool) (i : nat) (st : S)
    (ls : list (string * string)) (replayed skipped : Z) : S * LoadResult :=
  match ls with
  | [] => (st, mkLoad true replayed skipped "")
  | (op, json) :: ls =>
      let '(st, res, _) := Dispatch (clks i) dispatcher aof st (mkRequest "aof" op json) in
      if ok res then replay clks dispatcher aof (Datatypes.S i) st ls (replayed + 1) skipped
      else replay clks dispatcher aof (Datatypes.S i) st ls replayed (skipped + 1)
  end.

Lemma load_line_append clk d aof (st : S) op json :
  wf_line (op, json) ->
  load_line clk d aof st (op +:+ " " +:+ json) =
  (let '(st, res, _) := Dispatch clk d aof st (mkRequest "aof" op json) in (st, Some (ok res))).
Proof.
  intros (Hk & Hs & _ & _). cbn [fst snd] in *. unfold load_line.
  assert (line_is_skipped (op +:+ " " +:+ json) = false) as ->.
  { destruct op as [|c op]; [done|]. by rewrite str_app_cons. }
  rewrite str_app_cons, str_app_nil_l, find_char_app by done.
  rewrite str_take_app by done.
  change (str_drop (Datatypes.S (String.length op)) (op +:+ String " " json)) with
    (str_drop (1 + String.length op) (op +:+ String " " json)).
  rewrite Nat.add_comm, <- str_drop_drop, (str_drop_app (String.length op)) by done. done.
Qed.

Lemma load_lines_file clks d aof i (st : S) ls n m :
  Forall wf_line ls ->
  load_lines clks d aof i st (getlines "" (file_of ls)) n m = replay clks d aof i st ls n m.
Proof.
  intros Hls. revert i st n m. induction Hls as [|[op json] ls Hl Hls IH]; intros i st n m; [done|].
  cbn [file_of]. unfold line_text.
  replace ((op +:+ " " +:+ json +:+ String newline "") +:+ file_of ls) with
    ((op +:+ " " +:+ json) +:+ String newline (file_of ls)) by (by rewrite !str_app_assoc).
  rewrite getlines_line, str_app_nil_l.
  2:{ destruct Hl as (_ & _ & H1 & H2). cbn [fst snd] in *. rewrite !no_newline_app, H1, H2. done. }
  cbn [load_lines replay]. rewrite load_line_append by done.
  destruct (Dispatch (clks i) d aof st (mkRequest "aof" op json)) as [[st' res] lines].
  destruct (ok res); apply IH.
Qed.

End roundtrip.

(** Appending a sequence of lines with one script per line. *)
Fixpoint append_all (w : AofWriter) (ls : list (string * string)) (scripts : nat -> list write_result)
    (i : nat) : option AofWriter :=
  match ls with
  | [] => Some w
  | (op, json) :: ls =>
      match Append (scripts i) w op json with
      | (Some true, w) => append_all w ls scripts (S i)
      | _ => None
      end
  end.

Lemma append_all_file w ls scripts i w' :
  append_all w ls scripts i = Some w' -> file_bytes w' = file_bytes w +:+ file_of ls.
Proof.
  revert w i. induction ls as [|[op json] ls IH]; intros w i; cbn [append_all file_of].
  { intros [= <-]. by rewrite str_app_nil_r. }
  destruct (Append (scripts i) w op json) as [r w1] eqn:Ha. intros H.
  destruct r as [[|]|]; try done. apply IH in H. rewrite H.
  unfold Append in Ha. destruct (is_nil op); [by inversion Ha|].
  destruct (negb (fd_open w)); [by inversion Ha|].
  destruct (write_loop (scripts i) (line_text op json) (file_bytes w)) as [r file] eqn:Hw.
  injection Ha as -> <-. apply write_loop_spec in Hw as (k & -> & Hk & Hr).
  rewrite (proj1 Hr eq_refl) in *. cbn [file_bytes]. rewrite str_app_assoc. f_equal. f_equal.
  rewrite <- (str_app_nil_r (line_text op json)) at 2. by apply str_take_app.
Qed.

(** What the writer appends, the loader replays: if every append to a new
    file succeeds, then loading that file dispatches exactly those operations
    and bodies, in that order, and counts the accepted and rejected ones. *)
Theorem aof_roundtrip {S} clks (d : table) aof (st : S) ls scripts w :
  Forall wf_line ls -> append_all (mkAof true "") ls scripts 0 = Some w ->
  Load clks d aof st (Readable (file_bytes w)) = replay clks d aof 0 st ls 0 0.
Proof.
  intros Hls Hw%append_all_file. cbn [file_bytes] in Hw. rewrite str_app_nil_l in Hw.
  unfold Load. rewrite Hw. by apply load_lines_file.
Qed.
