(* ===== verification/Replay.v ===== *)
(** * The log of the binary server, replayed by the command table

    [Processor] appends a line per write; after a restart [AofLoader] dispatches
    the lines.  For each kind of request: does the line make the dispatcher repeat
    the store call the processor made?  The clock of the replay is taken to read
    what it read at the time of the request, so that any difference is the
    line's. *)
From S2P Require Import Prelude CStd Entry Store MemoryStore KvTrace Json StringBody Command KvOps CounterOps QuotaOps IdemOps Codec Processor Dispatcher Aof.
Import JsonReader.

(** ** Bodies as object texts *)

Lemma aof_key_text k : aof_key k = object_text ("key", QuoteJson k) [].
Proof. reflexivity. Qed.
Lemma aof_pexpire_text k t :
  aof_pexpire k t = object_text ("key", QuoteJson k) [("ttl_ms", to_string t)].
Proof.
  unfold aof_pexpire, object_text, member. cbn [fst snd members_tail].
  by rewrite !str_app_assoc.
Qed.

(** Text between plain quotes: without quote, backslash and newline it is its own
    JSON string, on one line. *)
Fixpoint plain (s : string) : bool :=
  match s with
  | "" => true
  | String c s => negb (char_is c 34) && negb (char_is c 92) && negb (char_is c 10) && plain s
  end.
Definition raw_quote (s : string) : string := String dquote s +:+ String dquote "".

Lemma string_loop_plain s f out t :
  plain s = true -> (String.length s < f)%nat ->
  string_loop f out (s +:+ String dquote t) = inl (out +:+ s, t).
Proof.
  revert f out. induction s as [|c s IH]; intros f out Hp Hf;
    (destruct f as [|f]; [simpl in Hf; lia|]).
  - by rewrite str_app_nil_l, str_app_nil_r.
  - cbn [plain] in Hp. apply andb_true_iff in Hp as [[[Hq Hb]%andb_true_iff _]%andb_true_iff Hp].
    apply negb_true_iff in Hq, Hb. rewrite str_app_cons. cbn [string_loop]. rewrite Hq.
    unfold string_piece. rewrite Hb. unfold ret. rewrite IH by (done || simpl in Hf; lia). by rewrite str_app_assoc.
Qed.

Lemma String_raw s t : plain s = true -> String_ (raw_quote s +:+ t) = inl (s, t).
Proof.
  intros Hp. unfold raw_quote. rewrite !str_app_cons, String_loop, str_app_assoc, str_app_cons,
    str_app_nil_l.
  rewrite string_loop_plain, str_app_nil_l; [done|done|]. rewrite str_length_app. simpl. lia.
Qed.

(** Equality of two concatenations of literals and variables. *)
Ltac text_eq :=
  unfold object_text; cbn [members_tail]; unfold member, raw_quote; cbn [fst snd];
  rewrite ?str_app_assoc; reflexivity.

Lemma aof_incrby_text k d t :
  aof_incrby k d t =
  object_text ("key", QuoteJson k)
    (("delta", to_string d) :: if 0 <? t then [("ttl_ms", to_string t)] else []).
Proof. unfold aof_incrby. destruct (0 <? t); text_eq. Qed.
Lemma aof_quota_init_text k a :
  aof_quota_init k a = object_text ("key", QuoteJson k) [("amount", to_string a)].
Proof. unfold aof_quota_init. text_eq. Qed.
Lemma aof_rollback_text k i :
  aof_rollback k i = object_text ("key", QuoteJson k) [("reservation_id", QuoteJson i)].
Proof. unfold aof_rollback. text_eq. Qed.
Lemma aof_commit_text k i a :
  aof_commit k i a =
  object_text ("key", raw_quote k) [("reservation_id", raw_quote i); ("actual_amount", to_string a)].
Proof. unfold aof_commit. text_eq. Qed.
Lemma aof_reserve_text k a t i :
  aof_reserve k a t i =
  object_text ("key", raw_quote k)
    [("amount", to_string a); ("ttl_ms", to_string t); ("reservation_id", raw_quote i)].
Proof. unfold aof_reserve. text_eq. Qed.
Lemma aof_idem_complete_text k o c b :
  aof_idem_complete k o c b =
  object_text ("key", raw_quote k)
    [("owner_token", raw_quote o); ("response_code", to_string c); ("response_body", raw_quote b)].
Proof. unfold aof_idem_complete. text_eq. Qed.
Lemma aof_idem_fail_text k o :
  aof_idem_fail k o = object_text ("key", raw_quote k) [("owner_token", raw_quote o)].
Proof. unfold aof_idem_fail. text_eq. Qed.

(** The members of a SET line after its key. *)
Definition set_members (val : string) (cond : SetCondition) (ttl_ms : Z) : list (string * string) :=
  ("value", QuoteJson val) :: (if 0 <? ttl_ms then [("ttl_ms", to_string ttl_ms)] else []) ++
  match cond with
  | SC_Always => []
  | SC_IfAbsent => [("if_not_exists", "true")]
  | SC_IfPresent => [("if_exists", "true")]
  end.
Lemma aof_set_text k v c t :
  aof_set k v c t = object_text ("key", QuoteJson k) (set_members v c t).
Proof. unfold aof_set, set_members. destruct (0 <? t), c; cbn [app]; text_eq. Qed.

(** Evaluates the tests on field names. *)
Ltac pick_field :=
  repeat first [rewrite bool_decide_true by done | rewrite bool_decide_false by done];
  cbn [orb]; cbv iota beta.
Ltac read_value :=
  first
  [ rewrite (bind_ok _ _ _ _ _ (String_QuoteJson _ _)); reflexivity
  | erewrite bind_ok by (by apply String_raw); reflexivity
  | erewrite bind_ok by (by apply UnsignedNumber_to_string); reflexivity
  | erewrite bind_ok by (by apply SignedNumber_to_string); reflexivity ].
Ltac read_member := eapply reads_cons; [intros ? ?; cbv beta; pick_field; read_value|].
Ltac read_members := repeat read_member; apply reads_nil.

Section replay.
Context {S : Type} `{!Store S}.

(** One line, dispatched by the server's command table while no writer is set. *)
Definition replay_line (now : Z) (st : S) (l : aof_line) : S * Result :=
  (Dispatch (fun _ => now) registrations false st (mkRequest "aof" l.1 l.2)).1.

Lemma replay_known now (st : S) op json h :
  find_command registrations (NormalizeName op) = Some h ->
  replay_line now st (op, json) = h (fun _ => now) st (mkRequest "aof" op json).
Proof.
  intros Hf. unfold replay_line, Dispatch. cbn [rq_op fst snd]. rewrite Hf. by destruct (h _ _ _).
Qed.

Lemma with_body_ok {A} (m : reader A) id op json a rest (k : A -> (S * Result) + string) :
  m json = inl (a, rest) -> with_body m (mkRequest id op json) k = k a.
Proof. intros H. unfold with_body. cbn [rq_body_json]. by rewrite H. Qed.
Lemma with_body_err {A} (m : reader A) id op json e (k : A -> (S * Result) + string) :
  m json = inr e -> with_body m (mkRequest id op json) k = inr e.
Proof. intros H. unfold with_body. cbn [rq_body_json]. by rewrite H. Qed.

Lemma replay_del now (st : S) k :
  replay_line now st ("DEL", aof_key k) =
  let '(st', b) := Del st k in (st', success (jq "{'deleted':" +:+ to_string (if b : bool then 1 else 0) +:+ "}")).
Proof.
  rewrite (replay_known now st "DEL" _ _ eq_refl). unfold Validated, KeyOps.Del.
  rewrite (with_body_ok _ _ _ _ [k] "").
  2:{ rewrite aof_key_text. apply (opt_fields_text _ _ _ []). eapply reads_cons; [|apply reads_nil].
      intros s Hs. unfold KeyOps.keys_field. cbn [bool_decide].
      change (bool_decide ("key" = "key")) with true. cbv iota.
      by rewrite (bind_ok _ _ _ _ _ (String_QuoteJson k s)). }
  cbn [KeyOps.del_loop]. destruct (Del st k) as [st' b]. by destruct b.
Qed.

Lemma replay_pexpire now (st : S) k t :
  k <> "" -> is_u64 t ->
  replay_line now st ("PEXPIRE", aof_pexpire k t) =
  let '(st', b) := Expire now st k t in (st', success (jq "{'set':" +:+ json_bool b +:+ "}")).
Proof.
  intros Hk Ht. rewrite (replay_known now st "PEXPIRE" _ _ eq_refl). unfold Validated, TtlOps.PExpire.
  rewrite (with_body_ok _ _ _ _ (k, Some t) "").
  2:{ rewrite aof_pexpire_text. apply fields_text. unfold TtlOps.pexpire_field. read_members. }
  destruct k; [done|]. cbn [is_nil]. by destruct (Expire now st _ t).
Qed.

Lemma replay_incrby now (st : S) k d t :
  k <> "" -> - 2 ^ 63 < d < 2 ^ 63 -> is_u64 t ->
  replay_line now st ("INCRBY", aof_incrby k d t) =
  let '(st', r) := IncrBy now st k d t in (st', incr_result r).
Proof.
  intros Hk Hd Ht. rewrite (replay_known now st "INCRBY" _ _ eq_refl).
  unfold Validated, CounterOps.IncrBy.
  rewrite (with_body_ok _ _ _ _ (k, Some d, t) "").
  2:{ rewrite aof_incrby_text. apply fields_text. unfold incrby_field.
      destruct (0 <? t) eqn:Hz; bool_prop; [read_members|].
      assert (t = 0) as -> by lia. read_members. }
  destruct k; [done|]. cbn [is_nil]. by destruct (IncrBy now st _ d t).
Qed.

Lemma replay_quota_init now (st : S) k a :
  k <> "" -> is_u64 a ->
  (replay_line now st ("GK.QUOTA_INIT", aof_quota_init k a)).1 =
  (Set_ now st k (to_string a) Always 0).1 /\
  ok (replay_line now st ("GK.QUOTA_INIT", aof_quota_init k a)).2 = true.
Proof.
  intros Hk Ha. rewrite (replay_known now st "GK.QUOTA_INIT" _ _ eq_refl).
  unfold Validated, QuotaOps.QuotaInit.
  rewrite (with_body_ok _ _ _ _ (k, Some a) "").
  2:{ rewrite aof_quota_init_text. apply fields_text. unfold init_field. read_members. }
  destruct k; [done|]. cbn [is_nil]. by destruct (Set_ now st _ _ Always 0).
Qed.

Lemma replay_rollback now (st : S) k i :
  k <> "" -> i <> "" ->
  (replay_line now st ("GK.ROLLBACK", aof_rollback k i)).1 = (RollbackQuota now st k i).1 /\
  ok (replay_line now st ("GK.ROLLBACK", aof_rollback k i)).2 =
  rb_ok (RollbackQuota now st k i).2 && rb_rolled_back (RollbackQuota now st k i).2.
Proof.
  intros Hk Hi. rewrite (replay_known now st "GK.ROLLBACK" _ _ eq_refl).
  unfold Validated, QuotaOps.Rollback.
  rewrite (with_body_ok _ _ _ _ (k, i) "").
  2:{ rewrite aof_rollback_text. apply fields_text. unfold rollback_field. read_members. }
  destruct k; [done|]. destruct i; [done|]. cbn [is_nil orb].
  destruct (RollbackQuota now st _ _) as [st' r]. cbn [fst snd].
  by destruct (rb_ok r), (rb_rolled_back r).
Qed.

Lemma replay_commit now (st : S) k i a :
  k <> "" -> i <> "" -> plain k = true -> plain i = true -> is_u64 a ->
  (replay_line now st ("GK.COMMIT", aof_commit k i a)).1 = (CommitQuota now st k i a).1 /\
  ok (replay_line now st ("GK.COMMIT", aof_commit k i a)).2 =
  cr_ok (CommitQuota now st k i a).2 && cr_committed (CommitQuota now st k i a).2.
Proof.
  intros Hk Hi Pk Pi Ha. rewrite (replay_known now st "GK.COMMIT" _ _ eq_refl).
  unfold Validated, QuotaOps.Commit.
  rewrite (with_body_ok _ _ _ _ (k, i, Some a) "").
  2:{ rewrite aof_commit_text. apply fields_text. unfold commit_field. read_members. }
  destruct k; [done|]. destruct i; [done|]. cbn [is_nil].
  destruct (CommitQuota now st _ _ a) as [st' r]. cbn [fst snd].
  by destruct (cr_ok r), (cr_committed r).
Qed.

Lemma replay_idem_complete now (st : S) k o c b :
  k <> "" -> o <> "" -> plain k = true -> plain o = true -> plain b = true -> is_u16 c ->
  (replay_line now st ("GK.IDEM_COMPLETE", aof_idem_complete k o c b)).1 =
  (IdemComplete now st k o c b).1 /\
  ok (replay_line now st ("GK.IDEM_COMPLETE", aof_idem_complete k o c b)).2 =
  ic_ok (IdemComplete now st k o c b).2.
Proof.
  intros Hk Ho Pk Po Pb Hc. rewrite (replay_known now st "GK.IDEM_COMPLETE" _ _ eq_refl).
  unfold Validated, IdemOps.IdemComplete.
  assert (- 2 ^ 63 < c < 2 ^ 63) as Hc' by lia.
  rewrite (with_body_ok _ _ _ _ (k, o, i32 c, b) "").
  2:{ rewrite aof_idem_complete_text. apply fields_text. unfold complete_field. read_members. }
  assert (i32 c = c) as -> by (unfold i32; rewrite Z.mod_small; lia).
  destruct k; [done|]. destruct o; [done|]. cbn [is_nil].
  destruct (IdemComplete now st _ _ c b) as [st' r]. cbn [fst snd]. by destruct (ic_ok r).
Qed.

(** The line of a failure does not carry the error message. *)
Lemma replay_idem_fail now (st : S) k o :
  k <> "" -> o <> "" -> plain k = true -> plain o = true ->
  (replay_line now st ("GK.IDEM_FAIL", aof_idem_fail k o)).1 = (IdemFail now st k o "").1 /\
  ok (replay_line now st ("GK.IDEM_FAIL", aof_idem_fail k o)).2 = if_ok (IdemFail now st k o "").2.
Proof.
  intros Hk Ho Pk Po. rewrite (replay_known now st "GK.IDEM_FAIL" _ _ eq_refl).
  unfold Validated, IdemOps.IdemFail.
  rewrite (with_body_ok _ _ _ _ (k, o, "") "").
  2:{ rewrite aof_idem_fail_text. apply fields_text. unfold fail_field. read_members. }
  destruct k; [done|]. destruct o; [done|]. cbn [is_nil].
  destruct (IdemFail now st _ _ "") as [st' r]. cbn [fst snd]. by destruct (if_ok r).
Qed.

End replay.

(** ** The body of SET *)

(** Reading the members [l] takes the body [b] to [b']. *)
Inductive body_reads : StringBody -> list (string * string) -> StringBody -> Prop :=
| body_nil b : body_reads b [] b
| body_cons b b1 b2 name text v l :
    (forall s, ends_number s = true -> Reader.value_ (text +:+ s) = inl (v, s)) ->
    emplace b name v = Some b1 -> body_reads b1 l b2 -> body_reads b ((name, text) :: l) b2.

Lemma read_loop_text l p b b' f :
  (length l < f)%nat -> body_reads b (p :: l) b' ->
  Reader.read_loop f b (member p +:+ members_tail l) = inl (b', "").
Proof.
  revert p b f. induction l as [|q l IH]; intros [n t] b f Hf Hr;
    (destruct f as [|f]; [simpl in Hf; lia|]); simpl in Hf;
    inversion_clear Hr as [|? b1 ? ? ? v ? Hv He Hl]; cbn [Reader.read_loop];
    unfold member; cbn [fst snd]; rewrite !str_app_assoc;
    rewrite (bind_ok _ _ _ _ _ (ReaderFacts.body_String_QuoteJson n _)), str_app_cons, str_app_nil_l;
    rewrite (bind_ok _ _ _ _ _ (ReaderFacts.body_Expect_head ":"%char _ eq_refl));
    rewrite (bind_ok _ _ _ v (members_tail _)) by (by apply Hv); rewrite He; cbn [members_tail].
  - inversion_clear Hl. by rewrite (bind_ok _ _ _ true "") by (by apply ReaderFacts.body_Take_head).
  - rewrite !str_app_cons, str_app_nil_l.
    rewrite (bind_ok _ _ _ _ _ (ReaderFacts.body_Take_other "}"%char ","%char _ eq_refl ltac:(done))).
    rewrite (bind_ok _ _ _ _ _ (ReaderFacts.body_Expect_head ","%char _ eq_refl)). apply IH; [lia|done].
Qed.

Lemma ParseStringBody_text p l b :
  body_reads [] (p :: l) b -> ParseStringBody (object_text p l) = inl b.
Proof.
  intros Hr. unfold ParseStringBody, Reader.Read, object_text.
  rewrite str_app_cons, str_app_nil_l.
  rewrite (bind_ok _ _ _ _ _ (ReaderFacts.body_Expect_head "{"%char _ eq_refl)).
  unfold member at 2, QuoteJson at 1. rewrite !str_app_cons.
  rewrite (bind_ok _ _ _ _ _ (ReaderFacts.body_Take_other "}"%char dquote _ eq_refl ltac:(done))).
  rewrite <- !str_app_cons.
  change (String dquote (quote_body p.1) +:+ String dquote "") with (QuoteJson p.1).
  change (QuoteJson p.1 +:+ ":" +:+ p.2) with (member p). cbv iota.
  erewrite read_loop_text by (done || (rewrite str_app_cons; cbn [String.length];
    rewrite str_length_app; pose proof (members_tail_length l "") as Hl;
    rewrite str_app_nil_r in Hl; lia)).
  done.
Qed.

(** The fields of a SET line in the order of [std::map]. *)
Definition set_body (k v : string) (c : SetCondition) (t : Z) : StringBody :=
  match c with
  | SC_IfPresent => [("if_exists", BV_Bool true)]
  | SC_IfAbsent => [("if_not_exists", BV_Bool true)]
  | SC_Always => []
  end ++ ("key", BV_String k) ::
  (if 0 <? t then [("ttl_ms", BV_Uint t)] else []) ++ [("value", BV_String v)].

Lemma set_body_reads k v c t :
  is_u64 t -> body_reads [] (("key", QuoteJson k) :: set_members v c t) (set_body k v c t).
Proof.
  intros Ht. unfold set_members, set_body.
  destruct (0 <? t), c; cbn [app];
    repeat (eapply body_cons;
      [intros s Hs; first [apply ReaderFacts.value_string | by apply ReaderFacts.value_uint
                          | reflexivity]
      |reflexivity|]); apply body_nil.
Qed.

Lemma set_fields_ttl k v c t : is_u64 t -> StringOps.set_fields (set_body k v c t) 0 = inl t.
Proof.
  intros Ht. unfold set_body. destruct (0 <? t) eqn:Hz, c; bool_prop; cbn [app];
    try (by assert (t = 0) as -> by lia);
    (transitivity (if t =? 0 then inr "ttl_ms must be greater than zero" else inl t : Z + string);
     [reflexivity|by rewrite (proj2 (Z.eqb_neq t 0)) by lia]).
Qed.

Section rest.
Context {S : Type} `{!Store S}.

Lemma replay_set now (st : S) k v c t :
  k <> "" -> is_u64 t ->
  replay_line now st ("SET", aof_set k v c t) =
  let '(st', b) := Set_ now st k v (write_condition c) t in
  (st', success (if b : bool then jq "{'stored':true}" else jq "{'stored':false}")).
Proof.
  intros Hk Ht. rewrite (replay_known now st "SET" _ _ eq_refl). unfold Validated, StringOps.Set_.
  cbn [rq_body_json]. rewrite aof_set_text.
  rewrite (ParseStringBody_text _ _ _ (set_body_reads k v c t Ht)), set_fields_ttl by done.
  assert (StringOps.RequiredString (set_body k v c t) "key" = inl k) as ->
    by (unfold set_body; by destruct (0 <? t), c).
  assert (StringOps.RequiredString (set_body k v c t) "value" = inl v) as ->
    by (unfold set_body; by destruct (0 <? t), c).
  assert (is_nil k = false) as -> by (by destruct k).
  assert (StringOps.Flag (set_body k v c t) "if_not_exists" = inl (bool_decide (c = SC_IfAbsent))) as ->
    by (unfold set_body; by destruct (0 <? t), c).
  assert (StringOps.Flag (set_body k v c t) "if_exists" = inl (bool_decide (c = SC_IfPresent))) as ->
    by (unfold set_body; by destruct (0 <? t), c).
  destruct c; cbn; by destruct (Set_ now st k v _ t).
Qed.

(** The line of a reservation has a field that GK.RESERVE does not know. *)
Lemma replay_reserve now (st : S) k a t i :
  plain k = true -> is_u64 a -> is_u64 t ->
  replay_line now st ("GK.RESERVE", aof_reserve k a t i) =
  (st, failure "INVALID_ARGUMENTS" "unsupported GK.RESERVE field: reservation_id").
Proof.
  intros Pk Ha Ht. rewrite (replay_known now st "GK.RESERVE" _ _ eq_refl).
  unfold Validated, QuotaOps.Reserve.
  rewrite (with_body_err _ _ _ _ "unsupported GK.RESERVE field: reservation_id"); [done|].
  rewrite aof_reserve_text.
  eapply (fields_text_err _ [("key", raw_quote k); ("amount", to_string a); ("ttl_ms", to_string t)]);
    [reflexivity| |].
  - unfold reserve_field. read_members.
  - intros u. unfold reserve_field. pick_field. reflexivity.
Qed.
End rest.

(** ** The lines are lines *)

Lemma no_newline_digits f n : no_newline (dec_digits f n) = true.
Proof.
  revert n. induction f as [|f IH]; intros n; [done|]. cbn [dec_digits].
  assert (no_newline (String (byte_of_Z (48 + n mod 10)) "") = true) as Hd.
  { cbn [no_newline]. unfold char_is. pose proof (Z.mod_pos_bound n 10).
    rewrite Z_of_byte_of_Z, Z.mod_small by lia.
    by rewrite (proj2 (Z.eqb_neq (48 + n mod 10) 10)) by lia. }
  destruct (n <? 10); [done|]. by rewrite no_newline_app, IH, Hd.
Qed.
Lemma no_newline_to_string z : no_newline (to_string z) = true.
Proof. unfold to_string. destruct (z <? 0); [|apply no_newline_digits].
  cbn [no_newline]. by rewrite no_newline_digits. Qed.
Lemma no_newline_QuoteJson v : no_newline (QuoteJson v) = true.
Proof.
  unfold QuoteJson. rewrite str_app_cons. cbn [no_newline]. rewrite no_newline_app.
  assert (no_newline (quote_body v) = true) as ->; [|done].
  induction v as [|c v IH]; [done|]. cbn [quote_body]. rewrite no_newline_app, IH, andb_true_r.
  revert c. apply byte_forall. by vm_compute.
Qed.
Lemma no_newline_plain s : plain s = true -> no_newline s = true.
Proof.
  induction s as [|c s IH]; [done|]. cbn [plain no_newline]. intros [[_ Hc]%andb_true_iff Hp]%andb_true_iff.
  by rewrite Hc, IH.
Qed.

Ltac one_line :=
  rewrite ?no_newline_app, ?no_newline_QuoteJson, ?no_newline_to_string;
  repeat match goal with
  | H : plain ?s = true |- context [no_newline ?s] => rewrite (no_newline_plain s H)
  end; reflexivity.

(** Requests whose log line carries all of the call: a key the command table
    accepts, a number whose negation does not overflow, and for the lines written
    without quoting, plain text. *)
Definition replayable (r : BinaryRequest) : Prop :=
  match r with
  | RSet k _ _ _ | RExpire k _ | RQuotaInit k _ => k <> ""
  | RIncr k d _ => k <> "" /\ d <> - 2 ^ 63
  | RDel _ => True
  | RRollback k i => k <> "" /\ i <> ""
  | RCommit k i _ => k <> "" /\ i <> "" /\ plain k = true /\ plain i = true
  | RIdemComplete k o _ b =>
      k <> "" /\ o <> "" /\ plain k = true /\ plain o = true /\ plain b = true
  | RIdemFail k o m => k <> "" /\ o <> "" /\ plain k = true /\ plain o = true /\ m = ""
  | _ => False
  end.

Section recovery.
Context {S : Type} `{!Store S}.

Lemma log_inv aof g op json l : log aof g op json = [l] -> l = (op, json).
Proof. unfold log. destruct (g && aof); by intros [= <-]. Qed.

(** The line of a replayable request repeats its store call. *)
Lemma line_replays now (st st' : S) r l resp :
  wf_request r -> replayable r -> serve now true st r = (st', [l], resp) ->
  (replay_line now st l).1 = st' /\ wf_line l.
Proof.
  intros Hw Hr Hs. destruct r; cbn [wf_request replayable serve] in *; try done.
  - unfold serve_Set in Hs. destruct Hw as (_ & _ & Ht).
    destruct (Set_ now st key val _ ttl_ms) as [st1 b] eqn:E1. destruct b; [|done].
    injection Hs as <- <- _. rewrite replay_set by done. rewrite E1. split; [done|].
    repeat split; [by vm_compute..|]. cbn [snd]. unfold aof_set.
    destruct (0 <? ttl_ms), cond; one_line.
  - unfold serve_Del in Hs. destruct (Del st key) as [st1 b] eqn:E1.
    injection Hs as <- Hl _. apply log_inv in Hl as ->. rewrite replay_del, E1. split; [done|].
    repeat split; [by vm_compute..|]. cbn [snd]. unfold aof_key. one_line.
  - unfold serve_Expire in Hs. destruct Hw as (_ & Ht).
    destruct (Expire now st key ttl_ms) as [st1 b] eqn:E1. injection Hs as <- Hl _.
    apply log_inv in Hl as ->. rewrite replay_pexpire, E1 by done. split; [done|].
    repeat split; [by vm_compute..|]. cbn [snd]. unfold aof_pexpire. one_line.
  - unfold serve_Incr in Hs. destruct Hw as (_ & Hd & Ht).
    destruct (IncrBy now st key delta init_ttl_ms) as [st1 res] eqn:E1.
    destruct (negb (ir_ok res)); [done|]. injection Hs as <- <- _.
    destruct Hr. rewrite replay_incrby, E1 by (done || lia). split; [done|].
    repeat split; [by vm_compute..|]. cbn [snd]. unfold aof_incrby. destruct (0 <? init_ttl_ms); one_line.
  - unfold serve_QuotaInit in Hs. destruct Hw as (_ & Ha).
    destruct (Set_ now st key (to_string amount) Always 0) as [st1 b] eqn:E1. injection Hs as <- <- _.
    rewrite (proj1 (replay_quota_init now st key amount Hr Ha)), E1. split; [done|].
    repeat split; [by vm_compute..|]. cbn [snd]. unfold aof_quota_init. one_line.
  - unfold serve_Commit in Hs. destruct Hw as (_ & _ & Ha), Hr as (Hk & Hi & Pk & Pi).
    destruct (CommitQuota now st key res_id actual_amount) as [st1 res] eqn:E1.
    destruct (negb (cr_ok res)); [done|]. injection Hs as <- <- _.
    rewrite (proj1 (replay_commit now st key res_id actual_amount Hk Hi Pk Pi Ha)), E1. split; [done|].
    repeat split; [by vm_compute..|]. cbn [snd]. unfold aof_commit. one_line.
  - unfold serve_Rollback in Hs. destruct Hr as (Hk & Hi).
    destruct (RollbackQuota now st key res_id) as [st1 res] eqn:E1.
    destruct (negb (rb_ok res)); [done|]. injection Hs as <- <- _.
    rewrite (proj1 (replay_rollback now st key res_id Hk Hi)), E1. split; [done|].
    repeat split; [by vm_compute..|]. cbn [snd]. unfold aof_rollback. one_line.
  - unfold serve_IdemComplete in Hs. destruct Hw as (_ & _ & Hc & _), Hr as (Hk & Ho & Pk & Po & Pb).
    destruct (IdemComplete now st key owner_token code body) as [st1 res] eqn:E1.
    destruct (negb (ic_ok res)); [done|]. injection Hs as <- <- _.
    rewrite (proj1 (replay_idem_complete now st key owner_token code body Hk Ho Pk Po Pb Hc)), E1.
    split; [done|]. repeat split; [by vm_compute..|]. cbn [snd]. unfold aof_idem_complete. one_line.
  - unfold serve_IdemFail in Hs. destruct Hr as (Hk & Ho & Pk & Po & ->).
    destruct (IdemFail now st key owner_token "") as [st1 res] eqn:E1.
    destruct (negb (if_ok res)); [done|]. injection Hs as <- <- _.
    rewrite (proj1 (replay_idem_fail now st key owner_token Hk Ho Pk Po)), E1.
    split; [done|]. repeat split; [by vm_compute..|]. cbn [snd]. unfold aof_idem_fail. one_line.
Qed.

(** Lines replayed one after the other at the clock reading [now]. *)
Definition replay_all (now : Z) (st : S) (ls : list aof_line) : S :=
  foldl (fun st l => (replay_line now st l).1) st ls.

(** A run of a server: [step] answers an input at a clock reading with the new
    store and the lines it logs ([None]: an input the run may not contain).  The
    lines are collected with their times. *)
Section run.
Context {X : Type} (step : Z -> S -> X -> option (S * list aof_line)).

Fixpoint run_logged (st : S) (xs : list (Z * X)) : option (S * list (Z * aof_line)) :=
  match xs with
  | [] => Some (st, [])
  | (now, x) :: xs =>
      match step now st x with
      | Some (st, ls) =>
          match run_logged st xs with
          | Some (st, tls) => Some (st, ((now,.) <$> ls) ++ tls)
          | None => None
          end
      | None => None
      end
  end.

End run.

(** The clock of the replay reads, during line [i], the time that line was logged. *)
Definition same_times (tls : list (Z * aof_line)) (i : nat) : clock :=
  fun _ => match tls !! i with Some (now, _) => now | None => 0 end.

Lemma replay_from_0 clks d aof i (st : S) ls n m n' m' :
  (replay clks d aof i st ls n m).1 = (replay clks d aof i st ls n' m').1.
Proof.
  revert i st n m n' m'. induction ls as [|[op json] ls IH]; intros i st n m n' m'; [done|].
  cbn [replay]. destruct (Dispatch _ _ _ _ _) as [[st1 res] x]. destruct (ok res); apply IH.
Qed.

(** The first lines of a file, all logged at [now]. *)
Lemma replay_same_time pre now ls tls (st : S) :
  (replay (same_times (pre ++ ((now,.) <$> ls) ++ tls)) registrations false (length pre) st
     (ls ++ tls.*2) 0 0).1 =
  (replay (same_times ((pre ++ ((now,.) <$> ls)) ++ tls)) registrations false
     (length (pre ++ ((now,.) <$> ls))) (replay_all now st ls) tls.*2 0 0).1.
Proof.
  revert pre st. induction ls as [|[op json] ls IH]; intros pre st.
  { by rewrite fmap_nil, app_nil_r. }
  rewrite fmap_cons, <- !app_comm_cons. cbn [replay replay_all foldl].
  assert (forall l : aof_line,
    same_times (pre ++ (now, l) :: ((now,.) <$> ls) ++ tls) (length pre) = fun _ => now)
    as Hclk by (intros l; unfold same_times; by rewrite list_lookup_middle).
  rewrite Hclk. unfold replay_line at 2. cbn [fst snd].
  destruct (Dispatch (fun _ => now) registrations false st (mkRequest "aof" op json)) as [[st1 res] x].
  cbn [fst]. fold (replay_all now st1 ls).
  specialize (IH (pre ++ [(now, (op, json))]) st1).
  rewrite <- !app_assoc in IH. rewrite !length_app in IH. cbn [app length] in IH.
  rewrite <- !app_assoc, length_app. cbn [app length].
  rewrite (Nat.add_1_r (length pre)) in IH. rewrite Nat.add_succ_r.
  destruct (ok res); (etransitivity; [apply replay_from_0|]; etransitivity; [exact IH|]; do 2 f_equal; lia).
Qed.

Lemma run_replays {X} (step : Z -> S -> X -> option (S * list aof_line)) (P : X -> Prop) xs pre
    (st st' : S) tls :
  (forall now st x st' ls, P x -> step now st x = Some (st', ls) ->
     replay_all now st ls = st' /\ Forall wf_line ls) ->
  Forall (fun p => P p.2) xs -> run_logged step st xs = Some (st', tls) ->
  Forall wf_line tls.*2 /\
  (replay (same_times (pre ++ tls)) registrations false (length pre) st tls.*2 0 0).1 = st'.
Proof.
  intros Hstep Hxs. revert pre st tls.
  induction Hxs as [|[now x] xs Hx Hxs IH]; intros pre st tls; cbn [run_logged].
  { intros [= <- <-]. split; [constructor|done]. }
  destruct (step now st x) as [[st1 ls]|] eqn:Hs; [|done].
  destruct (run_logged step st1 xs) as [[st2 tls2]|] eqn:Hrun; [|done]. intros [= <- <-].
  destruct (Hstep now st x st1 ls Hx Hs) as [Hl Hlines].
  rewrite fmap_app, <- list_fmap_compose.
  assert ((snd ∘ (now,.)) <$> ls = ls) as -> by (apply list_fmap_id).
  destruct (IH (pre ++ ((now,.) <$> ls)) st1 tls2 Hrun) as [Hls Hrep].
  split; [by apply list.Forall_app|]. by rewrite replay_same_time, Hl.
Qed.

(** Loading the file of a run ends in the store the run ended in. *)
Lemma run_recovers {X} (step : Z -> S -> X -> option (S * list aof_line)) (P : X -> Prop) xs
    (st st' : S) tls scripts w :
  (forall now st x st' ls, P x -> step now st x = Some (st', ls) ->
     replay_all now st ls = st' /\ Forall wf_line ls) ->
  Forall (fun p => P p.2) xs -> run_logged step st xs = Some (st', tls) ->
  append_all (mkAof true "") tls.*2 scripts 0 = Some w ->
  (Load (same_times tls) registrations false st (Readable (file_bytes w))).1 = st'.
Proof.
  intros Hstep Hxs Hrun Hw. destruct (run_replays step P xs [] st st' tls Hstep Hxs Hrun) as [Hls Hrep].
  apply append_all_file in Hw. cbn [file_bytes] in Hw. rewrite str_app_nil_l in Hw.
  unfold Load. by rewrite Hw, load_lines_file.
Qed.

(** A logged request of the binary server. *)
Definition binary_step (now : Z) (st : S) (r : BinaryRequest) : option (S * list aof_line) :=
  match Process now true st (encode_request r) with
  | Some (st, [l], _) => Some (st, [l])
  | _ => None
  end.

Lemma binary_step_replays now (st : S) r st' ls :
  wf_request r /\ replayable r -> binary_step now st r = Some (st', ls) ->
  replay_all now st ls = st' /\ Forall wf_line ls.
Proof.
  intros [Hw Hr]. unfold binary_step, Process.
  destruct (parse_encode r "" Hw) as [rest Hp]. rewrite str_app_nil_r in Hp. rewrite Hp.
  destruct (serve now true st r) as [[st1 [|l [|]]] resp] eqn:Hs; try done. intros [= <- <-].
  destruct (line_replays now st st1 r l resp Hw Hr Hs) as [Hl Hline].
  split; [exact Hl|by constructor].
Qed.

End recovery.

(** Recovery after a restart: take any run of the binary server in which every
    request is a logged write of the replayable kinds (SET with any condition and
    TTL, DEL, EXPIRE, INCRBY but by -2^63, QUOTA_INIT, COMMIT, ROLLBACK, IDEM_COMPLETE,
    IDEM_FAIL), on arbitrary keys and values; let its lines be appended to a new
    file, in any pattern of short writes.  Loading that file into the store the
    run started from, with the clock reading what it read then, ends in exactly
    the store the run ended in. *)
Theorem recovery_exact {S} {Store0 : Store S} (st st' : S) rs tls scripts w :
  Forall (fun p => wf_request p.2 /\ replayable p.2) rs ->
  run_logged binary_step st rs = Some (st', tls) ->
  append_all (mkAof true "") tls.*2 scripts 0 = Some w ->
  (Load (same_times tls) registrations false st (Readable (file_bytes w))).1 = st'.
Proof.
  apply (run_recovers binary_step (fun r => wf_request r /\ replayable r)). apply binary_step_replays.
Qed.

(** Reservations do not survive a restart: the line that the server logs for a
    granted reservation carries the field reservation_id, which the GK.RESERVE
    command rejects, so loading it leaves every store as it was. *)
Theorem reservation_line_rejected {S} {Store0 : Store S} now now' (st st' st0 : S) k a t l resp :
  wf_request (RReserve k a t) -> plain k = true ->
  serve now true st (RReserve k a t) = (st', [l], resp) ->
  replay_line now' st0 l =
  (st0, failure "INVALID_ARGUMENTS" "unsupported GK.RESERVE field: reservation_id").
Proof.
  intros (_ & Ha & Ht) Pk Hs. cbn [serve] in Hs. unfold serve_Reserve in Hs.
  destruct (ReserveQuota now st k a t) as [st1 res]. destruct (negb (rv_ok res)); [done|].
  injection Hs as _ Hl _. apply log_inv in Hl as ->. by apply replay_reserve.
Qed.

(** ** Concrete runs on the in-memory store *)

Definition sample_ms : Store MemoryStore := memory_store length_hash.

Lemma process_encoded_witness :
  Process (Store0 := sample_ms) 2000 true sample_store (encode_request (RGet "counter") +:+ "") =
  Some (serve (Store0 := sample_ms) 2000 true sample_store (RGet "counter")) /\
  (serve (Store0 := sample_ms) 2000 true sample_store (RGet "counter")).2 =
  status_byte St_Ok +:+ field32 "41".
Proof.
  split; [|vm_compute; reflexivity].
  apply (process_encoded (Store0 := sample_ms)). by vm_compute.
Defined.

Definition sample_lines : list aof_line :=
  [("SET", aof_set "k" "v" SC_Always 100); ("DEL", aof_key "k")].
Definition sample_script : nat -> list write_result := fun _ => [Wrote 4; Interrupted; Wrote 1000].

Lemma aof_roundtrip_witness :
  exists w, append_all (mkAof true "") sample_lines sample_script 0 = Some w /\
  Load (fun _ _ => 2000) (registrations (Store0 := sample_ms)) false sample_store
    (Readable (file_bytes w)) =
  replay (fun _ _ => 2000) (registrations (Store0 := sample_ms)) false 0 sample_store sample_lines 0 0.
Proof.
  eexists. split; [vm_compute; reflexivity|].
  apply (aof_roundtrip (fun _ _ => 2000) (registrations (Store0 := sample_ms)) false sample_store
           sample_lines sample_script); [|vm_compute; reflexivity].
  repeat constructor.
Defined.

Definition sample_run : list (Z * BinaryRequest) :=
  [(2000, RSet "k" "v" SC_IfAbsent 100); (2001, RIncr "counter" 1 0); (2002, RDel "k")].

Lemma recovery_exact_witness :
  match run_logged (binary_step (Store0 := sample_ms)) sample_store sample_run with
  | Some (st', tls) =>
      match append_all (mkAof true "") tls.*2 sample_script 0 with
      | Some w => (Load (same_times tls) (registrations (Store0 := sample_ms)) false sample_store
                     (Readable (file_bytes w))).1 = st'
      | None => False
      end
  | None => False
  end.
Proof.
  destruct (run_logged (binary_step (Store0 := sample_ms)) sample_store sample_run)
    as [[st' tls]|] eqn:Hrun; [|vm_compute in Hrun; discriminate].
  destruct (append_all (mkAof true "") tls.*2 sample_script 0) as [w|] eqn:Hw.
  - apply (recovery_exact (Store0 := sample_ms) sample_store st' sample_run tls sample_script w);
      [|exact Hrun|exact Hw].
    repeat constructor; try (by vm_compute); by intros [=].
  - exfalso. vm_compute in Hrun. injection Hrun as _ <-. vm_compute in Hw. discriminate.
Defined.

Lemma reservation_line_rejected_witness :
  match serve (Store0 := sample_ms) 2000 true sample_store (RReserve "counter" 1 100) with
  | (_, [l], _) =>
      replay_line (Store0 := sample_ms) 3000 sample_store l =
      (sample_store, failure "INVALID_ARGUMENTS" "unsupported GK.RESERVE field: reservation_id")
  | _ => False
  end.
Proof.
  destruct (serve (Store0 := sample_ms) 2000 true sample_store (RReserve "counter" 1 100))
    as [[st' [|l [|]]] resp] eqn:Hs; try (vm_compute in Hs; discriminate).
  assert (wf_request (RReserve "counter" 1 100)) as Hw by (repeat split; vm_compute; congruence).
  exact (reservation_line_rejected (Store0 := sample_ms) 2000 3000 sample_store st' sample_store
           "counter" 1 100 l resp Hw eq_refl Hs).
Defined.
