(* ===== verification/Parking.v ===== *)
(** * The parking lot (domain/idempotency/parking_lot.h, parking_lot.cpp)

    Requests that wait for the outcome of an idempotent operation.  A callback is
    known by a number, [None] is an empty [std::function]; the calls made to the
    callbacks are returned.  Every method runs under the mutex; the callbacks run
    after it is released. *)
From S2P Require Import Prelude.

Record Waiter := mkWaiter {
  waiter_id : Z;
  callback : option nat;
  timeout_at_ms : Z;
}.
#[export] Instance Waiter_eq_dec : EqDecision Waiter.
Proof. solve_decision. Defined.

Record wake_call := mkWake { wk_callback : nat; wk_code : Z; wk_body : string; wk_timed_out : bool }.

(** [waiters_] *)
Abbreviation ParkingLot := (gmap string (list Waiter)).

Definition Park (lot : ParkingLot) (key : string) (id : Z) (cb : option nat) (timeout_at : Z) :
    ParkingLot * bool :=
  if is_nil key || (id =? 0) || bool_decide (cb = None) then (lot, false)
  else
    let list := default [] (lot !! key) in
    if existsb (fun w => waiter_id w =? id) list then (<[key := list]> lot, false)
    else (<[key := list ++ [mkWaiter id cb timeout_at]]> lot, true).

(** The loop over the waiters: [if (waiter.callback) waiter.callback(...)]. *)
Definition wake_all (code : Z) (body : string) (timed_out : bool) (ws : list Waiter) : list wake_call :=
  omap (fun w => (fun c => mkWake c code body timed_out) <$> callback w) ws.

(** Returns the number of waiters taken out; the calls made to them. *)
Definition BroadcastAndUnpark (lot : ParkingLot) (key : string) (code : Z) (body : string) :
    ParkingLot * Z * list wake_call :=
  match lot !! key with
  | None => (lot, 0, [])
  | Some to_wake => (delete key lot, Z.of_nat (length to_wake), wake_all code body false to_wake)
  end.

(** The list without the first waiter with the identifier, if there is one. *)
Fixpoint take_waiter (id : Z) (ws : list Waiter) : option (list Waiter) :=
  match ws with
  | [] => None
  | w :: ws =>
      if waiter_id w =? id then Some ws
      else match take_waiter id ws with
           | Some rest => Some (w :: rest)
           | None => None
           end
  end.

Definition Cancel (lot : ParkingLot) (key : string) (id : Z) : ParkingLot * bool :=
  match lot !! key with
  | None => (lot, false)
  | Some list =>
      match take_waiter id list with
      | None => (lot, false)
      | Some [] => (delete key lot, true)
      | Some rest => (<[key := rest]> lot, true)
      end
  end.

Definition timed_out (now_ms : Z) (w : Waiter) : bool :=
  (0 <? timeout_at_ms w) && (timeout_at_ms w <=? now_ms).

Definition timeout_body : string :=
  jq "{'error':{'code':'ERR_GATEWAY_TIMEOUT','message':'Upstream execution timed out while parked'}}".

Definition keep_waiting (now_ms : Z) (ws : list Waiter) : option (list Waiter) :=
  match List.filter (fun w => negb (timed_out now_ms w)) ws with
  | [] => None
  | rest => Some rest
  end.

(** Waiters with their keys, in the iteration order of the map (unspecified). *)
Definition all_waiters (lot : ParkingLot) : list (string * Waiter) :=
  map_to_list lot ≫= fun '(k, l) => (fun w => (k, w)) <$> l.

Definition PurgeTimeout (lot : ParkingLot) (now_ms : Z) :
    ParkingLot * Z * list wake_call :=
  let gone := List.filter (fun kw => timed_out now_ms kw.2) (all_waiters lot) in
  (omap (keep_waiting now_ms) lot, Z.of_nat (length gone), wake_all 504 timeout_body true gone.*2).

Definition WaiterCount (lot : ParkingLot) (key : string) : Z :=
  match lot !! key with Some list => Z.of_nat (length list) | None => 0 end.

Definition TotalWaiters (lot : ParkingLot) : Z :=
  map_fold (fun _ list total => total + Z.of_nat (length list)) 0 lot.

Definition Clear (lot : ParkingLot) : ParkingLot := ∅.

(** One call of a method: the new lot, what it returns (a bool as 0 or 1), and the calls
    of callbacks that it makes. *)
Inductive park_op :=
| OPark (key : string) (id : Z) (cb : option nat) (timeout_at : Z)
| OBroadcast (key : string) (code : Z) (body : string)
| OCancel (key : string) (id : Z)
| OPurge (now_ms : Z)
| OClear.

Definition park_output : Type := Z * list wake_call.

Definition run_park (lot : ParkingLot) (o : park_op) : ParkingLot * park_output :=
  match o with
  | OPark k id cb t => let '(lot, ok) := Park lot k id cb t in (lot, (Z.b2z ok, []))
  | OBroadcast k code body => let '(lot, n, calls) := BroadcastAndUnpark lot k code body in (lot, (n, calls))
  | OCancel k id => let '(lot, ok) := Cancel lot k id in (lot, (Z.b2z ok, []))
  | OPurge now => let '(lot, n, calls) := PurgeTimeout lot now in (lot, (n, calls))
  | OClear => (Clear lot, (0, []))
  end.

Fixpoint run_parks (lot : ParkingLot) (ops : list park_op) : ParkingLot * list park_output :=
  match ops with
  | [] => (lot, [])
  | o :: ops =>
      let '(lot, out) := run_park lot o in
      let '(lot, outs) := run_parks lot ops in (lot, out :: outs)
  end.

(** ** The specification: one queue of keys and waiters, in the order of their arrival *)

Abbreviation Queue := (list (string * Waiter)).

Definition of_key (k : string) (kw : string * Waiter) : bool := bool_decide (kw.1 = k).
Definition is_waiter (k : string) (id : Z) (kw : string * Waiter) : bool :=
  of_key k kw && (waiter_id kw.2 =? id).
(** The time at which the waiter is to be answered has come. *)
Definition is_late (now_ms : Z) (kw : string * Waiter) : bool :=
  bool_decide (0 < timeout_at_ms kw.2 <= now_ms).

(** One call for each of them, in order, with this answer. *)
Definition calls_to (code : Z) (body : string) (late : bool) (q : Queue) : list wake_call :=
  q ≫= fun kw => match callback kw.2 with Some c => [mkWake c code body late] | None => [] end.

Definition leave (p : string * Waiter -> bool) (q : Queue) : Queue := List.filter (fun kw => negb (p kw)) q.

Definition queue_step (q : Queue) (o : park_op) : Queue * park_output :=
  match o with
  | OPark k id cb t =>
      if bool_decide (k <> "" /\ id <> 0 /\ cb <> None) && negb (existsb (is_waiter k id) q)
      then (q ++ [(k, mkWaiter id cb t)], (1, [])) else (q, (0, []))
  | OBroadcast k code body =>
      let woken := List.filter (of_key k) q in
      (leave (of_key k) q, (Z.of_nat (length woken), calls_to code body false woken))
  | OCancel k id => (leave (is_waiter k id) q, (Z.b2z (existsb (is_waiter k id) q), []))
  | OPurge now =>
      let woken := List.filter (is_late now) q in
      (leave (is_late now) q, (Z.of_nat (length woken), calls_to 504 timeout_body true woken))
  | OClear => ([], (0, []))
  end.

Fixpoint queue_steps (q : Queue) (ops : list park_op) : Queue * list park_output :=
  match ops with
  | [] => (q, [])
  | o :: ops =>
      let '(q, out) := queue_step q o in
      let '(q, outs) := queue_steps q ops in (q, out :: outs)
  end.

(** The callbacks that calls of [Park] accept, and those that [Cancel] and [Clear] forget. *)
Definition callbacks (q : Queue) : list nat := omap (fun kw => callback kw.2) q.
Fixpoint accepted (q : Queue) (ops : list park_op) : list nat :=
  match ops with
  | [] => []
  | o :: ops =>
      match o with
      | OPark k id cb t => if (queue_step q o).2.1 =? 1 then callbacks [(k, mkWaiter id cb t)] else []
      | _ => []
      end ++ accepted (queue_step q o).1 ops
  end.
Fixpoint forgotten (q : Queue) (ops : list park_op) : list nat :=
  match ops with
  | [] => []
  | o :: ops =>
      match o with
      | OCancel k id => callbacks (List.filter (is_waiter k id) q)
      | OClear => callbacks q
      | _ => []
      end ++ forgotten (queue_step q o).1 ops
  end.

(** ** Lists *)

Lemma filter_split {A} (p : A -> bool) (l : list A) :
  l ≡ₚ List.filter p l ++ List.filter (fun x => negb (p x)) l.
Proof.
  induction l as [|x l IH]; [done|]. simpl. destruct (p x); simpl.
  - by rewrite <- IH.
  - rewrite IH at 1. apply Permutation_middle.
Qed.
Lemma filter_perm {A} (p : A -> bool) (l l' : list A) :
  l ≡ₚ l' -> List.filter p l ≡ₚ List.filter p l'.
Proof.
  induction 1 as [| |x y l|]; simpl; try done.
  - destruct (p x); [by constructor|done].
  - destruct (p x), (p y); try done. apply Permutation_swap.
  - by etrans.
Qed.

(** The waiters of a key, in their order. *)
Definition waiters_of (k : string) (q : Queue) : list Waiter := (List.filter (of_key k) q).*2.

Lemma of_key_true k kw : of_key k kw = true -> kw.1 = k.
Proof. unfold of_key. by rewrite bool_decide_eq_true. Qed.
Lemma tag_waiters k q : (fun w => (k, w)) <$> waiters_of k q = List.filter (of_key k) q.
Proof.
  unfold waiters_of. induction q as [|[k' w] q IH]; [done|]. cbn [List.filter].
  destruct (of_key k (k', w)) eqn:E; [|done]. apply of_key_true in E as <-. cbn in *. by rewrite IH.
Qed.
Lemma waiters_of_app k q q' : waiters_of k (q ++ q') = waiters_of k q ++ waiters_of k q'.
Proof. unfold waiters_of. by rewrite List.filter_app, fmap_app. Qed.
Lemma waiters_of_filter k (p : string * Waiter -> bool) q :
  waiters_of k (List.filter p q) = List.filter (fun w => p (k, w)) (waiters_of k q).
Proof.
  unfold waiters_of. induction q as [|[k' w] q IH]; [done|]. cbn [List.filter].
  destruct (of_key k (k', w)) eqn:E; destruct (p (k', w)) eqn:Hp; cbn [List.filter]; rewrite ?E; try exact IH;
    apply of_key_true in E; cbn in E; subst k'; cbn; rewrite Hp; by rewrite ?IH.
Qed.
Lemma filter_all {A} (p : A -> bool) (b : bool) l : (forall x, p x = b) -> List.filter p l = if b then l else [].
Proof. intros Hp. induction l as [|x l IH]; [by destruct b|]. simpl. rewrite Hp, IH. by destruct b. Qed.
Lemma waiters_of_other k k' q : waiters_of k' (leave (of_key k) q) = if decide (k' = k) then [] else waiters_of k' q.
Proof.
  unfold leave. rewrite waiters_of_filter.
  rewrite (filter_all _ (negb (bool_decide (k' = k)))) by done. by case_decide; case_bool_decide.
Qed.
Lemma existsb_waiters k id q :
  existsb (is_waiter k id) q = existsb (fun w => waiter_id w =? id) (waiters_of k q).
Proof.
  unfold waiters_of. induction q as [|[k' w] q IH]; [done|]. cbn [existsb List.filter]. unfold is_waiter at 1.
  destruct (of_key k (k', w)); cbn; by rewrite IH.
Qed.
Lemma filter_none {A} (p : A -> bool) l : existsb p l = false -> List.filter (fun x => negb (p x)) l = l.
Proof. induction l as [|x l IH]; [done|]. simpl. destruct (p x); [done|]. simpl. intros H. by rewrite IH. Qed.

(** ** What the lot holds *)

Lemma all_waiters_empty : all_waiters ∅ = [].
Proof. unfold all_waiters. by rewrite map_to_list_empty. Qed.
Lemma all_waiters_insert lot k l :
  lot !! k = None -> all_waiters (<[k := l]> lot) ≡ₚ ((fun w => (k, w)) <$> l) ++ all_waiters lot.
Proof. intros Hk. unfold all_waiters. by rewrite map_to_list_insert. Qed.

(** The lot holds the waiters of the queue, those of a key in their order. *)
Definition holds (lot : ParkingLot) (q : Queue) : Prop := forall k, default [] (lot !! k) = waiters_of k q.

Lemma holds_all lot q : holds lot q -> all_waiters lot ≡ₚ q.
Proof.
  revert q. induction lot as [|k l lot Hk IH] using map_ind; intros q Hh.
  - rewrite all_waiters_empty. destruct q as [|[k w] q]; [done|]. specialize (Hh k).
    unfold waiters_of in Hh. cbn in Hh. unfold of_key in Hh. by rewrite bool_decide_true in Hh.
  - rewrite all_waiters_insert by done. rewrite (IH (leave (of_key k) q)).
    + rewrite (filter_split (of_key k) q) at 2. apply Permutation_app; [|done].
      specialize (Hh k). rewrite lookup_insert_eq in Hh. cbn in Hh. subst l. by rewrite tag_waiters.
    + intros k'. rewrite waiters_of_other. specialize (Hh k'). case_decide as E; [by subst; rewrite Hk|].
      by rewrite lookup_insert_ne in Hh.
Qed.

(** Waiting requests of a key have distinct identifiers, and can be called back. *)
Definition orderly (q : Queue) : Prop :=
  (forall k, NoDup (waiter_id <$> waiters_of k q)) /\ Forall (fun kw => callback kw.2 <> None) q.

Lemma existsb_ids id l :
  existsb (fun w => waiter_id w =? id) l = false -> id ∉ (waiter_id <$> l).
Proof.
  induction l as [|w l IH]; cbn; [set_solver|]. intros [Hw Hl]%orb_false_iff. bool_prop.
  rewrite elem_of_cons. naive_solver.
Qed.
Lemma filter_sublist {A} (p : A -> bool) (l : list A) : List.filter p l `sublist_of` l.
Proof.
  induction l as [|x l IH]; [done|]. simpl.
  destruct (p x); [by apply sublist_skip|by apply sublist_cons].
Qed.
Lemma orderly_filter p q : orderly q -> orderly (List.filter p q).
Proof.
  intros [Hn Hf]. split.
  - intros k. rewrite waiters_of_filter. eapply sublist_NoDup; [apply (Hn k)|]. apply fmap_sublist, filter_sublist.
  - rewrite list.Forall_forall in *. intros kw Hkw. apply Hf. eapply elem_of_sublist; [exact Hkw|apply filter_sublist].
Qed.

Lemma queue_step_orderly q o : orderly q -> orderly (queue_step q o).1.
Proof.
  intros Hq. destruct o; cbn [queue_step fst]; try (by apply orderly_filter); [|by split; [intros; constructor|constructor]].
  case_bool_decide as Hg; [|done]. cbn [andb]. destruct (existsb _ q) eqn:He; [done|]. cbn [negb fst].
  destruct Hq as [Hn Hf], Hg as (_ & _ & Hcb). split; [|apply list.Forall_app; split; [done|by constructor]].
  intros k. rewrite waiters_of_app, fmap_app. unfold waiters_of at 2. cbn [List.filter]. destruct (of_key k _) eqn:E.
  - apply of_key_true in E. cbn in E. subst k. cbn. apply list.NoDup_app. rewrite existsb_waiters in He.
    apply existsb_ids in He. split; [done|]. split; [intros x Hx ->%list_elem_of_singleton; done|apply NoDup_singleton].
  - by rewrite app_nil_r.
Qed.

(** ** The methods on the queue *)

Lemma wake_calls code body t q : wake_all code body t q.*2 = calls_to code body t q.
Proof.
  unfold wake_all, calls_to. induction q as [|[k w] q IH]; [done|]. cbn. rewrite IH. by destruct (callback w).
Qed.

Lemma timed_out_late now k w : timed_out now w = is_late now (k, w).
Proof.
  unfold timed_out, is_late. cbn. destruct (Z.ltb_spec 0 (timeout_at_ms w)), (Z.leb_spec (timeout_at_ms w) now);
    cbn; symmetry; first [apply bool_decide_true; lia|apply bool_decide_false; lia].
Qed.

Lemma filter_ext_eq {A} (p p' : A -> bool) l : (forall x, p x = p' x) -> List.filter p l = List.filter p' l.
Proof. intros Hp. induction l as [|x l IH]; [done|]. simpl. by rewrite Hp, IH. Qed.

(** Without the first waiter of the identifier the list has none. *)
Lemma take_waiter_filter id l :
  NoDup (waiter_id <$> l) ->
  take_waiter id l = if existsb (fun w => waiter_id w =? id) l
                     then Some (List.filter (fun w => negb (waiter_id w =? id)) l) else None.
Proof.
  induction l as [|w l IH]; [done|]. cbn [fmap list_fmap take_waiter existsb List.filter]. intros [Hw Hn]%list.NoDup_cons.
  rewrite IH by done. destruct (Z.eqb_spec (waiter_id w) id) as [<-|]; cbn [negb orb].
  - rewrite filter_none; [done|]. destruct (existsb _ l) eqn:He; [|done]. exfalso. apply Hw.
    apply existsb_exists in He as (v & Hv & Hid). apply Z.eqb_eq in Hid. rewrite <- Hid.
    apply list_elem_of_fmap_2. by apply list_elem_of_In.
  - by destruct (existsb _ l).
Qed.

Lemma holds_insert lot q k l :
  (forall k', k' <> k -> default [] (lot !! k') = waiters_of k' q) -> l = waiters_of k q -> holds (<[k := l]> lot) q.
Proof. intros H -> k'. rewrite lookup_insert. case_decide; [by subst|by apply H]. Qed.
Lemma holds_delete lot q k :
  (forall k', k' <> k -> default [] (lot !! k') = waiters_of k' q) -> [] = waiters_of k q -> holds (delete k lot) q.
Proof. intros H Hk k'. rewrite lookup_delete. case_decide; [by subst|by apply H]. Qed.

Lemma park_refines lot q k id cb t :
  holds lot q -> let r := Park lot k id cb t in
  holds r.1 (queue_step q (OPark k id cb t)).1 /\ (Z.b2z r.2, []) = (queue_step q (OPark k id cb t)).2.
Proof.
  intros Hh. cbv zeta. unfold Park. cbn [queue_step].
  assert (is_nil k || (id =? 0) || bool_decide (cb = None) = negb (bool_decide (k <> "" /\ id <> 0 /\ cb <> None))) as ->.
  { apply Bool.eq_iff_eq_true. rewrite negb_true_iff, bool_decide_eq_false, !orb_true_iff, Z.eqb_eq, bool_decide_eq_true.
    destruct k, cb; cbn; destruct (decide (id = 0)); naive_solver. }
  case_bool_decide; cbn [negb andb]; [|done]. rewrite existsb_waiters, <- Hh.
  destruct (existsb _ _) eqn:He; cbn [negb fst snd].
  - split; [|done]. apply holds_insert; [intros; apply Hh|apply Hh].
  - split; [|done]. apply holds_insert.
    + intros k' Hk'. rewrite waiters_of_app, Hh. unfold waiters_of at 3. cbn. unfold of_key. cbn.
      rewrite bool_decide_false by done. by rewrite app_nil_r.
    + rewrite waiters_of_app, Hh. unfold waiters_of at 3. cbn. unfold of_key. cbn. by rewrite bool_decide_true.
Qed.

Lemma broadcast_refines lot q k code body :
  holds lot q -> let r := BroadcastAndUnpark lot k code body in
  holds r.1.1 (queue_step q (OBroadcast k code body)).1 /\ (r.1.2, r.2) = (queue_step q (OBroadcast k code body)).2.
Proof.
  intros Hh. cbv zeta. pose proof (Hh k) as Hk. cbn [queue_step fst snd].
  rewrite <- wake_calls. fold (waiters_of k q). rewrite <- (length_fmap snd (List.filter (of_key k) q)).
  fold (waiters_of k q). unfold BroadcastAndUnpark.
  destruct (lot !! k) as [l|] eqn:Hl; cbn in Hk; rewrite <- Hk; cbn [fst snd].
  - split; [|done]. apply holds_delete; [intros k' Hne|]; rewrite waiters_of_other; [|by rewrite decide_True].
    rewrite decide_False by done. apply Hh.
  - split; [|done]. intros k'. rewrite waiters_of_other. case_decide; [by subst; rewrite Hl|apply Hh].
Qed.

Lemma waiters_without k id k' q :
  waiters_of k' (leave (is_waiter k id) q) =
  if decide (k' = k) then List.filter (fun w => negb (waiter_id w =? id)) (waiters_of k q) else waiters_of k' q.
Proof.
  unfold leave. rewrite waiters_of_filter. unfold is_waiter, of_key. cbn. case_decide as E.
  - subst. apply filter_ext_eq. intros w. by rewrite bool_decide_true.
  - rewrite (filter_all _ true); [done|]. intros w. by rewrite bool_decide_false.
Qed.

Lemma cancel_refines lot q k id :
  holds lot q -> orderly q -> let r := Cancel lot k id in
  holds r.1 (queue_step q (OCancel k id)).1 /\ (Z.b2z r.2, []) = (queue_step q (OCancel k id)).2.
Proof.
  intros Hh [Hn _]. cbv zeta. cbn [queue_step fst snd]. rewrite existsb_waiters. pose proof (Hh k) as Hk.
  assert (forall k', k' <> k -> default [] (lot !! k') = waiters_of k' (leave (is_waiter k id) q)) as Hother.
  { intros k' Hne. rewrite waiters_without, decide_False by done. apply Hh. }
  pose proof (take_waiter_filter id _ (Hn k)) as Ht. pose proof (waiters_without k id k q) as Hw.
  rewrite decide_True in Hw by done. unfold Cancel.
  destruct (lot !! k) as [l|] eqn:Hl; cbn in Hk; rewrite <- Hk in *.
  - rewrite Ht. destruct (existsb _ l) eqn:He; cbn [fst snd].
    + destruct (List.filter _ l) as [|w rest]; cbn [fst snd]; (split; [|done]);
        [by apply holds_delete|by apply holds_insert].
    + split; [|done]. intros k'. destruct (decide (k' = k)) as [->|]; [|by apply Hother].
      rewrite Hw, filter_none by done. cbn. by rewrite Hl.
  - split; [|done]. intros k'. destruct (decide (k' = k)) as [->|]; [|by apply Hother]. rewrite Hw. cbn. by rewrite Hl.
Qed.

Lemma purge_refines lot q now :
  holds lot q -> let r := PurgeTimeout lot now in
  holds r.1.1 (queue_step q (OPurge now)).1 /\ r.1.2 = (queue_step q (OPurge now)).2.1 /\
  r.2 ≡ₚ (queue_step q (OPurge now)).2.2.
Proof.
  intros Hh. cbv zeta. cbn [queue_step PurgeTimeout fst snd].
  assert (List.filter (fun kw => timed_out now kw.2) (all_waiters lot) ≡ₚ List.filter (is_late now) q) as Hg.
  { rewrite (filter_ext_eq _ (is_late now)) by (intros [k w]; apply timed_out_late). by apply filter_perm, holds_all. }
  split_and!.
  - intros k. unfold leave. rewrite waiters_of_filter, <- Hh, lookup_omap.
    rewrite (filter_ext_eq _ (fun w => negb (timed_out now w))) by (intros w; by rewrite <- timed_out_late).
    destruct (lot !! k) as [l|]; [|done]. cbn. unfold keep_waiting. by destruct (List.filter _ l).
  - by rewrite Hg.
  - rewrite wake_calls. unfold calls_to. by rewrite Hg.
Qed.

(** ** Conservation in the queue *)

Lemma callbacks_app q q' : callbacks (q ++ q') = callbacks q ++ callbacks q'.
Proof. apply omap_app. Qed.
Lemma callbacks_split p q : callbacks q ≡ₚ callbacks (List.filter p q) ++ callbacks (leave p q).
Proof. unfold leave. rewrite <- callbacks_app. unfold callbacks. by rewrite <- (filter_split p q). Qed.
Lemma calls_callbacks code body t q : wk_callback <$> calls_to code body t q = callbacks q.
Proof.
  unfold calls_to, callbacks. induction q as [|[k w] q IH]; [done|]. cbn. rewrite fmap_app, IH. by destruct (callback w).
Qed.

Lemma queue_conserves q ops :
  accepted q ops ++ callbacks q ≡ₚ
  (wk_callback <$> ((queue_steps q ops).2 ≫= snd)) ++ forgotten q ops ++ callbacks (queue_steps q ops).1.
Proof.
  revert q. induction ops as [|o ops IH]; intros q; [done|]. cbn [accepted forgotten queue_steps].
  specialize (IH (queue_step q o).1).
  destruct (queue_step q o) as [q1 [n calls]] eqn:Hs. cbn [fst snd] in *.
  destruct (queue_steps q1 ops) as [q2 outs]. cbn [fst snd mbind list_bind] in *. rewrite fmap_app.
  assert ((match o with
           | OPark k id cb t => if n =? 1 then callbacks [(k, mkWaiter id cb t)] else []
           | _ => []
           end) ++ callbacks q ≡ₚ
          (wk_callback <$> calls) ++
          match o with
          | OCancel k id => callbacks (List.filter (is_waiter k id) q)
          | OClear => callbacks q
          | _ => []
          end ++ callbacks q1) as H1.
  { destruct o; cbn [queue_step] in Hs.
    - destruct (_ && _); injection Hs as <- <- <-; cbn [Z.eqb app fmap list_fmap]; [|done].
      rewrite callbacks_app. apply Permutation_app_comm.
    - injection Hs as <- <- <-. rewrite calls_callbacks. apply callbacks_split.
    - injection Hs as <- <- <-. apply callbacks_split.
    - injection Hs as <- <- <-. rewrite calls_callbacks. apply callbacks_split.
    - injection Hs as <- <- <-. cbn. by rewrite app_nil_r. }
  rewrite (Permutation_app_comm _ (accepted q1 ops)), <- app_assoc, H1.
  transitivity ((wk_callback <$> calls) ++ match o with
    | OCancel k id => callbacks (List.filter (is_waiter k id) q) | OClear => callbacks q | _ => [] end ++
    (accepted q1 ops ++ callbacks q1)); [solve_Permutation|]. rewrite IH. solve_Permutation.
Qed.

Lemma TotalWaiters_length lot : TotalWaiters lot = Z.of_nat (length (all_waiters lot)).
Proof.
  unfold TotalWaiters. induction lot as [|k l lot Hk IH] using map_ind.
  { by rewrite map_fold_empty, all_waiters_empty. }
  rewrite map_fold_insert_L by (done || intros; lia).
  rewrite IH, (Permutation_length (all_waiters_insert lot k l Hk)). rewrite length_app, length_fmap. lia.
Qed.

(** ** Whole histories *)

(** The same result and the same calls; a purge visits the keys in an unspecified order. *)
Definition same_output (o : park_op) (out out' : park_output) : Prop :=
  out.1 = out'.1 /\ match o with OPurge _ => out.2 ≡ₚ out'.2 | _ => out.2 = out'.2 end.

Lemma run_park_refines lot q o :
  holds lot q -> orderly q ->
  holds (run_park lot o).1 (queue_step q o).1 /\ same_output o (run_park lot o).2 (queue_step q o).2.
Proof.
  intros Hh Ho. unfold same_output. destruct o; cbn [run_park].
  - destruct (park_refines lot q key id cb timeout_at Hh) as [H1 <-]. by destruct (Park _ _ _ _ _).
  - destruct (broadcast_refines lot q key code body Hh) as [H1 <-]. by destruct (BroadcastAndUnpark _ _ _ _) as [[? ?] ?].
  - destruct (cancel_refines lot q key id Hh Ho) as [H1 <-]. by destruct (Cancel _ _ _).
  - pose proof (purge_refines lot q now_ms Hh) as H1. by destruct (PurgeTimeout lot now_ms) as [[? ?] ?].
  - split; [|done]. intros k. cbn. unfold Clear. by rewrite lookup_empty.
Qed.

Lemma run_parks_refine ops lot q :
  holds lot q -> orderly q ->
  holds (run_parks lot ops).1 (queue_steps q ops).1 /\
  Forall3 same_output ops (run_parks lot ops).2 (queue_steps q ops).2.
Proof.
  revert lot q. induction ops as [|o ops IH]; intros lot q Hh Ho; [by split; [|constructor]|].
  destruct (run_park_refines lot q o Hh Ho) as [H1 H2]. pose proof (queue_step_orderly q o Ho) as Ho1.
  cbn [run_parks queue_steps]. destruct (run_park lot o) as [lot1 out], (queue_step q o) as [q1 out']. cbn [fst snd] in *.
  destruct (IH lot1 q1 H1 Ho1) as [H3 H4]. destruct (run_parks lot1 ops), (queue_steps q1 ops). by split; [|constructor].
Qed.

Lemma same_calls ops outs outs' :
  Forall3 same_output ops outs outs' -> (outs ≫= snd) ≡ₚ (outs' ≫= snd).
Proof.
  induction 1 as [|o out out' ops outs outs' [_ H] _ IH]; [done|]. cbn [mbind list_bind].
  apply Permutation_app; [|exact IH]. destruct o; [by rewrite H..|exact H|by rewrite H].
Qed.

(** C35: The parking lot is a queue of waiting requests in which nobody is lost or called
    twice.  For any sequence of Park, BroadcastAndUnpark, Cancel, PurgeTimeout and Clear
    calls on a new lot, each call returns and calls back exactly what the queue of
    accepted waiters, in their order of arrival, says: Park accepts a non-empty key, a
    non-zero identifier and a callback when no waiter of the key has the identifier; a
    broadcast calls each waiter of its key once, in order, with its code and body, and
    returns their number; a purge calls each waiter whose timeout has come once, with 504, the
    timeout body and the timeout flag (in an unspecified order), and returns their
    number; a cancellation and a clear call nobody; whoever is called, cancelled or
    cleared leaves the queue.  The counters count the queue.  And the callbacks of the
    accepted waiters are, as a multiset, those that have been called, those that were
    cancelled or cleared, and those still parked. *)
Theorem parked_waiters_conserved ops :
  let '(lot, outs) := run_parks ∅ ops in
  let '(q, outs') := queue_steps [] ops in
  Forall3 same_output ops outs outs' /\
  all_waiters lot ≡ₚ q /\ TotalWaiters lot = Z.of_nat (length q) /\
  (forall key, WaiterCount lot key = Z.of_nat (length (List.filter (of_key key) q))) /\
  accepted [] ops ≡ₚ (wk_callback <$> (outs ≫= snd)) ++ forgotten [] ops ++ callbacks q.
Proof.
  destruct (run_parks_refine ops ∅ []) as [Hh Hout].
  { intros k. by rewrite lookup_empty. }
  { split; [intros; constructor|constructor]. }
  pose proof (queue_conserves [] ops) as Hc. rewrite app_nil_r in Hc.
  destruct (run_parks ∅ ops) as [lot outs], (queue_steps [] ops) as [q outs']. cbn [fst snd] in *.
  split_and!; [done|by apply holds_all|by rewrite TotalWaiters_length, (holds_all _ _ Hh)| |].
  - intros key. unfold WaiterCount. specialize (Hh key).
    rewrite <- (length_fmap snd (List.filter (of_key key) q)). fold (waiters_of key q). rewrite <- Hh.
    by destruct (lot !! key).
  - by rewrite Hc, (same_calls _ _ _ Hout).
Qed.

(** A broadcast, a timeout and a cancellation. *)
Lemma parked_waiters_sample :
  (run_parks ∅ [OPark "k" 1 (Some 10%nat) 0; OPark "k" 1 (Some 11%nat) 0; OPark "k" 2 (Some 12%nat) 500;
    OPark "j" 1 (Some 13%nat) 0; OPurge 500; OCancel "j" 1; OBroadcast "k" 200 "ok"; OBroadcast "j" 200 "ok"]).2 =
  [(1, []); (0, []); (1, []); (1, []); (1, [mkWake 12 504 timeout_body true]); (1, []);
   (1, [mkWake 10 200 "ok" false]); (0, [])].
Proof. by vm_compute. Qed.
