(* ===== verification/Config.v ===== *)
(** * Command-line options (core/config/arguments.cpp, cli_config.cpp,
    server_config.cpp)

    The arguments are the list behind the program name; an exception is its
    message. *)
From S2P Require Import Prelude CStd Json.
Import JsonReader.

Definition kDefaultPort : Z := 63779.
Inductive LogMode := LM_None | LM_Terminal | LM_File.

(** [std::from_chars] of a whole text into an int: a minus sign is allowed, a plus
    sign and spaces are not. *)
Definition from_chars (value : string) : option Z :=
  let '(neg, digits) := match value with
                        | String c rest => if char_is c 45 then (true, rest) else (false, value)
                        | "" => (false, value)
                        end in
  match scan_digits 0 0 digits with
  | (n, count) =>
      let z := if neg : bool then - n else n in
      if (count =? 0)%nat || negb (count =? String.length digits)%nat || (z <? - 2 ^ 31) || (2 ^ 31 <=? z)
      then None else Some z
  end.

Definition ParsePort (value : string) : Z + string :=
  match from_chars value with
  | Some port =>
      if (port <? 1) || (65535 <? port) then inr "INVALID_PORT: port must be between 1 and 65535" else inl port
  | None => inr "INVALID_PORT: port must be between 1 and 65535"
  end.

(** The value of [option] and the arguments behind it. *)
Definition ReadOptionValue (option : string) (rest : list string) (name : string) (already_seen : bool) :
    (string * list string) + string :=
  if already_seen then inr ("INVALID_OPTION: " +:+ name +:+ " may only be specified once")
  else match rest with
       | [] => inr ("INVALID_OPTION: missing value for " +:+ option)
       | value :: rest => inl (value, rest)
       end.

(** ** The client *)

Record CliConfig := mkCliConfig {
  cc_host : string;
  cc_port : Z;
  cc_show_help : bool;
  cc_log_mode : LogMode;
  cc_command : option string;
}.
Definition default_cli : CliConfig := mkCliConfig "127.0.0.1" kDefaultPort false LM_None None.

Definition is_option (names : list string) (argument : string) : bool := bool_decide (argument ∈ names).
Definition starts_with_dash (s : string) : bool := match s with String c _ => char_is c 45 | "" => false end.

(** The loop of [Parse]; each round consumes an argument. *)
Fixpoint cli_loop (fuel : nat) (config : CliConfig) (has_host has_port has_log : bool) (args : list string) :
    CliConfig + string :=
  match fuel, args with
  | _, [] | O, _ => inl config
  | S fuel, argument :: rest =>
      let '(mkCliConfig host port help mode command) := config in
      match command with
      | Some c =>
          cli_loop fuel (mkCliConfig host port help mode (Some (c +:+ " " +:+ argument))) has_host has_port has_log rest
      | None =>
          if is_option ["--help"] argument
          then cli_loop fuel (mkCliConfig host port true mode None) has_host has_port has_log rest
          else if is_option ["-h"; "--host"] argument then
            match ReadOptionValue argument rest "host" has_host with
            | inr e => inr e
            | inl (value, rest) =>
                if is_nil value then inr "INVALID_HOST: host cannot be empty"
                else cli_loop fuel (mkCliConfig value port help mode None) true has_port has_log rest
            end
          else if is_option ["-p"; "--port"] argument then
            match ReadOptionValue argument rest "port" has_port with
            | inr e => inr e
            | inl (value, rest) =>
                match ParsePort value with
                | inr e => inr e
                | inl p => cli_loop fuel (mkCliConfig host p help mode None) has_host true has_log rest
                end
            end
          else if is_option ["--log"; "-v"; "--verbose"] argument then
            if has_log then inr "INVALID_OPTION: log option may only be specified once"
            else cli_loop fuel (mkCliConfig host port help LM_Terminal None) has_host has_port true rest
          else if starts_with_dash argument
          then inr ("INVALID_OPTION: unknown option: " +:+ argument +:+ ". Use gate --help.")
          else cli_loop fuel (mkCliConfig host port help mode (Some argument)) has_host has_port has_log rest
      end
  end.

Definition ParseCli (args : list string) : CliConfig + string :=
  cli_loop (length args) default_cli false false false args.

(** ** The server *)

Record ServerConfig := mkServerConfig {
  sc_port : Z;
  sc_http_port : Z;
  sc_show_help : bool;
  sc_log_mode : LogMode;
  sc_log_dir : string;
  sc_timer_interval_ms : Z;
  sc_persistence : string;
  sc_data_dir : string;
  sc_fsync : string;
  sc_workers : Z;
}.
Definition default_server : ServerConfig :=
  mkServerConfig kDefaultPort 0 false LM_None "" (-1) "none" "./data" "everysec" 0.

(** The [has_...] variables. *)
Record Seen := mkSeen {
  has_port : bool; has_http_port : bool; has_log : bool; has_log_dir : bool; has_timer : bool;
  has_persistence : bool; has_data_dir : bool; has_fsync : bool; has_workers : bool;
}.
Definition none_seen : Seen := mkSeen false false false false false false false false false.

Definition parse_log_mode (value : string) : LogMode + string :=
  if is_option ["terminal"; "console"] value then inl LM_Terminal
  else if is_option ["file"] value then inl LM_File
  else if is_option ["none"] value then inl LM_None
  else inr ("INVALID_OPTION: invalid log mode: " +:+ value +:+ ". Expected terminal, file, or none.").
Definition parse_timer (value : string) : Z + string :=
  match from_chars value with
  | Some interval =>
      if interval <? -1 then inr ("INVALID_OPTION: invalid timer interval: " +:+ value) else inl interval
  | None => inr ("INVALID_OPTION: invalid timer interval: " +:+ value)
  end.
Definition parse_persistence (value : string) : string + string :=
  if is_option ["none"; "aof"] value then inl value
  else inr ("INVALID_OPTION: invalid persistence: " +:+ value +:+ ". Expected none or aof.").
Definition parse_workers (value : string) : Z + string :=
  if is_option ["all"; "auto"] value then inl 0
  else
    let error := inr ("INVALID_OPTION: invalid workers count: " +:+ value +:+ ". Expected positive integer or 'all'.") in
    match from_chars value with Some w => if w <? 1 then error else inl w | None => error end.
Definition parse_fsync (value : string) : string + string :=
  if is_option ["always"; "everysec"; "no"] value then inl value
  else inr ("INVALID_OPTION: invalid fsync policy: " +:+ value +:+ ". Expected always, everysec, or no.").

(** An option with a value: read it, parse it, go on. *)
Definition with_value {A B} (argument : string) (rest : list string) (name : string) (seen : bool)
    (parse : string -> A + string) (go : A -> list string -> B + string) : B + string :=
  match ReadOptionValue argument rest name seen with
  | inr e => inr e
  | inl (value, rest) => match parse value with inr e => inr e | inl a => go a rest end
  end.

(** One round of the loop: [go] is the rest of it. *)
Definition server_option (go : ServerConfig -> Seen -> list string -> ServerConfig + string) (c : ServerConfig)
    (s : Seen) (argument : string) (rest : list string) : ServerConfig + string :=
  let '(mkServerConfig port http help mode dir timer pers data fsync workers) := c in
  let '(mkSeen s1 s2 s3 s4 s5 s6 s7 s8 s9) := s in
  if is_option ["--help"; "-h"] argument
  then go (mkServerConfig port http true mode dir timer pers data fsync workers) s rest
  else if is_option ["--port"; "-p"] argument then
    with_value argument rest "port" s1 ParsePort (fun v rest =>
      go (mkServerConfig v http help mode dir timer pers data fsync workers)
        (mkSeen true s2 s3 s4 s5 s6 s7 s8 s9) rest)
  else if is_option ["--http-port"] argument then
    with_value argument rest "http-port" s2 ParsePort (fun v rest =>
      go (mkServerConfig port v help mode dir timer pers data fsync workers)
        (mkSeen s1 true s3 s4 s5 s6 s7 s8 s9) rest)
  else if is_option ["--log"; "-l"] argument then
    with_value argument rest "log" s3 parse_log_mode (fun v rest =>
      go (mkServerConfig port http help v dir timer pers data fsync workers)
        (mkSeen s1 s2 true s4 s5 s6 s7 s8 s9) rest)
  else if is_option ["--log-dir"; "-d"] argument then
    with_value argument rest "log-dir" s4 inl (fun v rest =>
      go (mkServerConfig port http help (if s3 then mode else LM_File) v timer pers data fsync workers)
        (mkSeen s1 s2 s3 true s5 s6 s7 s8 s9) rest)
  else if is_option ["--timer"; "-t"; "--cron"] argument then
    with_value argument rest "timer" s5 parse_timer (fun v rest =>
      go (mkServerConfig port http help mode dir v pers data fsync workers)
        (mkSeen s1 s2 s3 s4 true s6 s7 s8 s9) rest)
  else if is_option ["--persistence"] argument then
    with_value argument rest "persistence" s6 parse_persistence (fun v rest =>
      go (mkServerConfig port http help mode dir timer v data fsync workers)
        (mkSeen s1 s2 s3 s4 s5 true s7 s8 s9) rest)
  else if is_option ["--data-dir"] argument then
    with_value argument rest "data-dir" s7 inl (fun v rest =>
      go (mkServerConfig port http help mode dir timer pers v fsync workers)
        (mkSeen s1 s2 s3 s4 s5 s6 true s8 s9) rest)
  else if is_option ["--workers"; "-w"] argument then
    with_value argument rest "workers" s9 parse_workers (fun v rest =>
      go (mkServerConfig port http help mode dir timer pers data fsync v)
        (mkSeen s1 s2 s3 s4 s5 s6 s7 s8 true) rest)
  else if is_option ["--fsync"] argument then
    with_value argument rest "fsync" s8 parse_fsync (fun v rest =>
      go (mkServerConfig port http help mode dir timer pers data v workers)
        (mkSeen s1 s2 s3 s4 s5 s6 s7 true s9) rest)
  else inr ("INVALID_OPTION: unknown option: " +:+ argument +:+ ". Use gatekeeper --help.").

Fixpoint server_loop (fuel : nat) (c : ServerConfig) (s : Seen) (args : list string) : ServerConfig + string :=
  match fuel, args with
  | _, [] | O, _ => inl c
  | S fuel, argument :: rest => server_option (server_loop fuel) c s argument rest
  end.

Definition ParseServer (args : list string) : ServerConfig + string :=
  server_loop (length args) default_server none_seen args.

(** ** Numbers *)

Lemma from_chars_range value z : from_chars value = Some z -> - 2 ^ 31 <= z < 2 ^ 31.
Proof.
  unfold from_chars. destruct (match value with String _ _ => _ | "" => _ end) as [neg digits].
  destruct (scan_digits 0 0 digits) as [n count].
  destruct (_ || _ || _ || _) eqn:E; [done|]. intros [= <-].
  apply orb_false_iff in E as [[_ H1]%orb_false_iff H2]. apply Z.ltb_ge in H1. apply Z.leb_gt in H2. by split.
Qed.

Lemma dec_digits_not_dash n : 0 <= n < 10 ^ 20 -> starts_with_dash (dec_digits 20 n) = false.
Proof.
  intros Hn. destruct (dec_digits_head 20 n) as (d & s & Hd & ->); [lia|].
  unfold starts_with_dash, char_is. apply Z.eqb_neq. rewrite Z_of_byte_of_Z, Z.mod_small by lia. lia.
Qed.

Lemma from_chars_to_string z : - 2 ^ 31 <= z < 2 ^ 31 -> from_chars (to_string z) = Some z.
Proof.
  intros Hz. unfold from_chars, to_string.
  assert (forall n, 0 <= n < 10 ^ 20 -> scan_digits 0 0 (dec_digits 20 n) = (n, String.length (dec_digits 20 n))) as Hs.
  { intros n Hn. pose proof (scan_dec_digits 20 n 0 0 "" Hn) as H. rewrite str_app_nil_r in H. rewrite H.
    cbn [scan_digits]. by rewrite Nat.add_0_l. }
  destruct (Z.ltb_spec z 0) as [Hneg|Hpos].
  - change (char_is "-" 45) with true. cbv iota. rewrite Hs by lia. rewrite Z.opp_involutive, Nat.eqb_refl.
    pose proof (dec_digits_nonempty 20 (- z) ltac:(lia)).
    rewrite (proj2 (Nat.eqb_neq _ _)), (proj2 (Z.ltb_ge _ _)), (proj2 (Z.leb_gt _ _)) by lia. done.
  - pose proof (dec_digits_not_dash z ltac:(lia)) as Hd. pose proof (dec_digits_nonempty 20 z ltac:(lia)) as Hl.
    pose proof (Hs z ltac:(lia)) as Hz'. destruct (dec_digits 20 z) as [|c s]; [simpl in Hl; lia|].
    cbn [starts_with_dash] in Hd. rewrite Hd, Hz', Nat.eqb_refl.
    rewrite (proj2 (Nat.eqb_neq _ _)), (proj2 (Z.ltb_ge _ _)), (proj2 (Z.leb_gt _ _)) by lia. done.
Qed.

(** ** Accepted configurations *)

Definition is_port (p : Z) : Prop := 1 <= p <= 65535.

Lemma ParsePort_ok value p : ParsePort value = inl p -> is_port p.
Proof.
  unfold ParsePort, is_port. destruct (from_chars value) as [z|]; [|done].
  destruct (_ || _) eqn:E; [done|]. intros [= <-]. bool_prop. lia.
Qed.
Lemma ParsePort_to_string p : is_port p -> ParsePort (to_string p) = inl p.
Proof.
  unfold is_port. intros Hp. unfold ParsePort. rewrite from_chars_to_string by lia.
  by rewrite !(proj2 (Z.ltb_ge _ _)) by lia.
Qed.

Record valid_server (c : ServerConfig) : Prop := mk_valid_server {
  vs_port : is_port (sc_port c);
  vs_http : sc_http_port c = 0 \/ is_port (sc_http_port c);
  vs_timer : -1 <= sc_timer_interval_ms c < 2 ^ 31;
  vs_persistence : sc_persistence c ∈ ["none"; "aof"];
  vs_fsync : sc_fsync c ∈ ["always"; "everysec"; "no"];
  vs_workers : 0 <= sc_workers c < 2 ^ 31;
}.

Lemma default_server_valid : valid_server default_server.
Proof. split; cbn; unfold is_port, kDefaultPort; try lia; set_solver. Qed.

Lemma with_value_ok {A B} argument rest name seen (parse : string -> A + string) (go : A -> list string -> B + string) b :
  with_value argument rest name seen parse go = inl b ->
  exists value rest' a, rest = value :: rest' /\ parse value = inl a /\ go a rest' = inl b.
Proof.
  unfold with_value, ReadOptionValue. destruct seen; [done|]. destruct rest as [|value rest]; [done|].
  destruct (parse value) as [a|e] eqn:Hp; [|done]. eauto 10.
Qed.

Lemma parse_timer_ok value z : parse_timer value = inl z -> -1 <= z < 2 ^ 31.
Proof.
  unfold parse_timer. destruct (from_chars value) as [i|] eqn:Hi; [|done]. apply from_chars_range in Hi.
  destruct (Z.ltb_spec i (-1)); [done|]. intros [= <-]. lia.
Qed.
Lemma parse_workers_ok value z : parse_workers value = inl z -> 0 <= z < 2 ^ 31.
Proof.
  unfold parse_workers. destruct (is_option _ _); [intros [= <-]; lia|].
  destruct (from_chars value) as [i|] eqn:Hi; [|done]. apply from_chars_range in Hi.
  destruct (Z.ltb_spec i 1); [done|]. intros [= <-]. lia.
Qed.
Lemma parse_persistence_ok value v : parse_persistence value = inl v -> v ∈ ["none"; "aof"].
Proof. unfold parse_persistence, is_option. case_bool_decide; [|done]. by intros [= <-]. Qed.
Lemma parse_fsync_ok value v : parse_fsync value = inl v -> v ∈ ["always"; "everysec"; "no"].
Proof. unfold parse_fsync, is_option. case_bool_decide; [|done]. by intros [= <-]. Qed.

Lemma server_loop_valid fuel c s args c' :
  valid_server c -> server_loop fuel c s args = inl c' -> valid_server c'.
Proof.
  revert c s args. induction fuel as [|fuel IH]; intros c s args Hv; (destruct args as [|argument rest]; [by intros [= <-]|]);
    [by intros [= <-]|].
  cbn [server_loop]. unfold server_option. destruct c as [port http help mode dir timer pers data fsync workers].
  destruct s as [s1 s2 s3 s4 s5 s6 s7 s8 s9]. destruct Hv as [H1 H2 H3 H4 H5 H6]. cbn in *.
  repeat match goal with |- context [if is_option ?ns ?a then _ else _] => destruct (is_option ns a) end;
    [by apply IH| | | | | | | | | |done];
    intros (v & rest' & a & -> & Ha & Hgo)%with_value_ok; (eapply IH; [|exact Hgo]); split; cbn;
    eauto using ParsePort_ok, parse_timer_ok, parse_workers_ok, parse_persistence_ok, parse_fsync_ok.
Qed.

Lemma cli_loop_valid fuel c h p l args c' :
  is_port (cc_port c) -> cc_host c <> "" -> cli_loop fuel c h p l args = inl c' -> is_port (cc_port c') /\ cc_host c' <> "".
Proof.
  revert c h p l args. induction fuel as [|fuel IH]; intros c h p l args Hp Hh;
    (destruct args as [|argument rest]; [by intros [= <-]|]); [by intros [= <-]|].
  cbn [cli_loop]. destruct c as [host port help mode [cmd|]]; cbn in Hp, Hh; [by apply IH|].
  destruct (is_option ["--help"] argument); [by apply IH|].
  destruct (is_option ["-h"; "--host"] argument).
  { unfold ReadOptionValue. destruct h; [done|]. destruct rest as [|v rest]; [done|]. destruct v as [|x v]; [done|].
    cbn [is_nil]. by apply IH. }
  destruct (is_option ["-p"; "--port"] argument).
  { unfold ReadOptionValue. destruct p; [done|]. destruct rest as [|v rest]; [done|].
    destruct (ParsePort v) as [q|e] eqn:Hq; [|done]. apply ParsePort_ok in Hq. by apply IH. }
  destruct (is_option _ argument); [destruct l; [done|by apply IH]|].
  destruct (starts_with_dash argument); [done|by apply IH].
Qed.

(** The number of rounds is enough. *)
Lemma with_value_ext {A B} argument rest name seen (parse : string -> A + string) (go go' : A -> list string -> B + string) :
  (forall a rest', (length rest' < length rest)%nat -> go a rest' = go' a rest') ->
  with_value argument rest name seen parse go = with_value argument rest name seen parse go'.
Proof.
  intros H. unfold with_value, ReadOptionValue. destruct seen; [done|]. destruct rest as [|v rest]; [done|].
  destruct (parse v); [|done]. apply H. simpl. lia.
Qed.

Lemma server_loop_fuel f g c s args :
  (length args <= f)%nat -> (length args <= g)%nat -> server_loop f c s args = server_loop g c s args.
Proof.
  revert g c s args. induction f as [|f IH]; intros g c s [|argument rest] Hf Hg; simpl in Hf, Hg; try lia;
    [by destruct g..|]. destruct g as [|g]; [lia|]. cbn [server_loop]. unfold server_option.
  destruct c as [port http help mode dir timer pers data fsync workers]. destruct s as [s1 s2 s3 s4 s5 s6 s7 s8 s9].
  repeat match goal with |- context [if is_option ?ns ?a then _ else _] => destruct (is_option ns a) end;
    [apply IH; lia|apply with_value_ext; intros a rest' Hr; apply IH; lia..|done].
Qed.

Lemma server_loop_step f c s argument rest :
  server_loop (S f) c s (argument :: rest) = server_option (server_loop f) c s argument rest.
Proof. reflexivity. Qed.

(** ** Printing a configuration *)

Definition log_name (m : LogMode) : string :=
  match m with LM_None => "none" | LM_Terminal => "terminal" | LM_File => "file" end.
Definition server_args (c : ServerConfig) : list string :=
  ["--port"; to_string (sc_port c)] ++
  (if sc_http_port c =? 0 then [] else ["--http-port"; to_string (sc_http_port c)]) ++
  ["--log"; log_name (sc_log_mode c); "--log-dir"; sc_log_dir c; "--timer"; to_string (sc_timer_interval_ms c);
   "--persistence"; sc_persistence c; "--data-dir"; sc_data_dir c;
   "--workers"; (if sc_workers c =? 0 then "all" else to_string (sc_workers c)); "--fsync"; sc_fsync c] ++
  (if sc_show_help c then ["--help"] else []).

Lemma is_option_digits names n :
  Forall (fun s => from_chars s = None) names -> - 2 ^ 31 <= n < 2 ^ 31 -> is_option names (to_string n) = false.
Proof.
  intros Hf Hn. apply bool_decide_false. intros Hin. rewrite list.Forall_forall in Hf. apply Hf in Hin.
  by rewrite from_chars_to_string in Hin.
Qed.

Lemma parse_workers_text w :
  0 <= w < 2 ^ 31 -> parse_workers (if w =? 0 then "all" else to_string w) = inl w.
Proof.
  intros Hw. destruct (Z.eqb_spec w 0) as [->|Hne]; [done|]. unfold parse_workers.
  rewrite is_option_digits by (lia || by repeat constructor). rewrite from_chars_to_string by lia.
  by rewrite (proj2 (Z.ltb_ge _ _)) by lia.
Qed.
Lemma parse_timer_text t : -1 <= t < 2 ^ 31 -> parse_timer (to_string t) = inl t.
Proof.
  intros Ht. unfold parse_timer. rewrite from_chars_to_string by lia. by rewrite (proj2 (Z.ltb_ge _ _)) by lia.
Qed.
Lemma parse_log_mode_text m : parse_log_mode (log_name m) = inl m.
Proof. by destruct m. Qed.
Lemma parse_persistence_text v : v ∈ ["none"; "aof"] -> parse_persistence v = inl v.
Proof. intros Hv. unfold parse_persistence, is_option. by rewrite bool_decide_true. Qed.
Lemma parse_fsync_text v : v ∈ ["always"; "everysec"; "no"] -> parse_fsync v = inl v.
Proof. intros Hv. unfold parse_fsync, is_option. by rewrite bool_decide_true. Qed.

(** One option and its value are read. *)
Lemma with_value_read {A B} argument value rest name (parse : string -> A + string) (go : A -> list string -> B + string) a :
  parse value = inl a -> with_value argument (value :: rest) name false parse go = go a rest.
Proof. intros Hp. unfold with_value, ReadOptionValue. by rewrite Hp. Qed.

Ltac pick_option :=
  repeat match goal with |- context [is_option ?ns ?a] =>
    let b := eval vm_compute in (is_option ns a) in change (is_option ns a) with b end; cbv iota.
Ltac read_option H := rewrite server_loop_step; unfold server_option; pick_option; rewrite (with_value_read _ _ _ _ _ _ _ H).

Lemma server_args_parsed c : valid_server c -> server_loop 20 default_server none_seen (server_args c) = inl c.
Proof.
  destruct c as [port http help mode dir timer pers data fsync workers]. intros [H1 H2 H3 H4 H5 H6].
  cbn [sc_port sc_http_port sc_timer_interval_ms sc_persistence sc_fsync sc_workers] in *.
  unfold server_args, default_server, none_seen. cbn [sc_port sc_http_port sc_show_help sc_log_mode sc_log_dir
    sc_timer_interval_ms sc_persistence sc_data_dir sc_fsync sc_workers].
  apply ParsePort_to_string in H1. pose proof (parse_log_mode_text mode) as Hm. apply parse_timer_text in H3.
  apply parse_persistence_text in H4. apply parse_fsync_text in H5. apply parse_workers_text in H6.
  pose proof (eq_refl : @inl string string dir = inl dir) as Hd. pose proof (eq_refl : @inl string string data = inl data) as Hd'.
  destruct (Z.eqb_spec http 0) as [->|Hne]; cbn [app]; read_option H1.
  - read_option Hm. read_option Hd. read_option H3. read_option H4. read_option Hd'. read_option H6. read_option H5.
    by destruct help.
  - destruct H2 as [|H2%ParsePort_to_string]; [done|]. read_option H2. read_option Hm. read_option Hd. read_option H3.
    read_option H4. read_option Hd'. read_option H6. read_option H5. by destruct help.
Qed.

(** ** The meaning of a command line *)

(** One option with its value. *)
Inductive Setting :=
| SetHelp | SetPort (v : Z) | SetHttpPort (v : Z) | SetLog (v : LogMode) | SetLogDir (v : string) | SetTimer (v : Z)
| SetPersistence (v : string) | SetDataDir (v : string) | SetWorkers (v : Z) | SetFsync (v : string).

(** The options that may be given once, by name. *)
Definition once_name (x : Setting) : option string :=
  match x with
  | SetHelp => None
  | SetPort _ => Some "port" | SetHttpPort _ => Some "http-port" | SetLog _ => Some "log"
  | SetLogDir _ => Some "log-dir" | SetTimer _ => Some "timer" | SetPersistence _ => Some "persistence"
  | SetDataDir _ => Some "data-dir" | SetWorkers _ => Some "workers" | SetFsync _ => Some "fsync"
  end.

(** The arguments that write one option: a name of it and a text of the value. *)
Definition valued {A} (names : list string) (parse : string -> A + string) (a : A) (words : list string) : Prop :=
  exists name value, words = [name; value] /\ name ∈ names /\ parse value = inl a.
Definition denotes (x : Setting) (words : list string) : Prop :=
  match x with
  | SetHelp => words = ["--help"] \/ words = ["-h"]
  | SetPort v => valued ["--port"; "-p"] ParsePort v words
  | SetHttpPort v => valued ["--http-port"] ParsePort v words
  | SetLog v => valued ["--log"; "-l"] parse_log_mode v words
  | SetLogDir v => valued ["--log-dir"; "-d"] inl v words
  | SetTimer v => valued ["--timer"; "-t"; "--cron"] parse_timer v words
  | SetPersistence v => valued ["--persistence"] parse_persistence v words
  | SetDataDir v => valued ["--data-dir"] inl v words
  | SetWorkers v => valued ["--workers"; "-w"] parse_workers v words
  | SetFsync v => valued ["--fsync"] parse_fsync v words
  end.
Inductive spells : list Setting -> list string -> Prop :=
| spells_nil : spells [] []
| spells_cons x words l args : denotes x words -> spells l args -> spells (x :: l) (words ++ args).

(** The value of an option in a list of them. *)
Definition given {A} (pick : Setting -> option A) (l : list Setting) : option A := head (omap pick l).
Definition pick_help x := match x with SetHelp => Some tt | _ => None end.
Definition pick_port x := match x with SetPort v => Some v | _ => None end.
Definition pick_http x := match x with SetHttpPort v => Some v | _ => None end.
Definition pick_log x := match x with SetLog v => Some v | _ => None end.
Definition pick_log_dir x := match x with SetLogDir v => Some v | _ => None end.
Definition pick_timer x := match x with SetTimer v => Some v | _ => None end.
Definition pick_persistence x := match x with SetPersistence v => Some v | _ => None end.
Definition pick_data_dir x := match x with SetDataDir v => Some v | _ => None end.
Definition pick_workers x := match x with SetWorkers v => Some v | _ => None end.
Definition pick_fsync x := match x with SetFsync v => Some v | _ => None end.
Definition is_given {A} (o : option A) : bool := match o with Some _ => true | None => false end.

(** Each field is what its option says, or the default; a log directory without a log
    mode means a log file. *)
Definition config_of (l : list Setting) : ServerConfig :=
  mkServerConfig (default kDefaultPort (given pick_port l)) (default 0 (given pick_http l)) (is_given (given pick_help l))
    (default (if is_given (given pick_log_dir l) then LM_File else LM_None) (given pick_log l))
    (default "" (given pick_log_dir l)) (default (-1) (given pick_timer l)) (default "none" (given pick_persistence l))
    (default "./data" (given pick_data_dir l)) (default "everysec" (given pick_fsync l)) (default 0 (given pick_workers l)).

Definition seen_of (l : list Setting) : Seen :=
  mkSeen (is_given (given pick_port l)) (is_given (given pick_http l)) (is_given (given pick_log l))
    (is_given (given pick_log_dir l)) (is_given (given pick_timer l)) (is_given (given pick_persistence l))
    (is_given (given pick_data_dir l)) (is_given (given pick_fsync l)) (is_given (given pick_workers l)).

Lemma given_snoc {A} (pick : Setting -> option A) l x :
  given pick (l ++ [x]) = match given pick l with Some a => Some a | None => pick x end.
Proof.
  unfold given. rewrite omap_app. destruct (omap pick l); [|done]. cbn. by destruct (pick x).
Qed.

(** An option has been given exactly when its name has been used. *)
Lemma is_given_name {A} (pick : Setting -> option A) n l :
  (forall x, once_name x = Some n <-> pick x <> None) ->
  is_given (given pick l) = bool_decide (n ∈ omap once_name l).
Proof.
  intros Hn. apply Bool.eq_iff_eq_true. rewrite bool_decide_eq_true, list_elem_of_omap. unfold given. split.
  - destruct (omap pick l) as [|a r] eqn:E; [done|]. intros _.
    assert (a ∈ omap pick l) as (x & Hx & Ha)%list_elem_of_omap by (rewrite E; left).
    exists x. split; [done|]. apply Hn. by rewrite Ha.
  - intros (x & Hx & Ha). apply Hn in Ha. destruct (pick x) as [a|] eqn:Hp; [|done].
    assert (a ∈ omap pick l) as Hin by (apply list_elem_of_omap; eauto). by destruct (omap pick l); [apply elem_of_nil in Hin|].
Qed.

Lemma once_snoc l x :
  NoDup (omap once_name (l ++ [x])) <->
  NoDup (omap once_name l) /\ (forall n, once_name x = Some n -> n ∉ omap once_name l).
Proof.
  rewrite omap_app. cbn [omap list_omap]. destruct (once_name x) as [n|].
  - rewrite list.NoDup_app. split.
    + intros (H1 & H2 & _). split; [done|]. intros m [= <-] Hin. apply (H2 _ Hin). left.
    + intros [H1 H2]. split_and!; [done| |apply NoDup_singleton]. intros m Hm ->%list_elem_of_singleton. by eapply H2.
  - rewrite app_nil_r. naive_solver.
Qed.

Lemma given_other {A} (pick : Setting -> option A) l x : pick x = None -> given pick (l ++ [x]) = given pick l.
Proof. intros Hx. rewrite given_snoc, Hx. by destruct (given pick l). Qed.
Lemma given_new {A} (pick : Setting -> option A) l x : is_given (given pick l) = false -> given pick (l ++ [x]) = pick x.
Proof. intros Hx. rewrite given_snoc. by destruct (given pick l). Qed.

Lemma given_help l : is_given (given pick_help (l ++ [SetHelp])) = true.
Proof. rewrite given_snoc. by destruct (given pick_help l). Qed.

(** The state of the loop after one more option. *)
Ltac after_option :=
  unfold config_of, seen_of;
  repeat first [rewrite given_help | rewrite given_other by reflexivity | rewrite given_new by assumption];
  first [reflexivity | match goal with |- context [given pick_log ?l] => by destruct (given pick_log l) end].

(** The flag of an option is the use of its name. *)
Ltac by_name := intros []; cbn; naive_solver.
Lemma seen_names l :
  seen_of l = mkSeen (bool_decide ("port" ∈ omap once_name l)) (bool_decide ("http-port" ∈ omap once_name l))
    (bool_decide ("log" ∈ omap once_name l)) (bool_decide ("log-dir" ∈ omap once_name l))
    (bool_decide ("timer" ∈ omap once_name l)) (bool_decide ("persistence" ∈ omap once_name l))
    (bool_decide ("data-dir" ∈ omap once_name l)) (bool_decide ("fsync" ∈ omap once_name l))
    (bool_decide ("workers" ∈ omap once_name l)).
Proof. unfold seen_of. f_equal; apply is_given_name; by_name. Qed.

Lemma with_value_iff {A B} argument rest name seen (parse : string -> A + string) (go : A -> list string -> B + string) b :
  with_value argument rest name seen parse go = inl b <->
  seen = false /\ exists value rest' a, rest = value :: rest' /\ parse value = inl a /\ go a rest' = inl b.
Proof.
  split.
  - intros H. split; [by destruct seen|by apply with_value_ok in H].
  - intros (-> & value & rest' & a & -> & Hp & Hg). by rewrite (with_value_read _ _ _ _ _ _ _ Hp).
Qed.

(** The option has not been given yet. *)
Definition unused (l : list Setting) (x : Setting) : Prop :=
  forall n, once_name x = Some n -> n ∉ omap once_name l.

Lemma valued_step {A} (go : ServerConfig -> Seen -> list string -> ServerConfig + string) l argument rest c
    names name seen (parse : string -> A + string) (set : A -> Setting) (next : A -> ServerConfig * Seen) :
  is_option names argument = true ->
  (forall a, denotes (set a) = valued names parse a) -> (forall a, once_name (set a) = Some name) ->
  seen = bool_decide (name ∈ omap once_name l) ->
  (seen = false -> forall a, next a = (config_of (l ++ [set a]), seen_of (l ++ [set a]))) ->
  with_value argument rest name seen parse (fun v rest => go (next v).1 (next v).2 rest) = inl c ->
  exists x words rest', argument :: rest = words ++ rest' /\ denotes x words /\ unused l x /\
    go (config_of (l ++ [x])) (seen_of (l ++ [x])) rest' = inl c.
Proof.
  intros Hn Hd Ho Hs Hnext (Hf & value & rest' & a & -> & Hp & Hg)%with_value_iff. subst seen.
  rewrite (Hnext Hf) in Hg. exists (set a), [argument; value], rest'. split_and!; [done| | |done].
  - rewrite Hd. exists argument, value. split_and!; [done| |done]. by apply bool_decide_eq_true in Hn.
  - intros n. rewrite Ho. intros [= <-]. by apply bool_decide_eq_false in Hf.
Qed.

Lemma denotes_nonempty x words : denotes x words -> (0 < length words)%nat.
Proof.
  destruct x; cbn [denotes]; [by intros [-> | ->]; simpl; lia|..]; intros (name & value & -> & _); simpl; lia.
Qed.
Lemma spells_empty l : spells l [] -> l = [].
Proof.
  inversion 1 as [|x words l' args Hd _ Hx Hw]; [done|]. pose proof (denotes_nonempty _ _ Hd) as Hl.
  apply (f_equal length) in Hw. rewrite length_app in Hw. simpl in Hw. lia.
Qed.

(** One test of [server_option] for an option with a value. *)
Ltac one_option E set H :=
  match goal with |- (if is_option ?ns ?a then with_value _ _ _ ?s ?p (fun v rest => ?go (@?f v) (@?g v) rest) else _) = _ -> _ =>
    destruct (is_option ns a) eqn:E;
    [apply (valued_step go _ _ _ _ ns _ s p set (fun v => (f v, g v)) E (fun _ => eq_refl) (fun _ => eq_refl) H);
     intros Hf v; cbv beta; f_equal; after_option|clear E] end.

Lemma server_option_sound go l argument rest c :
  server_option go (config_of l) (seen_of l) argument rest = inl c ->
  exists x words rest', argument :: rest = words ++ rest' /\ denotes x words /\ unused l x /\
    go (config_of (l ++ [x])) (seen_of (l ++ [x])) rest' = inl c.
Proof.
  pose proof (seen_names l) as Hs. injection Hs as H1 H2 H3 H4 H5 H6 H7 H8 H9.
  unfold server_option. cbn [config_of seen_of].
  destruct (is_option ["--help"; "-h"] argument) eqn:E.
  { intros Hg. exists SetHelp, [argument], rest. apply bool_decide_eq_true in E. split_and!; [done|set_solver|done|].
    rewrite <- Hg. f_equal; after_option. }
  clear E. one_option E SetPort H1. one_option E SetHttpPort H2. one_option E SetLog H3. one_option E SetLogDir H4.
  one_option E SetTimer H5. one_option E SetPersistence H6. one_option E SetDataDir H7. one_option E SetWorkers H9.
  one_option E SetFsync H8. done.
Qed.

(** Conversely, an option that has not been used is read. *)
Lemma server_option_complete go l x words rest c :
  denotes x words -> unused l x -> go (config_of (l ++ [x])) (seen_of (l ++ [x])) rest = inl c ->
  exists argument rest', words ++ rest = argument :: rest' /\
    server_option go (config_of l) (seen_of l) argument rest' = inl c.
Proof.
  intros Hd Ho Hg. pose proof (seen_names l) as Hs. injection Hs as H1 H2 H3 H4 H5 H6 H7 H8 H9.
  unfold unused in Ho. destruct x; cbn [denotes once_name] in Hd, Ho;
    [|destruct Hd as (name & value & -> & Hn & Hp)..].
  { destruct Hd as [-> | ->]; (eexists _, _; split; [reflexivity|]; rewrite <- Hg; unfold server_option;
      cbn [config_of seen_of]; pick_option; f_equal; after_option). }
  all: eexists _, _; split; [reflexivity|]; specialize (Ho _ eq_refl); rewrite <- bool_decide_eq_false in Ho;
    match goal with H : _ = bool_decide ?P, Ho : bool_decide ?P = false |- _ => rewrite Ho in H end;
    repeat (apply elem_of_cons in Hn as [->|Hn]); try (by apply elem_of_nil in Hn);
    unfold server_option; cbn [config_of seen_of]; pick_option; apply with_value_iff;
    (split; [assumption|]; eexists _, _, _; split; [reflexivity|]; split; [exact Hp|]; rewrite <- Hg);
    cbv beta; f_equal; after_option.
Qed.

Lemma server_loop_spec f l args c :
  (length args <= f)%nat -> NoDup (omap once_name l) ->
  server_loop f (config_of l) (seen_of l) args = inl c <->
  exists l', spells l' args /\ NoDup (omap once_name (l ++ l')) /\ c = config_of (l ++ l').
Proof.
  revert l args. induction f as [|f IH]; intros l args Hf Hl.
  { destruct args; [|simpl in Hf; lia]. cbn [server_loop]. split.
    - intros [= <-]. exists []. rewrite app_nil_r. split_and!; [constructor|done|done].
    - intros (l' & Hs & _ & ->). by rewrite (spells_empty _ Hs), app_nil_r. }
  destruct args as [|argument rest].
  { cbn [server_loop]. split.
    - intros [= <-]. exists []. rewrite app_nil_r. split_and!; [constructor|done|done].
    - intros (l' & Hs & _ & ->). by rewrite (spells_empty _ Hs), app_nil_r. }
  rewrite server_loop_step. simpl in Hf. split.
  - intros (x & words & rest' & Heq & Hd & Ho & Hg)%server_option_sound.
    assert (length rest' <= f)%nat as Hr.
    { apply (f_equal length) in Heq. rewrite length_app in Heq. pose proof (denotes_nonempty _ _ Hd). simpl in Heq. lia. }
    apply IH in Hg as (l' & Hs & Hn & ->); [|done|by apply once_snoc].
    exists (x :: l'). rewrite Heq. rewrite <- app_assoc in Hn |- *. split_and!; [by constructor|done|done].
  - intros (l' & Hs & Hn & ->). inversion Hs as [|x words l1 args' Hd Hs' Hx Hw]; subst.
    assert (NoDup (omap once_name (l ++ [x])) /\ l ++ x :: l1 = (l ++ [x]) ++ l1) as [Hnx Heq].
    { rewrite <- app_assoc. split; [|done]. change (x :: l1) with ([x] ++ l1) in Hn. rewrite app_assoc, omap_app in Hn.
      by apply list.NoDup_app in Hn as [? _]. }
    destruct (server_option_complete (server_loop f) l x words args' (config_of (l ++ x :: l1)) Hd) as (a & r & Hw' & Hso).
    + apply once_snoc in Hnx. exact (proj2 Hnx).
    + apply IH; [|done|].
      * apply (f_equal length) in Hw. rewrite length_app in Hw. pose proof (denotes_nonempty _ _ Hd). simpl in Hw. lia.
      * exists l1. rewrite <- Heq. done.
    + rewrite Hw' in Hw. by injection Hw as -> ->.
Qed.

(** C24: The server's command line, exactly.  The options are accepted as a
    configuration if and only if they are a sequence of known options, each under one of
    its names and followed by a text of a value it admits, none but the help option more
    than once, and the configuration has in each field the value of its option, in
    whatever order they are given, or the default; where a log directory without a log
    mode means a log file.  Every accepted configuration has ports in 1..65535 (or the
    HTTP port 0, disabled), a timer interval of at least -1, a known persistence and
    fsync policy and a worker count that is positive or 0 for all cores; and every such
    configuration is what the parser makes of the options that spell it out. *)
Theorem server_config_exact c :
  (forall args, ParseServer args = inl c <->
     exists l, spells l args /\ NoDup (omap once_name l) /\ c = config_of l) /\
  (forall args, ParseServer args = inl c -> valid_server c) /\
  (valid_server c -> ParseServer (server_args c) = inl c).
Proof.
  split_and!.
  - intros args. apply (server_loop_spec _ []); [done|constructor].
  - intros args Hp. eapply server_loop_valid; [apply default_server_valid|exact Hp].
  - intros Hv. unfold ParseServer. rewrite <- (server_args_parsed c Hv).
    apply server_loop_fuel; [done|]. unfold server_args. rewrite !length_app.
    destruct (sc_http_port c =? 0), (sc_show_help c); simpl; lia.
Qed.

Lemma server_config_exact_witness :
  valid_server (config_of [SetLogDir "/var/log"; SetHttpPort 8080]) /\
  ParseServer ["-d"; "/var/log"; "--http-port"; "8080"] = inl (config_of [SetLogDir "/var/log"; SetHttpPort 8080]) /\
  ParseServer (server_args (config_of [SetLogDir "/var/log"; SetHttpPort 8080])) =
    inl (config_of [SetLogDir "/var/log"; SetHttpPort 8080]).
Proof.
  destruct (server_config_exact (config_of [SetLogDir "/var/log"; SetHttpPort 8080])) as (Hp & Hv & Ha).
  assert (ParseServer ["-d"; "/var/log"; "--http-port"; "8080"] = inl (config_of [SetLogDir "/var/log"; SetHttpPort 8080]))
    as H.
  { apply Hp. exists [SetLogDir "/var/log"; SetHttpPort 8080]. split_and!; [|by apply (bool_decide_unpack _)|done].
    apply (spells_cons _ ["-d"; "/var/log"] _ ["--http-port"; "8080"]).
    - exists "-d", "/var/log". split_and!; [done|set_solver|done].
    - apply (spells_cons _ ["--http-port"; "8080"] _ []); [|constructor].
      exists "--http-port", "8080". split_and!; [done|set_solver|done]. }
  split_and!; [by apply (Hv _ H)|exact H|apply Ha, (Hv _ H)].
Defined.
