(* ===== verification/Suggest.v ===== *)
(** * Suggestions for a mistyped command (cli/suggest.cpp)

    [EditDistance] fills a matrix of distances between prefixes; [Suggest] keeps the
    names near the input and sorts them.  The distance is the restricted one (optimal string
    alignment), specified by [edits]: the two strings are cut into aligned pieces, each
    a kept byte, a deleted, inserted or replaced byte or two neighbouring bytes
    exchanged, so that no byte is touched twice. *)
From stdpp Require Import sorting.
From S2P Require Import Prelude.

(** ** The code *)

(** The matrix: [distance[i][j]]. *)
Notation matrix := (list (list nat)).
Definition mget (d : matrix) (i j : nat) : nat :=
  match d !! i with Some row => default 0%nat (row !! j) | None => 0%nat end.
Definition mset (d : matrix) (i j v : nat) : matrix := alter (fun row => <[j := v]> row) i d.

Definition char_eqb (first : string) (i : nat) (second : string) (j : nat) : bool :=
  bool_decide (String.get i first = String.get j second).

(** The body of the inner loop. *)
Definition fill_cell (first second : string) (i : nat) (distance : matrix) (j : nat) : matrix :=
  let d := Nat.min (Nat.min (mget distance (i - 1) j + 1) (mget distance i (j - 1) + 1))
             (mget distance (i - 1) (j - 1) + (if char_eqb first (i - 1) second (j - 1) then 0 else 1)) in
  let distance := mset distance i j d in
  if (1 <? i)%nat && (1 <? j)%nat && char_eqb first (i - 1) second (j - 2) &&
     char_eqb first (i - 2) second (j - 1)
  then mset distance i j (Nat.min (mget distance i j) (mget distance (i - 2) (j - 2) + 1))
  else distance.

Definition fill_row (first second : string) (distance : matrix) (i : nat) : matrix :=
  foldl (fill_cell first second i) distance (seq 1 (String.length second)).

Definition EditDistance (first second : string) : nat :=
  let n := String.length first in
  let m := String.length second in
  let distance := replicate (S n) (replicate (S m) 0%nat) in
  let distance := foldl (fun d i => mset d i 0 i) distance (seq 0 (S n)) in
  let distance := foldl (fun d j => mset d 0 j j) distance (seq 0 (S m)) in
  let distance := foldl (fill_row first second) distance (seq 1 n) in
  mget distance n m.

(** The order of [std::pair<std::size_t, std::string>]. *)
Definition pair_le (x y : nat * string) : Prop :=
  (x.1 < y.1)%nat \/ x.1 = y.1 /\ String.le x.2 y.2.
#[global] Instance pair_le_dec : RelDecision pair_le.
Proof. intros x y. unfold pair_le. apply _. Defined.

Definition threshold_of (input : string) : nat := if (String.length input <=? 2)%nat then 1%nat else 2%nat.

(** The body of the loop over the names. *)
Definition match_name (input : string) (matches : list (nat * string)) (name : string) : list (nat * string) :=
  let threshold := threshold_of input in
  if (64 <? String.length name)%nat || (String.length input + threshold <? String.length name)%nat ||
     (String.length name + threshold <? String.length input)%nat
  then matches
  else
    let distance := EditDistance input name in
    if (distance <=? threshold)%nat then matches ++ [(distance, name)] else matches.

Definition Suggest (input : string) (names : list string) : list string :=
  if is_nil input || (64 <? String.length input)%nat then []
  else (take 3 (merge_sort pair_le (foldl (match_name input) [] names))).*2.

(** ** The specification *)

(** An alignment of two strings with [n] pieces that are not kept bytes.  A piece is
    final: bytes that were exchanged are not edited again, so the distance can exceed
    the least number of successive edits ([exchanged_not_edited] below). *)
Inductive edits : list ascii -> list ascii -> nat -> Prop :=
  | edits_nil : edits [] [] 0
  | edits_keep a b n c : edits a b n -> edits (a ++ [c]) (b ++ [c]) n
  | edits_delete a b n c : edits a b n -> edits (a ++ [c]) b (S n)
  | edits_insert a b n c : edits a b n -> edits a (b ++ [c]) (S n)
  | edits_replace a b n c d : edits a b n -> edits (a ++ [c]) (b ++ [d]) (S n)
  | edits_swap a b n c d : edits a b n -> edits (a ++ [c; d]) (b ++ [d; c]) (S n).
Create HintDb edit.
#[export] Hint Constructors edits : edit.

(** [n] is the restricted distance of [a] and [b]: the cost of the cheapest alignment. *)
Definition alignment_distance (a b : list ascii) (n : nat) : Prop :=
  edits a b n /\ forall m, edits a b m -> (n <= m)%nat.

Notation chars := String.list_ascii_of_string.

(** ** Properties of the specification *)

Lemma snoc_inv {A} (a b : list A) x y : a ++ [x] = b ++ [y] -> a = b /\ x = y.
Proof. apply app_inj_tail. Qed.
Lemma snoc2_inv {A} (a b : list A) x y z : a ++ [x] = b ++ [y; z] -> a = b ++ [y] /\ x = z.
Proof. intros H. apply (snoc_inv a (b ++ [y]) x z). by rewrite H, <- app_assoc. Qed.

Lemma edits_lengths a b n : edits a b n -> (length a <= length b + n /\ length b <= length a + n)%nat.
Proof. induction 1; rewrite ?length_app; simpl in *; lia. Qed.

Lemma edits_delete_all a : edits a [] (length a).
Proof.
  induction a as [|c a IH] using rev_ind; [constructor|]. rewrite length_app, Nat.add_comm. by constructor.
Qed.
Lemma edits_insert_all b : edits [] b (length b).
Proof.
  induction b as [|c b IH] using rev_ind; [constructor|]. rewrite length_app, Nat.add_comm. by constructor.
Qed.
Lemma least_delete_all a : alignment_distance a [] (length a).
Proof. split; [apply edits_delete_all|]. intros m H%edits_lengths. simpl in H. lia. Qed.
Lemma least_insert_all b : alignment_distance [] b (length b).
Proof. split; [apply edits_insert_all|]. intros m H%edits_lengths. simpl in H. lia. Qed.

(** The ways a sequence of edits between nonempty strings ends. *)
Lemma edits_snoc_inv a b c d n :
  edits (a ++ [c]) (b ++ [d]) n ->
  (c = d /\ edits a b n) \/
  (exists m, n = S m /\ (edits a (b ++ [d]) m \/ edits (a ++ [c]) b m \/ edits a b m \/
     exists a' b', a = a' ++ [d] /\ b = b' ++ [c] /\ edits a' b' m)).
Proof.
  intros H. remember (a ++ [c]) as x eqn:Hx. remember (b ++ [d]) as y eqn:Hy. destruct H.
  - by destruct a.
  - apply snoc_inv in Hx as [-> ->]. apply snoc_inv in Hy as [-> ->]. by left.
  - apply snoc_inv in Hx as [-> ->]. subst. right. exists n. tauto.
  - apply snoc_inv in Hy as [-> ->]. subst. right. exists n. tauto.
  - apply snoc_inv in Hx as [-> ->]. apply snoc_inv in Hy as [-> ->]. right. exists n. tauto.
  - symmetry in Hx, Hy. apply snoc2_inv in Hx as [-> ->]. apply snoc2_inv in Hy as [-> ->].
    right. exists n. split; [done|]. do 3 right. by exists a0, b0.
Qed.

(** The recurrence, when the last two bytes are not an exchange. *)
Lemma least_step a b c d p q r :
  ~ (exists a' b', a = a' ++ [d] /\ b = b' ++ [c]) ->
  alignment_distance a (b ++ [d]) p -> alignment_distance (a ++ [c]) b q -> alignment_distance a b r ->
  alignment_distance (a ++ [c]) (b ++ [d])
    (Nat.min (Nat.min (p + 1) (q + 1)) (r + (if bool_decide (c = d) then 0 else 1))).
Proof.
  intros Hno [Hp Hp'] [Hq Hq'] [Hr Hr']. split.
  - destruct (Nat.min_dec (Nat.min (p + 1) (q + 1)) (r + (if bool_decide (c = d) then 0 else 1))) as [->| ->].
    + destruct (Nat.min_dec (p + 1) (q + 1)) as [->| ->]; rewrite Nat.add_1_r; by constructor.
    + case_bool_decide; subst; rewrite ?Nat.add_0_r, ?Nat.add_1_r; by constructor.
  - intros m [[-> Hm]|(k & -> & [Hm|[Hm|[Hm|(a' & b' & -> & -> & Hm)]]])]%edits_snoc_inv.
    + rewrite bool_decide_true by done. specialize (Hr' _ Hm). lia.
    + specialize (Hp' _ Hm). lia.
    + specialize (Hq' _ Hm). lia.
    + specialize (Hr' _ Hm). case_bool_decide; lia.
    + destruct Hno. by exists a', b'.
Qed.

(** The recurrence with the exchange. *)
Lemma least_step_swap a b c d p q r s :
  alignment_distance (a ++ [d]) (b ++ [c; d]) p -> alignment_distance (a ++ [d; c]) (b ++ [c]) q ->
  alignment_distance (a ++ [d]) (b ++ [c]) r -> alignment_distance a b s ->
  alignment_distance (a ++ [d; c]) (b ++ [c; d])
    (Nat.min (Nat.min (Nat.min (p + 1) (q + 1)) (r + (if bool_decide (c = d) then 0 else 1))) (s + 1)).
Proof.
  intros [Hp Hp'] [Hq Hq'] [Hr Hr'] [Hs Hs'].
  assert (forall x y : ascii, b ++ [x; y] = (b ++ [x]) ++ [y]) as Eb by (intros; by rewrite <- app_assoc).
  assert (forall x y : ascii, a ++ [x; y] = (a ++ [x]) ++ [y]) as Ea by (intros; by rewrite <- app_assoc).
  set (v := Nat.min _ (r + _)). split.
  - destruct (Nat.min_dec v (s + 1)) as [->| ->]; [|rewrite Nat.add_1_r; by constructor].
    unfold v. destruct (Nat.min_dec (Nat.min (p + 1) (q + 1)) (r + (if bool_decide (c = d) then 0 else 1))) as [->| ->].
    + destruct (Nat.min_dec (p + 1) (q + 1)) as [->| ->]; rewrite Nat.add_1_r; [rewrite Ea|rewrite (Eb c)];
        by constructor.
    + rewrite Ea, Eb. case_bool_decide; subst; rewrite ?Nat.add_0_r, ?Nat.add_1_r; by constructor.
  - intros m. rewrite Ea, Eb. rewrite Ea in Hq'. rewrite Eb in Hp'.
    intros [[-> Hm]|(k & -> & [Hm|[Hm|[Hm|(a' & b' & H1 & H2 & Hm)]]])]%edits_snoc_inv.
    + specialize (Hr' _ Hm). unfold v. rewrite bool_decide_true by done. lia.
    + specialize (Hp' _ Hm). lia.
    + specialize (Hq' _ Hm). lia.
    + specialize (Hr' _ Hm). unfold v. case_bool_decide; lia.
    + apply snoc_inv in H1 as [-> _]. apply snoc_inv in H2 as [-> _]. specialize (Hs' _ Hm). lia.
Qed.

(** ** The matrix *)

Definition dims (n m : nat) (d : matrix) : Prop :=
  length d = S n /\ forall i row, d !! i = Some row -> length row = S m.

Lemma mset_dims n m d i j v : dims n m d -> dims n m (mset d i j v).
Proof.
  intros [Hn Hm]. split; [unfold mset; by rewrite length_alter|]. intros k row Hk. unfold mset in Hk.
  destruct (decide (k = i)) as [->|Hne]; [|rewrite list_lookup_alter_ne in Hk by done; eauto].
  rewrite list_lookup_alter_eq in Hk. destruct (d !! i) as [r|] eqn:Hr; [|done]. injection Hk as <-.
  rewrite length_insert. eauto.
Qed.

Lemma mget_mset n m d i j v i' j' :
  dims n m d -> (i <= n)%nat -> (j <= m)%nat ->
  mget (mset d i j v) i' j' = if decide (i' = i /\ j' = j) then v else mget d i' j'.
Proof.
  intros [Hn Hm] Hi Hj. unfold mget, mset. destruct (decide (i' = i)) as [->|Hne].
  - rewrite list_lookup_alter_eq. destruct (lookup_lt_is_Some_2 d i ltac:(lia)) as [row Hr]. rewrite Hr.
    cbn [fmap option_fmap option_map]. specialize (Hm _ _ Hr). destruct (decide (j' = j)) as [->|Hne'].
    + rewrite list_lookup_insert_eq by lia. by rewrite decide_True.
    + rewrite list_lookup_insert_ne by done. by rewrite decide_False by tauto.
  - rewrite list_lookup_alter_ne by done. by rewrite decide_False by tauto.
Qed.

Lemma foldl_seq_ind {A} (P : nat -> A -> Prop) (f : A -> nat -> A) s k n :
  P k s -> (forall i s, (k <= i < k + n)%nat -> P i s -> P (S i) (f s i)) -> P (k + n)%nat (foldl f s (seq k n)).
Proof.
  revert k s. induction n as [|n IH]; intros k s H0 Hs; cbn [seq foldl]; [by rewrite Nat.add_0_r|].
  replace (k + S n)%nat with (S k + n)%nat by lia. apply IH; [apply Hs; [lia|done]|].
  intros i s' Hi. apply Hs. lia.
Qed.

Section distance.
Context (first second : string).
Notation a := (chars first). Notation b := (chars second).
Notation n := (String.length first). Notation m := (String.length second).

Lemma length_chars s : length (chars s) = String.length s.
Proof. by induction s as [|c s IH]; simpl; [|rewrite IH]. Qed.
Lemma get_chars s i : String.get i s = chars s !! i.
Proof. revert i. induction s as [|c s IH]; intros [|i]; simpl; try done. Qed.

(** Cell [(i, j)] has its final value. *)
Definition exact (d : matrix) (i j : nat) : Prop := alignment_distance (take i a) (take j b) (mget d i j).

(** The border is filled, and the cells before [(i, j)] in the order of the loops. *)
Definition filled (i j : nat) (d : matrix) : Prop :=
  dims n m d /\
  forall i' j', (i' <= n)%nat -> (j' <= m)%nat ->
    (i' = 0 \/ j' = 0 \/ i' < i \/ i' = i /\ j' < j)%nat -> exact d i' j'.

Lemma exact_mset d i j v i' j' :
  dims n m d -> (i <= n)%nat -> (j <= m)%nat -> (i', j') <> (i, j) -> exact d i' j' -> exact (mset d i j v) i' j'.
Proof.
  intros Hd Hi Hj Hne H. unfold exact. rewrite (mget_mset n m) by done. by rewrite decide_False by (intros [-> ->]; done).
Qed.

Lemma char_eqb_spec i j c d : a !! i = Some c -> b !! j = Some d -> char_eqb first i second j = bool_decide (c = d).
Proof.
  intros Hc Hd. unfold char_eqb. rewrite !get_chars, Hc, Hd. apply bool_decide_ext. split; congruence.
Qed.

Lemma char_at s i : (i < String.length s)%nat -> exists c, chars s !! i = Some c.
Proof. intros Hi. apply lookup_lt_is_Some_2. by rewrite length_chars. Qed.

Lemma filled_mset d i j v :
  (0 < i <= n)%nat -> (0 < j <= m)%nat -> filled i j d -> filled i j (mset d i j v).
Proof.
  intros Hi Hj [Hd Hf]. split; [by apply mset_dims|]. intros i' j' Hi' Hj' Hor.
  apply exact_mset; [done|lia|lia|intros [= -> ->]; lia|by apply Hf].
Qed.
Lemma filled_next d i j :
  filled i j d -> exact d i j -> filled i (S j) d.
Proof.
  intros [Hd Hf] He. split; [done|]. intros i' j' Hi' Hj' Hor.
  destruct (decide (i' = i /\ j' = j)) as [[-> ->]|]; [done|]. apply Hf; lia.
Qed.
Lemma filled_put d i j v :
  (0 < i <= n)%nat -> (0 < j <= m)%nat -> filled i j d ->
  alignment_distance (take i a) (take j b) v -> filled i (S j) (mset d i j v).
Proof.
  intros Hi Hj Hf Hv. apply filled_next; [by apply filled_mset|]. unfold exact.
  rewrite (mget_mset n m) by (lia || apply Hf). by rewrite decide_True.
Qed.

(** One round of the inner loop. *)
Lemma fill_cell_exact d i j :
  (0 < i <= n)%nat -> (0 < j <= m)%nat -> filled i j d -> filled i (S j) (fill_cell first second i d j).
Proof.
  intros Hi Hj Hfd. pose proof Hfd as [Hd Hf]. destruct i as [|i]; [lia|]. destruct j as [|j]; [lia|].
  destruct (char_at first i ltac:(lia)) as [c Hc]. destruct (char_at second j ltac:(lia)) as [e He].
  pose proof (Hf i (S j) ltac:(lia) ltac:(lia) ltac:(lia)) as Hp.
  pose proof (Hf (S i) j ltac:(lia) ltac:(lia) ltac:(lia)) as Hq.
  pose proof (Hf i j ltac:(lia) ltac:(lia) ltac:(lia)) as Hr.
  unfold fill_cell. replace (S i - 1)%nat with i by lia. replace (S j - 1)%nat with j by lia.
  replace (S i - 2)%nat with (i - 1)%nat by lia. replace (S j - 2)%nat with (j - 1)%nat by lia.
  rewrite (char_eqb_spec i j c e) by done. unfold exact in *.
  pose proof (take_S_r _ _ _ Hc) as Ti. pose proof (take_S_r _ _ _ He) as Tj.
  destruct (_ && _ && _ && _) eqn:Hswap.
  - bool_prop. destruct i as [|i]; [done|]. destruct j as [|j]; [done|].
    replace (S i - 1)%nat with i in * by lia. replace (S j - 1)%nat with j in * by lia.
    destruct (char_at first i ltac:(lia)) as [c' Hc']. destruct (char_at second j ltac:(lia)) as [e' He'].
    pose proof (Hf i j ltac:(lia) ltac:(lia) ltac:(lia)) as Hs. unfold exact in Hs.
    rewrite (char_eqb_spec _ _ c e') in * by done. rewrite (char_eqb_spec _ _ c' e) in * by done. bool_prop. subst.
    rewrite !(mget_mset n m) by (done || lia). rewrite decide_True, decide_False by lia.
    rewrite (take_S_r _ _ _ Hc') in Ti. rewrite (take_S_r _ _ _ He') in Tj. rewrite <- app_assoc in Ti, Tj.
    cbn [app] in Ti, Tj. rewrite Ti in Hq. rewrite Tj in Hp.
    rewrite (take_S_r _ _ _ Hc') in Hp, Hr. rewrite (take_S_r _ _ _ He') in Hq, Hr.
    apply filled_put; [done|done|by apply filled_mset|]. rewrite Ti, Tj. by apply least_step_swap.
  - apply filled_put; [done|done|done|]. rewrite Ti in *. rewrite Tj in *. apply least_step; try done.
    intros (a' & b' & Ha & Hb). destruct i as [|i]; [by destruct a'|]. destruct j as [|j]; [by destruct b'|].
    destruct (char_at first i ltac:(lia)) as [c' Hc']. destruct (char_at second j ltac:(lia)) as [e' He'].
    rewrite (take_S_r _ _ _ Hc') in Ha. rewrite (take_S_r _ _ _ He') in Hb.
    apply snoc_inv in Ha as [_ ->]. apply snoc_inv in Hb as [_ ->].
    replace (S i - 1)%nat with i in * by lia. replace (S j - 1)%nat with j in * by lia.
    rewrite (char_eqb_spec _ _ c c), (char_eqb_spec _ _ e e) in Hswap by done.
    by rewrite !bool_decide_true in Hswap.
Qed.

Lemma filled_row_end d i : filled i (S m) d -> filled (S i) 1 d.
Proof. intros [Hd Hf]. split; [done|]. intros i' j' Hi' Hj' Hor. apply Hf; lia. Qed.

Lemma fill_row_exact d i : (0 < i <= n)%nat -> filled i 1 d -> filled (S i) 1 (fill_row first second d i).
Proof.
  intros Hi H1. apply filled_row_end. unfold fill_row.
  apply (foldl_seq_ind (filled i) _ d 1 m); [done|]. intros j d' Hj. apply fill_cell_exact; lia.
Qed.

(** The border: what the two initial loops leave. *)
Lemma dims_zero : dims n m (replicate (S n) (replicate (S m) 0%nat)).
Proof.
  split; [by rewrite length_replicate|]. intros i row [-> _]%lookup_replicate_1. by rewrite length_replicate.
Qed.

Lemma border_column d :
  dims n m d ->
  let d' := foldl (fun d i => mset d i 0 i) d (seq 0 (S n)) in
  dims n m d' /\ forall i, (i <= n)%nat -> mget d' i 0 = i.
Proof.
  intros Hd. cbv zeta.
  pose proof (foldl_seq_ind (fun k d => dims n m d /\ forall i, (i < k)%nat -> mget d i 0 = i)
    (fun d i => mset d i 0 i) d 0 (S n)) as [H1 H2].
  - split; [done|lia].
  - intros i d' Hi [Hd' Hb]. split; [by apply mset_dims|]. intros i' Hi'. rewrite (mget_mset n m) by (done || lia).
    destruct (decide _) as [[-> _]|Hne]; [done|]. apply Hb. lia.
  - split; [exact H1|]. intros i Hi. apply H2. lia.
Qed.

Lemma border_row d :
  dims n m d -> (forall i, (i <= n)%nat -> mget d i 0 = i) ->
  let d' := foldl (fun d j => mset d 0 j j) d (seq 0 (S m)) in
  dims n m d' /\ (forall i, (i <= n)%nat -> mget d' i 0 = i) /\ (forall j, (j <= m)%nat -> mget d' 0 j = j).
Proof.
  intros Hd Hc. cbv zeta.
  pose proof (foldl_seq_ind (fun k d => dims n m d /\ (forall i, (i <= n)%nat -> mget d i 0 = i) /\
    (forall j, (j < k)%nat -> mget d 0 j = j)) (fun d j => mset d 0 j j) d 0 (S m)) as (H1 & H2 & H3).
  - split_and!; [done|done|lia].
  - intros j d' Hj (Hd' & Hi & Hb). split_and!; [by apply mset_dims|intros i' Hi'|intros j' Hj'];
      rewrite (mget_mset n m) by (done || lia); destruct (decide _) as [[]|Hne]; try lia; [by apply Hi|].
    apply Hb. lia.
  - split_and!; [exact H1|exact H2|]. intros j Hj. apply H3. lia.
Qed.

Lemma filled_border d :
  dims n m d -> (forall i, (i <= n)%nat -> mget d i 0 = i) -> (forall j, (j <= m)%nat -> mget d 0 j = j) ->
  filled 1 1 d.
Proof.
  intros Hd Hc Hr. split; [done|]. intros i j Hi Hj Hor.
  assert (i = 0 \/ j = 0)%nat as [->| ->] by lia; unfold exact; cbn [take]; rewrite ?Hc, ?Hr by lia.
  - pose proof (least_insert_all (take j b)) as H. rewrite length_take, length_chars in H. by rewrite Nat.min_l in H by lia.
  - pose proof (least_delete_all (take i a)) as H. rewrite length_take, length_chars in H. by rewrite Nat.min_l in H by lia.
Qed.

Lemma EditDistance_least : alignment_distance a b (EditDistance first second).
Proof.
  unfold EditDistance. destruct (border_column _ dims_zero) as [Hd1 Hc1]. cbv zeta in *.
  destruct (border_row _ Hd1 Hc1) as (Hd2 & Hc2 & Hr2). cbv zeta in *.
  set (d := foldl (fun d j => mset d 0 j j) _ (seq 0 (S m))) in *.
  pose proof (foldl_seq_ind (fun i => filled i 1) (fill_row first second) d 1 n) as H.
  destruct H as [_ Hf]; [by apply filled_border|intros i d' Hi; apply fill_row_exact; lia|].
  specialize (Hf n m). unfold exact in Hf. rewrite !take_ge in Hf by (by rewrite length_chars). apply Hf; lia.
Qed.
End distance.

(** ** The suggestions *)

#[global] Instance pair_le_trans : Transitive pair_le.
Proof.
  intros [x s] [y t] [z u]. unfold pair_le. cbn. intros [H1|[-> H1]] [H2|[-> H2]]; try (left; lia).
  right. split; [done|]. by transitivity t.
Qed.
#[global] Instance pair_le_total : Total pair_le.
Proof.
  intros [x s] [y t]. unfold pair_le. cbn. destruct (Nat.lt_total x y) as [|[->|]]; [tauto| |tauto].
  destruct (total String.le s t); tauto.
Qed.

(** [name] is at the given distance from the input, which is small enough. *)
Definition near (input name : string) (n : nat) : Prop :=
  alignment_distance (chars input) (chars name) n /\ (n <= threshold_of input)%nat /\ (String.length name <= 64)%nat.

Lemma near_EditDistance input name n : near input name n -> n = EditDistance input name.
Proof.
  intros [[H1 H2] _]. destruct (EditDistance_least input name) as [H3 H4].
  specialize (H2 _ H3). specialize (H4 _ H1). lia.
Qed.

Lemma matches_near input names n name :
  (n, name) ∈ foldl (match_name input) [] names <-> name ∈ names /\ near input name n.
Proof.
  induction names as [|x names IH] using rev_ind; cbn [foldl]; [set_solver|].
  rewrite foldl_snoc, elem_of_app, list_elem_of_singleton. unfold match_name at 1.
  destruct (EditDistance_least input x) as [He Hmin]. pose proof (edits_lengths _ _ _ He) as Hlen.
  rewrite !length_chars in Hlen.
  destruct (_ || _ || _) eqn:Hskip.
  - rewrite IH. split; [tauto|]. intros [[Hin| ->] Hn]; [done|]. exfalso.
    pose proof (near_EditDistance _ _ _ Hn) as ->. destruct Hn as (_ & Ht & Hl).
    apply orb_true_iff in Hskip as [[H|H]%orb_true_iff|H]; apply Nat.ltb_lt in H; lia.
  - apply orb_false_iff in Hskip as [[Hl _]%orb_false_iff _]. apply Nat.ltb_ge in Hl.
    destruct (Nat.leb_spec (EditDistance input x) (threshold_of input)) as [Ht|Ht].
    + rewrite elem_of_app, list_elem_of_singleton, IH. split.
      * intros [[Hin Hn]|[= -> ->]]; [tauto|]. split; [by right|]. by split; [|split].
      * intros [[Hin| ->] Hn]; [by left|]. right. by rewrite (near_EditDistance _ _ _ Hn).
    + rewrite IH. split; [tauto|]. intros [[Hin| ->] Hn]; [done|]. exfalso.
      pose proof (near_EditDistance _ _ _ Hn) as ->. destruct Hn as (_ & Ht' & _). lia.
Qed.

Lemma take_or_before {A} (R : A -> A -> Prop) k (l : list A) x :
  StronglySorted R l -> x ∈ l -> x ∈ take k l \/ (length (take k l) = k /\ forall y, y ∈ take k l -> R y x).
Proof.
  intros Hs Hx. rewrite <- (take_drop k l), elem_of_app in Hx. destruct Hx as [Hx|Hx]; [by left|]. right. split.
  - rewrite length_take. destruct (Nat.le_gt_cases k (length l)); [lia|].
    rewrite drop_ge in Hx by lia. by apply not_elem_of_nil in Hx.
  - intros y Hy. rewrite <- (take_drop k l) in Hs. by apply (StronglySorted_app_1_elem_of R (take k l) (drop k l)).
Qed.

(** CA, AC, ABC are two successive edits, but the restricted distance is three. *)
Lemma exchanged_not_edited : EditDistance "CA" "AC" = 1%nat /\ EditDistance "AC" "ABC" = 1%nat /\
  EditDistance "CA" "ABC" = 3%nat /\ Suggest "XCA" ["XABC"] = [].
Proof. by vm_compute. Qed.

Lemma StronglySorted_take {A} (R : A -> A -> Prop) k (l : list A) : StronglySorted R l -> StronglySorted R (take k l).
Proof. intros Hs. rewrite <- (take_drop k l) in Hs. by apply StronglySorted_app_1_l in Hs. Qed.

(** C23: The suggestions for a mistyped command are the nearest ones in the restricted
    (optimal string alignment) distance: the least number of deletions, insertions,
    replacements and exchanges of neighbouring bytes in an alignment of the two
    strings that touches no byte twice (which can be more than the least number of
    successive edits). For an input of 1 to 64 bytes: every suggestion is a given
    name, at most three are made, they are ordered by this distance and then by the
    alphabet, and each is within distance 1 of an input of at most two bytes and
    distance 2 of a longer one. A name of at most 64 bytes within that distance is
    missed only if three names that come before it are suggested. The code's shortcuts
    (the matrix, the tests on the lengths) lose nothing. *)
Theorem suggestions_nearest input names :
  (0 < String.length input <= 64)%nat ->
  exists found : list (nat * string),
    Suggest input names = found.*2 /\ (length found <= 3)%nat /\ StronglySorted pair_le found /\
    (forall n name, (n, name) ∈ found -> name ∈ names /\ near input name n) /\
    (forall n name, name ∈ names -> near input name n ->
       (n, name) ∈ found \/ (length found = 3%nat /\ forall y, y ∈ found -> pair_le y (n, name))).
Proof.
  intros Hin. set (l := merge_sort pair_le (foldl (match_name input) [] names)).
  assert (StronglySorted pair_le l) as Hs by apply (StronglySorted_merge_sort _).
  assert (forall x, x ∈ l <-> x ∈ foldl (match_name input) [] names) as Hl.
  { intros x. unfold l. by rewrite merge_sort_Permutation. }
  exists (take 3 l). split_and!.
  - unfold Suggest. destruct input as [|c input]; [simpl in Hin; lia|]. cbn [is_nil orb].
    by rewrite (proj2 (Nat.ltb_ge _ _)) by lia.
  - rewrite length_take. lia.
  - by apply StronglySorted_take.
  - intros n name Hx%subseteq_take. by apply matches_near, Hl.
  - intros n name Hname Hn. apply take_or_before; [done|]. by apply Hl, matches_near.
Qed.

Lemma suggestions_nearest_witness :
  exists found, Suggest "GTE" ["DEL"; "GET"; "INCR"; "SET"] = found.*2 /\ (1%nat, "GET") ∈ found.
Proof.
  destruct (suggestions_nearest "GTE" ["DEL"; "GET"; "INCR"; "SET"]) as (found & Hf & Hlen & _ & _ & Hall);
    [simpl; lia|].
  exists found. split; [exact Hf|].
  destruct (Hall 1%nat "GET") as [H|[H3 _]]; [set_solver| |exact H|].
  - split; [exact (EditDistance_least "GTE" "GET")|]. split; vm_compute; lia.
  - exfalso. apply (f_equal length) in Hf. rewrite length_fmap, H3 in Hf. by vm_compute in Hf.
Defined.
