(* ===== verification/EventLoop.v ===== *)
(** * The event loop (net/event_loop.h, net/event_loop.cpp)

    Callbacks are data of a type [C]; what a callback does to the world [W], the loop
    included, is given by [call].  [epoll] is what [epoll_wait] answers for a timeout;
    clock readings are in nanoseconds.  Whether [epoll_ctl] succeeds is an argument of
    [Add]; the events a descriptor is watched for belong to the channel. *)
From S2P Require Import Prelude.

Record EventLoop (C : Type) := mkLoop {
  running_ : bool;
  timer_interval_ms_ : Z;
  timer_callback_ : bool;
  last_tick_ : Z;
  callbacks_ : gmap Z C;
  wakeup_ : bool;
}.
Arguments mkLoop {C}. Arguments running_ {C}. Arguments timer_interval_ms_ {C}. Arguments timer_callback_ {C}.
Arguments last_tick_ {C}. Arguments callbacks_ {C}. Arguments wakeup_ {C}.

Section loop.
Context {C : Type}.
Implicit Types l : EventLoop C.

(** The constructor registers the wake-up descriptor, if there is one. *)
Definition NewLoop (wakeup : option (Z * C)) : EventLoop C :=
  mkLoop false (-1) false 0 (match wakeup with Some (fd, cb) => {[fd := cb]} | None => ∅ end) false.

Definition set_callbacks l (m : gmap Z C) : EventLoop C :=
  mkLoop (running_ l) (timer_interval_ms_ l) (timer_callback_ l) (last_tick_ l) m (wakeup_ l).
Definition Add (ok : bool) l (fd : Z) (callback : C) : EventLoop C :=
  if ok then set_callbacks l (<[fd := callback]> (callbacks_ l)) else l.
Definition Remove l (fd : Z) : EventLoop C := set_callbacks l (delete fd (callbacks_ l)).

Definition SetPeriodicTimer l (interval_ms : Z) (callback : bool) (now : Z) : EventLoop C :=
  if (interval_ms <? 0) || negb callback
  then mkLoop (running_ l) (-1) false (last_tick_ l) (callbacks_ l) (wakeup_ l)
  else mkLoop (running_ l) interval_ms true now (callbacks_ l) (wakeup_ l).

Definition set_running l (b : bool) : EventLoop C :=
  mkLoop b (timer_interval_ms_ l) (timer_callback_ l) (last_tick_ l) (callbacks_ l) (wakeup_ l).
Definition Wakeup l : EventLoop C :=
  mkLoop (running_ l) (timer_interval_ms_ l) (timer_callback_ l) (last_tick_ l) (callbacks_ l) true.
Definition Stop l : EventLoop C := Wakeup (set_running l false).
Definition set_last_tick l (now : Z) : EventLoop C :=
  mkLoop (running_ l) (timer_interval_ms_ l) (timer_callback_ l) now (callbacks_ l) (wakeup_ l).

Definition HasTimer l : bool := (0 <=? timer_interval_ms_ l) && timer_callback_ l.

(** [duration_cast<milliseconds>(now - last_tick_).count()] *)
Definition elapsed_ms l (now : Z) : Z := Z.quot (now - last_tick_ l) 1000000.

Definition effective_timeout l (timeout_ms now : Z) : Z :=
  if HasTimer l then
    let effective :=
      if timer_interval_ms_ l =? 0 then 0
      else let remaining := i32 (timer_interval_ms_ l - elapsed_ms l now) in
           if 0 <? remaining then remaining else 0 in
    if (0 <=? timeout_ms) && (timeout_ms <? effective) then timeout_ms else effective
  else timeout_ms.
End loop.

(** The outcomes of [epoll_wait]; each event with what the calls of its callback
    meet. *)
Inductive epoll_result (IO : Type) := EpollEvents (events : list (Z * Z * IO)) | EpollIntr | EpollFailed.
Arguments EpollEvents {IO}. Arguments EpollIntr {IO}. Arguments EpollFailed {IO}.

(** The part of the world that is its event loop. *)
Class HasLoop (W C : Type) := {
  loop_of : W -> EventLoop C;
  with_loop : W -> EventLoop C -> W;
  loop_with : forall w l, loop_of (with_loop w l) = l;
}.

Section run.
Context {W C IO : Type} `{!HasLoop W C}.
Context (call : C -> Z -> IO -> W -> option W) (on_timer : Z -> W -> option W).

(** The loop over the events: a callback is looked up when its turn comes. *)
Fixpoint dispatch_events (w : W) (events : list (Z * Z * IO)) : option W :=
  match events with
  | [] => Some w
  | (fd, ev, io) :: events =>
      match callbacks_ (loop_of w) !! fd with
      | None => dispatch_events w events
      | Some cb => match call cb ev io w with Some w => dispatch_events w events | None => None end
      end
  end.

(** The timer at the end of [RunOnce]. *)
Definition run_timer (w : W) (now : Z) : option W :=
  let l := loop_of w in
  if HasTimer l && (timer_interval_ms_ l <=? elapsed_ms l now)
  then on_timer now (with_loop w (set_last_tick l now)) else Some w.

(** [inr]: the exception. *)
Definition RunOnce (w : W) (timeout_ms now : Z) (epoll : Z -> epoll_result IO) (after : Z) : option W + string :=
  match epoll (effective_timeout (loop_of w) timeout_ms now) with
  | EpollIntr => inl (Some w)
  | EpollFailed => inr "epoll_wait failed"
  | EpollEvents events =>
      inl (match dispatch_events w events with Some w => run_timer w after | None => None end)
  end.

(** One round of [Run]: the clock before, [epoll_wait], the clock after. *)
Definition round : Type := Z * (Z -> epoll_result IO) * Z.

(** The rounds of [Run] until [running_] is false or the given rounds are over. *)
Fixpoint run_rounds (w : W) (rounds : list round) : option W + string :=
  if running_ (loop_of w) then
    match rounds with
    | [] => inl (Some w)
    | (now, epoll, after) :: rounds =>
        match RunOnce w (-1) now epoll after with
        | inr e => inr e
        | inl None => inl None
        | inl (Some w) => run_rounds w rounds
        end
    end
  else inl (Some w).
Definition Run (w : W) (rounds : list round) : option W + string :=
  run_rounds (with_loop w (set_running (loop_of w) true)) rounds.
End run.

(** A [Stop] before [Run] is forgotten: [Run] sets the flag again. *)
Lemma stop_before_run_lost {W C IO} {HL : HasLoop W C} (call : C -> Z -> IO -> W -> option W) on_timer (w : W) rounds :
  Run call on_timer (with_loop w (Stop (loop_of w))) rounds =
  run_rounds call on_timer (with_loop (with_loop w (Stop (loop_of w))) (set_running (Wakeup (loop_of w)) true)) rounds.
Proof. unfold Run. by rewrite loop_with. Qed.

(** ** The timer *)

Section timer.
Context {W C IO : Type} {HL : HasLoop W C}.
Context (call : C -> Z -> IO -> W -> option W) (on_timer : Z -> W -> option W).

(** The timer and its last tick are as they were. *)
Definition keeps_timer (l l' : EventLoop C) : Prop :=
  timer_interval_ms_ l' = timer_interval_ms_ l /\ timer_callback_ l' = timer_callback_ l /\ last_tick_ l' = last_tick_ l.

(** The world with the times at which the timer callback has been called. *)
#[local] Instance ticking : HasLoop (W * list Z) C := {|
  loop_of wt := loop_of wt.1;
  with_loop wt l := (with_loop wt.1 l, wt.2);
  loop_with wt l := loop_with wt.1 l |}.
Definition call_ticking (cb : C) (ev : Z) (io : IO) (wt : W * list Z) : option (W * list Z) :=
  (fun w => (w, wt.2)) <$> call cb ev io wt.1.
Definition timer_ticking (now : Z) (wt : W * list Z) : option (W * list Z) :=
  (fun w => (w, wt.2 ++ [now])) <$> on_timer now wt.1.

(** Clock readings that do not go back. *)
Fixpoint steady (t : Z) (rounds : list (round (IO := IO))) : Prop :=
  match rounds with
  | [] => True
  | (now, _, after) :: rounds => t <= now <= after /\ steady after rounds
  end.

(** Each tick is at least [interval_ms] after the one before it. *)
Fixpoint spaced (interval_ms t : Z) (ticks : list Z) : Prop :=
  match ticks with
  | [] => True
  | x :: ticks => t + interval_ms * 1000000 <= x /\ spaced interval_ms x ticks
  end.

Hypothesis call_keeps : forall cb ev io w w', call cb ev io w = Some w' -> keeps_timer (loop_of w) (loop_of w').
Hypothesis timer_keeps : forall now w w', on_timer now w = Some w' -> keeps_timer (loop_of w) (loop_of w').

Lemma dispatch_keeps events w w' :
  dispatch_events call w events = Some w' -> keeps_timer (loop_of w) (loop_of w').
Proof.
  revert w. induction events as [|[[fd ev] io] events IH]; intros w; cbn [dispatch_events]; [by intros [= <-]|].
  destruct (callbacks_ (loop_of w) !! fd) as [cb|]; [|apply IH].
  destruct (call cb ev io w) as [w1|] eqn:Hc; [|done]. intros Hd.
  destruct (call_keeps _ _ _ _ _ Hc) as (? & ? & ?), (IH _ Hd) as (? & ? & ?). split_and!; congruence.
Qed.

(** The recorded ticks do not change what is done. *)
Lemma dispatch_ticking events w ts :
  dispatch_events call_ticking (w, ts) events = (fun w => (w, ts)) <$> dispatch_events call w events.
Proof.
  revert w. induction events as [|[[fd ev] io] events IH]; intros w; [done|]. cbn [dispatch_events].
  change (loop_of (w, ts)) with (loop_of w). destruct (callbacks_ (loop_of w) !! fd) as [cb|]; [|apply IH].
  unfold call_ticking at 1. cbn [fst snd]. by destruct (call cb ev io w); [apply IH|].
Qed.

(** The tick is due when the interval has passed. *)
Lemma due_time (l : EventLoop C) after :
  0 <= timer_interval_ms_ l -> last_tick_ l <= after ->
  (timer_interval_ms_ l <=? elapsed_ms l after) = (last_tick_ l + timer_interval_ms_ l * 1000000 <=? after).
Proof.
  intros Hi Ha. unfold elapsed_ms. rewrite Z.quot_div_nonneg by lia.
  destruct (Z.leb_spec (last_tick_ l + timer_interval_ms_ l * 1000000) after).
  - apply Z.leb_le, Z.div_le_lower_bound; lia.
  - apply Z.leb_gt, Z.div_lt_upper_bound; lia.
Qed.
Lemma HasTimer_interval (l : EventLoop C) : HasTimer l = true -> 0 <= timer_interval_ms_ l.
Proof. unfold HasTimer. intros. bool_prop. lia. Qed.
Lemma keeps_HasTimer l l' : keeps_timer l l' -> HasTimer l' = HasTimer l.
Proof. intros (Hi & Hc & _). unfold HasTimer. by rewrite Hi, Hc. Qed.

(** A round in which [epoll_wait] reports any events. *)
Lemma round_timer w w1 now timeout_ms epoll events after :
  HasTimer (loop_of w) = true -> last_tick_ (loop_of w) <= after ->
  epoll (effective_timeout (loop_of w) timeout_ms now) = EpollEvents events -> dispatch_events call w events = Some w1 ->
  RunOnce call on_timer w timeout_ms now epoll after =
  inl (if last_tick_ (loop_of w) + timer_interval_ms_ (loop_of w) * 1000000 <=? after
       then on_timer after (with_loop w1 (set_last_tick (loop_of w1) after)) else Some w1).
Proof.
  intros Ht Ha He Hd. unfold RunOnce. rewrite He, Hd. unfold run_timer.
  pose proof (dispatch_keeps _ _ _ Hd) as Hk. rewrite (keeps_HasTimer _ _ Hk), Ht.
  pose proof (HasTimer_interval _ Ht). destruct Hk as (Hi & _ & Hl).
  rewrite due_time by (rewrite ?Hi, ?Hl; lia). by rewrite Hi, Hl.
Qed.

Lemma ticks_spaced rounds t w ts w' ts' :
  HasTimer (loop_of w) = true -> last_tick_ (loop_of w) <= t -> steady t rounds ->
  run_rounds call_ticking timer_ticking (w, ts) rounds = inl (Some (w', ts')) ->
  exists new, ts' = ts ++ new /\ spaced (timer_interval_ms_ (loop_of w)) (last_tick_ (loop_of w)) new.
Proof.
  revert t w ts. induction rounds as [|[[now epoll] after] rounds IH]; intros t w ts Ht Hl Hs; cbn [run_rounds];
    change (loop_of (w, ts)) with (loop_of w); destruct (running_ (loop_of w));
    try (intros [= <- <-]; exists []; by rewrite app_nil_r).
  cbn [steady] in Hs. destruct Hs as [Hn Hs]. unfold RunOnce. change (loop_of (w, ts)) with (loop_of w).
  destruct (epoll (effective_timeout (loop_of w) (-1) now)) as [events| |]; [|by apply (IH after); [|lia|]|done].
  rewrite dispatch_ticking. destruct (dispatch_events call w events) as [w1|] eqn:Hd; [|done]. cbn [fmap option_fmap option_map].
  pose proof (dispatch_keeps _ _ _ Hd) as Hk. pose proof (keeps_HasTimer _ _ Hk) as Ht1. rewrite Ht in Ht1.
  destruct Hk as (Hi1 & _ & Hl1). pose proof (HasTimer_interval _ Ht).
  unfold run_timer. change (loop_of (w1, ts)) with (loop_of w1). rewrite Ht1, due_time by lia. cbn [andb].
  destruct (Z.leb_spec (last_tick_ (loop_of w1) + timer_interval_ms_ (loop_of w1) * 1000000) after) as [Hdue|Hdue].
  2:{ intros Hr. apply (IH after) in Hr as (new & -> & Hsp); [|done|lia|done]. exists new. by rewrite Hi1, Hl1 in Hsp. }
  unfold timer_ticking at 1. cbn [fst snd with_loop ticking].
  destruct (on_timer after (with_loop w1 (set_last_tick (loop_of w1) after))) as [w2|] eqn:Hot; [|done].
  cbn [fmap option_fmap option_map]. apply timer_keeps in Hot. pose proof (keeps_HasTimer _ _ Hot) as Ht2.
  destruct Hot as (Hi2 & _ & Hl2). rewrite loop_with in Hi2, Hl2, Ht2. cbn [set_last_tick timer_interval_ms_ last_tick_] in Hi2, Hl2.
  intros Hr. apply (IH after) in Hr as (new & -> & Hsp); [|by rewrite Ht2|lia|done].
  exists (after :: new). rewrite <- app_assoc. split; [done|]. cbn [spaced].
  rewrite Hi2, Hl2, Hi1 in Hsp. split; [lia|done].
Qed.

(** What [Run] asks of [epoll_wait]: up to the next tick, and not at all when it is due. *)
Lemma timeout_to_tick (l : EventLoop C) now :
  HasTimer l = true -> timer_interval_ms_ l < 2 ^ 31 -> last_tick_ l <= now -> elapsed_ms l now < 2 ^ 31 ->
  let timeout := effective_timeout l (-1) now in
  0 <= timeout <= timer_interval_ms_ l /\
  last_tick_ l + timer_interval_ms_ l * 1000000 <= now + timeout * 1000000 /\
  (0 < timeout -> now + (timeout - 1) * 1000000 < last_tick_ l + timer_interval_ms_ l * 1000000).
Proof.
  intros Ht Hi Hn He. cbv zeta. pose proof (HasTimer_interval _ Ht) as Hpos.
  assert (elapsed_ms l now = (now - last_tick_ l) / 1000000) as Hq by (unfold elapsed_ms; apply Z.quot_div_nonneg; lia).
  pose proof (Z.div_pos (now - last_tick_ l) 1000000 ltac:(lia) ltac:(lia)) as Hd.
  pose proof (Z.div_mod (now - last_tick_ l) 1000000 ltac:(lia)) as Hm.
  pose proof (Z.mod_pos_bound (now - last_tick_ l) 1000000 ltac:(lia)) as Hb.
  assert (effective_timeout l (-1) now = Z.max 0 (timer_interval_ms_ l - elapsed_ms l now)) as ->.
  { unfold effective_timeout. rewrite Ht. cbn [Z.leb Z.compare andb].
    destruct (Z.eqb_spec (timer_interval_ms_ l) 0) as [E|E]; [lia|].
    unfold i32. rewrite Z.mod_small by lia.
    destruct (Z.ltb_spec 0 (timer_interval_ms_ l - elapsed_ms l now + 2 ^ 31 - 2 ^ 31)); lia. }
  rewrite Hq. lia.
Qed.

(** C22: The periodic timer is neither early nor overslept, whatever events come.  Take
    an event loop with a timer whose callbacks leave the timer alone, and a clock that
    does not go back.  In every run of [Run], over any rounds with any events,
    interruptions and callbacks, the timer callback is called only when at least the
    interval has passed since the call before it (since the last tick, for the first).
    In each round the time given to [epoll_wait] is within 0..interval, ends no sooner
    than the next tick and less than a millisecond after it; and after the callbacks of the
    events the timer is called, with the last tick moved to the present, exactly when
    the interval has passed, so that a wait as long as asked ends with it.  (The interval
    and the time since the last tick must stay below 2^31 ms, else the conversion to int wraps.) *)
Theorem timer_period (w : W) :
  let l := loop_of w in
  HasTimer l = true -> timer_interval_ms_ l < 2 ^ 31 ->
  (forall rounds w' ticks, steady (last_tick_ l) rounds ->
     run_rounds call_ticking timer_ticking (w, []) rounds = inl (Some (w', ticks)) ->
     spaced (timer_interval_ms_ l) (last_tick_ l) ticks) /\
  forall now epoll after, last_tick_ l <= now <= after -> elapsed_ms l now < 2 ^ 31 ->
    let timeout := effective_timeout l (-1) now in
    let tick := last_tick_ l + timer_interval_ms_ l * 1000000 in
    0 <= timeout <= timer_interval_ms_ l /\ tick <= now + timeout * 1000000 /\
    (0 < timeout -> now + (timeout - 1) * 1000000 < tick) /\
    forall events w1, epoll timeout = EpollEvents events -> dispatch_events call w events = Some w1 ->
      RunOnce call on_timer w (-1) now epoll after =
      inl (if tick <=? after then on_timer after (with_loop w1 (set_last_tick (loop_of w1) after)) else Some w1).
Proof.
  cbv zeta. intros Ht Hi. split.
  - intros rounds w' ticks Hs Hr. by destruct (ticks_spaced rounds _ w [] w' ticks Ht (Z.le_refl _) Hs Hr) as (new & -> & ?).
  - intros now epoll after Hn He. destruct (timeout_to_tick _ now Ht Hi ltac:(lia) He) as (H1 & H2 & H3).
    split_and!; [lia..|done|]. intros events w1 Hep Hd. apply (round_timer _ _ _ _ _ events); (done || lia).
Qed.
End timer.

#[local] Instance plain_loop : HasLoop (EventLoop unit) unit :=
  {| loop_of l := l; with_loop _ l := l; loop_with _ _ := eq_refl |}.

(** A loop whose callbacks unregister themselves. *)
Definition one_shot (cb : unit) (ev : Z) (io : Z) (l : EventLoop unit) : option (EventLoop unit) := Some (Remove l io).

Lemma timer_period_witness :
  let l := mkLoop true 100 true 5000000 ({[7 := tt]} : gmap Z unit) false in
  effective_timeout l (-1) 35000000 = 70 /\
  RunOnce one_shot (fun _ l => Some l) l (-1) 35000000 (fun _ => EpollEvents [(7, 1, 7)]) 105000000 =
    inl (Some (mkLoop true 100 true 105000000 (∅ : gmap Z unit) false)) /\
  spaced 100 5000000 [105000000; 206000000].
Proof.
  cbv zeta. split; [reflexivity|].
  assert (forall cb ev io (w w' : EventLoop unit), one_shot cb ev io w = Some w' -> keeps_timer (loop_of w) (loop_of w'))
    as Hc by (by intros cb ev io w w' [= <-]).
  assert (forall (now : Z) (w w' : EventLoop unit), Some w = Some w' -> keeps_timer (loop_of w) (loop_of w'))
    as Ht by (by intros now w w' [= <-]).
  destruct (timer_period one_shot (fun _ l => Some l) Hc Ht (mkLoop true 100 true 5000000 ({[7 := tt]} : gmap Z unit) false))
    as (Hrun & Hround); [reflexivity|reflexivity|]. split.
  - destruct (Hround 35000000 (fun _ => EpollEvents [(7, 1, 7)]) 105000000) as (_ & _ & _ & Hr); [cbn; lia|reflexivity|].
    rewrite (Hr [(7, 1, 7)] (mkLoop true 100 true 5000000 ∅ false)); reflexivity.
  - eapply (Hrun [(35000000, fun _ => EpollEvents [(7, 1, 7)], 105000000); (106000000, fun _ => EpollIntr, 107000000);
      (110000000, fun _ => EpollEvents [], 206000000)]).
    + cbn. lia.
    + vm_compute. reflexivity.
Defined.
