(* ===== verification/Socket.v ===== *)
(** * Sockets

    A socket is given by what its calls answer: the programs that use it are run
    against a sequence of such answers, and the theorems hold for every sequence
    they name. *)
From S2P Require Import Prelude.

(** What [send] answers: bytes accepted (at most those offered), would block,
    interrupted, another error. *)
Inductive send_result := Sent (n : nat) | Again | Intr | SendFailed.

(** What [recv] answers: bytes (no bytes are the end of the stream), the end of the stream, would block, interrupted,
    another error. *)
Inductive recv_result := Received (data : string) | RecvEof | RecvAgain | RecvIntr | RecvFailed.
