(* ===== verification/Channel.v ===== *)
(** * Binary connections (net/session.h, net/channel.h, net/channel.cpp)

    A channel reads chunks, decodes frames, hands each payload to the request
    handler and sends the answer; what the socket does not take is queued and
    written when the socket is writable again.  [sends i] is the answer of the
    [i]-th [send] on the socket and [times i] the [i]-th reading of the steady
    clock; [sent] collects the bytes the socket accepted and [armed] says whether
    the event loop watches for EPOLLOUT.  The handler is a parameter: a function of
    its own state and the payload, [None] where the language leaves its behaviour
    undefined. *)
From S2P Require Import Prelude Frame Decoder Streams Socket.

Record Session := mkSession {
  requests_count_ : Z;
  bytes_received_ : Z;
  bytes_sent_ : Z;
  decoder_ : Decoder;
  stream_manager_ : StreamManager;
}.
Definition new_session : Session := mkSession 0 0 0 new_decoder (new_manager 1024 30000).

Definition IncrementRequests (s : Session) : Session :=
  mkSession (u64 (requests_count_ s + 1)) (bytes_received_ s) (bytes_sent_ s) (decoder_ s)
    (stream_manager_ s).
Definition AddBytesReceived (s : Session) (bytes : Z) : Session :=
  mkSession (requests_count_ s) (u64 (bytes_received_ s + bytes)) (bytes_sent_ s) (decoder_ s)
    (stream_manager_ s).
Definition AddBytesSent (s : Session) (bytes : Z) : Session :=
  mkSession (requests_count_ s) (bytes_received_ s) (u64 (bytes_sent_ s + bytes)) (decoder_ s)
    (stream_manager_ s).
Definition set_decoder (s : Session) (d : Decoder) : Session :=
  mkSession (requests_count_ s) (bytes_received_ s) (bytes_sent_ s) d (stream_manager_ s).
Definition set_streams (s : Session) (m : StreamManager) : Session :=
  mkSession (requests_count_ s) (bytes_received_ s) (bytes_sent_ s) (decoder_ s) m.

Definition SessionPush (s : Session) (bytes : string) : Session * list Frame * option string :=
  let '(d, frames, error) := Push (decoder_ s) bytes in (set_decoder s d, frames, error).

Definition kMaxWriteBufferSize : Z := 64 * 1024 * 1024.

Record Channel := mkChan {
  session_ : Session;
  write_buffer_ : string;
  write_offset_ : nat;
  closed_ : bool;
  armed : bool;
  sent : string;
  send_calls : nat;
  clock_calls : nat;
}.
Definition new_channel : Channel := mkChan new_session "" 0 false false "" 0 0.

Definition on_session (c : Channel) (f : Session -> Session) : Channel :=
  mkChan (f (session_ c)) (write_buffer_ c) (write_offset_ c) (closed_ c) (armed c) (sent c)
    (send_calls c) (clock_calls c).
Definition set_queue (c : Channel) (buffer : string) (offset : nat) : Channel :=
  mkChan (session_ c) buffer offset (closed_ c) (armed c) (sent c) (send_calls c) (clock_calls c).
Definition set_armed (c : Channel) (b : bool) : Channel :=
  mkChan (session_ c) (write_buffer_ c) (write_offset_ c) (closed_ c) b (sent c) (send_calls c)
    (clock_calls c).
Definition Close (c : Channel) : Channel :=
  mkChan (session_ c) (write_buffer_ c) (write_offset_ c) true (armed c) (sent c) (send_calls c)
    (clock_calls c).
(** One more call of [send]; the socket took [data]. *)
Definition accepted (c : Channel) (data : string) : Channel :=
  mkChan (AddBytesSent (session_ c) (slen data)) (write_buffer_ c) (write_offset_ c) (closed_ c)
    (armed c) (sent c +:+ data) (S (send_calls c)) (clock_calls c).
Definition refused (c : Channel) : Channel :=
  mkChan (session_ c) (write_buffer_ c) (write_offset_ c) (closed_ c) (armed c) (sent c)
    (S (send_calls c)) (clock_calls c).
Definition tick (c : Channel) : Channel :=
  mkChan (session_ c) (write_buffer_ c) (write_offset_ c) (closed_ c) (armed c) (sent c)
    (send_calls c) (S (clock_calls c)).

(** The queued bytes the socket has not taken. *)
Definition pending (c : Channel) : string := str_drop (write_offset_ c) (write_buffer_ c).

Section channel.
Context (sends : nat -> send_result) (times : nat -> Z).

(** The end of [Send]: the limit, the queue and EPOLLOUT. *)
Definition enqueue (c : Channel) (data : string) : Channel :=
  if kMaxWriteBufferSize <? slen (write_buffer_ c) - Z.of_nat (write_offset_ c) + slen data then Close c
  else set_armed (set_queue c (write_buffer_ c +:+ data) (write_offset_ c)) true.

Definition Send (c : Channel) (data : string) : Channel :=
  if closed_ c then c
  else
    let c := if (write_offset_ c =? String.length (write_buffer_ c))%nat then set_queue c "" 0 else c in
    if is_nil (write_buffer_ c) then
      match sends (send_calls c) with
      | Sent n =>
          let written := Nat.min n (String.length data) in
          if (0 <? written)%nat then
            let c := accepted c (str_take written data) in
            if (written =? String.length data)%nat then c else enqueue c (str_drop written data)
          else enqueue (refused c) data
      | Again | Intr => enqueue (refused c) data
      | SendFailed => Close (refused c)
      end
    else enqueue c data.

(** The loop of [HandleWrite], one [send] a round; [None]: [fuel] rounds were not
    enough. *)
Fixpoint write_loop (fuel : nat) (c : Channel) : option Channel :=
  if closed_ c || (String.length (write_buffer_ c) <=? write_offset_ c)%nat then Some c
  else
    match fuel with
    | O => None
    | S fuel =>
        match sends (send_calls c) with
        | Sent n =>
            let written := Nat.min n (String.length (pending c)) in
            if (0 <? written)%nat then
              let offset := (write_offset_ c + written)%nat in
              let c := accepted c (str_take written (pending c)) in
              if (offset =? String.length (write_buffer_ c))%nat then Some (set_queue c "" 0)
              else write_loop fuel (set_queue c (write_buffer_ c) offset)
            else write_loop fuel (refused c)
        | Again => Some (refused c)
        | Intr => write_loop fuel (refused c)
        | SendFailed => Some (Close (refused c))
        end
    end.

Definition after_write (c : Channel) : Channel :=
  if negb (closed_ c) && (write_offset_ c =? String.length (write_buffer_ c))%nat
  then set_armed (set_queue c "" 0) false else c.

Definition HandleWrite (fuel : nat) (c : Channel) : option Channel := after_write <$> write_loop fuel c.

Section read.
Context {H : Type} (handler_ : H -> string -> option (H * string)).

Definition is_end_stream (f : Frame) : bool := negb (Z.land (h_flags (f_header f)) kEndStream =? 0).

Definition too_many_streams (f : Frame) : string :=
  EncodeError (h_request_id (f_header f)) (h_stream_id (f_header f)) "TOO_MANY_STREAMS"
    "Maximum concurrent streams exceeded" true.

(** The session changes before the handler is called. *)
Definition open_frame (c : Channel) (frame : Frame) : Channel :=
  let stream_id := h_stream_id (f_header frame) in
  let c := if stream_id =? 0 then c
           else on_session (tick c) (fun s =>
             set_streams s (GetOrCreateStream (stream_manager_ s) stream_id (times (clock_calls c))).1) in
  on_session c IncrementRequests.
(** The session changes after the response. *)
Definition close_frame (c : Channel) (frame : Frame) : Channel :=
  let stream_id := h_stream_id (f_header frame) in
  if negb (stream_id =? 0) && is_end_stream frame
  then on_session c (fun s => set_streams s (CloseStream (stream_manager_ s) stream_id)) else c.

(** The [for] loop over the decoded frames.  The [continue] of a refused stream skips
    the test of [closed_] at the end of the body. *)
Fixpoint handle_frames (c : Channel) (h : H) (frames : list Frame) : option (Channel * H) :=
  match frames with
  | [] => Some (c, h)
  | frame :: frames =>
      let stream_id := h_stream_id (f_header frame) in
      if negb (stream_id =? 0) && negb (CanOpenStream (stream_manager_ (session_ c)) stream_id)
      then handle_frames (Send c (too_many_streams frame)) h frames
      else
        match handler_ h (f_payload frame) with
        | None => None
        | Some (h, response) =>
            let c := Send (open_frame c frame)
                       (EncodeResponse (h_request_id (f_header frame)) stream_id response
                          (is_end_stream frame)) in
            let c := close_frame c frame in
            if closed_ c then Some (c, h) else handle_frames c h frames
        end
  end.

(** [HandleRead] on the answers of [recv]; the end of the list is EAGAIN. *)
Fixpoint HandleRead (script : list recv_result) (c : Channel) (h : H) : option (Channel * H) :=
  if closed_ c then Some (c, h)
  else
    match script with
    | [] | RecvAgain :: _ => Some (c, h)
    | RecvIntr :: script => HandleRead script c h
    | RecvEof :: _ | Received "" :: _ | RecvFailed :: _ => Some (Close c, h)
    | Received data :: script =>
        let c := on_session c (fun s => AddBytesReceived s (slen data)) in
        let '(s, frames, error) := SessionPush (session_ c) data in
        let c := on_session c (fun _ => s) in
        match error with
        | Some error => Some (Close (Send c (EncodeError 0 0 "PROTOCOL_ERROR" error true)), h)
        | None =>
            match handle_frames c h frames with
            | None => None
            | Some (c, h) => HandleRead script c h
            end
        end
    end.

(** [HandleEvents] with the bits of [events] that it tests. *)
Definition HandleEvents (readable writable hangup : bool) (script : list recv_result) (fuel : nat)
    (c : Channel) (h : H) : option (Channel * H) :=
  if closed_ c then Some (c, h)
  else
    match (if readable then HandleRead script c h else Some (c, h)) with
    | None => None
    | Some (c, h) =>
        match (if negb (closed_ c) && writable then HandleWrite fuel c else Some c) with
        | None => None
        | Some c => Some (if negb (closed_ c) && hangup then Close c else c, h)
        end
    end.

End read.
End channel.

(** ** The invariant of a channel *)

Record chan_ok (c : Channel) : Prop := mk_chan_ok {
  ok_offset : (write_offset_ c <= String.length (write_buffer_ c))%nat;
  ok_limit : slen (pending c) <= kMaxWriteBufferSize;
  ok_count : bytes_sent_ (session_ c) = u64 (slen (sent c));
  ok_armed : closed_ c = false -> pending c <> "" -> armed c = true;
}.

Lemma new_channel_ok : chan_ok new_channel.
Proof. by split. Qed.

(** What the operations on the session keep. *)
Lemma on_session_ok c f :
  bytes_sent_ (f (session_ c)) = bytes_sent_ (session_ c) -> chan_ok c -> chan_ok (on_session c f).
Proof. intros Hf [H1 H2 H3 H4]. split; try done. cbn. by rewrite Hf. Qed.
Lemma tick_ok c : chan_ok c -> chan_ok (tick c).
Proof. by intros [H1 H2 H3 H4]. Qed.
Lemma refused_ok c : chan_ok c -> chan_ok (refused c).
Proof. by intros [H1 H2 H3 H4]. Qed.
Lemma Close_ok c : chan_ok c -> chan_ok (Close c).
Proof. by intros [H1 H2 H3 H4]. Qed.

Lemma u64_add_u64 a b : u64 (u64 a + b) = u64 (a + b).
Proof. unfold u64. by rewrite Z.add_mod_idemp_l. Qed.
Lemma accepted_count c data :
  bytes_sent_ (session_ c) = u64 (slen (sent c)) ->
  bytes_sent_ (session_ (accepted c data)) = u64 (slen (sent (accepted c data))).
Proof. intros H. cbn. rewrite H, u64_add_u64. f_equal. unfold slen. rewrite str_length_app. lia. Qed.

Lemma slen_pending c :
  (write_offset_ c <= String.length (write_buffer_ c))%nat ->
  slen (pending c) = slen (write_buffer_ c) - Z.of_nat (write_offset_ c).
Proof. intros H. unfold pending, slen. rewrite str_drop_length. lia. Qed.

Lemma str_drop_app_within n s t :
  (n <= String.length s)%nat -> str_drop n (s +:+ t) = str_drop n s +:+ t.
Proof. apply str_drop_app_le. Qed.

(** [c'] has the bytes of [c] and then [data], on the socket or in the queue, unless
    the queue is full. *)
Record delivers (c : Channel) (data : string) (c' : Channel) : Prop := mk_delivers {
  dl_ok : chan_ok c';
  dl_decoder : decoder_ (session_ c') = decoder_ (session_ c);
  dl_streams : stream_manager_ (session_ c') = stream_manager_ (session_ c);
  dl_bytes : slen (pending c) + slen data <= kMaxWriteBufferSize ->
    closed_ c' = false /\ sent c' +:+ pending c' = sent c +:+ pending c +:+ data /\
    slen (pending c') <= slen (pending c) + slen data;
}.

(** Two channels that differ in their counters of calls only. *)
Definition alike (c c1 : Channel) : Prop :=
  pending c1 = pending c /\ sent c1 = sent c /\ decoder_ (session_ c1) = decoder_ (session_ c) /\
  stream_manager_ (session_ c1) = stream_manager_ (session_ c).

Lemma delivers_alike c c1 data c' : alike c c1 -> delivers c1 data c' -> delivers c data c'.
Proof.
  intros (Hp & Hs & Hd & Hm) [H1 H2 H3 H4]. rewrite Hp, Hs, Hd, Hm in *. by split.
Qed.

Lemma enqueue_delivers c data : chan_ok c -> closed_ c = false -> delivers c data (enqueue c data).
Proof.
  intros Hok Hc. unfold enqueue. rewrite <- slen_pending by apply Hok.
  destruct (Z.ltb_spec kMaxWriteBufferSize (slen (pending c) + slen data)) as [Hlt|Hle].
  { split; [by apply Close_ok|done|done|lia]. }
  assert (pending (set_armed (set_queue c (write_buffer_ c +:+ data) (write_offset_ c)) true) =
          pending c +:+ data) as Hp by (unfold pending; cbn; apply str_drop_app_le, Hok).
  destruct Hok as [H1 H2 H3 H4]. pose proof (str_length_app (pending c) data) as Hl.
  split; try done.
  - split; try done; [cbn; rewrite str_length_app; lia|]. rewrite Hp. unfold slen in *. lia.
  - intros _. rewrite Hp. split_and!; [done|done|]. unfold slen in *. lia.
Qed.

(** The queue is empty and the socket takes a first part. *)
Lemma accepted_delivers c pre rest c' :
  pending c = "" -> delivers (accepted c pre) rest c' -> delivers c (pre +:+ rest) c'.
Proof.
  intros Hp [H1 H2 H3 H4].
  assert (pending (accepted c pre) = "") as Hp' by done. rewrite Hp' in H4.
  split; try done. rewrite Hp. intros Hl. pose proof (slen_nonneg pre).
  assert (slen (pre +:+ rest) = slen pre + slen rest) as Hl' by (unfold slen; rewrite str_length_app; lia).
  destruct H4 as (Hc & Hb & Hn); [rewrite slen_nil in *; lia|].
  split_and!; [done| |lia]. rewrite Hb. cbn [sent accepted]. by rewrite !str_app_nil_l, str_app_assoc.
Qed.

Lemma accepted_ok c data : chan_ok c -> chan_ok (accepted c data).
Proof. intros [H1 H2 H3 H4]. split; try done. by apply accepted_count. Qed.

Lemma clear_alike c :
  chan_ok c ->
  let c1 := if (write_offset_ c =? String.length (write_buffer_ c))%nat then set_queue c "" 0 else c in
  chan_ok c1 /\ alike c c1 /\ closed_ c1 = closed_ c /\ send_calls c1 = send_calls c.
Proof.
  intros Hok. pose proof Hok as [H1 H2 H3 H4]. cbv zeta.
  destruct (Nat.eqb_spec (write_offset_ c) (String.length (write_buffer_ c))) as [E|E]; [|by split_and!].
  assert (pending c = "") as Hp by (unfold pending; apply str_drop_all; lia).
  by split_and!.
Qed.

Section send.
Context (sends : nat -> send_result).

Lemma Send_delivers c data :
  chan_ok c -> closed_ c = false -> sends (send_calls c) <> SendFailed ->
  delivers c data (Send sends c data).
Proof.
  intros Hok Hc Hs. unfold Send. rewrite Hc.
  destruct (clear_alike c Hok) as (Hok1 & Hal & Hc1 & Hn). rewrite <- Hn in Hs. revert Hok1 Hal Hc1 Hs.
  generalize (if (write_offset_ c =? String.length (write_buffer_ c))%nat then set_queue c "" 0 else c).
  intros c1 Hok1 Hal Hc1 Hs. rewrite Hc in Hc1. apply (delivers_alike c c1); [done|].
  destruct (is_nil (write_buffer_ c1)) eqn:Hnil; [|by apply enqueue_delivers].
  assert (pending c1 = "") as Hpe.
  { unfold pending. destruct (write_buffer_ c1); [|done]. apply str_drop_all. simpl. lia. }
  assert (delivers c1 data (enqueue (refused c1) data)) as Hq.
  { apply (delivers_alike c1 (refused c1)); [done|]. apply enqueue_delivers; [by apply refused_ok|done]. }
  destruct (sends (send_calls c1)) as [n| | |]; [|done..].
  cbv zeta. set (w := Nat.min n (String.length data)). destruct (Nat.ltb_spec 0 w); [|done].
  rewrite <- (str_take_drop w data) at 1. apply accepted_delivers; [done|].
  destruct (Nat.eqb_spec w (String.length data)) as [E|E].
  - rewrite (str_drop_all w) by lia. split; try done; [by apply accepted_ok|].
    intros _. rewrite str_app_nil_r. split_and!; [done|done|]. rewrite slen_nil. lia.
  - apply enqueue_delivers; [by apply accepted_ok|done].
Qed.

(** [Send] keeps the invariant also when the socket fails or the queue is full. *)
Lemma Send_ok c data : chan_ok c -> chan_ok (Send sends c data).
Proof.
  intros Hok. destruct (closed_ c) eqn:Hc; [unfold Send; by rewrite Hc|].
  destruct (clear_alike c Hok) as (Hok1 & _ & Hc1 & Hn).
  destruct (sends (send_calls c)) eqn:Hs; try (by apply Send_delivers; [..|rewrite Hs]).
  unfold Send. rewrite Hc. revert Hok1 Hc1 Hn.
  generalize (if (write_offset_ c =? String.length (write_buffer_ c))%nat then set_queue c "" 0 else c).
  intros c1 Hok1 Hc1 Hn. destruct (is_nil (write_buffer_ c1)).
  - rewrite Hn, Hs. by apply Close_ok, refused_ok.
  - apply enqueue_delivers; [done|congruence].
Qed.
End send.

(** ** Writing the queue *)

Section write.
Context (sends : nat -> send_result).

(** One [send] of the loop: the socket takes the first [w] queued bytes. *)
Definition advance (c : Channel) (w : nat) : Channel :=
  set_queue (accepted c (str_take w (pending c))) (write_buffer_ c) (write_offset_ c + w).

Lemma advance_spec c w :
  chan_ok c -> (0 < w <= String.length (pending c))%nat ->
  chan_ok (advance c w) /\ pending (advance c w) = str_drop w (pending c) /\
  sent (advance c w) +:+ pending (advance c w) = sent c +:+ pending c /\
  closed_ (advance c w) = closed_ c /\ send_calls (advance c w) = S (send_calls c).
Proof.
  intros [H1 H2 H3 H4] Hw.
  assert (pending (advance c w) = str_drop w (pending c)) as Hp.
  { unfold pending. cbn. by rewrite str_drop_drop. }
  split_and!; try done; [|rewrite Hp; cbn [sent advance set_queue accepted]; by rewrite str_app_assoc, str_take_drop].
  unfold pending in Hw. rewrite str_drop_length in Hw.
  split; [cbn; lia| |by apply (accepted_count c)|].
  - rewrite Hp. unfold slen in *. rewrite str_drop_length. lia.
  - intros Hc _. cbn. apply H4; [done|]. intros E. unfold pending in E.
    apply (f_equal String.length) in E. rewrite str_drop_length in E. simpl in E. lia.
Qed.

(** The last bytes of the queue went out. *)
Lemma emptied_spec c w :
  chan_ok c -> w = String.length (pending c) ->
  let c' := set_queue (accepted c (str_take w (pending c))) "" 0 in
  chan_ok c' /\ pending c' = "" /\ sent c' = sent c +:+ pending c /\ closed_ c' = closed_ c.
Proof.
  intros [H1 H2 H3 H4] ->. cbv zeta.
  assert (str_take (String.length (pending c)) (pending c) = pending c) as Ht.
  { rewrite <- (str_app_nil_r (pending c)) at 2. by apply str_take_app. }
  rewrite Ht. split_and!; try done. split; try done. by apply (accepted_count c).
Qed.

Lemma write_loop_ok fuel c c' :
  chan_ok c -> write_loop sends fuel c = Some c' ->
  chan_ok c' /\ sent c' +:+ pending c' = sent c +:+ pending c.
Proof.
  revert c. induction fuel as [|fuel IH]; intros c Hok; cbn [write_loop];
    (destruct (closed_ c || _) eqn:Hd; [by intros [= <-]|]); [done|].
  apply orb_false_iff in Hd as [Hc Hlen]. apply Nat.leb_gt in Hlen.
  assert (String.length (pending c) = String.length (write_buffer_ c) - write_offset_ c)%nat as Hp
    by (unfold pending; apply str_drop_length).
  pose proof (IH (refused c) (refused_ok c Hok)) as Href.
  destruct (sends (send_calls c)) as [n| | |].
  - cbv zeta. set (w := Nat.min n (String.length (pending c))).
    destruct (Nat.ltb_spec 0 w) as [Hw|_]; [|exact Href].
    destruct (Nat.eqb_spec (write_offset_ c + w) (String.length (write_buffer_ (accepted c (str_take w (pending c)))))) as [E|E].
    + cbn [write_buffer_ accepted] in E. intros [= <-].
      destruct (emptied_spec c w Hok ltac:(lia)) as (Ha & Hb & Hs & _). split; [exact Ha|].
      rewrite Hs, Hb. by rewrite str_app_nil_r.
    + destruct (advance_spec c w Hok ltac:(lia)) as (Ha & _ & Hb & _).
      intros Hl. apply (IH (advance c w) Ha) in Hl as [? Hl]. split; [done|]. by rewrite Hl.
  - intros [= <-]. split; [by apply refused_ok|done].
  - exact Href.
  - intros [= <-]. split; [by apply Close_ok, refused_ok|done].
Qed.

Lemma after_write_ok c :
  chan_ok c -> chan_ok (after_write c) /\ sent (after_write c) = sent c /\ pending (after_write c) = pending c /\
  closed_ (after_write c) = closed_ c.
Proof.
  intros Hok. pose proof Hok as [H1 H2 H3 H4]. unfold after_write. destruct (negb _ && _) eqn:E; [|done].
  apply andb_true_iff in E as [_ E%Nat.eqb_eq].
  assert (pending c = "") as -> by (unfold pending; apply str_drop_all; lia). by split_and!.
Qed.

Lemma HandleWrite_ok fuel c c' :
  chan_ok c -> HandleWrite sends fuel c = Some c' ->
  chan_ok c' /\ sent c' +:+ pending c' = sent c +:+ pending c.
Proof.
  intros Hok. unfold HandleWrite. destruct (write_loop sends fuel c) as [c1|] eqn:Hl; [|done].
  intros [= <-]. apply write_loop_ok in Hl as [Hok1 Hb]; [|done].
  destruct (after_write_ok c1 Hok1) as (Ha & Hs & Hp & _). split; [done|]. by rewrite Hs, Hp.
Qed.

(** The socket takes bytes again and again, and never fails. *)
Definition fair : Prop :=
  (forall i, exists d n, sends (i + d)%nat = Sent (S n)) /\ (forall i, sends i <> SendFailed).

(** A sequence of EPOLLOUT events, each with the rounds its loop may take. *)
Fixpoint write_events (fuels : list nat) (c : Channel) : option Channel :=
  match fuels with
  | [] => Some c
  | fuel :: fuels =>
      match HandleWrite sends fuel c with
      | Some c => write_events fuels c
      | None => None
      end
  end.

(** The loop ends, and later events write the rest. *)
Definition drains (c : Channel) : Prop :=
  exists fuel c1 fuels c',
    write_loop sends fuel c = Some c1 /\ write_events fuels (after_write c1) = Some c' /\
    pending c' = "" /\ closed_ c' = false /\ sent c' = sent c +:+ pending c.

Lemma drains_step c c1 :
  closed_ c = false -> (write_offset_ c < String.length (write_buffer_ c))%nat ->
  (forall fuel, write_loop sends (S fuel) c = write_loop sends fuel c1) ->
  sent c1 +:+ pending c1 = sent c +:+ pending c -> drains c1 -> drains c.
Proof.
  intros Hc Ho Hstep Hb (fuel & c2 & fuels & c' & H1 & H2 & H3 & H4 & H5).
  exists (S fuel), c2, fuels, c'. rewrite Hstep, H5, Hb. done.
Qed.

Lemma drains_empty c : chan_ok c -> closed_ c = false -> pending c = "" -> drains c.
Proof.
  intros Hok Hc Hp. destruct (after_write_ok c Hok) as (_ & Hs & Hp' & Hc').
  assert (String.length (write_buffer_ c) <= write_offset_ c)%nat as Hl.
  { unfold pending in Hp. apply (f_equal String.length) in Hp. rewrite str_drop_length in Hp. simpl in Hp. lia. }
  exists 0%nat, c, [], (after_write c). cbn [write_loop write_events].
  rewrite (proj2 (Nat.leb_le _ _) Hl), orb_true_r, Hp', Hs, Hp, Hc', str_app_nil_r. done.
Qed.

(** An event that ends with the queue as it was; the next one goes on. *)
Lemma drains_again c :
  closed_ c = false -> (write_offset_ c < String.length (write_buffer_ c))%nat ->
  sends (send_calls c) = Again -> drains (refused c) -> drains c.
Proof.
  intros Hc Hl Hs (fuel & c1 & fuels & c' & H1 & H2 & H3 & H4 & H5).
  exists 1%nat, (refused c), (fuel :: fuels), c'. cbn [write_loop].
  rewrite Hc, (proj2 (Nat.leb_gt _ _) Hl), Hs. split; [done|]. split; [|done].
  assert (after_write (refused c) = refused c) as ->.
  { unfold after_write. cbn. rewrite (proj2 (Nat.eqb_neq _ _)) by lia. by rewrite andb_false_r. }
  cbn [write_events]. unfold HandleWrite. by rewrite H1.
Qed.

(** One round of the loop while bytes are queued. *)
Lemma write_loop_round fuel c :
  closed_ c = false -> (write_offset_ c < String.length (write_buffer_ c))%nat ->
  write_loop sends (S fuel) c =
  match sends (send_calls c) with
  | Sent n =>
      let written := Nat.min n (String.length (pending c)) in
      if (0 <? written)%nat then
        if (write_offset_ c + written =? String.length (write_buffer_ c))%nat
        then Some (set_queue (accepted c (str_take written (pending c))) "" 0)
        else write_loop sends fuel (advance c written)
      else write_loop sends fuel (refused c)
  | Again => Some (refused c)
  | Intr => write_loop sends fuel (refused c)
  | SendFailed => Some (Close (refused c))
  end.
Proof. intros Hc Hl. cbn [write_loop]. by rewrite Hc, (proj2 (Nat.leb_gt _ _) Hl). Qed.

Lemma drains_productive c n :
  chan_ok c -> closed_ c = false -> (write_offset_ c < String.length (write_buffer_ c))%nat ->
  sends (send_calls c) = Sent (S n) ->
  (forall c1, chan_ok c1 -> closed_ c1 = false -> (String.length (pending c1) < String.length (pending c))%nat ->
     drains c1) ->
  drains c.
Proof.
  intros Hok Hc Hlt Hs IH.
  assert (String.length (pending c) = String.length (write_buffer_ c) - write_offset_ c)%nat as Hp
    by (unfold pending; apply str_drop_length).
  pose proof (fun fuel => write_loop_round fuel c Hc Hlt) as Hloop. rewrite Hs in Hloop. cbv zeta in Hloop.
  set (w := Nat.min (S n) (String.length (pending c))) in *.
  rewrite (proj2 (Nat.ltb_lt 0 w)) in Hloop by lia.
  destruct (Nat.eqb_spec (write_offset_ c + w) (String.length (write_buffer_ c))) as [E|E].
  - destruct (emptied_spec c w Hok ltac:(lia)) as (Ha & Hb & Hse & Hcl).
    set (c1 := set_queue (accepted c (str_take w (pending c))) "" 0) in *.
    destruct (after_write_ok c1 Ha) as (_ & Hs2 & Hp2 & Hc2).
    exists 1%nat, c1, [], (after_write c1). rewrite Hloop, Hp2, Hs2, Hc2, Hb. by split_and!.
  - destruct (advance_spec c w Hok ltac:(lia)) as (Ha & Hpa & Hb & Hcl & Hn).
    apply (drains_step c (advance c w)); [done|done|exact Hloop|done|].
    apply IH; [done|congruence|]. rewrite Hpa, str_drop_length. lia.
Qed.

Lemma fair_drains m d c :
  fair -> chan_ok c -> closed_ c = false -> (String.length (pending c) <= m)%nat ->
  (exists n, sends (send_calls c + d)%nat = Sent (S n)) -> drains c.
Proof.
  intros [Hfair Hnf]. revert d c. induction m as [|m IHm]; intros d.
  { intros c Hok Hc Hm _. apply drains_empty; [done..|]. destruct (pending c); [done|simpl in Hm; lia]. }
  assert (forall c, (String.length (pending c) <= S m)%nat -> forall c1, chan_ok c1 -> closed_ c1 = false ->
    (String.length (pending c1) < String.length (pending c))%nat -> drains c1) as Hless.
  { intros c Hm c1 Hok1 Hc1 Hl. destruct (Hfair (send_calls c1)) as (d' & n' & Hd').
    apply (IHm d'); [done|done|lia|eauto]. }
  induction d as [|d IHd]; intros c Hok Hc Hm Hd;
    (destruct (Nat.le_gt_cases (String.length (write_buffer_ c)) (write_offset_ c)) as [Hle|Hlt];
     [by apply drains_empty; [..|unfold pending; apply str_drop_all]|]).
  - destruct Hd as [n Hd]. rewrite Nat.add_0_r in Hd. by apply (drains_productive c n); [..|apply Hless].
  - assert (drains (refused c)) as Hr.
    { apply IHd; [by apply refused_ok|done|done|]. cbn [send_calls refused]. by rewrite Nat.add_succ_comm. }
    pose proof (fun fuel => write_loop_round fuel c Hc Hlt) as Hloop.
    destruct (sends (send_calls c)) as [[|n]| | |] eqn:Hs.
    + by apply (drains_step c (refused c)).
    + by apply (drains_productive c n); [..|apply Hless].
    + by apply drains_again.
    + by apply (drains_step c (refused c)).
    + by apply Hnf in Hs.
Qed.
End write.

(** ** Reading: what a connection answers *)

Section answers.
Context (sends : nat -> send_result) (times : nat -> Z).
Context {H : Type} (handler_ : H -> string -> option (H * string)).

(** The streams and the readings of the clock after an answered frame. *)
Definition streams_after (m : StreamManager) (k : nat) (frame : Frame) : StreamManager :=
  let stream_id := h_stream_id (f_header frame) in
  let m := if stream_id =? 0 then m else (GetOrCreateStream m stream_id (times k)).1 in
  if negb (stream_id =? 0) && is_end_stream frame then CloseStream m stream_id else m.
Definition clock_after (k : nat) (frame : Frame) : nat :=
  if h_stream_id (f_header frame) =? 0 then k else S k.

(** The reference: the frames of a connection answered one by one.  [k] counts the
    readings of the clock. *)
Fixpoint answers (m : StreamManager) (k : nat) (h : H) (frames : list Frame) :
    option (StreamManager * nat * H * string) :=
  match frames with
  | [] => Some (m, k, h, "")
  | frame :: frames =>
      let stream_id := h_stream_id (f_header frame) in
      if negb (stream_id =? 0) && negb (CanOpenStream m stream_id) then
        match answers m k h frames with
        | Some (m, k, h, out) => Some (m, k, h, too_many_streams frame +:+ out)
        | None => None
        end
      else
        match handler_ h (f_payload frame) with
        | None => None
        | Some (h, response) =>
            match answers (streams_after m k frame) (clock_after k frame) h frames with
            | Some (m, k, h, out) =>
                Some (m, k, h, EncodeResponse (h_request_id (f_header frame)) stream_id response
                                 (is_end_stream frame) +:+ out)
            | None => None
            end
        end
  end.

Lemma answers_app m k h fs1 fs2 :
  answers m k h (fs1 ++ fs2) =
  match answers m k h fs1 with
  | Some (m, k, h, out1) =>
      match answers m k h fs2 with
      | Some (m, k, h, out2) => Some (m, k, h, out1 +:+ out2)
      | None => None
      end
  | None => None
  end.
Proof.
  revert m k h. induction fs1 as [|f fs1 IH]; intros m k h; cbn [app answers].
  { by destruct (answers m k h fs2) as [[[[??]?]?]|]. }
  destruct (negb _ && negb _).
  - rewrite IH. destruct (answers m k h fs1) as [[[[m1 k1] h1] o1]|]; [|done].
    destruct (answers m1 k1 h1 fs2) as [[[[m2 k2] h2] o2]|]; [|done]. by rewrite str_app_assoc.
  - destruct (handler_ h (f_payload f)) as [[h1 r]|]; [|done]. cbv zeta. rewrite IH.
    destruct (answers _ _ h1 fs1) as [[[[m1 k1] h2] o1]|]; [|done].
    destruct (answers m1 k1 h2 fs2) as [[[[m2 k2] h3] o2]|]; [|done]. by rewrite str_app_assoc.
Qed.

(** Sending one answer and going on. *)
Lemma Send_then c data out c1 :
  chan_ok c -> closed_ c = false -> (forall i, sends i <> SendFailed) ->
  slen (pending c) + slen (data +:+ out) <= kMaxWriteBufferSize ->
  c1 = Send sends c data ->
  chan_ok c1 /\ closed_ c1 = false /\ slen (pending c1) <= slen (pending c) + slen data /\
  sent c1 +:+ pending c1 = sent c +:+ pending c +:+ data /\
  decoder_ (session_ c1) = decoder_ (session_ c) /\
  stream_manager_ (session_ c1) = stream_manager_ (session_ c) /\ clock_calls c1 = clock_calls c.
Proof.
  intros Hok Hc Hs Hl ->. destruct (Send_delivers sends c data Hok Hc (Hs _)) as [H1 H2 H3 H4].
  assert (slen (data +:+ out) = slen data + slen out) as Hd by (unfold slen; rewrite str_length_app; lia).
  pose proof (slen_nonneg out). destruct H4 as (H5 & H6 & H7); [lia|]. split_and!; try done.
  unfold Send, enqueue. rewrite Hc. repeat case_match; done.
Qed.

Lemma open_frame_spec c f :
  chan_ok c ->
  let c1 := open_frame times c f in
  chan_ok c1 /\ pending c1 = pending c /\ sent c1 = sent c /\ closed_ c1 = closed_ c /\
  decoder_ (session_ c1) = decoder_ (session_ c) /\ clock_calls c1 = clock_after (clock_calls c) f.
Proof.
  intros Hok. cbv zeta. unfold open_frame, clock_after. destruct (_ =? 0); cbv zeta; split_and!; try done;
    repeat (apply on_session_ok; [done|]); [done|by apply tick_ok].
Qed.
Lemma close_frame_spec c0 c f :
  chan_ok c -> stream_manager_ (session_ c) = stream_manager_ (session_ (open_frame times c0 f)) ->
  let c1 := close_frame c f in
  chan_ok c1 /\ pending c1 = pending c /\ sent c1 = sent c /\ closed_ c1 = closed_ c /\
  decoder_ (session_ c1) = decoder_ (session_ c) /\ clock_calls c1 = clock_calls c /\
  stream_manager_ (session_ c1) = streams_after (stream_manager_ (session_ c0)) (clock_calls c0) f.
Proof.
  intros Hok Hm. cbv zeta. unfold close_frame, streams_after. unfold open_frame in Hm.
  destruct (_ =? 0); cbn [negb andb] in *; [by split_and!|].
  destruct (is_end_stream f); split_and!; try done; [by apply on_session_ok|]. cbn in *. by rewrite Hm.
Qed.

Lemma handle_frames_answers frames c h m k h' out :
  chan_ok c -> closed_ c = false -> (forall i, sends i <> SendFailed) ->
  answers (stream_manager_ (session_ c)) (clock_calls c) h frames = Some (m, k, h', out) ->
  slen (pending c) + slen out <= kMaxWriteBufferSize ->
  exists c', handle_frames sends times handler_ c h frames = Some (c', h') /\ chan_ok c' /\
    closed_ c' = false /\ sent c' +:+ pending c' = sent c +:+ pending c +:+ out /\
    decoder_ (session_ c') = decoder_ (session_ c) /\ stream_manager_ (session_ c') = m /\
    clock_calls c' = k /\ slen (pending c') <= slen (pending c) + slen out.
Proof.
  intros Hok Hc Hs. revert c h out Hok Hc.
  induction frames as [|f fs IH]; intros c h out Hok Hc; cbn [answers handle_frames].
  { intros [= <- <- <- <-] Hl. exists c. rewrite slen_nil, str_app_nil_r in *. split_and!; try done. lia. }
  destruct (negb (h_stream_id (f_header f) =? 0) && _).
  - destruct (answers _ _ h fs) as [[[[m1 k1] h1] o1]|] eqn:Hans; [|done]. intros [= <- <- <- <-] Hl.
    destruct (Send_then c _ o1 _ Hok Hc Hs Hl eq_refl) as (Ha & Hb & Hn & Hbytes & Hd & Hm & Hk).
    set (c1 := Send sends c (too_many_streams f)) in *.
    assert (slen (too_many_streams f +:+ o1) = slen (too_many_streams f) + slen o1) as Hle
      by (unfold slen; rewrite str_length_app; lia).
    destruct (IH c1 h o1 Ha Hb) as (c' & -> & ? & ? & Hbytes' & Hd' & ? & ? & ?); [by rewrite Hm, Hk|lia|].
    exists c'. split_and!; try done; [|congruence|lia]. by rewrite Hbytes', <- str_app_assoc, Hbytes, !str_app_assoc.
  - destruct (handler_ h (f_payload f)) as [[h1 resp]|]; [|done]. cbv zeta.
    set (data := EncodeResponse _ _ resp _).
    destruct (answers _ _ h1 fs) as [[[[m1 k1] h2] o1]|] eqn:Hans; [|done]. intros [= <- <- <- <-] Hl.
    destruct (open_frame_spec c f Hok) as (Ho1 & Ho2 & Ho3 & Ho4 & Ho5 & Ho6). cbv zeta in *.
    destruct (Send_then (open_frame times c f) data o1 (Send sends (open_frame times c f) data) Ho1) as (Ha & Hb & Hn & Hbytes & Hd & Hm & Hk);
      [congruence|done|by rewrite Ho2|reflexivity|].
    set (c1 := Send sends (open_frame times c f) data) in *.
    destruct (close_frame_spec c c1 f Ha Hm) as (Hc1 & Hc2 & Hc3 & Hc4 & Hc5 & Hc6 & Hc7). cbv zeta in *.
    assert (slen (data +:+ o1) = slen data + slen o1) as Hle by (unfold slen; rewrite str_length_app; lia).
    destruct (IH (close_frame c1 f) h1 o1 Hc1) as (c' & Hrun & ? & ? & Hbytes' & Hd' & ? & ? & ?);
      [congruence|by rewrite Hc7, Hc6, Hk, Ho6|rewrite Hc2; rewrite Ho2 in *; lia|].
    exists c'. rewrite Hc4, Hb. split_and!; try done; [|congruence|rewrite Hc2, Ho2 in *; lia].
    by rewrite Hbytes', Hc2, Hc3, <- str_app_assoc, Hbytes, Ho2, Ho3, !str_app_assoc.
Qed.

(** A chunk that decodes: the session afterwards. *)
Definition received (c : Channel) (data : string) (d : Decoder) : Channel :=
  on_session c (fun s => set_decoder (AddBytesReceived s (slen data)) d).

Lemma HandleRead_chunk data script c h d fs :
  closed_ c = false -> data <> "" -> Push (decoder_ (session_ c)) data = (d, fs, None) ->
  HandleRead sends times handler_ (Received data :: script) c h =
  match handle_frames sends times handler_ (received c data d) h fs with
  | None => None
  | Some (c, h) => HandleRead sends times handler_ script c h
  end.
Proof.
  intros Hc Hne Hp. cbn [HandleRead]. rewrite Hc. destruct data as [|x data]; [done|]. unfold SessionPush.
  cbn [session_ on_session decoder_ AddBytesReceived]. by rewrite Hp.
Qed.

Lemma HandleRead_answers chunks c h d' fs m k h' out :
  chan_ok c -> closed_ c = false -> (forall i, sends i <> SendFailed) -> Forall (fun s => s <> "") chunks ->
  push_all (decoder_ (session_ c)) chunks = Some (d', fs) ->
  answers (stream_manager_ (session_ c)) (clock_calls c) h fs = Some (m, k, h', out) ->
  slen (pending c) + slen out <= kMaxWriteBufferSize ->
  exists c', HandleRead sends times handler_ (Received <$> chunks) c h = Some (c', h') /\ chan_ok c' /\
    closed_ c' = false /\ sent c' +:+ pending c' = sent c +:+ pending c +:+ out /\
    decoder_ (session_ c') = d' /\ stream_manager_ (session_ c') = m.
Proof.
  intros Hok Hc Hs Hne. revert c h fs out Hok Hc.
  induction Hne as [|data chunks Hd _ IH]; intros c h fs out Hok Hc; cbn [push_all].
  { intros [= <- <-]. cbn [answers]. intros [= <- <- <- <-] _. exists c. cbn [fmap list_fmap HandleRead].
    rewrite Hc, str_app_nil_r. by split_and!. }
  rewrite fmap_cons. destruct (Push (decoder_ (session_ c)) data) as [[d1 fs1] [e|]] eqn:Hp; [done|].
  destruct (push_all d1 chunks) as [[d2 fs2]|] eqn:Hrest; [|done]. intros [= <- <-]. cbn [fst snd].
  rewrite answers_app.
  destruct (answers _ _ h fs1) as [[[[m1 k1] h1] o1]|] eqn:Ha1; [|done].
  destruct (answers m1 k1 h1 fs2) as [[[[m2 k2] h2] o2]|] eqn:Ha2; [|done]. intros [= <- <- <- <-] Hl.
  assert (slen (o1 +:+ o2) = slen o1 + slen o2) as Hle by (unfold slen; rewrite str_length_app; lia).
  pose proof (slen_nonneg o2).
  assert (chan_ok (received c data d1)) as Hok1 by (by apply on_session_ok).
  destruct (handle_frames_answers fs1 (received c data d1) h m1 k1 h1 o1 Hok1 Hc Hs Ha1)
    as (c1 & Hrun & Ho1 & Hc1 & Hb1 & Hd1 & Hm1 & Hk1 & Hn1);
    [change (pending (received c data d1)) with (pending c); lia|].
  rewrite (HandleRead_chunk _ _ _ _ _ _ Hc Hd Hp), Hrun.
  change (pending (received c data d1)) with (pending c) in *.
  change (sent (received c data d1)) with (sent c) in *.
  cbn [decoder_ session_ received on_session set_decoder] in Hd1.
  destruct (IH c1 h1 fs2 o2 Ho1 Hc1) as (c' & Hrun' & Ho' & Hc' & Hb' & Hd' & Hm');
    [by rewrite Hd1|by rewrite Hm1, Hk1|lia|].
  exists c'. split_and!; try done. by rewrite Hb', <- str_app_assoc, Hb1, !str_app_assoc.
Qed.

(** ** The invariant holds whatever happens *)

Lemma open_frame_ok c f : chan_ok c -> chan_ok (open_frame times c f).
Proof. intros Hok. by apply open_frame_spec. Qed.
Lemma close_frame_ok c f : chan_ok c -> chan_ok (close_frame c f).
Proof. intros Hok. unfold close_frame. destruct (_ && _); [by apply on_session_ok|done]. Qed.

Lemma handle_frames_ok frames c h c' h' :
  chan_ok c -> handle_frames sends times handler_ c h frames = Some (c', h') -> chan_ok c'.
Proof.
  revert c h. induction frames as [|f fs IH]; intros c h Hok; cbn [handle_frames]; [by intros [= <- <-]|].
  destruct (negb _ && negb _); [by apply IH, Send_ok|].
  destruct (handler_ h (f_payload f)) as [[h1 r]|]; [|done]. cbv zeta.
  assert (chan_ok (close_frame (Send sends (open_frame times c f)
    (EncodeResponse (h_request_id (f_header f)) (h_stream_id (f_header f)) r (is_end_stream f))) f)) as Hok1
    by (by apply close_frame_ok, Send_ok, open_frame_ok).
  destruct (closed_ _); [by intros [= <- <-]|by apply IH].
Qed.

Lemma HandleRead_ok script c h c' h' :
  chan_ok c -> HandleRead sends times handler_ script c h = Some (c', h') -> chan_ok c'.
Proof.
  revert c h. induction script as [|r script IH]; intros c h Hok; cbn [HandleRead];
    (destruct (closed_ c); [by intros [= <- <-]|]); [by intros [= <- <-]|].
  destruct r as [data| | | |]; try (by intros [= <- <-]; first [done|apply Close_ok]); [|by apply IH].
  destruct data as [|x data]; [by intros [= <- <-]; apply Close_ok|].
  unfold SessionPush. destruct (Push _ _) as [[d fs] [e|]].
  - intros [= <- <-]. apply Close_ok, Send_ok. by repeat (apply on_session_ok; [done|]).
  - destruct (handle_frames _ _ _ _ h fs) as [[c1 h1]|] eqn:Hf; [|done].
    apply handle_frames_ok in Hf; [by apply IH|]. by repeat (apply on_session_ok; [done|]).
Qed.

Lemma HandleEvents_ok r w hup script fuel c h c' h' :
  chan_ok c -> HandleEvents sends times handler_ r w hup script fuel c h = Some (c', h') -> chan_ok c'.
Proof.
  intros Hok. unfold HandleEvents. destruct (closed_ c); [by intros [= <- <-]|].
  assert (forall c1 h1, (if r then HandleRead sends times handler_ script c h else Some (c, h)) = Some (c1, h1) ->
    chan_ok c1) as Hr by (intros c1 h1; destruct r; [by apply HandleRead_ok|by intros [= <- <-]]).
  destruct (if r then _ else _) as [[c1 h1]|]; [|done]. specialize (Hr c1 h1 eq_refl).
  assert (forall c2, (if negb (closed_ c1) && w then HandleWrite sends fuel c1 else Some c1) = Some c2 ->
    chan_ok c2) as Hw by (intros c2; destruct (_ && _); [by apply HandleWrite_ok|by intros [= <-]]).
  destruct (if negb (closed_ c1) && w then _ else _) as [c2|]; [|done]. specialize (Hw c2 eq_refl).
  intros [= <- <-]. destruct (_ && _); [by apply Close_ok|done].
Qed.
End answers.

(** The reads of a 4096-byte buffer. *)
Definition reads_of_4096 (chunks : list string) : Prop :=
  Forall (fun c => (0 < String.length c <= 4096)%nat) chunks.
Lemma reads_of_4096_split chunks :
  reads_of_4096 chunks ->
  Forall (fun c => (String.length c <= 4096)%nat) chunks /\ Forall (fun c => c <> "") chunks.
Proof. intros H. split; (eapply Forall_impl; [|exact H]); [cbn; lia|]. by intros [|] ?; [simpl in *; lia|]. Qed.

(** ** Runs of events *)

Record Event := mkEvent {
  ev_readable : bool; ev_writable : bool; ev_hangup : bool; ev_reads : list recv_result; ev_fuel : nat }.

Section run.
Context (sends : nat -> send_result) (times : nat -> Z).
Context {H : Type} (handler_ : H -> string -> option (H * string)).

Fixpoint run_events (c : Channel) (h : H) (evs : list Event) : option (Channel * H) :=
  match evs with
  | [] => Some (c, h)
  | e :: evs =>
      match HandleEvents sends times handler_ (ev_readable e) (ev_writable e) (ev_hangup e) (ev_reads e)
              (ev_fuel e) c h with
      | Some (c, h) => run_events c h evs
      | None => None
      end
  end.

Lemma run_events_ok c h evs c' h' : chan_ok c -> run_events c h evs = Some (c', h') -> chan_ok c'.
Proof.
  revert c h. induction evs as [|e evs IH]; intros c h Hok; cbn [run_events]; [by intros [= <- <-]|].
  destruct (HandleEvents _ _ _ _ _ _ _ _ _ _) as [[c1 h1]|] eqn:He; [|done].
  apply HandleEvents_ok in He; [by apply IH|done].
Qed.
End run.

(** C14: The invariant of a connection: whatever the peer sends, however the socket
    answers, whatever the handler does, after any run of events the write offset
    lies within the queue, at most 64 MiB are queued, the session's counter of sent
    bytes is the number of bytes the socket took (modulo 2^64), and while the
    channel is open and bytes are queued the event loop is asked for EPOLLOUT. *)
Theorem channel_invariant sends times {H} (handler_ : H -> string -> option (H * string)) h evs c h' :
  run_events sends times handler_ new_channel h evs = Some (c, h') ->
  (write_offset_ c <= String.length (write_buffer_ c))%nat /\
  slen (pending c) <= kMaxWriteBufferSize /\
  bytes_sent_ (session_ c) = slen (sent c) mod 2 ^ 64 /\
  (closed_ c = false -> pending c <> "" -> armed c = true).
Proof. intros Hrun. by destruct (run_events_ok _ _ _ _ _ _ _ _ new_channel_ok Hrun). Qed.

(** C15: Every accepted answer is eventually delivered: after any run of events that
    leaves the channel open, if the socket never fails and takes at least a byte
    again and again (between arbitrary refusals and interruptions), then a finite
    number of EPOLLOUT events, each of which returns, empties the queue, and the
    bytes the socket got in the meantime are exactly the queued ones. *)
Theorem channel_drains sends times {H} (handler_ : H -> string -> option (H * string)) h evs c h' :
  fair sends ->
  run_events sends times handler_ new_channel h evs = Some (c, h') -> closed_ c = false ->
  exists fuels c', write_events sends fuels c = Some c' /\ pending c' = "" /\ closed_ c' = false /\
    sent c' = sent c +:+ pending c.
Proof.
  intros Hf Hrun Hc. pose proof (run_events_ok _ _ _ _ _ _ _ _ new_channel_ok Hrun) as Hok.
  destruct (proj1 Hf (send_calls c)) as (d & n & Hd).
  destruct (fair_drains sends (String.length (pending c)) d c) as (fuel & c1 & fuels & c' & H1 & H2 & H3);
    [done|done|done|done|eauto|].
  exists (fuel :: fuels), c'. split; [|done]. cbn [write_events]. unfold HandleWrite. by rewrite H1.
Qed.

(** C16: A connection answers every request, in order, with its own identifiers. On a
    new channel arrive the bytes of valid frames, each with a payload of at most 2^24
    - 69656 bytes (a larger payload can overflow the decoder's buffer of 16 MiB), in
    reads of 1 to 4096 bytes; the socket never fails but may take any part of what it
    is offered; the handler returns on each payload (it does not read beyond it); and
    all the answers together are at most 64 MiB, the limit of the queue. Then reading
    leaves the channel open, the handler has seen the payloads in order, the decoder
    is empty, and the socket and the queue hold exactly the response frames in the
    order of the requests, each with the request id, stream id and END_STREAM flag of
    its request, or the error frame for a stream beyond the limit, whose payload the
    handler does not see. *)
Theorem channel_serves_in_order sends times {H} (handler_ : H -> string -> option (H * string))
    h fs chunks P m k h' out :
  Forall valid_frame fs -> Forall (fun f => (String.length (f_payload f) <= P)%nat) fs ->
  reads_of_4096 chunks -> 65560 + Z.of_nat P + 4096 <= 2 ^ 24 ->
  str_concat chunks = encode_all fs -> (forall i, sends i <> SendFailed) ->
  answers times handler_ (new_manager 1024 30000) 0 h fs = Some (m, k, h', out) ->
  slen out <= kMaxWriteBufferSize ->
  exists c, HandleRead sends times handler_ (Received <$> chunks) new_channel h = Some (c, h') /\
    closed_ c = false /\ sent c +:+ pending c = out /\ decoder_ (session_ c) = new_decoder /\
    stream_manager_ (session_ c) = m.
Proof.
  intros Hv HP [HC Hne]%reads_of_4096_split Hmax He Hs Hans Hl.
  destruct (push_all_tracks fs chunks P 4096 new_decoder "" Hv HP HC Hmax) with (fs1 := @nil Frame)
    as (fs' & Hpush & Hfs); [by rewrite He|apply tracks_new|]. cbn [app] in Hfs. subst fs'.
  destruct (HandleRead_answers sends times handler_ chunks new_channel h new_decoder fs m k h' out)
    as (c & Hrun & _ & Hc & Hb & Hd & Hm); try done. eauto 10.
Qed.

(** ** Witnesses: a slow socket, a handler that counts and echoes *)

Definition slow_socket (i : nat) : send_result := if Nat.even i then Sent 5 else Again.
Definition counting_echo (n : nat) (payload : string) : option (nat * string) := Some (S n, payload).
Definition two_requests : string := encode_all [sample_frame "hello"; sample_frame ""].
Definition two_events : list Event :=
  [mkEvent true false false [Received (str_take 10 two_requests); RecvIntr] 0;
   mkEvent true true false [Received (str_drop 10 two_requests)] 1].

Lemma slow_socket_never_fails i : slow_socket i <> SendFailed.
Proof. unfold slow_socket. by destruct (Nat.even i). Qed.
Lemma slow_socket_fair : fair slow_socket.
Proof.
  split; [|apply slow_socket_never_fails]. intros i. destruct (Nat.even i) eqn:E.
  - exists 0%nat, 4%nat. unfold slow_socket. by rewrite Nat.add_0_r, E.
  - exists 1%nat, 4%nat. unfold slow_socket. rewrite Nat.even_add, E. done.
Qed.

Definition two_events_end : option (Channel * nat) :=
  Eval vm_compute in run_events slow_socket (fun _ => 0) counting_echo new_channel 0%nat two_events.

Lemma channel_invariant_witness :
  exists c, two_events_end = Some (c, 2%nat) /\ pending c <> "" /\ closed_ c = false /\ armed c = true.
Proof.
  eexists. split; [reflexivity|]. split; [done|]. split; [done|].
  apply (channel_invariant slow_socket (fun _ => 0) counting_echo 0%nat two_events _ 2%nat);
    [vm_compute; reflexivity|done|done].
Defined.

Lemma channel_drains_witness :
  exists c fuels c', two_events_end = Some (c, 2%nat) /\ write_events slow_socket fuels c = Some c' /\
    pending c' = "" /\ sent c' = sent c +:+ pending c.
Proof.
  destruct (channel_drains slow_socket (fun _ => 0) counting_echo 0%nat two_events
    (match two_events_end with Some (c, _) => c | None => new_channel end) 2%nat slow_socket_fair)
    as (fuels & c' & Hw & Hp & _ & Hs); [vm_compute; reflexivity|done|].
  eexists _, fuels, c'. split; [reflexivity|]. split; [exact Hw|]. split; [exact Hp|exact Hs].
Defined.

Lemma channel_serves_in_order_witness :
  exists c, HandleRead slow_socket (fun _ => 0) counting_echo
      (Received <$> [str_take 10 two_requests; str_drop 10 two_requests]) new_channel 0%nat = Some (c, 2%nat) /\
    closed_ c = false /\
    sent c +:+ pending c =
      EncodeResponse 7 3 "hello" false +:+ EncodeResponse 7 3 "" false.
Proof.
  destruct (channel_serves_in_order slow_socket (fun _ => 0) counting_echo 0%nat
    [sample_frame "hello"; sample_frame ""] [str_take 10 two_requests; str_drop 10 two_requests] 5
    (GetOrCreateStream (new_manager 1024 30000) 3 0).1 2 2%nat
    (EncodeResponse 7 3 "hello" false +:+ EncodeResponse 7 3 "" false)) as (c & Hrun & Hc & Hb & _).
  - repeat constructor; apply sample_frame_valid; vm_compute; reflexivity.
  - repeat constructor.
  - do 2 (apply Forall_cons_2; [split; apply Nat.leb_le; reflexivity|]). by apply Forall_nil_2.
  - lia.
  - by vm_compute.
  - apply slow_socket_never_fails.
  - by vm_compute.
  - by vm_compute.
  - exists c. split; [exact Hrun|]. split; [exact Hc|exact Hb].
Defined.
