(* ===== verification/Connection.v ===== *)
(** * Blocking connections (net/connection.cpp)

    The thread-per-connection variant of the channel: it blocks in [recv] and [send]
    and answers every frame before it reads on.  [accepted_] collects the bytes the
    socket took; the socket's answers to [send] are consumed one by one. *)
From S2P Require Import Prelude Frame Decoder Streams Socket Channel.

Record Connection := mkConnection {
  conn_session : Session;
  accepted_ : string;
  send_script : list send_result;
}.

(** [SendAll] on the socket: whether it succeeded, the bytes taken and the rest of the
    script; [None]: a call that has not returned. *)
Fixpoint send_all (script : list send_result) (bytes : string) : option (bool * string * list send_result) :=
  match bytes, script with
  | "", _ => Some (true, "", script)
  | _, [] => None
  | _, Sent O :: script => Some (false, "", script)
  | _, Sent n :: script =>
      match send_all script (str_drop n bytes) with
      | Some (ok, taken, script) => Some (ok, str_take n bytes +:+ taken, script)
      | None => None
      end
  | _, Intr :: script => send_all script bytes
  | _, Again :: script | _, SendFailed :: script => Some (false, "", script)
  end.

Definition ConnSendAll (c : Connection) (bytes : string) : option (bool * Connection) :=
  match send_all (send_script c) bytes with
  | None => None
  | Some (ok, taken, script) =>
      let s := if ok : bool then AddBytesSent (conn_session c) (slen bytes) else conn_session c in
      Some (ok, mkConnection s (accepted_ c +:+ taken) script)
  end.

Definition with_session (c : Connection) (s : Session) : Connection :=
  mkConnection s (accepted_ c) (send_script c).

Section serve.
Context {H : Type} (handler_ : H -> string -> option (H * string)).

Definition conn_response (frame : Frame) (response : string) : string :=
  EncodeResponse (h_request_id (f_header frame)) (h_stream_id (f_header frame)) response (is_end_stream frame).

(** The loop over the frames; [true]: go on reading. *)
Fixpoint serve_frames (c : Connection) (h : H) (frames : list Frame) : option (bool * Connection * H) :=
  match frames with
  | [] => Some (true, c, h)
  | frame :: frames =>
      let c := with_session c (IncrementRequests (conn_session c)) in
      match handler_ h (f_payload frame) with
      | None => None
      | Some (h, response) =>
          match ConnSendAll c (conn_response frame response) with
          | None => None
          | Some (false, c) => Some (false, c, h)
          | Some (true, c) => serve_frames c h frames
          end
      end
  end.

(** [Serve] on the answers of [recv]; [None]: it has not returned. *)
Fixpoint Serve (script : list recv_result) (c : Connection) (h : H) : option (Connection * H) :=
  match script with
  | [] => None
  | RecvEof :: _ | Received "" :: _ | RecvFailed :: _ | RecvAgain :: _ => Some (c, h)
  | RecvIntr :: script => Serve script c h
  | Received data :: script =>
      let '(s, frames, error) := SessionPush (AddBytesReceived (conn_session c) (slen data)) data in
      let c := with_session c s in
      match error with
      | Some error =>
          match ConnSendAll c (EncodeError 0 0 "PROTOCOL_ERROR" error true) with
          | None => None
          | Some (_, c) => Some (c, h)
          end
      | None =>
          match serve_frames c h frames with
          | None => None
          | Some (false, c, h) => Some (c, h)
          | Some (true, c, h) => Serve script c h
          end
      end
  end.

(** ** What a connection answers *)

Fixpoint replies (h : H) (frames : list Frame) : option (H * string) :=
  match frames with
  | [] => Some (h, "")
  | frame :: frames =>
      match handler_ h (f_payload frame) with
      | None => None
      | Some (h, response) =>
          match replies h frames with
          | None => None
          | Some (h, out) => Some (h, conn_response frame response +:+ out)
          end
      end
  end.

Lemma replies_app h fs gs :
  replies h (fs ++ gs) =
  match replies h fs with
  | None => None
  | Some (h1, out1) => match replies h1 gs with Some (h2, out2) => Some (h2, out1 +:+ out2) | None => None end
  end.
Proof.
  revert h. induction fs as [|f fs IH]; intros h; cbn [replies app].
  { destruct (replies h gs) as [[h2 out2]|]; [by rewrite str_app_nil_l|done]. }
  destruct (handler_ h (f_payload f)) as [[h1 r]|]; [|done]. rewrite IH.
  destruct (replies h1 fs) as [[h2 o2]|]; [|done]. destruct (replies h2 gs) as [[h3 o3]|]; [by rewrite str_app_assoc|done].
Qed.
End serve.

(** A socket that takes at least one byte a call, or is interrupted. *)
Definition taking (script : list send_result) : Prop :=
  Forall (fun r => match r with Sent n => (0 < n)%nat | Intr => True | _ => False end) script.
(** The calls that take bytes. *)
Definition taken_calls (script : list send_result) : nat :=
  length (List.filter (fun r => match r with Sent _ => true | _ => false end) script).

Lemma send_all_taking script bytes :
  taking script -> (String.length bytes <= taken_calls script)%nat ->
  exists script', send_all script bytes = Some (true, bytes, script') /\ taking script' /\
    (taken_calls script <= taken_calls script' + String.length bytes)%nat.
Proof.
  intros Hs. revert bytes. induction Hs as [|r script Hr Hs IH]; intros bytes Hl.
  { destruct bytes as [|x bytes]; [|unfold taken_calls in Hl; simpl in Hl; lia]. exists []. by split_and!; [|constructor|]. }
  destruct bytes as [|x bytes].
  { exists (r :: script). split_and!; [done|by constructor|lia]. }
  destruct r as [[|n]| | |]; try done; [lia| |].
  - change (taken_calls (Sent (S n) :: script)) with (S (taken_calls script)) in *. cbn [send_all].
    pose proof (str_drop_length (S n) (String x bytes)) as Hd. cbn [String.length] in *.
    destruct (IH (str_drop (S n) (String x bytes))) as (script' & -> & Ht & Hc); [lia|].
    exists script'. rewrite str_take_drop. split_and!; [done|done|lia].
  - cbn [send_all]. destruct (IH (String x bytes) Hl) as (script' & -> & Ht & Hc). by exists script'.
Qed.

Section spec.
Context {H : Type} (handler_ : H -> string -> option (H * string)).

Lemma serve_frames_replies frames c h h' out :
  taking (send_script c) -> (String.length out <= taken_calls (send_script c))%nat ->
  replies handler_ h frames = Some (h', out) ->
  exists c', serve_frames handler_ c h frames = Some (true, c', h') /\ accepted_ c' = accepted_ c +:+ out /\
    decoder_ (conn_session c') = decoder_ (conn_session c) /\ taking (send_script c') /\
    (taken_calls (send_script c) <= taken_calls (send_script c') + String.length out)%nat.
Proof.
  revert c h out. induction frames as [|f fs IH]; intros c h out Ht Hl; cbn [replies serve_frames].
  { intros [= <- <-]. exists c. rewrite str_app_nil_r. split_and!; try done. lia. }
  destruct (handler_ h (f_payload f)) as [[h1 r]|]; [|done].
  destruct (replies handler_ h1 fs) as [[h2 o]|] eqn:Hr; [|done]. intros [= <- <-].
  rewrite str_length_app in Hl. unfold ConnSendAll. cbn [send_script with_session].
  destruct (send_all_taking (send_script c) (conn_response f r) Ht ltac:(lia)) as (script' & -> & Ht' & Hc).
  destruct (IH (mkConnection (AddBytesSent (conn_session (with_session c (IncrementRequests (conn_session c))))
      (slen (conn_response f r))) (accepted_ c +:+ conn_response f r) script') h1 o) as (c' & Hs & Ha & Hd & Ht2 & Hc2);
    [done|cbn [send_script]; lia|done|].
  exists c'. split_and!; try done; [by rewrite Ha, <- str_app_assoc|]. cbn [send_script] in Hc2.
  rewrite str_length_app. lia.
Qed.

Lemma Serve_replies chunks c h d' fs h' out :
  Forall (fun s => s <> "") chunks -> taking (send_script c) -> (String.length out <= taken_calls (send_script c))%nat ->
  push_all (decoder_ (conn_session c)) chunks = Some (d', fs) -> replies handler_ h fs = Some (h', out) ->
  exists c', Serve handler_ ((Received <$> chunks) ++ [RecvEof]) c h = Some (c', h') /\
    accepted_ c' = accepted_ c +:+ out /\ decoder_ (conn_session c') = d'.
Proof.
  intros Hne. revert c h fs out. induction Hne as [|data chunks Hd _ IH]; intros c h fs out Ht Hl; cbn [push_all].
  { intros [= <- <-] [= <- <-]. exists c. by rewrite str_app_nil_r. }
  rewrite fmap_cons. destruct (Push (decoder_ (conn_session c)) data) as [[d1 fs1] [e|]] eqn:Hp; [done|].
  destruct (push_all d1 chunks) as [[d2 fs2]|] eqn:Hrest; [|done]. intros [= <- <-]. cbn [fst snd].
  rewrite replies_app. destruct (replies handler_ h fs1) as [[h1 o1]|] eqn:H1; [|done].
  destruct (replies handler_ h1 fs2) as [[h2 o2]|] eqn:H2; [|done]. intros [= <- <-]. rewrite str_length_app in Hl.
  destruct data as [|x data]; [done|]. cbn [app Serve]. unfold SessionPush. cbn [decoder_ AddBytesReceived].
  rewrite Hp. cbv zeta iota.
  destruct (serve_frames_replies fs1 (with_session c (set_decoder (AddBytesReceived (conn_session c) (slen (String x data))) d1))
    h h1 o1) as (c1 & -> & Ha & Hdec & Ht1 & Hc1); [done|cbn [send_script with_session]; lia|done|].
  cbn [send_script with_session] in Hc1. cbn in Hdec.
  destruct (IH c1 h1 fs2 o2) as (c' & Hs & Ha' & Hd'); [done|lia|by rewrite Hdec|done|].
  exists c'. split_and!; [exact Hs| |done]. by rewrite Ha', Ha, str_app_assoc.
Qed.
End spec.

(** C21: The blocking connection and the event-driven channel give the same answers on
    stream 0. A client sends valid frames there, each with a payload of at most 2^24 -
    69656 bytes, in reads of 1 to 4096 bytes, and closes; the handler returns on each
    payload (it does not read beyond it) and all the answers together are at most 64
    MiB (beyond that the channel closes and the connection does not); each send of the
    connection takes at least one byte or is interrupted, and the channel's socket
    never fails. Then [Connection::Serve] returns having sent exactly the bytes that
    [Channel::HandleRead] sends or queues for the same reads, the response frames in
    the order of the requests, and the handler ends in the same state. *)
Theorem connection_agrees_with_channel {H} (handler_ : H -> string -> option (H * string))
    h fs chunks P times sends script h' out :
  Forall valid_frame fs -> Forall (fun f => (String.length (f_payload f) <= P)%nat) fs ->
  Forall (fun f => h_stream_id (f_header f) = 0) fs ->
  reads_of_4096 chunks -> 65560 + Z.of_nat P + 4096 <= 2 ^ 24 -> str_concat chunks = encode_all fs ->
  (forall i, sends i <> SendFailed) -> taking script -> (String.length out <= taken_calls script)%nat ->
  slen out <= kMaxWriteBufferSize -> replies handler_ h fs = Some (h', out) ->
  exists c ch,
    Serve handler_ ((Received <$> chunks) ++ [RecvEof]) (mkConnection new_session "" script) h = Some (c, h') /\
    HandleRead sends times handler_ (Received <$> chunks) new_channel h = Some (ch, h') /\
    accepted_ c = out /\ sent ch +:+ pending ch = out.
Proof.
  intros Hv HP H0 [HC Hne]%reads_of_4096_split Hmax He Hs Ht Hl Hout Hr.
  destruct (push_all_tracks fs chunks P 4096 new_decoder "" Hv HP HC Hmax) with (fs1 := @nil Frame)
    as (fs' & Hpush & Hfs); [by rewrite He|apply tracks_new|]. cbn [app] in Hfs. subst fs'.
  destruct (Serve_replies handler_ chunks (mkConnection new_session "" script) h new_decoder fs h' out)
    as (c & Hserve & Ha & _); try done.
  assert (forall m k h h' out, replies handler_ h fs = Some (h', out) ->
    answers times handler_ m k h fs = Some (m, k, h', out)) as Hans.
  { clear -H0. induction H0 as [|f fs Hf _ IH]; intros m k h h' out; cbn [replies answers]; [by intros [= <- <-]|].
    unfold streams_after, clock_after. rewrite Hf. cbn [Z.eqb negb andb].
    destruct (handler_ h (f_payload f)) as [[h1 r]|]; [|done].
    destruct (replies handler_ h1 fs) as [[h2 o]|] eqn:Hr; [|done]. intros [= <- <-]. rewrite (IH m k _ _ _ Hr).
    unfold conn_response. by rewrite Hf. }
  destruct (HandleRead_answers sends times handler_ chunks new_channel h new_decoder fs _ _ _ _ new_channel_ok eq_refl
    Hs Hne Hpush (Hans _ _ _ _ _ Hr)) as (ch & Hrun & _ & _ & Hb & _); [done|].
  exists c, ch. split_and!; [exact Hserve|exact Hrun|by rewrite Ha|exact Hb].
Qed.

(** ** Witness *)

Definition stream0_frame (p : string) : Frame := mkFrame (make_header 0 MT_Request 7 0 p) p.
Definition stream0_bytes : string := encode_all [stream0_frame "hello"; stream0_frame ""].

Lemma connection_agrees_with_channel_witness :
  exists c ch,
    Serve counting_echo ((Received <$> [str_take 10 stream0_bytes; str_drop 10 stream0_bytes]) ++ [RecvEof])
      (mkConnection new_session "" (replicate 100 (Sent 1))) 0%nat = Some (c, 2%nat) /\
    HandleRead slow_socket (fun _ => 0) counting_echo
      (Received <$> [str_take 10 stream0_bytes; str_drop 10 stream0_bytes]) new_channel 0%nat = Some (ch, 2%nat) /\
    accepted_ c = EncodeResponse 7 0 "hello" false +:+ EncodeResponse 7 0 "" false /\
    sent ch +:+ pending ch = EncodeResponse 7 0 "hello" false +:+ EncodeResponse 7 0 "" false.
Proof.
  apply (connection_agrees_with_channel counting_echo 0%nat [stream0_frame "hello"; stream0_frame ""]
    [str_take 10 stream0_bytes; str_drop 10 stream0_bytes] 5).
  - do 2 (apply Forall_cons_2; [split; [split|..]; cbn; try done; lia|]). by apply Forall_nil_2.
  - by repeat constructor.
  - by repeat constructor.
  - do 2 (apply Forall_cons_2; [split; apply Nat.leb_le; reflexivity|]). by apply Forall_nil_2.
  - lia.
  - by vm_compute.
  - apply slow_socket_never_fails.
  - apply Forall_replicate. lia.
  - vm_compute. lia.
  - by vm_compute.
  - by vm_compute.
Defined.
