(* ===== verification/Http.v ===== *)
(** * The HTTP connection (protocol/http: http_types.h, http_channel.h, http_channel.cpp)

    A channel buffers what it receives, cuts requests out of the buffer, hands
    them to the handler and sends the responses.  The socket is given by the
    results of its [recv] and [send] calls; [sent] collects the bytes the socket
    accepted.  The handler is a parameter: a function of its own state (the
    store) and the request. *)
From S2P Require Import Prelude CStd Socket.

Definition crlf : string := String (byte_of_Z 13) (String (byte_of_Z 10) "").

(** ** Requests and responses *)

Record HttpRequest := mkHttpRequest {
  method : string;
  uri : string;
  path : string;
  query : string;
  version : string;
  req_headers : gmap string string;
  req_body : string;
}.

Definition GetHeader (req : HttpRequest) (name : string) : string :=
  default "" (req_headers req !! name).

Record HttpResponse := mkHttpResponse {
  status_code : Z;
  status_text : string;
  res_headers : list (string * string);
  res_body : string;
}.

Fixpoint set_header (name value : string) (hs : list (string * string)) : list (string * string) :=
  match hs with
  | [] => [(name, value)]
  | (k, v) :: hs => if bool_decide (k = name) then (k, value) :: hs else (k, v) :: set_header name value hs
  end.
Definition SetHeader (res : HttpResponse) (name value : string) : HttpResponse :=
  mkHttpResponse (status_code res) (status_text res) (set_header name value (res_headers res))
    (res_body res).

Definition HasHeader (res : HttpResponse) (name : string) : bool :=
  existsb (fun '(k, _) => bool_decide (k = name)) (res_headers res).

Fixpoint header_text (hs : list (string * string)) : string :=
  match hs with
  | [] => ""
  | (k, v) :: hs => k +:+ ": " +:+ v +:+ crlf +:+ header_text hs
  end.
Definition Serialize (res : HttpResponse) : string :=
  "HTTP/1.1 " +:+ to_string (status_code res) +:+ " " +:+ status_text res +:+ crlf +:+
  header_text (res_headers res) +:+ crlf +:+ res_body res.

(** ** Searching *)

Fixpoint starts_with (p s : string) : bool :=
  match p, s with
  | "", _ => true
  | String a p, String b s => bool_decide (a = b) && starts_with p s
  | _, "" => false
  end.
Fixpoint find_str (p s : string) : option nat :=
  if starts_with p s then Some O
  else match s with
       | "" => None
       | String _ s => S <$> find_str p s
       end.

Definition tolower (c : ascii) : ascii :=
  let z := Z_of_byte c in if (65 <=? z) && (z <=? 90) then byte_of_Z (z + 32) else c.
Fixpoint lower (s : string) : string :=
  match s with "" => "" | String c s => String (tolower c) (lower s) end.

(** [remove_suffix(1)] while the last character is a space. *)
Fixpoint trim_end (s : string) : string :=
  match s with
  | "" => ""
  | String c s =>
      match trim_end s with
      | "" => if isspace c then "" else String c ""
      | t => String c t
      end
  end.

(** ** Parsing the head of a request *)

(** [req.headers] and [content_length] after one header line. *)
Definition header_line (acc : gmap string string * Z) (line : string) : gmap string string * Z :=
  match find_str ":" line with
  | None => acc
  | Some colon =>
      let header_name := lower (str_take colon line) in
      let header_val := trim_end (skip_space (str_drop (S colon) line)) in
      let headers := match acc.1 !! header_name with
                     | Some _ => acc.1
                     | None => <[header_name := header_val]> acc.1
                     end in
      (headers,
       if bool_decide (header_name = "content-length")
       then match stoull header_val with Some (n, _) => n | None => 0 end
       else acc.2)
  end.

(** The [while (line_start < header_end)] loop on the text from [line_start] on;
    a round reads at least two bytes or is the last. *)
Fixpoint header_lines (fuel : nat) (rest : string) (acc : gmap string string * Z) :
    gmap string string * Z :=
  match fuel, rest with
  | S fuel, String _ _ =>
      match find_str crlf rest with
      | None => header_line acc rest
      | Some n => header_lines fuel (str_drop (n + 2) rest) (header_line acc (str_take n rest))
      end
  | _, _ => acc
  end.

(** The outcome of a round of [ProcessReadBuffer] before the handler is called. *)
Inductive http_parse :=
| NeedMore
| HeaderTooLarge
| Malformed
| Parsed (req : HttpRequest) (total_request_len : Z).

(** Method, URI and version of the request line. *)
Definition parse_request_line (request_line : string) : option (string * string * string) :=
  match find_str " " request_line with
  | None => None
  | Some first_space =>
      let after := str_drop (S first_space) request_line in
      match find_str " " after with
      | None => None
      | Some n => Some (str_take first_space request_line, str_take n after, str_drop (S n) after)
      end
  end.

(** Path and query of a URI. *)
Definition split_uri (uri : string) : string * string :=
  match find_str "?" uri with
  | Some q_pos => (str_take q_pos uri, str_drop (S q_pos) uri)
  | None => (uri, "")
  end.

(** The text before the empty line: request line, headers, content length. *)
Definition parse_head (headers_sv : string) :
    option ((string * string * string) * (gmap string string * Z)) :=
  match find_str crlf headers_sv with
  | None => None
  | Some first_line_end =>
      match parse_request_line (str_take first_line_end headers_sv) with
      | None => None
      | Some line =>
          let rest := str_drop (first_line_end + 2) headers_sv in
          Some (line, header_lines (String.length rest) rest (∅, 0))
      end
  end.

Definition parse_http (read_buffer : string) : http_parse :=
  match find_str (crlf +:+ crlf) read_buffer with
  | None => if 16384 <? slen read_buffer then HeaderTooLarge else NeedMore
  | Some header_end =>
      match parse_head (str_take header_end read_buffer) with
      | None => Malformed
      | Some (method, uri, version, (headers, content_length)) =>
          let total_request_len := u64 (Z.of_nat header_end + 4 + content_length) in
          if slen read_buffer <? total_request_len then NeedMore
          else
            let avail := str_drop (header_end + 4) read_buffer in
            let body := str_take (Z.to_nat (Z.min content_length (slen avail))) avail in
            Parsed (mkHttpRequest method uri (split_uri uri).1 (split_uri uri).2 version headers body)
              total_request_len
      end
  end.

(** ** The channel *)

Record HttpChannel := mkChannel {
  read_buffer_ : string;
  write_buffer_ : string;
  closed_ : bool;
  close_after_write_ : bool;
  sent : string;
}.
Definition new_channel : HttpChannel := mkChannel "" "" false false "".

Definition Close (c : HttpChannel) : HttpChannel :=
  mkChannel (read_buffer_ c) (write_buffer_ c) true (close_after_write_ c) (sent c).

Definition Send (r : send_result) (c : HttpChannel) (data : string) : HttpChannel :=
  if closed_ c then c
  else
    let enqueue (done rest : string) :=
      mkChannel (read_buffer_ c) (write_buffer_ c +:+ rest) false (close_after_write_ c)
        (sent c +:+ done) in
    if is_nil (write_buffer_ c) then
      match r with
      | Sent (S _ as n) =>
          if (String.length data <=? n)%nat then
            let c := enqueue data "" in if close_after_write_ c then Close c else c
          else enqueue (str_take n data) (str_drop n data)
      | SendFailed => Close c
      | Sent O | Again | Intr => enqueue "" data
      end
    else enqueue "" data.

(** The loop of [HandleWrite]; [None]: it still waits for a [send]. *)
Fixpoint write_loop (script : list send_result) (c : HttpChannel) : option HttpChannel :=
  if closed_ c || is_nil (write_buffer_ c) then Some c
  else
    match script with
    | [] => None
    | Sent n :: script =>
        write_loop script (mkChannel (read_buffer_ c) (str_drop n (write_buffer_ c)) (closed_ c)
                             (close_after_write_ c) (sent c +:+ str_take n (write_buffer_ c)))
    | Again :: _ => Some c
    | Intr :: script => write_loop script c
    | SendFailed :: _ => Some (Close c)
    end.

Definition HandleWrite (script : list send_result) (c : HttpChannel) : option HttpChannel :=
  match write_loop script c with
  | None => None
  | Some c =>
      Some (if negb (closed_ c) && is_nil (write_buffer_ c) && close_after_write_ c then Close c else c)
  end.

Definition too_large : HttpResponse :=
  let res := mkHttpResponse 431 "Request Header Fields Too Large" [] (jq "{'error':'HEADER_TOO_LARGE'}") in
  let res := SetHeader res "Connection" "close" in
  let res := SetHeader res "Content-Type" "application/json" in
  SetHeader res "Content-Length" (to_string (slen (res_body res))).

Definition keep_alive (req : HttpRequest) : bool :=
  let conn_hdr := GetHeader req "connection" in
  if bool_decide (version req = "HTTP/1.0") then bool_decide (conn_hdr = "keep-alive")
  else negb (bool_decide (conn_hdr = "close")).

(** The headers every response gets. *)
Definition finish_response (req : HttpRequest) (res : HttpResponse) : HttpResponse :=
  let res := SetHeader res "Server" "GateKeeper/1.0" in
  let res := SetHeader res "Connection" (if keep_alive req then "keep-alive" else "close") in
  let res := if HasHeader res "Content-Type" then res
             else SetHeader res "Content-Type" "application/json" in
  SetHeader res "Content-Length" (to_string (slen (res_body res))).

Section process.
Context {H : Type} (handler_ : option (H -> HttpRequest -> H * HttpResponse)).

Definition call_handler (h : H) (req : HttpRequest) : H * HttpResponse :=
  match handler_ with
  | Some f => f h req
  | None => (h, mkHttpResponse 500 "Internal Server Error" [] (jq "{'error':'NO_HANDLER'}"))
  end.

(** [ProcessReadBuffer]; [sends i] is the result of the [i]-th [send].  [None]: the
    loop has not ended after [fuel] rounds. *)
Fixpoint ProcessReadBuffer (fuel : nat) (sends : nat -> send_result) (i : nat) (c : HttpChannel) (h : H) :
    option (HttpChannel * H) :=
  match fuel with
  | O => None
  | S fuel =>
      if closed_ c then Some (c, h)
      else
        match parse_http (read_buffer_ c) with
        | NeedMore => Some (c, h)
        | HeaderTooLarge =>
            let c := mkChannel (read_buffer_ c) (write_buffer_ c) (closed_ c) true (sent c) in
            Some (Send (sends i) c (Serialize too_large), h)
        | Malformed => Some (Close c, h)
        | Parsed req total_request_len =>
            let read_buffer := str_drop (Z.to_nat total_request_len) (read_buffer_ c) in
            let '(h, res) := call_handler h req in
            let c := mkChannel read_buffer (write_buffer_ c) (closed_ c)
                       (close_after_write_ c || negb (keep_alive req)) (sent c) in
            let c := Send (sends i) c (Serialize (finish_response req res)) in
            if close_after_write_ c && is_nil (write_buffer_ c) then Some (Close c, h)
            else ProcessReadBuffer fuel sends (S i) c h
        end
  end.

(** [HandleRead]: [bound] rounds of [ProcessReadBuffer] after each chunk. *)
Fixpoint HandleRead (bound : nat) (script : list recv_result) (sends : nat -> nat -> send_result)
    (c : HttpChannel) (h : H) : option (HttpChannel * H) :=
  if closed_ c then Some (c, h)
  else
    match script with
    | [] | RecvAgain :: _ => Some (c, h)
    | RecvEof :: _ | Received "" :: _ | RecvFailed :: _ => Some (Close c, h)
    | Received data :: script =>
        let c := mkChannel (read_buffer_ c +:+ data) (write_buffer_ c) (closed_ c)
                   (close_after_write_ c) (sent c) in
        match ProcessReadBuffer bound (sends (length script)) 0 c h with
        | None => None
        | Some (c, h) => HandleRead bound script sends c h
        end
    | RecvIntr :: script => HandleRead bound script sends c h
    end.

(** [HandleEvents], with the bits of [events] that it tests. *)
Definition HandleEvents (readable writable hangup : bool) (bound : nat) (reads : list recv_result)
    (sends : nat -> nat -> send_result) (writes : list send_result) (c : HttpChannel) (h : H) :
    option (HttpChannel * H) :=
  if closed_ c then Some (c, h)
  else
    match (if readable then HandleRead bound reads sends c h else Some (c, h)) with
    | None => None
    | Some (c, h) =>
        match (if negb (closed_ c) && writable then HandleWrite writes c else Some c) with
        | None => None
        | Some c => Some (if negb (closed_ c) && hangup then Close c else c, h)
        end
    end.

End process.

(** ** Facts about searching *)

Fixpoint lacks (c : ascii) (s : string) : bool :=
  match s with "" => true | String d s => negb (bool_decide (d = c)) && lacks c s end.

Lemma lacks_app c s t : lacks c (s +:+ t) = lacks c s && lacks c t.
Proof. induction s as [|d s IH]; [done|]. rewrite str_app_cons. cbn. by rewrite IH, andb_assoc. Qed.

Lemma find_str_cons p c s :
  find_str p (String c s) = if starts_with p (String c s) then Some O else S <$> find_str p s.
Proof. reflexivity. Qed.

Lemma find_str_skip c p s t :
  lacks c s = true ->
  find_str (String c p) (s +:+ t) = (fun n => String.length s + n)%nat <$> find_str (String c p) t.
Proof.
  induction s as [|d s IH]; intros Hs.
  { rewrite str_app_nil_l. by destruct (find_str (String c p) t). }
  cbn [lacks] in Hs. apply andb_true_iff in Hs as [Hd Hs]. apply negb_true_iff in Hd.
  rewrite str_app_cons. cbn [find_str starts_with].
  rewrite (bool_decide_false (c = d)) by (apply bool_decide_eq_false in Hd; congruence).
  cbn [andb]. rewrite IH by done. by destruct (find_str (String c p) t).
Qed.

Lemma starts_with_app p t : starts_with p (p +:+ t) = true.
Proof. induction p as [|c p IH]; [done|]. rewrite str_app_cons. cbn. by rewrite bool_decide_true, IH. Qed.

Lemma find_str_app c p s t :
  lacks c s = true -> find_str (String c p) (s +:+ String c p +:+ t) = Some (String.length s).
Proof.
  intros Hs. rewrite find_str_skip by done.
  assert (find_str (String c p) (String c p +:+ t) = Some 0%nat) as ->.
  { rewrite str_app_cons. cbn [find_str starts_with].
    by rewrite bool_decide_true, starts_with_app by done. }
  cbn. by rewrite Nat.add_0_r.
Qed.

Lemma find_str_none c p s : lacks c s = true -> find_str (String c p) s = None.
Proof. intros Hs. rewrite <- (str_app_nil_r s), find_str_skip by done. done. Qed.

Definition cr : ascii := byte_of_Z 13.
Lemma crlf_cons : crlf = String cr (String (byte_of_Z 10) "").
Proof. reflexivity. Qed.

(** ** The head of a request *)

(** Lines separated by line ends. *)
Fixpoint joined (l : string) (ls : list string) : string :=
  match ls with
  | [] => l
  | m :: ls => l +:+ crlf +:+ joined m ls
  end.

Definition good_line (l : string) : Prop := l <> "" /\ lacks cr l = true.

Lemma joined_cons d l ls : joined (String d l) ls = String d (joined l ls).
Proof. by destruct ls. Qed.

Lemma find_end_step d w :
  d <> cr ->
  find_str (crlf +:+ crlf) (crlf +:+ String d w) =
  (fun n => 2 + n)%nat <$> find_str (crlf +:+ crlf) (String d w).
Proof.
  intros Hd. set (cc := crlf +:+ crlf).
  change (crlf +:+ String d w) with (String cr (String (byte_of_Z 10) (String d w))).
  rewrite !find_str_cons.
  assert (starts_with cc (String cr (String (byte_of_Z 10) (String d w))) = false) as ->.
  { unfold cc. rewrite crlf_cons, !str_app_cons, str_app_nil_l. cbn [starts_with].
    rewrite (bool_decide_false (cr = d)) by congruence. by rewrite !andb_false_r. }
  assert (starts_with cc (String (byte_of_Z 10) (String d w)) = false) as -> by done.
  destruct (starts_with cc (String d w)); [done|]. by destruct (find_str cc w).
Qed.

Lemma find_end l ls t :
  lacks cr l = true -> Forall good_line ls ->
  find_str (crlf +:+ crlf) (joined l ls +:+ crlf +:+ crlf +:+ t) = Some (String.length (joined l ls)).
Proof.
  intros Hl Hls. revert l Hl. induction Hls as [|m ls [Hm Hc] Hls IH]; intros l Hl.
  - cbn [joined]. rewrite <- (str_app_assoc crlf crlf t). by apply find_str_app.
  - cbn [joined]. rewrite !str_app_assoc.
    change (crlf +:+ crlf) with (String cr (String (byte_of_Z 10) crlf)) at 1.
    rewrite find_str_skip by done.
    change (String cr (String (byte_of_Z 10) crlf)) with (crlf +:+ crlf).
    pose proof (IH m Hc) as Hm'. destruct m as [|d m]; [done|].
    rewrite joined_cons in *. rewrite !str_app_cons in *. rewrite find_end_step, Hm'.
    + cbn. f_equal. rewrite str_length_app. simpl. lia.
    + cbn [lacks] in Hc. apply andb_true_iff in Hc as [Hd _].
      by apply negb_true_iff, bool_decide_eq_false in Hd.
Qed.

(** More fuel than the length of the headers changes nothing. *)
Lemma header_lines_fuel f g rest acc :
  (String.length rest <= f)%nat -> (String.length rest <= g)%nat ->
  header_lines f rest acc = header_lines g rest acc.
Proof.
  revert g rest acc. induction f as [|f IH]; intros g rest acc Hf Hg;
    (destruct rest as [|d rest]; [by destruct g|]); simpl in Hf, Hg; [lia|].
  destruct g as [|g]; [lia|]. cbn [header_lines]. destruct (find_str crlf (String d rest)); [|done].
  apply IH; rewrite str_drop_length; cbn [String.length]; lia.
Qed.

(** The header loop runs over the lines. *)
Lemma header_lines_joined l ls f acc :
  Forall good_line (l :: ls) -> (String.length (joined l ls) <= f)%nat ->
  header_lines f (joined l ls) acc = foldl header_line acc (l :: ls).
Proof.
  revert l f acc. induction ls as [|m ls IH]; intros l f acc Hls Hf;
    inversion_clear Hls as [|? ? [Hn Hc] Hls']; cbn [joined] in *.
  - destruct l as [|d l]; [done|]. destruct f as [|f]; [simpl in Hf; lia|]. cbn [header_lines].
    rewrite crlf_cons, find_str_none by done. done.
  - rewrite !str_length_app in Hf.
    destruct f as [|f]; [destruct l; [done|simpl in Hf; lia]|].
    transitivity (header_lines f (str_drop (String.length l + 2) (l +:+ crlf +:+ joined m ls))
                    (header_line acc (str_take (String.length l) (l +:+ crlf +:+ joined m ls)))).
    + destruct l as [|d l]; [done|]. rewrite !str_app_cons. cbn [header_lines].
      rewrite <- !str_app_cons. rewrite crlf_cons, find_str_app by done. done.
    + rewrite str_take_app by done.
      rewrite <- str_drop_drop, (str_drop_app (String.length l)) by done.
      rewrite (str_drop_app 2) by done. rewrite IH; [done|done|simpl in Hf; lia].
Qed.

(** ** Requests as a client writes them *)

Definition header_of (h : string * string) : string := h.1 +:+ ": " +:+ h.2.
Definition request_line (m u v : string) : string := m +:+ " " +:+ u +:+ " " +:+ v.
Definition request_text (m u v : string) (hs : list (string * string)) (body : string) : string :=
  joined (request_line m u v) (header_of <$> hs) +:+ crlf +:+ crlf +:+ body.

(** The name that a header stands for: each capital letter is its small one. *)
Fixpoint translate (from to : string) (c : ascii) : ascii :=
  match from, to with
  | String a from, String b to => if bool_decide (c = a) then b else translate from to c
  | _, _ => c
  end.
Definition small_letter : ascii -> ascii := translate "ABCDEFGHIJKLMNOPQRSTUVWXYZ" "abcdefghijklmnopqrstuvwxyz".
Fixpoint field_name (s : string) : string :=
  match s with "" => "" | String c s => String (small_letter c) (field_name s) end.

Lemma lower_field_name s : lower s = field_name s.
Proof.
  induction s as [|c s IH]; [done|]. cbn [lower field_name]. f_equal; [|done]. clear. apply (bool_decide_eq_true_1 _).
  revert c. apply (byte_forall (fun c => bool_decide (tolower c = small_letter c))). by vm_compute.
Qed.

(** A header: a name of any letters without colon, a value without surrounding blanks. *)
Definition wf_field (h : string * string) : Prop :=
  lacks ":" h.1 = true /\ lacks cr h.1 = true /\
  lacks cr h.2 = true /\ skip_space h.2 = h.2 /\ trim_end h.2 = h.2.

(** The headers a list of fields stands for (the first of a name counts) and the
    length it declares (the last counts). *)
Definition add_field (acc : gmap string string * Z) (h : string * string) : gmap string string * Z :=
  (match acc.1 !! field_name h.1 with Some _ => acc.1 | None => <[field_name h.1 := h.2]> acc.1 end,
   if bool_decide (field_name h.1 = "content-length")
   then match stoull h.2 with Some (n, _) => n | None => 0 end else acc.2).
Definition declared (hs : list (string * string)) : gmap string string * Z := foldl add_field (∅, 0) hs.

Record wf_http (m u v : string) (hs : list (string * string)) (body : string) : Prop := mk_wf_http {
  wh_m : lacks " " m = true /\ lacks cr m = true;
  wh_u : lacks " " u = true /\ lacks cr u = true;
  wh_v : lacks cr v = true;
  wh_hs : Forall wf_field hs;
  wh_body : (declared hs).2 = slen body;
  wh_size : slen (request_text m u v hs body) < 2 ^ 64;
}.

Definition request_of (m u v : string) (hs : list (string * string)) (body : string) : HttpRequest :=
  mkHttpRequest m u (split_uri u).1 (split_uri u).2 v (declared hs).1 body.

Lemma header_line_field acc h : wf_field h -> header_line acc (header_of h) = add_field acc h.
Proof.
  destruct h as [k v]. intros (Hc & _ & _ & Hs & Ht). unfold header_line, header_of, add_field.
  cbn [fst snd] in *. change (": " +:+ v) with (":" +:+ String " " v).
  rewrite find_str_app by done. rewrite str_take_app, lower_field_name by done.
  change (S (String.length k)) with (1 + String.length k)%nat.
  rewrite Nat.add_comm, <- str_drop_drop, (str_drop_app (String.length k)) by done.
  change (str_drop 1 (":" +:+ String " " v)) with (String " " v).
  change (skip_space (String " " v)) with (skip_space v). by rewrite Hs, Ht.
Qed.

Lemma header_good h : wf_field h -> good_line (header_of h).
Proof.
  destruct h as [k v]. intros (_ & Hk & Hv & _). unfold good_line, header_of. cbn [fst snd] in *.
  split; [by destruct k|]. rewrite !lacks_app, Hk, Hv. done.
Qed.

Lemma headers_good hs : Forall wf_field hs -> Forall good_line (header_of <$> hs).
Proof. intros H. apply Forall_fmap. eapply list.Forall_impl; [exact H|]. apply header_good. Qed.

Lemma headers_fold hs acc : Forall wf_field hs -> foldl header_line acc (header_of <$> hs) = foldl add_field acc hs.
Proof.
  intros H. revert acc. induction H as [|h hs Hh _ IH]; intros acc; [done|].
  cbn [fmap list_fmap foldl]. rewrite header_line_field by done. apply IH.
Qed.

Lemma drop_word w c x : str_drop (S (String.length w)) (w +:+ String c x) = x.
Proof.
  change (S (String.length w)) with (1 + String.length w)%nat.
  by rewrite Nat.add_comm, <- str_drop_drop, (str_drop_app (String.length w)).
Qed.

Lemma parse_request_line_text m u v :
  lacks " " m = true -> lacks " " u = true ->
  parse_request_line (request_line m u v) = Some (m, u, v).
Proof.
  intros Hm Hu. unfold parse_request_line, request_line.
  rewrite find_str_app by done. change (" " +:+ u +:+ " " +:+ v) with (String " " (u +:+ " " +:+ v)).
  rewrite drop_word, find_str_app, !str_take_app by done.
  change (" " +:+ v) with (String " " v). by rewrite drop_word.
Qed.

Lemma parse_head_text m u v hs body :
  wf_http m u v hs body ->
  parse_head (joined (request_line m u v) (header_of <$> hs)) =
  match hs with [] => None | _ => Some ((m, u, v), declared hs) end.
Proof.
  intros [[Hm Hmc] [Hu Huc] Hv Hhs _ _]. pose proof (headers_good hs Hhs) as Hgood.
  assert (lacks cr (request_line m u v) = true) as Hrl
    by (unfold request_line; by rewrite !lacks_app, Hmc, Huc, Hv).
  unfold parse_head. destruct hs as [|h hs]; cbn [fmap list_fmap joined].
  { by rewrite crlf_cons, find_str_none. }
  rewrite crlf_cons, find_str_app, <- crlf_cons, str_take_app, parse_request_line_text by done.
  rewrite <- str_drop_drop, (str_drop_app (String.length (request_line m u v))) by done.
  rewrite (str_drop_app 2) by done. f_equal. f_equal.
  change (list_fmap _ _ header_of hs) with (header_of <$> hs).
  rewrite header_lines_joined by done. exact (headers_fold (h :: hs) (∅, 0) Hhs).
Qed.

Lemma parse_http_text m u v hs body rest :
  wf_http m u v hs body ->
  parse_http (request_text m u v hs body +:+ rest) =
  match hs with
  | [] => Malformed
  | _ => Parsed (request_of m u v hs body) (slen (request_text m u v hs body))
  end.
Proof.
  intros Hw. pose proof (parse_head_text m u v hs body Hw) as Hhead.
  destruct Hw as [[Hm Hmc] [Hu Huc] Hv Hhs Hb Hsize]. unfold parse_http, request_text in *.
  assert (lacks cr (request_line m u v) = true) as Hrl
    by (unfold request_line; by rewrite !lacks_app, Hmc, Huc, Hv).
  pose proof (find_end _ _ (body +:+ rest) Hrl (headers_good hs Hhs)) as Hend.
  set (head := joined (request_line m u v) (header_of <$> hs)) in *.
  rewrite !str_app_assoc, Hend, str_take_app, Hhead by done.
  destruct hs as [|h hs]; [done|]. destruct (declared (h :: hs)) as [hdrs len] eqn:Hd.
  cbn [snd] in Hb. subst len. rewrite !slen_app in Hsize.
  change (slen crlf) with 2 in Hsize. pose proof (slen_nonneg head). pose proof (slen_nonneg body).
  pose proof (slen_nonneg rest). change (Z.of_nat (String.length head)) with (slen head).
  rewrite u64_id by lia. rewrite !slen_app. change (slen crlf) with 2.
  rewrite (proj2 (Z.ltb_ge _ _)) by lia.
  rewrite <- str_drop_drop, (str_drop_app (String.length head)) by done.
  rewrite <- (str_app_assoc crlf crlf), (str_drop_app 4) by done.
  rewrite slen_app, Z.min_l by lia. rewrite str_take_app by (unfold slen; lia).
  unfold request_of. rewrite Hd. f_equal. lia.
Qed.

(** ** Sending *)

Lemma Send_bytes r c data :
  closed_ c = false -> close_after_write_ c = false -> r <> SendFailed ->
  let c' := Send r c data in
  closed_ c' = false /\ close_after_write_ c' = false /\ read_buffer_ c' = read_buffer_ c /\
  sent c' +:+ write_buffer_ c' = sent c +:+ write_buffer_ c +:+ data.
Proof.
  intros Hc Ha Hr. unfold Send. rewrite Hc.
  destruct (is_nil (write_buffer_ c)) eqn:Hw; cbn [close_after_write_]; rewrite ?Ha.
  - assert (write_buffer_ c = "") as -> by (by destruct (write_buffer_ c)).
    destruct r as [[|n]| | |]; try done; cbn -[str_take str_drop Nat.leb]; rewrite ?str_app_nil_r, ?str_app_nil_l; try done.
    destruct (String.length data <=? S n)%nat; cbn [closed_ close_after_write_ read_buffer_ sent write_buffer_];
      rewrite ?Ha; split_and!; try done; rewrite ?str_app_nil_r, ?str_app_nil_l; try done.
    by rewrite str_app_assoc, str_take_drop.
  - cbn. split_and!; try done. by rewrite str_app_nil_r.
Qed.

Lemma write_loop_bytes script c c' :
  write_loop script c = Some c' ->
  sent c' +:+ write_buffer_ c' = sent c +:+ write_buffer_ c.
Proof.
  revert c. induction script as [|r script IH]; intros c; cbn [write_loop];
    (destruct (closed_ c || is_nil (write_buffer_ c)); [by intros [= <-]|]); [done|].
  destruct r as [n| | |].
  - intros H%IH. cbn [sent write_buffer_] in H. by rewrite H, str_app_assoc, str_take_drop.
  - by intros [= <-].
  - apply IH.
  - by intros [= <-].
Qed.

Lemma HandleWrite_bytes script c c' :
  HandleWrite script c = Some c' -> sent c' +:+ write_buffer_ c' = sent c +:+ write_buffer_ c.
Proof.
  unfold HandleWrite. destruct (write_loop script c) as [c1|] eqn:Hl; [|done].
  apply write_loop_bytes in Hl. intros [= <-]. by destruct (_ && _).
Qed.

(** ** Pipelined requests *)

Record client_request := mkClient {
  cq_method : string; cq_uri : string; cq_version : string;
  cq_headers : list (string * string); cq_body : string }.
Definition client_text (q : client_request) : string :=
  request_text (cq_method q) (cq_uri q) (cq_version q) (cq_headers q) (cq_body q).
Definition client_parsed (q : client_request) : HttpRequest :=
  request_of (cq_method q) (cq_uri q) (cq_version q) (cq_headers q) (cq_body q).
Fixpoint pipeline (qs : list client_request) (tail : string) : string :=
  match qs with
  | [] => tail
  | q :: qs => client_text q +:+ pipeline qs tail
  end.

(** A well-formed request with at least one header that keeps the connection. *)
Definition served (q : client_request) : Prop :=
  wf_http (cq_method q) (cq_uri q) (cq_version q) (cq_headers q) (cq_body q) /\
  cq_headers q <> [] /\ keep_alive (client_parsed q) = true.

Section pipeline.
Context {H : Type} (handler_ : option (H -> HttpRequest -> H * HttpResponse)).

(** The handler called on each request in turn; the responses in that order. *)
Fixpoint serve_all (h : H) (qs : list client_request) : H * string :=
  match qs with
  | [] => (h, "")
  | q :: qs =>
      let '(h, res) := call_handler handler_ h (client_parsed q) in
      let '(h, out) := serve_all h qs in
      (h, Serialize (finish_response (client_parsed q) res) +:+ out)
  end.

Lemma process_pipeline qs tail sends i c h :
  Forall served qs -> parse_http tail = NeedMore -> (forall j, sends j <> SendFailed) ->
  closed_ c = false -> close_after_write_ c = false -> read_buffer_ c = pipeline qs tail ->
  exists c', ProcessReadBuffer handler_ (S (length qs)) sends i c h = Some (c', (serve_all h qs).1) /\
    read_buffer_ c' = tail /\ closed_ c' = false /\
    sent c' +:+ write_buffer_ c' = sent c +:+ write_buffer_ c +:+ (serve_all h qs).2.
Proof.
  intros Hqs Ht Hs. revert i c h.
  induction Hqs as [|q qs (Hw & Hne & Hk) Hqs IH]; intros i c h Hc Ha Hb.
  - exists c. cbn [length ProcessReadBuffer pipeline serve_all fst snd] in *.
    rewrite Hc, Hb, Ht, str_app_nil_r. done.
  - cbn [length pipeline] in *.
    pose proof (parse_http_text _ _ _ _ _ (pipeline qs tail) Hw) as Hp.
    fold (client_text q) (client_parsed q) in Hp.
    assert (parse_http (client_text q +:+ pipeline qs tail) =
      Parsed (client_parsed q) (slen (client_text q))) as Hp' by (by destruct (cq_headers q)).
    remember (S (length qs)) as fuel eqn:Hfuel.
    cbn [ProcessReadBuffer serve_all]. rewrite Hc, Hb, Hp'.
    destruct (call_handler handler_ h (client_parsed q)) as [h1 res].
    rewrite Hk, Ha. cbn [negb orb].
    rewrite str_drop_app by (unfold slen; lia).
    set (c1 := mkChannel (pipeline qs tail) (write_buffer_ c) false false (sent c)).
    set (data := Serialize (finish_response (client_parsed q) res)).
    destruct (Send_bytes (sends i) c1 data eq_refl eq_refl (Hs i)) as (H1 & H2 & H3 & H4).
    cbn [read_buffer_ sent write_buffer_ c1] in H3, H4. rewrite H2. cbn [andb].
    destruct (IH (S i) (Send (sends i) c1 data) h1 H1 H2 H3) as (c' & -> & Hr & Hcl & Hbytes).
    exists c'. destruct (serve_all h1 qs) as [h2 out]. cbn [fst snd] in *. split_and!; try done.
    by rewrite Hbytes, <- str_app_assoc, H4, !str_app_assoc.
Qed.
End pipeline.

(** ** Theorems *)

(** The HTTP parser reads back what a client writes: a request with at least
    one header, whose words contain no blanks and line ends and whose
    Content-Length declares its body, is cut out of the buffer exactly, with its
    method, URI, path, query, version, headers and body, whatever bytes follow.
    The same request without any header is refused and the connection closed,
    although HTTP allows it. *)
Theorem http_request_parsed m u v hs body rest :
  wf_http m u v hs body ->
  parse_http (request_text m u v hs body +:+ rest) =
  match hs with
  | [] => Malformed
  | _ => Parsed (request_of m u v hs body) (slen (request_text m u v hs body))
  end.
Proof. apply parse_http_text. Qed.

(** C34: Pipelined requests are served in order and no response byte is lost or
    reordered. The buffer of an open channel holds keep-alive requests and an
    incomplete rest; each request has at least one header line (without any the code
    closes the connection), a method and URI without blanks, no carriage return in its
    first line and headers, header lines of a name in any letter case (no colon in
    it), a colon, a blank and a value without surrounding blanks, a last
    Content-Length that is the length of its body (none for an empty body), and fewer
    than 2^64 bytes. Then one run of the read loop ends after as many rounds, calls
    the handler on each request in turn, with the headers under their lower-case
    names, leaves exactly the rest, and what the socket accepted followed by what is
    queued has grown by the responses in order, for every pattern of short or refused
    sends that do not fail; later writes only move queued bytes to the socket. *)
Theorem http_pipeline_served {H} (handler_ : option (H -> HttpRequest -> H * HttpResponse)) qs tail sends c h :
  Forall served qs -> parse_http tail = NeedMore -> (forall j, sends j <> SendFailed) ->
  closed_ c = false -> close_after_write_ c = false -> read_buffer_ c = pipeline qs tail ->
  exists c',
    ProcessReadBuffer handler_ (S (length qs)) sends 0 c h = Some (c', (serve_all handler_ h qs).1) /\
    read_buffer_ c' = tail /\ closed_ c' = false /\
    sent c' +:+ write_buffer_ c' = sent c +:+ write_buffer_ c +:+ (serve_all handler_ h qs).2 /\
    forall script c'', HandleWrite script c' = Some c'' ->
      sent c'' +:+ write_buffer_ c'' = sent c' +:+ write_buffer_ c'.
Proof.
  intros. destruct (process_pipeline handler_ qs tail sends 0 c h) as (c' & ? & ? & ? & ?); try done.
  exists c'. split_and!; try done. intros script c''. apply HandleWrite_bytes.
Qed.

Definition spin_request : string :=
  "GET / HTTP/1.1" +:+ crlf +:+ "Content-Length: -39" +:+ crlf +:+ crlf.

Lemma spin_parsed :
  exists req, parse_http spin_request = Parsed req 0 /\ keep_alive req = true.
Proof. eexists. split; vm_compute; reflexivity. Qed.

(** C40: One request can keep the read loop busy for ever: a negative
    Content-Length is accepted modulo 2^64, the request length then wraps to
    zero, nothing is taken from the buffer and the same request is served again
    and again; no number of rounds ends the loop unless a send fails. *)
Theorem http_negative_length_spins {H} (handler_ : option (H -> HttpRequest -> H * HttpResponse))
    fuel sends i c h :
  closed_ c = false -> close_after_write_ c = false -> read_buffer_ c = spin_request ->
  (forall j, sends j <> SendFailed) ->
  ProcessReadBuffer handler_ fuel sends i c h = None.
Proof.
  intros Hc Ha Hb Hs. destruct spin_parsed as (req & Hp & Hk).
  revert i c h Hc Ha Hb. induction fuel as [|fuel IH]; intros i c h Hc Ha Hb; [done|].
  cbn [ProcessReadBuffer]. rewrite Hc, Hb, Hp.
  destruct (call_handler handler_ h req) as [h1 res]. rewrite Hk, Ha. cbn [negb orb].
  change (str_drop (Z.to_nat 0) spin_request) with spin_request.
  set (c1 := mkChannel spin_request (write_buffer_ c) false false (sent c)).
  set (data := Serialize (finish_response req res)).
  destruct (Send_bytes (sends i) c1 data eq_refl eq_refl (Hs i)) as (H1 & H2 & H3 & _).
  rewrite H2. cbn [andb]. by apply IH.
Qed.

(** ** Concrete runs *)

Definition sample_client : client_request :=
  mkClient "POST" "/kv/a?x=1" "HTTP/1.1" [("Host", "h"); ("Content-Length", "2")] "{}".

Lemma sample_client_wf :
  wf_http (cq_method sample_client) (cq_uri sample_client) (cq_version sample_client)
    (cq_headers sample_client) (cq_body sample_client).
Proof. constructor; try done. repeat constructor. Defined.

Lemma http_request_parsed_witness :
  parse_http (client_text sample_client +:+ "GET") =
  Parsed (client_parsed sample_client) (slen (client_text sample_client)) /\
  path (client_parsed sample_client) = "/kv/a".
Proof.
  split; [|reflexivity].
  exact (http_request_parsed _ _ _ _ _ "GET" sample_client_wf).
Defined.

Definition echo : option (nat -> HttpRequest -> nat * HttpResponse) :=
  Some (fun n req => (S n, mkHttpResponse 200 "OK" [] (req_body req))).

Lemma http_pipeline_served_witness :
  exists c', ProcessReadBuffer echo 3 (fun _ => Sent 7) 0
    (mkChannel (pipeline [sample_client; sample_client] "GET") "" false false "") 0%nat = Some (c', 2%nat) /\
    read_buffer_ c' = "GET".
Proof.
  destruct (http_pipeline_served echo [sample_client; sample_client] "GET" (fun _ => Sent 7)
    (mkChannel (pipeline [sample_client; sample_client] "GET") "" false false "") 0%nat)
    as (c' & Hr & Hb & _); try done.
  - repeat constructor; try done; apply sample_client_wf.
  - exists c'. split; [exact Hr|exact Hb].
Defined.

Lemma http_negative_length_spins_witness :
  ProcessReadBuffer echo 1000 (fun _ => Sent 100) 0 (mkChannel spin_request "" false false "") 0%nat = None.
Proof. by apply (http_negative_length_spins echo 1000). Defined.
