(* ===== verification/Format.v ===== *)
(** * Rendering responses (cli/format.cpp)

    [FormatResponse] shows a text as it is and picks the fields of a JSON envelope
    apart.  A position in the response is the rest of it from there on; a parser
    gives back the rest also when it fails, since the code moves the position then
    too.  [None]: [ParseNumber] overflows a signed 64-bit integer, which the language
    leaves undefined. *)
From S2P Require Import Prelude CStd Json Http.
Import JsonReader.

Record Result := mkResult { output : string; exit_requested : bool; exit_code : Z }.
Definition text_result (s : string) : Result := mkResult s false 0.
Definition error_result (s : string) : Result := mkResult s false 1.

(** ** The parsers *)

(** The character an escape stands for. *)
Definition unescape (esc : ascii) : ascii :=
  if char_is esc 98 then byte_of_Z 8
  else if char_is esc 102 then byte_of_Z 12
  else if char_is esc 110 then byte_of_Z 10
  else if char_is esc 114 then byte_of_Z 13
  else if char_is esc 116 then byte_of_Z 9
  else esc.

(** The loop of [ParseJsonString]: whether the quote was found, [out], the rest. *)
Fixpoint json_chars (s : string) : bool * string * string :=
  match s with
  | "" => (false, "", "")
  | String c s =>
      if char_is c 34 then (true, "", s)
      else if char_is c 92 then
        match s with
        | "" => (false, "", "")
        | String esc s =>
            let '(ok, out, rest) := json_chars s in (ok, String (unescape esc) out, rest)
        end
      else let '(ok, out, rest) := json_chars s in (ok, String c out, rest)
  end.

Definition ParseJsonString (s : string) : bool * string * string :=
  match skip_space s with
  | "" => (false, "", "")
  | String c s => if char_is c 34 then json_chars s else (false, "", s)
  end.

(** [value.substr(pos, n) == text], and the rest behind it *)
Definition literal (text s : string) : option string :=
  if bool_decide (str_take (String.length text) s = text) then Some (str_drop (String.length text) s) else None.

Definition ParseBool (s : string) : option bool :=
  let s := skip_space s in
  match literal "true" s with
  | Some _ => Some true
  | None => match literal "false" s with Some _ => Some false | None => None end
  end.

Inductive number_result := NoNumber | Number (n : Z) | NumberOverflow.

Fixpoint number_digits (out : Z) (s : string) : option Z :=
  match s with
  | String c s' =>
      if isdigit c then
        let out := out * 10 + digit_val c in
        if out <? 2 ^ 63 then number_digits out s' else None
      else Some out
  | "" => Some out
  end.

Definition ParseNumber (s : string) : number_result :=
  let s := skip_space s in
  let '(neg, s) := match s with
                   | String c s' => if char_is c 45 then (true, s') else (false, s)
                   | "" => (false, s)
                   end in
  match s with
  | String c _ =>
      if isdigit c then
        match number_digits 0 s with
        | Some out => Number (if neg : bool then - out else out)
        | None => NumberOverflow
        end
      else NoNumber
  | "" => NoNumber
  end.

(** The loop of [ParseStringList]; a round consumes at least the quotes of a string. *)
Fixpoint list_loop (fuel : nat) (s : string) (out : list string) : option (list string) :=
  match fuel, s with
  | _, "" | O, _ => None
  | S fuel, _ =>
      let '(ok, x, rest) := ParseJsonString s in
      if ok then
        let out := out ++ [x] in
        match skip_space rest with
        | String c rest =>
            if char_is c 93 then Some out
            else if char_is c 44 then list_loop fuel rest out
            else None
        | "" => None
        end
      else None
  end.

Definition ParseStringList (s : string) : option (list string) :=
  match skip_space s with
  | String c s =>
      if char_is c 91 then
        let s := skip_space s in
        match s with
        | String c _ => if char_is c 93 then Some [] else list_loop (String.length s) s []
        | "" => None
        end
      else None
  | "" => None
  end.

(** ** The response *)

(** [pos = json.find(field)]; the rest behind it. *)
Definition behind (field json : string) : option string :=
  match find_str field json with
  | Some pos => Some (str_drop (pos + String.length field) json)
  | None => None
  end.
Definition contains (text json : string) : bool :=
  match find_str text json with Some _ => true | None => false end.

(** A number that stays 0 without its field. *)
Definition number_of (field json : string) : option Z :=
  match behind field json with
  | None => Some 0
  | Some s => match ParseNumber s with Number n => Some n | NoNumber => Some 0 | NumberOverflow => None end
  end.
(** A string that stays empty without its field. *)
Definition string_of (field json : string) : string :=
  match behind field json with
  | None => ""
  | Some s => let '(_, out, _) := ParseJsonString s in out
  end.

Definition format_error (json : string) : Result :=
  let error_message := string_of (jq "'message':") json in
  let error_code := string_of (jq "'code':") json in
  error_result ("(error)" +:+ (if is_nil error_code then "" else " " +:+ error_code) +:+
                (if is_nil error_message then "" else ": " +:+ error_message)).

Definition integer_text (n : Z) : string := "(integer) " +:+ to_string n.

(** The loop over the boolean fields: the first that parses. *)
Fixpoint bool_fields (fields : list string) (json : string) : option string :=
  match fields with
  | [] => None
  | field :: fields =>
      match behind field json with
      | Some s =>
          match ParseBool s with
          | Some b => Some (if b then "(integer) 1" else "(integer) 0")
          | None => bool_fields fields json
          end
      | None => bool_fields fields json
      end
  end.

(** The loop over the integer fields. *)
Fixpoint int_fields (fields : list string) (json : string) : number_result :=
  match fields with
  | [] => NoNumber
  | field :: fields =>
      match behind field json with
      | Some s => match ParseNumber s with NoNumber => int_fields fields json | r => r end
      | None => int_fields fields json
      end
  end.

(** [1) "a"], [2) "b"], ... *)
Fixpoint numbered (sep : string) (i : Z) (keys : list string) : string :=
  match keys with
  | [] => ""
  | key :: keys =>
      (if 0 <? i then sep else "") +:+ to_string (i + 1) +:+ ") " +:+ QuoteJson key +:+ numbered sep (i + 1) keys
  end.

Definition line_end : string := String (byte_of_Z 10) "".

(** The last fields: cursor and keys. *)
Definition format_keys (json : string) : option Result :=
  let keys_only :=
    match behind (jq "'keys':") json with
    | Some s =>
        match ParseStringList s with
        | Some [] => text_result "(empty list or set)"
        | Some keys => text_result (numbered line_end 0 keys)
        | None => text_result json
        end
    | None => text_result json
    end in
  match behind (jq "'cursor':") json with
  | Some s =>
      match ParseNumber s with
      | NumberOverflow => None
      | NoNumber => Some keys_only
      | Number next_cursor =>
          match behind (jq "'keys':") json with
          | Some s =>
              match ParseStringList s with
              | Some keys =>
                  Some (text_result (jq "1) '" +:+ to_string next_cursor +:+ jq "'" +:+ line_end +:+ "2) " +:+
                    match keys with
                    | [] => "(empty list or set)"
                    | _ => numbered (line_end +:+ "   ") 0 keys
                    end))
              | None => Some keys_only
              end
          | None => Some keys_only
          end
      end
  | None => Some keys_only
  end.

(** From the integer fields on. *)
Definition format_tail (json : string) : option Result :=
  match int_fields [jq "'deleted':"; jq "'count':"; jq "'size':"; jq "'ttl_seconds':"; jq "'ttl_ms':"; jq "'balance':"] json with
  | Number n => Some (text_result (integer_text n))
  | NumberOverflow => None
  | NoNumber =>
      match behind (jq "'type':") json with
      | Some s =>
          let '(ok, type_val, _) := ParseJsonString s in
          if ok then Some (text_result type_val) else format_keys json
      | None => format_keys json
      end
  end.

(** From the value on: [ParseNumber] starts where [ParseJsonString] stopped. *)
Definition format_value (json : string) : option Result :=
  match behind (jq "'value':") json with
  | Some s =>
      let '(ok, value, rest) := ParseJsonString s in
      if ok then Some (text_result (QuoteJson value))
      else match ParseNumber rest with
           | Number n => Some (text_result (integer_text n))
           | NumberOverflow => None
           | NoNumber => format_tail json
           end
  | None => format_tail json
  end.

Definition format_success (json : string) : option Result :=
  if contains (jq "'pong':true") json || contains (jq "'pong': true") json then Some (text_result "PONG")
  else if contains (jq "'stored':true") json || contains (jq "'stored': true") json then Some (text_result "OK")
  else if contains (jq "'stored':false") json || contains (jq "'stored': false") json
  then Some (text_result "(nil)")
  else
    match behind (jq "'allowed':") json with
    | Some s =>
        remaining_val ← number_of (jq "'remaining':") json;
        retry_val ← number_of (jq "'retry_after_ms':") json;
        Some (text_result ("allowed=" +:+ (if default false (ParseBool s) then "1" else "0") +:+
          " remaining=" +:+ to_string remaining_val +:+ " retry_after_ms=" +:+ to_string retry_val))
    | None =>
        if contains (jq "'reserved':") json then
          rem ← number_of (jq "'remaining':") json;
          Some (text_result ("reserved=1 reservation_id=" +:+
            QuoteJson (string_of (jq "'reservation_id':") json) +:+ " remaining=" +:+ to_string rem))
        else if contains (jq "'committed':") json then
          act ← number_of (jq "'actual_amount':") json;
          ref ← number_of (jq "'refunded':") json;
          rem ← number_of (jq "'remaining':") json;
          Some (text_result ("committed=1 actual_amount=" +:+ to_string act +:+ " refunded=" +:+
            to_string ref +:+ " remaining=" +:+ to_string rem))
        else if contains (jq "'rolled_back':") json then
          ref ← number_of (jq "'refunded':") json;
          rem ← number_of (jq "'remaining':") json;
          Some (text_result ("rolled_back=1 refunded=" +:+ to_string ref +:+ " remaining=" +:+ to_string rem))
        else
          match bool_fields [jq "'set':"; jq "'persisted':"; jq "'initialized':"] json with
          | Some text => Some (text_result text)
          | None => format_value json
          end
    end.

Definition FormatResponse (json : string) : option Result :=
  match json with
  | "" => Some (text_result "")
  | String c _ =>
      if negb (char_is c 123) then Some (text_result json)
      else
        match behind (jq "'ok':") json with
        | Some s =>
            match ParseBool s with
            | None => Some (text_result json)
            | Some false => Some (format_error json)
            | Some true => format_success json
            end
        | None => Some (text_result json)
        end
  end.

(** A number as the value: [ParseJsonString] has consumed its first digit when
    [ParseNumber] starts. *)
Lemma value_loses_digit :
  FormatResponse (EncodeSuccessResponse "gate-1" (jq "{'value':42}")) = Some (text_result "(integer) 2").
Proof. reflexivity. Qed.
(** An escaped control character is shown as its code. *)
Lemma control_character_shown :
  FormatResponse (EncodeSuccessResponse "gate-1" (jq "{'value':" +:+ QuoteJson (String (byte_of_Z 1) "") +:+ "}")) =
  Some (text_result (QuoteJson "u0001")).
Proof. reflexivity. Qed.
