(* ===== verification/HttpService.v ===== *)
(** * The HTTP API (service/http_service.h, service/http_service.cpp)

    [Handle] routes a request by its method and path; a handler reads the JSON
    body or the query, answers 400 before it touches the store when the input is
    not what it needs, and otherwise calls the store once (or once per key) and
    renders the result.  A reply is the new store, the lines handed to
    [AofWriter::Append] and the response.  [clk i] is the clock reading of the
    handler's [i]-th store call, [now_sec] the wall clock in seconds. *)
From S2P Require Import Prelude CStd Entry Store Json Command KvOps Codec Processor Http.
Import JsonReader.

(** ** The query string *)

(** [UrlDecode]: two hexadecimal digits after a percent sign, a blank for a plus;
    a percent sign that no two digits follow stands for itself. *)
Fixpoint UrlDecode (s : string) : string :=
  match s with
  | "" => ""
  | String c s1 =>
      if char_is c 37 then
        match s1 with
        | String d1 (String d2 s2) =>
            match hex_val d1, hex_val d2 with
            | Some h1, Some h2 => String (byte_of_Z (Z.lor (Z.shiftl h1 4) h2)) (UrlDecode s2)
            | _, _ => String c (UrlDecode s1)
            end
        | _ => String c (UrlDecode s1)
        end
      else if char_is c 43 then String " " (UrlDecode s1)
      else String c (UrlDecode s1)
  end.

(** [query.substr(val_start, val_end - val_start)] up to the next '&', if any. *)
Definition up_to_amp (s : string) : string :=
  match find_str "&" s with Some n => str_take n s | None => s end.

(** [query.find(p, pos)] *)
Definition find_from (p query : string) (pos : nat) : option nat :=
  if (String.length query <? pos)%nat then None
  else (fun n => (pos + n)%nat) <$> find_str p (str_drop pos query).

(** The [while] loop: an occurrence of "key=" counts at the start of the query or
    after '&'.  [pos] grows each round, so [fuel] rounds beyond the length of the
    query are never needed. *)
Fixpoint key_loop (fuel : nat) (query : string) (pos : option nat) : string :=
  match fuel, pos with
  | S fuel, Some pos =>
      if (pos =? 0)%nat || starts_with "&" (str_drop (pos - 1) query)
      then UrlDecode (up_to_amp (str_drop (pos + 4) query))
      else key_loop fuel query (find_from "key=" query (S pos))
  | _, _ => ""
  end.

Definition ExtractKeyFromQuery (query : string) : string :=
  key_loop (S (String.length query)) query (find_from "key=" query 0).

(** ** Reading the bodies *)

Definition unsupported {A} (field : string) : reader A := Fail_ ("unsupported field: " +:+ field).

(** [reader.UnsignedNumber() * 1000] *)
Definition thousands : reader Z := n <~ UnsignedNumber; ret (u64 (n * 1000)).

Record RateBody := mkRate {
  rl_key : string; rl_tenant : string; rl_subject : string; rl_resource : string;
  rl_limit : option Z; rl_window : option Z; rl_cost : Z }.
Definition rate_body0 : RateBody := mkRate "" "default" "anonymous" "default" None None 1.

Definition rate_body_field (field : string) (b : RateBody) : reader RateBody :=
  let 'mkRate key tenant subject resource limit window cost := b in
  if bool_decide (field = "key") then
    v <~ String_; ret (mkRate v tenant subject resource limit window cost)
  else if bool_decide (field = "tenant") then
    v <~ String_; ret (mkRate key v subject resource limit window cost)
  else if bool_decide (field = "subject") then
    v <~ String_; ret (mkRate key tenant v resource limit window cost)
  else if bool_decide (field = "resource") then
    v <~ String_; ret (mkRate key tenant subject v limit window cost)
  else if bool_decide (field = "limit") then
    n <~ UnsignedNumber; ret (mkRate key tenant subject resource (Some n) window cost)
  else if bool_decide (field = "window_ms") then
    n <~ UnsignedNumber; ret (mkRate key tenant subject resource limit (Some n) cost)
  else if bool_decide (field = "window_seconds") then
    n <~ thousands; ret (mkRate key tenant subject resource limit (Some n) cost)
  else if bool_decide (field = "cost") then
    n <~ UnsignedNumber; ret (mkRate key tenant subject resource limit window n)
  else unsupported field.

Definition reserve_body_field (field : string) (acc : string * option Z * option Z) :
    reader (string * option Z * option Z) :=
  let '(key, amount, ttl_ms) := acc in
  if bool_decide (field = "key") then k <~ String_; ret (k, amount, ttl_ms)
  else if bool_decide (field = "amount") then n <~ UnsignedNumber; ret (key, Some n, ttl_ms)
  else if bool_decide (field = "ttl_ms") then n <~ UnsignedNumber; ret (key, amount, Some n)
  else if bool_decide (field = "ttl_seconds") then n <~ thousands; ret (key, amount, Some n)
  else unsupported field.

Definition commit_body_field (field : string) (acc : string * string * option Z) :
    reader (string * string * option Z) :=
  let '(key, res_id, actual) := acc in
  if bool_decide (field = "key") then k <~ String_; ret (k, res_id, actual)
  else if bool_decide (field = "reservation_id") then i <~ String_; ret (key, i, actual)
  else if bool_decide (field = "actual_amount") then n <~ UnsignedNumber; ret (key, res_id, Some n)
  else unsupported field.

Definition rollback_body_field (field : string) (acc : string * string) : reader (string * string) :=
  let '(key, res_id) := acc in
  if bool_decide (field = "key") then k <~ String_; ret (k, res_id)
  else if bool_decide (field = "reservation_id") then i <~ String_; ret (key, i)
  else unsupported field.

Definition init_body_field (field : string) (acc : string * option Z * Z) : reader (string * option Z * Z) :=
  let '(key, quota, ttl_ms) := acc in
  if bool_decide (field = "key") then k <~ String_; ret (k, quota, ttl_ms)
  else if bool_decide (field = "quota") then n <~ UnsignedNumber; ret (key, Some n, ttl_ms)
  else if bool_decide (field = "ttl_ms") then n <~ UnsignedNumber; ret (key, quota, n)
  else if bool_decide (field = "ttl_seconds") then n <~ thousands; ret (key, quota, n)
  else unsupported field.

Definition begin_body_field (field : string) (acc : string * string * Z * string) :
    reader (string * string * Z * string) :=
  let '(key, request_hash, ttl_ms, owner_token) := acc in
  if bool_decide (field = "key") then k <~ String_; ret (k, request_hash, ttl_ms, owner_token)
  else if bool_decide (field = "request_hash") then h <~ String_; ret (key, h, ttl_ms, owner_token)
  else if bool_decide (field = "ttl_ms") then n <~ UnsignedNumber; ret (key, request_hash, n, owner_token)
  else if bool_decide (field = "ttl_seconds") then n <~ thousands; ret (key, request_hash, n, owner_token)
  else if bool_decide (field = "owner_token") then t <~ String_; ret (key, request_hash, ttl_ms, t)
  else unsupported field.

Definition complete_body_field (field : string) (acc : string * string * Z * string) :
    reader (string * string * Z * string) :=
  let '(key, owner_token, response_code, response_body) := acc in
  if bool_decide (field = "key") then k <~ String_; ret (k, owner_token, response_code, response_body)
  else if bool_decide (field = "owner_token") then t <~ String_; ret (key, t, response_code, response_body)
  else if bool_decide (field = "response_code")
  then n <~ SignedNumber; ret (key, owner_token, i32 n, response_body)
  else if bool_decide (field = "response_body") then b <~ String_; ret (key, owner_token, response_code, b)
  else unsupported field.

Definition fail_body_field (field : string) (acc : string * string * string) :
    reader (string * string * string) :=
  let '(key, owner_token, error_message) := acc in
  if bool_decide (field = "key") then k <~ String_; ret (k, owner_token, error_message)
  else if bool_decide (field = "owner_token") then t <~ String_; ret (key, t, error_message)
  else if bool_decide (field = "error_message") then e <~ String_; ret (key, owner_token, e)
  else unsupported field.

Definition condition_text (cond_str : string) : reader WriteCondition :=
  if bool_decide (cond_str = "nx") || bool_decide (cond_str = "if_not_exists") then ret IfAbsent
  else if bool_decide (cond_str = "xx") || bool_decide (cond_str = "if_exists") then ret IfPresent
  else if bool_decide (cond_str = "always") then ret Always
  else Fail_ ("unsupported condition: " +:+ cond_str).

Definition set_body_field (field : string) (acc : string * string * Z * WriteCondition) :
    reader (string * string * Z * WriteCondition) :=
  let '(key, value, ttl_ms, condition) := acc in
  if bool_decide (field = "key") then k <~ String_; ret (k, value, ttl_ms, condition)
  else if bool_decide (field = "value") then v <~ String_; ret (key, v, ttl_ms, condition)
  else if bool_decide (field = "ttl_ms") then n <~ UnsignedNumber; ret (key, value, n, condition)
  else if bool_decide (field = "ttl_seconds") then n <~ thousands; ret (key, value, n, condition)
  else if bool_decide (field = "condition")
  then cond_str <~ String_; c <~ condition_text cond_str; ret (key, value, ttl_ms, c)
  else if bool_decide (field = "if_not_exists")
  then b <~ Boolean; ret (key, value, ttl_ms, if b : bool then IfAbsent else condition)
  else if bool_decide (field = "if_exists")
  then b <~ Boolean; ret (key, value, ttl_ms, if b : bool then IfPresent else condition)
  else unsupported field.

(** The body of get, type and ttl. *)
Definition key_body_field (field : string) (key : string) : reader string :=
  if bool_decide (field = "key") then String_ else unsupported field.

(** The body of del and exists: the keys in order. *)
Definition keys_body_field (field : string) (keys : list string) : reader (list string) :=
  if bool_decide (field = "key") then k <~ String_; ret (keys ++ [k])
  else if bool_decide (field = "keys") then arr <~ StringArray; ret (keys ++ arr)
  else unsupported field.

Definition expire_body_field (field : string) (acc : string * option Z) : reader (string * option Z) :=
  let '(key, ttl_ms) := acc in
  if bool_decide (field = "key") then k <~ String_; ret (k, ttl_ms)
  else if bool_decide (field = "ttl_ms") || bool_decide (field = "milliseconds")
  then n <~ UnsignedNumber; ret (key, Some n)
  else if bool_decide (field = "ttl_seconds") || bool_decide (field = "seconds")
  then n <~ thousands; ret (key, Some n)
  else unsupported field.

(** ** Responses *)

Definition json_response (code : Z) (text body : string) : HttpResponse := mkHttpResponse code text [] body.
Definition ok_response (body : string) : HttpResponse := json_response 200 "OK" body.

(** The message goes into the body as it is. *)
Definition BadRequest (message : string) : HttpResponse :=
  json_response 400 "Bad Request" (jq "{'error':'INVALID_ARGUMENTS','message':'" +:+ message +:+ jq "'}").

(** The JSON object of an error code and a message, both as they are. *)
Definition error_body (code message : string) : string :=
  jq "{'error':'" +:+ code +:+ jq "','message':'" +:+ message +:+ jq "'}".

Definition method_not_allowed : HttpResponse :=
  json_response 405 "Method Not Allowed" (jq "{'error':'METHOD_NOT_ALLOWED'}").
Definition not_found : HttpResponse := json_response 404 "Not Found" (jq "{'error':'NOT_FOUND'}").
Definition HandleHealthz : HttpResponse := ok_response (jq "{'status':'ok'}").

(** The status of a refused completion or failure. *)
Definition idem_error (error_code error_message : string) : HttpResponse :=
  let body := error_body error_code error_message in
  if bool_decide (error_code = "ERR_TOKEN_MISMATCH") then json_response 403 "Forbidden" body
  else if bool_decide (error_code = "ERR_NOT_FOUND") || bool_decide (error_code = "ERR_EXPIRED")
  then json_response 404 "Not Found" body
  else json_response 400 "Bad Request" body.

(** The lines the HTTP handlers write where they differ from the binary ones. *)
Definition http_aof_set (key value : string) (condition : WriteCondition) (ttl_ms : Z) : string :=
  jq "{'key':" +:+ QuoteJson key +:+ jq ",'value':" +:+ QuoteJson value +:+
  (if 0 <? ttl_ms then jq ",'ttl_ms':" +:+ to_string ttl_ms else "") +:+
  match condition with
  | IfAbsent => jq ",'if_not_exists':true"
  | IfPresent => jq ",'if_exists':true"
  | Always => ""
  end +:+ "}".
Definition http_aof_reserve (key : string) (amount ttl_ms : Z) : string :=
  jq "{'key':" +:+ QuoteJson key +:+ jq ",'amount':" +:+ to_string amount +:+
  jq ",'ttl_ms':" +:+ to_string ttl_ms +:+ "}".
Definition http_aof_init (key : string) (quota : Z) : string :=
  jq "{'key':" +:+ QuoteJson key +:+ jq ",'amount':" +:+ to_string quota +:+ "}".
Definition http_aof_begin (key request_hash : string) (ttl_ms : Z) (owner_token : string) : string :=
  jq "{'key':" +:+ QuoteJson key +:+ jq ",'request_hash':" +:+ QuoteJson request_hash +:+
  jq ",'ttl_ms':" +:+ to_string ttl_ms +:+ jq ",'owner_token':" +:+ QuoteJson owner_token +:+ "}".
Definition http_aof_complete (key owner_token : string) (response_code : Z) (response_body : string) : string :=
  jq "{'key':" +:+ QuoteJson key +:+ jq ",'owner_token':" +:+ QuoteJson owner_token +:+
  jq ",'response_code':" +:+ to_string response_code +:+
  jq ",'response_body':" +:+ QuoteJson response_body +:+ "}".
Definition http_aof_fail (key owner_token error_message : string) : string :=
  jq "{'key':" +:+ QuoteJson key +:+ jq ",'owner_token':" +:+ QuoteJson owner_token +:+
  jq ",'error_message':" +:+ QuoteJson error_message +:+ "}".
Definition http_aof_pexpire (key : string) (ttl_ms : Z) : string :=
  jq "{'key':" +:+ QuoteJson key +:+ jq ",'ttl_ms':" +:+ to_string ttl_ms +:+ "}".
Definition http_aof_del (key : string) : string := jq "{'key':" +:+ QuoteJson key +:+ "}".

Definition rate_response (now_sec limit window_ms : Z) (res : RateLimitResult) : HttpResponse :=
  let resp := json_response 200 "OK" "" in
  let resp := SetHeader resp "X-RateLimit-Limit" (to_string limit) in
  let resp := SetHeader resp "X-RateLimit-Remaining" (to_string (rr_remaining res)) in
  if rr_allowed res then
    let reset_sec := u64 (now_sec + window_ms / 1000 + 1) in
    let resp := SetHeader resp "X-RateLimit-Reset" (to_string reset_sec) in
    mkHttpResponse 200 "OK" (res_headers resp)
      (jq "{'allowed':true,'remaining':" +:+ to_string (rr_remaining res) +:+ jq ",'retry_after_ms':0}")
  else
    let retry_after_sec := u64 (rr_retry_after_ms res + 999) / 1000 in
    let reset_sec := u64 (now_sec + retry_after_sec) in
    let resp := SetHeader resp "X-RateLimit-Reset" (to_string reset_sec) in
    let resp := SetHeader resp "Retry-After" (to_string retry_after_sec) in
    mkHttpResponse 429 "Too Many Requests" (res_headers resp)
      (jq "{'allowed':false,'remaining':0,'retry_after_ms':" +:+ to_string (rr_retry_after_ms res) +:+ "}").

Definition action_text (action : IdempotencyAction) : string :=
  match action with
  | IA_Execute => "EXECUTE"
  | IA_Park => "PARK"
  | IA_Replay => "REPLAY"
  | IA_Conflict => "UNKNOWN"
  end.

Definition begin_body (res : IdempotencyBeginResult) : string :=
  jq "{'action':" +:+ jq "'" +:+ action_text (ib_action res) +:+ jq "'" +:+
  jq ",'owner_token':" +:+ QuoteJson (ib_owner_token res) +:+
  (if bool_decide (ib_action res = IA_Replay)
   then jq ",'response_code':" +:+ to_string (ib_cached_code res) +:+
        jq ",'response_body':" +:+ QuoteJson (ib_cached_response res)
   else "") +:+ "}".

(** ** The handlers *)

Section service.
Context {S : Type} `{!Store S}.
(** The clock readings of the store calls, the wall clock in seconds, and whether
    there is an [aof_writer_]. *)
Context (clk : clock) (now_sec : Z) (aof : bool).

Definition reply : Type := S * list aof_line * HttpResponse.

(** The [try] block around the reading of a body. *)
Definition read_body {A} (m : reader A) (st : S) (body : string) (k : A -> reply) : reply :=
  match m body with
  | inl (a, _) => k a
  | inr what => (st, [], BadRequest ("invalid JSON: " +:+ c_str what))
  end.

(** A handler that needs a body. *)
Definition json_body {A} (m : reader A) (st : S) (req : HttpRequest) (k : A -> reply) : reply :=
  if is_nil (req_body req) then (st, [], BadRequest "missing JSON body")
  else read_body m st (req_body req) k.

Definition HandleRateLimitCheck (st : S) (req : HttpRequest) : reply :=
  json_body (fields rate_body_field rate_body0) st req (fun b =>
    match rl_limit b with
    | Some limit =>
        if limit =? 0 then (st, [], BadRequest "limit is required and must be greater than 0")
        else
          match rl_window b with
          | Some window_ms =>
              if window_ms =? 0
              then (st, [], BadRequest "window_ms is required and must be greater than 0")
              else
                let key := if is_nil (rl_key b)
                           then "gk:rate:" +:+ rl_tenant b +:+ ":" +:+ rl_subject b +:+ ":" +:+ rl_resource b
                           else rl_key b in
                let '(st, res) := RateLimit (clk O) st key limit window_ms (rl_cost b) in
                (st, [], rate_response now_sec limit window_ms res)
          | None => (st, [], BadRequest "window_ms is required and must be greater than 0")
          end
    | None => (st, [], BadRequest "limit is required and must be greater than 0")
    end).

Definition HandleQuotaReserve (st : S) (req : HttpRequest) : reply :=
  json_body (fields reserve_body_field ("", None, None)) st req (fun '(key, amount, ttl_ms) =>
    if is_nil key then (st, [], BadRequest "key is required")
    else
      let amount := default 0 amount in
      let ttl_ms := default 0 ttl_ms in
      if amount =? 0 then (st, [], BadRequest "amount is required and must be greater than 0")
      else if ttl_ms =? 0 then (st, [], BadRequest "ttl_ms is required and must be greater than 0")
      else
        let '(st, res) := ReserveQuota (clk O) st key amount ttl_ms in
        if negb (rv_ok res)
        then (st, [], json_response 400 "Bad Request"
                        (error_body (rv_error_code res) (rv_error_message res)))
        else if rv_reserved res
        then (st, log aof true "GK.RESERVE" (http_aof_reserve key amount ttl_ms),
              ok_response (jq "{'reserved':true,'remaining':" +:+ to_string (rv_remaining res) +:+
                           jq ",'reservation_id':'" +:+ rv_reservation_id res +:+ jq "'}"))
        else (st, [], json_response 429 "Too Many Requests"
                        (jq "{'reserved':false,'remaining':" +:+ to_string (rv_remaining res) +:+
                         jq ",'reservation_id':''}"))).

Definition HandleQuotaCommit (st : S) (req : HttpRequest) : reply :=
  json_body (fields commit_body_field ("", "", None)) st req (fun '(key, res_id, actual) =>
    match is_nil key || is_nil res_id, actual with
    | false, Some actual_amount =>
        let '(st, res) := CommitQuota (clk O) st key res_id actual_amount in
        if negb (cr_ok res)
        then (st, [], json_response 400 "Bad Request"
                        (error_body (cr_error_code res) (cr_error_message res)))
        else (st, [], ok_response (jq "{'committed':true,'actual_amount':" +:+
                                   to_string (cr_actual_amount res) +:+
                                   jq ",'refunded':" +:+ to_string (cr_refunded res) +:+
                                   jq ",'remaining':" +:+ to_string (cr_remaining res) +:+ "}"))
    | _, _ => (st, [], BadRequest "key, reservation_id, and actual_amount are required")
    end).

Definition HandleQuotaRollback (st : S) (req : HttpRequest) : reply :=
  json_body (fields rollback_body_field ("", "")) st req (fun '(key, res_id) =>
    if is_nil key || is_nil res_id then (st, [], BadRequest "key and reservation_id are required")
    else
      let '(st, res) := RollbackQuota (clk O) st key res_id in
      if negb (rb_ok res)
      then (st, [], json_response 400 "Bad Request"
                      (error_body (rb_error_code res) (rb_error_message res)))
      else (st, [], ok_response (jq "{'rolled_back':true,'refunded':" +:+ to_string (rb_refunded res) +:+
                                 jq ",'remaining':" +:+ to_string (rb_remaining res) +:+ "}"))).

Definition HandleQuotaInit (st : S) (req : HttpRequest) : reply :=
  json_body (fields init_body_field ("", None, 0)) st req (fun '(key, quota, ttl_ms) =>
    match is_nil key, quota with
    | false, Some quota =>
        let '(st, set) := Set_ (clk O) st key (to_string quota) Always ttl_ms in
        (st, log aof true "GK.QUOTA_INIT" (http_aof_init key quota),
         ok_response (jq "{'ok':" +:+ json_bool set +:+ jq ",'quota':" +:+ to_string quota +:+ "}"))
    | _, _ => (st, [], BadRequest "key and quota are required")
    end).

Definition HandleIdempotencyBegin (st : S) (req : HttpRequest) : reply :=
  json_body (fields begin_body_field ("", "", 0, "")) st req
    (fun '(key, request_hash, ttl_ms, owner_token) =>
    if is_nil key || is_nil request_hash
    then (st, [], BadRequest "key and request_hash are required")
    else
      let '(st, res) := IdemBegin (clk O) st key request_hash ttl_ms owner_token in
      if negb (ib_ok res) then
        let body := error_body (ib_error_code res) (ib_error_message res) in
        (st, [], if bool_decide (ib_action res = IA_Conflict) then json_response 409 "Conflict" body
                 else json_response 400 "Bad Request" body)
      else
        (st, log aof (bool_decide (ib_action res = IA_Execute)) "GK.IDEM_BEGIN"
               (http_aof_begin key request_hash ttl_ms (ib_owner_token res)),
         ok_response (begin_body res))).

Definition HandleIdempotencyComplete (st : S) (req : HttpRequest) : reply :=
  json_body (fields complete_body_field ("", "", 200, "")) st req
    (fun '(key, owner_token, response_code, response_body) =>
    if is_nil key || is_nil owner_token then (st, [], BadRequest "key and owner_token are required")
    else
      let '(st, res) := IdemComplete (clk O) st key owner_token response_code response_body in
      if negb (ic_ok res) then (st, [], idem_error (ic_error_code res) (ic_error_message res))
      else (st, log aof true "GK.IDEM_COMPLETE"
                  (http_aof_complete key owner_token response_code response_body),
            ok_response (jq "{'completed':true}"))).

Definition HandleIdempotencyFail (st : S) (req : HttpRequest) : reply :=
  json_body (fields fail_body_field ("", "", "")) st req (fun '(key, owner_token, error_message) =>
    if is_nil key || is_nil owner_token then (st, [], BadRequest "key and owner_token are required")
    else
      let '(st, res) := IdemFail (clk O) st key owner_token error_message in
      if negb (if_ok res) then (st, [], idem_error (if_error_code res) (if_error_message res))
      else (st, log aof true "GK.IDEM_FAIL" (http_aof_fail key owner_token error_message),
            ok_response (jq "{'failed':true}"))).

Definition HandleKvSet (st : S) (req : HttpRequest) : reply :=
  json_body (fields set_body_field ("", "", 0, Always)) st req (fun '(key, value, ttl_ms, condition) =>
    if is_nil key then (st, [], BadRequest "key is required and must not be empty")
    else
      let '(st, stored) := Set_ (clk O) st key value condition ttl_ms in
      (st, log aof stored "SET" (http_aof_set key value condition ttl_ms),
       ok_response (jq "{'ok':true,'set':" +:+ (if stored : bool then "true}" else "false}")))).

(** [get], [type] and [ttl] take their key from the query, or from the body when
    the query gives none. *)
Definition with_query_key (st : S) (req : HttpRequest) (k : string -> reply) : reply :=
  let key := ExtractKeyFromQuery (query req) in
  let go key := if is_nil key then (st, [], BadRequest "key is required") else k key in
  if is_nil key && negb (is_nil (req_body req))
  then read_body (fields key_body_field key) st (req_body req) go
  else go key.

Definition HandleKvGet (st : S) (req : HttpRequest) : reply :=
  with_query_key st req (fun key =>
    let '(st, val) := Get (clk O) st key in
    match val with
    | None => (st, [], json_response 404 "Not Found" (error_body "KEY_NOT_FOUND" "key does not exist"))
    | Some val => (st, [], ok_response (jq "{'key':" +:+ QuoteJson key +:+ jq ",'value':" +:+
                                        QuoteJson val +:+ "}"))
    end).

(** [del] and [exists] take their keys from the body when there is one, else from
    the query. *)
Definition with_keys (st : S) (req : HttpRequest) (k : list string -> reply) : reply :=
  let go keys := if bool_decide (keys = []) then (st, [], BadRequest "key or keys are required")
                 else k keys in
  if negb (is_nil (req_body req))
  then read_body (opt_fields keys_body_field []) st (req_body req) go
  else
    let key := ExtractKeyFromQuery (query req) in
    go (if is_nil key then [] else [key]).

Fixpoint del_keys (st : S) (keys : list string) (deleted : Z) : S * list aof_line * Z :=
  match keys with
  | [] => (st, [], deleted)
  | k :: keys =>
      let '(st, b) := Del st k in
      let '(st, lines, deleted) := del_keys st keys (if b : bool then deleted + 1 else deleted) in
      (st, log aof b "DEL" (http_aof_del k) ++ lines, deleted)
  end.

Definition HandleKvDel (st : S) (req : HttpRequest) : reply :=
  with_keys st req (fun keys =>
    let '(st, lines, deleted) := del_keys st keys 0 in
    (st, lines, ok_response (jq "{'deleted':" +:+ to_string deleted +:+ "}"))).

Definition HandleKvExists (st : S) (req : HttpRequest) : reply :=
  with_keys st req (fun keys =>
    let '(st, count) := KeyOps.exists_loop clk 0 st keys 0 in
    (st, [], ok_response (jq "{'count':" +:+ to_string count +:+ "}"))).

Definition HandleKvType (st : S) (req : HttpRequest) : reply :=
  with_query_key st req (fun key =>
    let '(st, type) := Type_ (clk O) st key in
    let type_str := if bool_decide (type = DT_String) then "string" else "none" in
    (st, [], ok_response (jq "{'key':" +:+ QuoteJson key +:+ jq ",'type':'" +:+ type_str +:+ jq "'}"))).

Definition HandleKvExpire (st : S) (req : HttpRequest) : reply :=
  json_body (fields expire_body_field ("", None)) st req (fun '(key, ttl_ms) =>
    match is_nil key, ttl_ms with
    | false, Some ttl_ms =>
        let '(st, ok) := Expire (clk O) st key ttl_ms in
        (st, log aof ok "PEXPIRE" (http_aof_pexpire key ttl_ms),
         ok_response (jq "{'ok':" +:+ (if ok : bool then "true}" else "false}")))
    | _, _ => (st, [], BadRequest "key and ttl are required")
    end).

Definition HandleKvTtl (st : S) (req : HttpRequest) : reply :=
  with_query_key st req (fun key =>
    let '(st, ttl_sec) := Ttl (clk O) st key in
    let '(st, ttl_ms) := Pttl (clk 1%nat) st key in
    (st, [], ok_response (jq "{'key':" +:+ QuoteJson key +:+ jq ",'ttl_seconds':" +:+ to_string ttl_sec +:+
                          jq ",'ttl_ms':" +:+ to_string ttl_ms +:+ "}"))).

(** ** Routing *)

Definition is_route (req : HttpRequest) (m p : string) : bool :=
  bool_decide (method req = m) && bool_decide (path req = p).

Definition known_paths : list string :=
  ["/healthz"; "/v1/rate-limit/check"; "/v1/quota/reserve"; "/v1/quota/commit"; "/v1/quota/rollback";
   "/v1/quota/init"; "/v1/idempotency/begin"; "/v1/idempotency/complete"; "/v1/idempotency/fail";
   "/v1/kv/set"; "/v1/kv/get"; "/v1/kv/del"; "/v1/kv/exists"; "/v1/kv/type"; "/v1/kv/expire"; "/v1/kv/ttl"].

Definition Handle (st : S) (req : HttpRequest) : reply :=
  if is_route req "GET" "/healthz" then (st, [], HandleHealthz)
  else if is_route req "POST" "/v1/rate-limit/check" then HandleRateLimitCheck st req
  else if is_route req "POST" "/v1/quota/reserve" then HandleQuotaReserve st req
  else if is_route req "POST" "/v1/quota/commit" then HandleQuotaCommit st req
  else if is_route req "POST" "/v1/quota/rollback" then HandleQuotaRollback st req
  else if is_route req "POST" "/v1/quota/init" then HandleQuotaInit st req
  else if is_route req "POST" "/v1/idempotency/begin" then HandleIdempotencyBegin st req
  else if is_route req "POST" "/v1/idempotency/complete" then HandleIdempotencyComplete st req
  else if is_route req "POST" "/v1/idempotency/fail" then HandleIdempotencyFail st req
  else if is_route req "POST" "/v1/kv/set" then HandleKvSet st req
  else if is_route req "GET" "/v1/kv/get" then HandleKvGet st req
  else if is_route req "POST" "/v1/kv/del" then HandleKvDel st req
  else if is_route req "POST" "/v1/kv/exists" then HandleKvExists st req
  else if is_route req "GET" "/v1/kv/type" then HandleKvType st req
  else if is_route req "POST" "/v1/kv/expire" then HandleKvExpire st req
  else if is_route req "GET" "/v1/kv/ttl" then HandleKvTtl st req
  else if bool_decide (path req ∈ known_paths) then (st, [], method_not_allowed)
  else (st, [], not_found).

End service.
