(* ===== verification/HttpApi.v ===== *)
(** * Properties of the HTTP API

    Routing against a table, the key of a query string, and the log lines of the
    HTTP handlers replayed by the command table. *)
From S2P Require Import Prelude CStd HashTable Entry Store MemoryStore KvTrace Json StringBody Command KvOps QuotaOps IdemOps Codec Processor Dispatcher Aof Replay Http HttpService.
Import JsonReader.

(** ** Routing *)

(** Evaluates the tests on literal paths. *)
Ltac eval_literals :=
  repeat match goal with
  | |- context [bool_decide (?R (String ?a ?b) ?y)] =>
      let t := constr:(bool_decide (R (String a b) y)) in
      let v := eval vm_compute in t in
      lazymatch v with
      | true => change t with true
      | false => change t with false
      end
  end.
(** One case per literal that the path is compared with. *)
Ltac by_path req :=
  repeat match goal with
  | |- context [bool_decide (path req = ?p)] =>
      let E := fresh "E" in
      destruct (decide (path req = p)) as [E|E];
      [rewrite E; eval_literals; rewrite ?andb_false_r, ?andb_true_r; cbn [andb];
       repeat case_bool_decide; congruence
      |rewrite (bool_decide_false _ E)]
  end.

Section routing.
Context {S : Type} `{!Store S}.
Context (clk : clock) (now_sec : Z) (aof : bool).

Definition endpoint : Type := S -> HttpRequest -> reply (S := S).

(** Path, method and handler of each endpoint. *)
Definition routes : list (string * (string * endpoint)) :=
  [("/healthz", ("GET", fun st _ => (st, [], HandleHealthz)));
   ("/v1/rate-limit/check", ("POST", HandleRateLimitCheck clk now_sec));
   ("/v1/quota/reserve", ("POST", HandleQuotaReserve clk aof));
   ("/v1/quota/commit", ("POST", HandleQuotaCommit clk));
   ("/v1/quota/rollback", ("POST", HandleQuotaRollback clk));
   ("/v1/quota/init", ("POST", HandleQuotaInit clk aof));
   ("/v1/idempotency/begin", ("POST", HandleIdempotencyBegin clk aof));
   ("/v1/idempotency/complete", ("POST", HandleIdempotencyComplete clk aof));
   ("/v1/idempotency/fail", ("POST", HandleIdempotencyFail clk aof));
   ("/v1/kv/set", ("POST", HandleKvSet clk aof));
   ("/v1/kv/get", ("GET", HandleKvGet clk));
   ("/v1/kv/del", ("POST", HandleKvDel aof));
   ("/v1/kv/exists", ("POST", HandleKvExists clk));
   ("/v1/kv/type", ("GET", HandleKvType clk));
   ("/v1/kv/expire", ("POST", HandleKvExpire clk aof));
   ("/v1/kv/ttl", ("GET", HandleKvTtl clk))].

Fixpoint assoc {B} (l : list (string * B)) (k : string) : option B :=
  match l with
  | [] => None
  | (k', b) :: l => if bool_decide (k = k') then Some b else assoc l k
  end.

Lemma Handle_routes st req :
  Handle clk now_sec aof st req =
  match assoc routes (path req) with
  | Some (m, h) => if bool_decide (method req = m) then h st req else (st, [], method_not_allowed)
  | None => (st, [], not_found)
  end.
Proof.
  unfold Handle, is_route, routes. cbn [assoc]. by_path req.
  destruct (decide (path req ∈ known_paths)) as [Hin|Hin].
  - exfalso. unfold known_paths in Hin. set_solver.
  - by rewrite !andb_false_r, bool_decide_false.
Qed.
End routing.

(** ** The key of a query string *)

(** [t] is a percent-encoding of [k]: each byte as itself (not '%', '+', '&'), as a
    percent sign and two hexadecimal digits of either case, or a blank as '+'. *)
Inductive url_encodes : string -> string -> Prop :=
| ue_nil : url_encodes "" ""
| ue_plain c k t :
    char_is c 37 = false -> char_is c 43 = false -> char_is c 38 = false ->
    url_encodes k t -> url_encodes (String c k) (String c t)
| ue_hex c d1 d2 k t :
    hex_val d1 = Some (Z_of_byte c / 16) -> hex_val d2 = Some (Z_of_byte c mod 16) ->
    url_encodes k t -> url_encodes (String c k) (String "%" (String d1 (String d2 t)))
| ue_blank k t : url_encodes k t -> url_encodes (String " " k) (String "+" t).

Lemma hex_byte c : byte_of_Z (Z.lor (Z.shiftl (Z_of_byte c / 16) 4) (Z_of_byte c mod 16)) = c.
Proof.
  apply (bool_decide_eq_true_1 _). revert c.
  apply (byte_forall (fun c => bool_decide
    (byte_of_Z (Z.lor (Z.shiftl (Z_of_byte c / 16) 4) (Z_of_byte c mod 16)) = c))). by vm_compute.
Qed.

Lemma hex_val_not_amp d h : hex_val d = Some h -> bool_decide (d = "&"%char) = false.
Proof.
  intros Hd. apply negb_true_iff.
  assert (negb (bool_decide (d = "&"%char)) || bool_decide (hex_val d = None) = true) as Hd'.
  { revert d Hd. intros d _. revert d. apply byte_forall. by vm_compute. }
  rewrite Hd in Hd'. apply orb_true_iff in Hd' as [?|Hd']; [done|]. by apply bool_decide_eq_true in Hd'.
Qed.

Lemma UrlDecode_encodes k t : url_encodes k t -> UrlDecode t = k.
Proof.
  induction 1 as [|c k t H1 H2 _ _ IH|c d1 d2 k t H1 H2 _ IH|k t _ IH]; [done|..].
  - cbn [UrlDecode]. by rewrite H1, H2, IH.
  - cbn [UrlDecode]. change (char_is "%" 37) with true. cbv iota. by rewrite H1, H2, hex_byte, IH.
  - cbn [UrlDecode]. change (char_is "+" 37) with false. change (char_is "+" 43) with true. cbv iota.
    by rewrite IH.
Qed.

Lemma url_encodes_lacks k t : url_encodes k t -> lacks "&" t = true.
Proof.
  induction 1 as [|c k t _ _ H _ IH|c d1 d2 k t H1 H2 _ IH|k t _ IH]; [done|..]; cbn [lacks];
    rewrite IH, ?andb_true_r.
  - apply negb_true_iff, bool_decide_eq_false. by intros ->.
  - by rewrite (hex_val_not_amp _ _ H1), (hex_val_not_amp _ _ H2).
  - done.
Qed.

(** The value of the first "key=" that starts a parameter. *)
Fixpoint find_key (start : bool) (s : string) : option string :=
  if start && starts_with "key=" s then Some (str_drop 4 s)
  else match s with
       | "" => None
       | String c s => find_key (starts_with "&" (String c s)) s
       end.

Definition starts_param (query : string) (pos : nat) : bool :=
  (pos =? 0)%nat || starts_with "&" (str_drop (pos - 1) query).

Lemma find_from_step p query pos c s :
  str_drop pos query = String c s ->
  find_from p query pos = if starts_with p (String c s) then Some pos else find_from p query (S pos).
Proof.
  intros Hs. unfold find_from.
  assert (pos < String.length query)%nat as Hl.
  { apply (f_equal String.length) in Hs. rewrite str_drop_length in Hs. simpl in Hs. lia. }
  destruct (Nat.ltb_spec (String.length query) pos); [lia|].
  destruct (Nat.ltb_spec (String.length query) (S pos)); [lia|].
  assert (str_drop (S pos) query = s) as ->.
  { change (S pos) with (1 + pos)%nat. rewrite Nat.add_comm, <- str_drop_drop, Hs. by destruct s. }
  rewrite Hs, find_str_cons. destruct (starts_with p (String c s)); cbn; [by rewrite Nat.add_0_r|].
  destruct (find_str p s); cbn; [f_equal; lia|done].
Qed.

Lemma key_loop_find_key m query pos f :
  (String.length query - pos <= m)%nat -> (pos <= String.length query)%nat -> (m < f)%nat ->
  key_loop f query (find_from "key=" query pos) =
  match find_key (starts_param query pos) (str_drop pos query) with
  | Some rest => UrlDecode (up_to_amp rest)
  | None => ""
  end.
Proof.
  revert pos f. induction m as [|m IH]; intros pos f Hm Hp Hf;
    (destruct (str_drop pos query) as [|c s] eqn:Hs;
     [unfold find_from; rewrite Hs; destruct (_ <? _)%nat; cbn; rewrite andb_false_r; by destruct f|]);
    pose proof Hs as Hl; apply (f_equal String.length) in Hl; rewrite str_drop_length in Hl; simpl in Hl;
    [lia|].
  rewrite (find_from_step _ _ _ _ _ Hs). destruct f as [|f]; [lia|].
  assert (str_drop (S pos) query = s) as Hs'.
  { change (S pos) with (1 + pos)%nat. rewrite Nat.add_comm, <- str_drop_drop, Hs. by destruct s. }
  assert (starts_param query (S pos) = starts_with "&" (String c s)) as Hb
    by (unfold starts_param; rewrite Nat.sub_succ, Nat.sub_0_r, Hs; done).
  assert (forall g, (m < g)%nat -> key_loop g query (find_from "key=" query (S pos)) =
    match find_key (starts_with "&" (String c s)) s with
    | Some rest => UrlDecode (up_to_amp rest) | None => "" end) as IH'.
  { intros g Hg. rewrite (IH (S pos) g) by lia. by rewrite Hb, Hs'. }
  cbn [find_key]. destruct (starts_with "key=" (String c s)) eqn:Hk; rewrite ?andb_true_r, ?andb_false_r.
  - cbn [key_loop]. fold (starts_param query pos). destruct (starts_param query pos).
    + by rewrite <- str_drop_drop, Hs.
    + apply IH'. lia.
  - apply IH'. lia.
Qed.

Lemma ExtractKey_find_key query :
  ExtractKeyFromQuery query =
  match find_key true query with Some rest => UrlDecode (up_to_amp rest) | None => "" end.
Proof.
  unfold ExtractKeyFromQuery.
  rewrite (key_loop_find_key (String.length query)) by lia. done.
Qed.

Lemma starts_with_amp p s x :
  lacks "&" p = true -> starts_with p (s +:+ String "&" x) = true -> starts_with p s = true.
Proof.
  revert s. induction p as [|c p IH]; intros s Hp Hs; [done|]. cbn [lacks] in Hp. bool_prop.
  destruct s as [|d s]; [rewrite str_app_nil_l in Hs|rewrite str_app_cons in Hs];
    cbn [starts_with] in *; bool_prop; [congruence|]. rewrite bool_decide_true by done. by apply IH.
Qed.

Lemma find_key_inside s x :
  lacks "&" s = true -> find_key false (s +:+ String "&" x) = find_key true x.
Proof.
  induction s as [|c s IH]; intros Hs; [done|]. cbn [lacks] in Hs. bool_prop.
  rewrite str_app_cons. cbn [find_key andb starts_with].
  rewrite bool_decide_false by congruence. by apply IH.
Qed.

(** Parameters before the key: without '&', and not starting with "key=". *)
Definition other_param (p : string) : Prop := lacks "&" p = true /\ starts_with "key=" p = false.
Fixpoint params_text (ps : list string) (rest : string) : string :=
  match ps with
  | [] => rest
  | p :: ps => p +:+ String "&" (params_text ps rest)
  end.

Lemma find_key_params ps rest : Forall other_param ps -> find_key true (params_text ps rest) = find_key true rest.
Proof.
  induction 1 as [|p ps [Ha Hk] _ IH]; [done|]. cbn [params_text].
  assert (starts_with "key=" (p +:+ String "&" (params_text ps rest)) = false) as Hs.
  { apply not_true_is_false. intros H. apply starts_with_amp in H; [congruence|done]. }
  destruct p as [|c p]; [rewrite str_app_nil_l|rewrite str_app_cons]; cbn [find_key].
  - exact IH.
  - rewrite str_app_cons in Hs. rewrite Hs, andb_false_r. cbn [lacks] in Ha. bool_prop.
    cbn [starts_with]. rewrite bool_decide_false by congruence. by rewrite find_key_inside.
Qed.

(** What may follow the key's value. *)
Definition param_end (s : string) : Prop := s = "" \/ exists s', s = String "&" s'.

Lemma up_to_amp_text t e : lacks "&" t = true -> param_end e -> up_to_amp (t +:+ e) = t.
Proof.
  intros Ht He. unfold up_to_amp. destruct He as [->|[e' ->]].
  - rewrite str_app_nil_r. by rewrite (find_str_none "&" "" t).
  - pose proof (find_str_app "&" "" t e' Ht) as Hf. rewrite str_app_cons, str_app_nil_l in Hf.
    rewrite Hf. by apply str_take_app.
Qed.

(** The query that asks for a key. *)
Definition key_query (ps : list string) (t e : string) : string := params_text ps ("key=" +:+ t +:+ e).

Lemma ExtractKey_query ps k t e :
  Forall other_param ps -> url_encodes k t -> param_end e ->
  ExtractKeyFromQuery (key_query ps t e) = k.
Proof.
  intros Hps Ht He. rewrite ExtractKey_find_key. unfold key_query. rewrite find_key_params by done.
  assert (find_key true ("key=" +:+ t +:+ e) = Some (t +:+ e)) as -> by reflexivity.
  rewrite up_to_amp_text by eauto using url_encodes_lacks. by apply UrlDecode_encodes.
Qed.

(** ** What the bodies can contain *)

Lemma scan_u64_range s v : is_u64 v -> is_u64 (scan_u64 v s).1.
Proof.
  revert v. induction s as [|c s IH]; intros v Hv; [done|]. cbn [scan_u64].
  destruct (isdigit c); [apply IH, u64_range|done].
Qed.
Lemma UnsignedNumber_range s n s' : UnsignedNumber s = inl (n, s') -> is_u64 n.
Proof.
  unfold UnsignedNumber. destruct (skip_space s) as [|c t] eqn:Hs; [done|].
  destruct (isdigit c); [|done]. intros [= Hn]. apply (f_equal fst) in Hn. cbn [fst] in Hn. subst n.
  by apply (scan_u64_range (String c t) 0).
Qed.
Lemma thousands_range s n s' : thousands s = inl (n, s') -> is_u64 n.
Proof.
  unfold thousands, bind, ret. destruct (UnsignedNumber s) as [[m t]|]; [|done].
  intros [= <- _]. apply u64_range.
Qed.

Section body_inv.
Context {A : Type} (field : string -> A -> reader A) (P : A -> Prop).
Hypothesis field_inv : forall n a s a' s', P a -> field n a s = inl (a', s') -> P a'.

Lemma field_loop_inv f a s a' s' : P a -> field_loop field f a s = inl (a', s') -> P a'.
Proof.
  revert a s. induction f as [|f IH]; intros a s Ha; [done|]. cbn [field_loop]. unfold bind.
  destruct (String_ s) as [[n s1]|]; [|done]. destruct (Expect ":"%char s1) as [[u s2]|]; [|done].
  destruct (field n a s2) as [[a1 s3]|] eqn:Hf; [|done]. apply field_inv in Hf; [|done].
  destruct (Take "}"%char s3) as [[[] s4]|]; [by intros [= <- _]| |done].
  destruct (Expect ","%char s4) as [[u' s5]|]; [|done]. by apply IH.
Qed.
Lemma fields_inv a s a' s' : P a -> fields field a s = inl (a', s') -> P a'.
Proof.
  intros Ha. unfold fields, bind. destruct (Expect "{"%char s) as [[u s1]|]; [|done].
  destruct (field_loop field _ a s1) as [[a1 s2]|] eqn:Hf; [|done].
  apply field_loop_inv in Hf; [|done]. destruct (End_ s2) as [[u' s3]|]; [|done]. by intros [= <- _].
Qed.
End body_inv.

(** Cases on the reads of a field; numbers are known to be in range. *)
Ltac read_cases H :=
  repeat match type of H with
  | context [bool_decide ?P] => destruct (decide P) as [?|?];
      [rewrite (bool_decide_true P) in H by assumption | rewrite (bool_decide_false P) in H by assumption];
      cbn [orb] in H
  end;
  unfold bind, ret, unsupported in H;
  repeat match type of H with
  | context [match ?m with inl _ => _ | inr _ => _ end] =>
      let E := fresh "E" in destruct m as [[? ?]|] eqn:E; [|discriminate H];
      first [apply UnsignedNumber_range in E | apply thousands_range in E | idtac]
  end;
  try discriminate H; inversion H; subst; clear H.

Definition opt_u64 (o : option Z) : Prop := match o with Some n => is_u64 n | None => True end.

Lemma reserve_body_range s k a t s' :
  fields reserve_body_field ("", None, None) s = inl (k, a, t, s') -> is_u64 (default 0 a) /\ is_u64 (default 0 t).
Proof.
  intros H. eapply (fields_inv _ (fun '(_, a, t) => is_u64 (default 0 a) /\ is_u64 (default 0 t))) in H;
    [done| |split; done].
  intros n [[k0 a0] t0] u [[k1 a1] t1] u' [Ha Ht] Hf. unfold reserve_body_field in Hf.
  read_cases Hf; cbn in *; lia.
Qed.

Lemma set_body_range s k v t c s' :
  fields set_body_field ("", "", 0, Always) s = inl (k, v, t, c, s') -> is_u64 t.
Proof.
  intros H. eapply (fields_inv _ (fun '(_, _, t, _) => is_u64 t)) in H; [exact H| |lia].
  intros n [[[k0 v0] t0] c0] u [[[k1 v1] t1] c1] u' Ht Hf. unfold set_body_field in Hf.
  read_cases Hf; done.
Qed.

Lemma expire_body_range s k t s' :
  fields expire_body_field ("", None) s = inl (k, t, s') -> is_u64 (default 0 t).
Proof.
  intros H. eapply (fields_inv _ (fun '(_, t) => is_u64 (default 0 t))) in H; [exact H| |cbn; lia].
  intros n [k0 t0] u [k1 t1] u' Ht Hf. unfold expire_body_field in Hf. read_cases Hf; cbn in *; lia.
Qed.

Abbreviation is_i32 z := (- 2 ^ 31 <= z < 2 ^ 31).
Lemma i32_range z : is_i32 (i32 z).
Proof. unfold i32. pose proof (Z.mod_pos_bound (z + 2 ^ 31) (2 ^ 32)). lia. Qed.
Lemma i32_id z : is_i32 z -> i32 z = z.
Proof. intros Hz. unfold i32. rewrite Z.mod_small; lia. Qed.

Lemma complete_body_range s k o c b s' :
  fields complete_body_field ("", "", 200, "") s = inl (k, o, c, b, s') -> is_i32 c.
Proof.
  intros H. eapply (fields_inv _ (fun '(_, _, c, _) => is_i32 c)) in H; [exact H| |lia].
  intros n [[[k0 o0] c0] b0] u [[[k1 o1] c1] b1] u' Hc Hf. unfold complete_body_field in Hf.
  read_cases Hf; first [done|apply i32_range].
Qed.

(** ** The lines replayed *)

Section lines.
Context {S : Type} `{!Store S}.

(** The condition of a line as the binary protocol names it. *)
Definition set_condition (c : WriteCondition) : SetCondition :=
  match c with Always => SC_Always | IfAbsent => SC_IfAbsent | IfPresent => SC_IfPresent end.
Lemma http_aof_set_eq k v c t : http_aof_set k v c t = aof_set k v (set_condition c) t.
Proof. by destruct c. Qed.
Lemma write_set_condition c : write_condition (set_condition c) = c.
Proof. by destruct c. Qed.

Lemma replay_http_reserve now (st : S) k a t :
  k <> "" -> is_u64 a -> is_u64 t ->
  (replay_line now st ("GK.RESERVE", http_aof_reserve k a t)).1 = (ReserveQuota now st k a t).1.
Proof.
  intros Hk Ha Ht. rewrite (replay_known now st "GK.RESERVE" _ _ eq_refl).
  unfold Validated, QuotaOps.Reserve.
  assert (http_aof_reserve k a t = object_text ("key", QuoteJson k)
    [("amount", to_string a); ("ttl_ms", to_string t)]) as ->
    by (unfold http_aof_reserve; text_eq).
  rewrite (with_body_ok _ _ _ _ (k, Some a, Some t) "").
  2:{ apply fields_text. unfold reserve_field. read_members. }
  destruct k; [done|]. cbn [is_nil]. destruct (ReserveQuota now st _ a t) as [st' r].
  by destruct (_ || _).
Qed.

Lemma replay_http_complete now (st : S) k o c b :
  k <> "" -> o <> "" -> is_i32 c ->
  (replay_line now st ("GK.IDEM_COMPLETE", http_aof_complete k o c b)).1 = (IdemComplete now st k o c b).1.
Proof.
  intros Hk Ho Hc. rewrite (replay_known now st "GK.IDEM_COMPLETE" _ _ eq_refl).
  unfold Validated, IdemOps.IdemComplete.
  assert (http_aof_complete k o c b = object_text ("key", QuoteJson k)
    [("owner_token", QuoteJson o); ("response_code", to_string c); ("response_body", QuoteJson b)]) as ->
    by (unfold http_aof_complete; text_eq).
  assert (- 2 ^ 63 < c < 2 ^ 63) as Hc' by lia.
  rewrite (with_body_ok _ _ _ _ (k, o, i32 c, b) "").
  2:{ apply fields_text. unfold complete_field. read_members. }
  rewrite i32_id by done. destruct k; [done|]. destruct o; [done|]. cbn [is_nil].
  destruct (IdemComplete now st _ _ c b) as [st' r]. by destruct (ic_ok r).
Qed.

Lemma replay_http_fail now (st : S) k o m :
  k <> "" -> o <> "" ->
  (replay_line now st ("GK.IDEM_FAIL", http_aof_fail k o m)).1 = (IdemFail now st k o m).1.
Proof.
  intros Hk Ho. rewrite (replay_known now st "GK.IDEM_FAIL" _ _ eq_refl).
  unfold Validated, IdemOps.IdemFail.
  assert (http_aof_fail k o m = object_text ("key", QuoteJson k)
    [("owner_token", QuoteJson o); ("error_message", QuoteJson m)]) as ->
    by (unfold http_aof_fail; text_eq).
  rewrite (with_body_ok _ _ _ _ (k, o, m) "").
  2:{ apply fields_text. unfold fail_field. read_members. }
  destruct k; [done|]. destruct o; [done|]. cbn [is_nil].
  destruct (IdemFail now st _ _ m) as [st' r]. by destruct (if_ok r).
Qed.
End lines.

(** A DEL that deletes nothing leaves the store as it is. *)
Class QuietDel (S : Type) `{!Store S} :=
  quiet_del : forall (st : S) k, (Del st k).2 = false -> (Del st k).1 = st.

Section recovery.
Context {S : Type} `{!Store S} `{!QuietDel S}.

(** The endpoints whose lines carry their whole store call. *)
Definition recoverable_paths : list string :=
  ["/v1/quota/reserve"; "/v1/idempotency/complete"; "/v1/idempotency/fail"; "/v1/kv/set"; "/v1/kv/del";
   "/v1/kv/expire"].

(** A request of the run: one of these endpoints, and logged. *)
Definition http_step (now : Z) (st : S) (req : HttpRequest) : option (S * list aof_line) :=
  if bool_decide (path req ∈ recoverable_paths) then
    match Handle (fun _ => now) (now / 1000) true st req with
    | (_, [], _) => None
    | (st, ls, _) => Some (st, ls)
    end
  else None.

Definition line_ok (now : Z) (st st' : S) (ls : list aof_line) : Prop :=
  ls <> [] -> replay_all now st ls = st' /\ Forall wf_line ls.

Lemma line_ok_nil now st st' : line_ok now st st' [].
Proof. by intros []. Qed.
Lemma line_ok_log now st st' g op json :
  (g = true -> (replay_line now st (op, json)).1 = st') ->
  wf_line (op, json) -> line_ok now st st' (log true g op json).
Proof.
  intros Hr Hw. unfold log. destruct g; cbn [andb]; [|apply line_ok_nil].
  intros _. split; [by apply Hr|by constructor].
Qed.

(** A reply after a body: refused without lines, or what the handler does. *)
Lemma json_body_cases {A} (m : reader A) (st : S) req (k : A -> reply) (Q : reply -> Prop) :
  (forall a rest, m (req_body req) = inl (a, rest) -> Q (k a)) ->
  (forall resp, Q (st, [], resp)) -> Q (json_body m st req k).
Proof.
  intros Hk Hbad. unfold json_body, read_body. destruct (is_nil (req_body req)); [apply Hbad|].
  destruct (m (req_body req)) as [[a rest]|] eqn:Hm; [by eapply Hk|apply Hbad].
Qed.

Ltac body_cases :=
  cbv zeta; match goal with |- line_ok ?n ?s _ _ =>
    apply (json_body_cases _ _ _ _ (fun r => line_ok n s r.1.1 r.1.2)) end; [|intros; apply line_ok_nil].
Ltac good_line := repeat split; [by vm_compute..|cbn [snd]].

Lemma set_line_ok now (st : S) req :
  let r := HandleKvSet (fun _ => now) true st req in line_ok now st r.1.1 r.1.2.
Proof.
  unfold HandleKvSet. body_cases.
  intros [[[k v] t] c] rest Hm. apply set_body_range in Hm.
  destruct (is_nil k) eqn:Hk; [apply line_ok_nil|]. assert (k <> "") as Hk' by (by intros ->).
  destruct (Set_ now st k v c t) as [st1 stored] eqn:E1. cbn [fst snd]. apply line_ok_log.
  - intros _. rewrite http_aof_set_eq, replay_set by done. by rewrite write_set_condition, E1.
  - good_line. unfold http_aof_set. destruct (0 <? t), c; one_line.
Qed.

Lemma expire_line_ok now (st : S) req :
  let r := HandleKvExpire (fun _ => now) true st req in line_ok now st r.1.1 r.1.2.
Proof.
  unfold HandleKvExpire. body_cases.
  intros [k t] rest Hm. apply expire_body_range in Hm.
  destruct (is_nil k) eqn:Hk; [apply line_ok_nil|]. assert (k <> "") as Hk' by (by intros ->).
  destruct t as [t|]; [|apply line_ok_nil]. cbn [default] in Hm.
  destruct (Expire now st k t) as [st1 ok1] eqn:E1. cbn [fst snd]. apply line_ok_log.
  - intros _. change (http_aof_pexpire k t) with (aof_pexpire k t). by rewrite replay_pexpire, E1.
  - good_line. unfold http_aof_pexpire. one_line.
Qed.

Lemma reserve_line_ok now (st : S) req :
  let r := HandleQuotaReserve (fun _ => now) true st req in line_ok now st r.1.1 r.1.2.
Proof.
  unfold HandleQuotaReserve. body_cases.
  intros [[k a] t] rest Hm. apply reserve_body_range in Hm as [Ha Ht].
  destruct (is_nil k) eqn:Hk; [apply line_ok_nil|]. assert (k <> "") as Hk' by (by intros ->).
  destruct (default 0 a =? 0); [apply line_ok_nil|]. destruct (default 0 t =? 0); [apply line_ok_nil|].
  destruct (ReserveQuota now st k _ _) as [st1 res] eqn:E1.
  destruct (rv_ok res); [|apply line_ok_nil]. destruct (rv_reserved res); [|apply line_ok_nil].
  cbn [fst snd negb]. apply line_ok_log.
  - intros _. by rewrite replay_http_reserve, E1.
  - good_line. unfold http_aof_reserve. one_line.
Qed.

Lemma complete_line_ok now (st : S) req :
  let r := HandleIdempotencyComplete (fun _ => now) true st req in line_ok now st r.1.1 r.1.2.
Proof.
  unfold HandleIdempotencyComplete. body_cases.
  intros [[[k o] c] b] rest Hm. apply complete_body_range in Hm.
  destruct (is_nil k) eqn:Hk; [apply line_ok_nil|]. destruct (is_nil o) eqn:Ho; [apply line_ok_nil|].
  assert (k <> "" /\ o <> "") as [Hk' Ho'] by (split; by intros ->). cbn [orb].
  destruct (IdemComplete now st k o c b) as [st1 res] eqn:E1.
  destruct (ic_ok res); [|apply line_ok_nil]. cbn [fst snd negb]. apply line_ok_log.
  - intros _. by rewrite replay_http_complete, E1.
  - good_line. unfold http_aof_complete. one_line.
Qed.

Lemma fail_line_ok now (st : S) req :
  let r := HandleIdempotencyFail (fun _ => now) true st req in line_ok now st r.1.1 r.1.2.
Proof.
  unfold HandleIdempotencyFail. body_cases.
  intros [[k o] m] rest Hm.
  destruct (is_nil k) eqn:Hk; [apply line_ok_nil|]. destruct (is_nil o) eqn:Ho; [apply line_ok_nil|].
  assert (k <> "" /\ o <> "") as [Hk' Ho'] by (split; by intros ->). cbn [orb].
  destruct (IdemFail now st k o m) as [st1 res] eqn:E1.
  destruct (if_ok res); [|apply line_ok_nil]. cbn [fst snd negb]. apply line_ok_log.
  - intros _. by rewrite replay_http_fail, E1.
  - good_line. unfold http_aof_fail. one_line.
Qed.

Lemma del_keys_replay now keys (st : S) d :
  let r := del_keys true st keys d in replay_all now st r.1.2 = r.1.1 /\ Forall wf_line r.1.2.
Proof.
  revert st d. induction keys as [|k keys IH]; intros st d; cbn [del_keys]; [done|].
  pose proof (quiet_del st k) as Hq. pose proof (replay_del now st k) as Hr.
  destruct (Del st k) as [st1 b]. cbn [fst snd] in Hq.
  specialize (IH st1 (if b then d + 1 else d)). cbv zeta in *.
  destruct (del_keys true st1 keys _) as [[st2 lines] d2]. cbn [fst snd] in *.
  destruct b; cbn [log andb app].
  - unfold replay_all in *. cbn [foldl]. change (http_aof_del k) with (aof_key k). rewrite Hr. cbn [fst].
    destruct IH as [IH1 IH2]. split; [done|]. constructor; [|done].
    good_line. unfold aof_key. one_line.
  - by rewrite Hq in IH.
Qed.

Lemma del_line_ok now (st : S) req :
  let r := HandleKvDel true st req in line_ok now st r.1.1 r.1.2.
Proof.
  cbv zeta. unfold HandleKvDel, with_keys, read_body.
  assert (forall keys, let r := (if bool_decide (keys = [])
      then (st, [], BadRequest "key or keys are required")
      else let '(st0, lines, deleted) := del_keys true st keys 0 in
           (st0, lines, ok_response (jq "{'deleted':" +:+ to_string deleted +:+ "}"))) : reply in
    line_ok now st r.1.1 r.1.2) as Hgo.
  { intros keys. destruct (bool_decide (keys = [])); [apply line_ok_nil|].
    pose proof (del_keys_replay now keys st 0) as Hd.
    destruct (del_keys true st keys 0) as [[st1 lines] d]. cbv zeta in *. intros _. exact Hd. }
  destruct (negb (is_nil (req_body req))); [|apply Hgo].
  destruct (opt_fields keys_body_field [] (req_body req)) as [[keys rest]|]; [apply Hgo|apply line_ok_nil].
Qed.

Lemma http_step_replays now (st : S) req st' ls :
  True -> http_step now st req = Some (st', ls) -> replay_all now st ls = st' /\ Forall wf_line ls.
Proof.
  intros _. unfold http_step. case_bool_decide as Hp; [|done].
  destruct (Handle (fun _ => now) (now / 1000) true st req) as [[st1 ls1] resp] eqn:Hh.
  assert (line_ok now st st1 ls1) as Hok.
  { rewrite Handle_routes in Hh.
    assert (forall (h : endpoint), (let r := h st req in line_ok now st r.1.1 r.1.2) ->
      (if bool_decide (method req = "POST") then h st req else (st, [], method_not_allowed)) =
      (st1, ls1, resp) -> line_ok now st st1 ls1) as Hroute.
    { intros h Hl. destruct (bool_decide _).
      - by destruct (h st req) as [[??]?]; intros [= <- <- _].
      - intros [= _ <- _]. apply line_ok_nil. }
    unfold recoverable_paths in Hp.
    repeat (apply elem_of_cons in Hp as [Hp|Hp]; [rewrite Hp in Hh; revert Hh; apply Hroute;
      first [apply reserve_line_ok|apply complete_line_ok|apply fail_line_ok|apply set_line_ok
            |apply del_line_ok|apply expire_line_ok]|]).
    by apply elem_of_nil in Hp. }
  destruct ls1 as [|l ls1]; [done|]. intros [= <- <-]. by apply Hok.
Qed.
End recovery.

(** ** Every reply *)

(** The status lines of the API. *)
Definition status_lines : list (Z * string) :=
  [(200, "OK"); (400, "Bad Request"); (403, "Forbidden"); (404, "Not Found"); (405, "Method Not Allowed");
   (409, "Conflict"); (429, "Too Many Requests")].
Definition status_line (resp : HttpResponse) : Z * string := (status_code resp, status_text resp).

(** A line of the log: a write operation and a body without line break. *)
Definition logged_line (l : aof_line) : Prop := l.1 ∈ write_ops /\ wf_line l.

Section replies.
Context {S : Type} `{!Store S}.
Context (clk : clock) (now_sec : Z) (aof : bool).

Definition reply_ok (r : reply (S := S)) : Prop :=
  status_line r.2 ∈ status_lines /\
  (r.1.2 <> [] -> aof = true /\ status_code r.2 = 200 /\ Forall logged_line r.1.2).

Lemma reply_ok_bare st resp : status_line resp ∈ status_lines -> reply_ok (st, [], resp).
Proof. intros H. split; [done|by intros []]. Qed.
Lemma reply_ok_log st g op json body :
  logged_line (op, json) -> reply_ok (st, log aof g op json, ok_response body).
Proof.
  intros Hl. split; [by vm_compute; left|]. unfold log. destruct g, aof; cbn [andb]; try done.
  intros _. split_and!; [done|done|by constructor].
Qed.
Lemma reply_ok_bad st m : reply_ok (st, [], BadRequest m).
Proof. apply reply_ok_bare. unfold status_lines. set_solver. Qed.

Lemma read_body_ok {A} (m : reader A) st body k :
  (forall a, reply_ok (k a)) -> reply_ok (read_body m st body k).
Proof. intros Hk. unfold read_body. destruct (m body) as [[a ?]|]; [apply Hk|apply reply_ok_bad]. Qed.
Lemma json_body_ok {A} (m : reader A) st req k :
  (forall a, reply_ok (k a)) -> reply_ok (json_body m st req k).
Proof. intros Hk. unfold json_body. destruct (is_nil _); [apply reply_ok_bad|by apply read_body_ok]. Qed.
Lemma with_query_key_ok st req k : (forall key, reply_ok (k key)) -> reply_ok (with_query_key st req k).
Proof.
  intros Hk. unfold with_query_key. cbv zeta.
  assert (forall key, reply_ok (if is_nil key then (st, [], BadRequest "key is required") else k key)) as Hgo
    by (intros key; destruct (is_nil key); [apply reply_ok_bad|apply Hk]).
  destruct (_ && _); [apply read_body_ok|]; apply Hgo.
Qed.
Lemma with_keys_ok st req k : (forall keys, reply_ok (k keys)) -> reply_ok (with_keys st req k).
Proof.
  intros Hk. unfold with_keys. cbv zeta.
  assert (forall keys, reply_ok (if bool_decide (keys = []) then (st, [], BadRequest "key or keys are required")
                                 else k keys)) as Hgo
    by (intros keys; destruct (bool_decide _); [apply reply_ok_bad|apply Hk]).
  destruct (negb _); [apply read_body_ok|]; apply Hgo.
Qed.

(** A line of the API, whatever its values are. *)
Ltac logged :=
  split; [by vm_compute; repeat first [left; reflexivity|right]|];
  repeat split; [by vm_compute..|cbn [snd]];
  unfold http_aof_set, http_aof_reserve, http_aof_init, http_aof_begin, http_aof_complete, http_aof_fail,
    http_aof_pexpire, http_aof_del; repeat case_match; one_line.
Ltac one_reply :=
  first [apply reply_ok_bad | apply reply_ok_log; logged
        |apply reply_ok_bare; unfold status_lines; cbn; set_solver].
Ltac replies :=
  repeat match goal with
  | |- reply_ok (json_body _ _ _ _) => apply json_body_ok; intros
  | |- reply_ok (with_query_key _ _ _) => apply with_query_key_ok; intros
  | |- reply_ok (match ?x with _ => _ end) => destruct x
  end.

Lemma idem_error_line e m : status_line (idem_error e m) ∈ status_lines.
Proof. unfold idem_error, status_lines. repeat case_match; cbn; set_solver. Qed.
Lemma rate_line l w r : status_line (rate_response now_sec l w r) ∈ status_lines.
Proof. unfold rate_response, status_lines. case_match; cbn; set_solver. Qed.

Lemma del_keys_logged keys (st : S) d :
  let r := del_keys aof st keys d in r.1.2 <> [] -> aof = true /\ Forall logged_line r.1.2.
Proof.
  revert st d. induction keys as [|k keys IH]; intros st d; cbn [del_keys]; [by intros []|].
  destruct (Del st k) as [st1 b]. specialize (IH st1 (if b then d + 1 else d)). cbv zeta in *.
  destruct (del_keys aof st1 keys _) as [[st2 lines] d2]. cbn [fst snd] in *.
  assert (lines <> [] -> aof = true /\ Forall logged_line lines) as IH' by done.
  assert (Forall logged_line lines) as Hl.
  { destruct lines; [constructor|]. by apply IH'. }
  unfold log. destruct b, aof eqn:Haof; cbn [andb app]; intros Hne; try (by apply IH').
  split; [done|]. constructor; [logged|done].
Qed.

Lemma Handle_ok st req : reply_ok (Handle clk now_sec aof st req).
Proof.
  rewrite Handle_routes. unfold routes. cbn [assoc].
  assert (reply_ok (st, [], method_not_allowed)) as H405 by one_reply.
  assert (forall m r, reply_ok r ->
    reply_ok (if bool_decide (method req = m) then r else (st, [], method_not_allowed))) as Hm
    by (intros m r Hr; destruct (bool_decide _); done).
  repeat match goal with
  | |- context [bool_decide (path req = ?p)] =>
      destruct (bool_decide (path req = p)); [apply Hm; clear Hm H405|]
  end; [..|one_reply].
  - unfold HandleHealthz; one_reply.
  - unfold HandleRateLimitCheck. replies; first [one_reply|apply reply_ok_bare, rate_line].
  - unfold HandleQuotaReserve. replies; one_reply.
  - unfold HandleQuotaCommit. replies; one_reply.
  - unfold HandleQuotaRollback. replies; one_reply.
  - unfold HandleQuotaInit. replies; one_reply.
  - unfold HandleIdempotencyBegin. replies; try one_reply. case_match; one_reply.
  - unfold HandleIdempotencyComplete. replies; first [one_reply|apply reply_ok_bare, idem_error_line].
  - unfold HandleIdempotencyFail. replies; first [one_reply|apply reply_ok_bare, idem_error_line].
  - unfold HandleKvSet. replies; one_reply.
  - unfold HandleKvGet. replies; one_reply.
  - unfold HandleKvDel. apply with_keys_ok. intros keys.
    pose proof (del_keys_logged keys st 0) as Hd. destruct (del_keys aof st keys 0) as [[st1 ls] d].
    split; [by vm_compute; left|]. cbn [fst snd] in *. intros Hne. apply Hd in Hne as [??]. done.
  - unfold HandleKvExists. apply with_keys_ok. intros keys. case_match. one_reply.
  - unfold HandleKvType. replies; one_reply.
  - unfold HandleKvExpire. replies; one_reply.
  - unfold HandleKvTtl. replies; one_reply.
Qed.
End replies.

(** ** Theorems *)

(** Every HTTP request is answered, by the endpoint its path and method name and
    with a status line of the API: an unknown path gets 404 and a known one with
    the wrong method 405, both without touching the store; every reply carries one
    of seven status lines; and a reply hands lines to the log only with a writer,
    only with status 200, each of them one write operation on one line. *)
Theorem http_replies_typed {S} {Store0 : Store S} clk now_sec aof (st : S) req :
  let r := Handle clk now_sec aof st req in
  r = match assoc (routes clk now_sec aof) (path req) with
      | Some (m, h) => if bool_decide (method req = m) then h st req else (st, [], method_not_allowed)
      | None => (st, [], not_found)
      end /\
  status_line r.2 ∈ status_lines /\
  (r.1.2 <> [] -> aof = true /\ status_code r.2 = 200 /\ Forall logged_line r.1.2).
Proof. split; [apply Handle_routes|apply Handle_ok]. Qed.

(** C18: The HTTP server recovers after a restart: take any run of arbitrary HTTP
    requests (any bodies) to the endpoints kv/set, kv/del, kv/expire, quota/reserve,
    idempotency/complete and idempotency/fail in which each request is logged; let
    the lines be appended to a new file in any pattern of short writes.  Loading
    that file into the store the run started from, with the clock reading what it
    read then, ends in exactly the store the run ended in. *)
Theorem http_recovery_exact {S} {Store0 : Store S} {Q : QuietDel S} (st st' : S) reqs tls scripts w :
  run_logged http_step st reqs = Some (st', tls) ->
  append_all (mkAof true "") tls.*2 scripts 0 = Some w ->
  (Load (same_times tls) registrations false st (Readable (file_bytes w))).1 = st'.
Proof.
  apply (run_recovers http_step (fun _ => True)); [apply http_step_replays|].
  by apply list.Forall_forall.
Qed.

(** ** The in-memory store, and a concrete run *)

#[export] Instance memory_quiet_del std_hash : QuietDel MemoryStore (Store0 := memory_store std_hash).
Proof.
  intros st k. cbn [Del memory_store]. unfold on_shard, Del_body, HT.Erase.
  destruct (shard_at st (GetShard k)) as [ents rl rs ids] eqn:Hsh. cbn [entries].
  assert (put_shard st (GetShard k) (mkShard ents rl rs ids) = st) as Hput.
  { rewrite <- Hsh. unfold put_shard, shard_at. destruct st as [shs n1 n2]. cbn [shards_]. f_equal.
    destruct (shs !! GetShard k) eqn:Hl; cbn; [by apply list_insert_id|].
    by apply list_insert_ge, lookup_ge_None. }
  repeat case_match; intros Hb; cbn in *; simplify_eq; done.
Qed.

Definition post_request (p body : string) : HttpRequest :=
  mkHttpRequest "POST" p p "" "HTTP/1.1" ∅ body.

Definition sample_posts : list (Z * HttpRequest) :=
  [(2000, post_request "/v1/kv/set" (jq "{'key':'a','value':'1','ttl_seconds':5,'condition':'nx'}"));
   (2001, post_request "/v1/quota/reserve" (jq "{'key':'counter','amount':3,'ttl_ms':50}"));
   (2002, post_request "/v1/kv/expire" (jq "{'key':'counter','seconds':1}"));
   (2003, post_request "/v1/kv/del" (jq "{'keys':['b','a','counter']}"))].

Lemma http_recovery_exact_witness :
  match run_logged (http_step (Store0 := sample_ms)) sample_store sample_posts with
  | Some (st', tls) =>
      length tls = 5%nat /\
      match append_all (mkAof true "") tls.*2 (fun _ => [Wrote 7; Interrupted; Wrote 1000]) 0 with
      | Some w => (Load (same_times tls) (registrations (Store0 := sample_ms)) false sample_store
                     (Readable (file_bytes w))).1 = st'
      | None => False
      end
  | None => False
  end.
Proof.
  destruct (run_logged (http_step (Store0 := sample_ms)) sample_store sample_posts)
    as [[st' tls]|] eqn:Hrun; [|vm_compute in Hrun; discriminate].
  split; [vm_compute in Hrun; by injection Hrun as _ <-|].
  destruct (append_all (mkAof true "") tls.*2 _ 0) as [w|] eqn:Hw.
  - exact (http_recovery_exact (Store0 := sample_ms) sample_store st' sample_posts tls _ w Hrun Hw).
  - exfalso. vm_compute in Hrun. injection Hrun as _ <-. vm_compute in Hw. discriminate.
Defined.
