(* ===== verification/HttpBinary.v ===== *)
(** * The two front ends agree

    An HTTP request and a binary request that ask for the same thing make the same
    store call: the store ends in the same state, the HTTP status and the
    binary status are the ones that go with the result of the call, and the log of one has a line exactly when the log of the
    other has one, commits and rollbacks apart. *)
From S2P Require Import Prelude CStd HashTable Entry Store MemoryStore StoreWf KvStore KvTrace Reach Json Command KvOps Codec Processor Dispatcher Aof Replay Http HttpService HttpApi.
Import JsonReader.

(** ** The HTTP form of a binary request *)

(** A POST to [p] whose body the reader [m] of its handler reads as [a]: any JSON
    text that it accepts. *)
Definition posted {A} (req : HttpRequest) (p : string) (m : reader A) (a : A) : Prop :=
  method req = "POST" /\ path req = p /\ req_body req <> "" /\
  exists rest, m (req_body req) = inl (a, rest).
(** A GET of [p] with the key in the query, or in the body when the query has none. *)
Definition asked (req : HttpRequest) (p key : string) : Prop :=
  method req = "GET" /\ path req = p /\ key <> "" /\
  (ExtractKeyFromQuery (query req) = key \/
   ExtractKeyFromQuery (query req) = "" /\ req_body req <> "" /\
   exists rest, fields key_body_field "" (req_body req) = inl (key, rest)).
(** A POST to [p] whose body, or whose query when there is no body, names one key. *)
Definition posted_key (req : HttpRequest) (p key : string) : Prop :=
  posted req p (opt_fields keys_body_field []) [key] \/
  method req = "POST" /\ path req = p /\ req_body req = "" /\ key <> "" /\
  ExtractKeyFromQuery (query req) = key.

(** The key of a rate-limit check: the one given, or the composed one. *)
Definition rate_key (b : RateBody) : string :=
  if is_nil (rl_key b) then "gk:rate:" +:+ rl_tenant b +:+ ":" +:+ rl_subject b +:+ ":" +:+ rl_resource b
  else rl_key b.

(** [req] asks over HTTP for what [r] asks for in the binary protocol. *)
Definition asks (r : BinaryRequest) (req : HttpRequest) : Prop :=
  match r with
  | RPing => method req = "GET" /\ path req = "/healthz"
  | RGet k => asked req "/v1/kv/get" k
  | RType k => asked req "/v1/kv/type" k
  | RTtl k => asked req "/v1/kv/ttl" k
  | RDel k => posted_key req "/v1/kv/del" k
  | RExists k => posted_key req "/v1/kv/exists" k
  | RSet k v c t =>
      k <> "" /\ posted req "/v1/kv/set" (fields set_body_field ("", "", 0, Always)) (k, v, t, write_condition c)
  | RExpire k t => k <> "" /\ posted req "/v1/kv/expire" (fields expire_body_field ("", None)) (k, Some t)
  | RRateLimit k l w c =>
      0 < l /\ 0 < w /\ exists b, rate_key b = k /\ rl_limit b = Some l /\ rl_window b = Some w /\ rl_cost b = c /\
        posted req "/v1/rate-limit/check" (fields rate_body_field rate_body0) b
  | RQuotaInit k a =>
      k <> "" /\ posted req "/v1/quota/init" (fields init_body_field ("", None, 0)) (k, Some a, 0)
  | RReserve k a t =>
      k <> "" /\ 0 < a /\ 0 < t /\
      posted req "/v1/quota/reserve" (fields reserve_body_field ("", None, None)) (k, Some a, Some t)
  | RCommit k i a =>
      k <> "" /\ i <> "" /\
      posted req "/v1/quota/commit" (fields commit_body_field ("", "", None)) (k, i, Some a)
  | RRollback k i =>
      k <> "" /\ i <> "" /\ posted req "/v1/quota/rollback" (fields rollback_body_field ("", "")) (k, i)
  | RIdemBegin k h t o =>
      k <> "" /\ h <> "" /\
      posted req "/v1/idempotency/begin" (fields begin_body_field ("", "", 0, "")) (k, h, t, o)
  | RIdemComplete k o c b =>
      k <> "" /\ o <> "" /\
      posted req "/v1/idempotency/complete" (fields complete_body_field ("", "", 200, "")) (k, o, c, b)
  | RIdemFail k o m =>
      k <> "" /\ o <> "" /\
      posted req "/v1/idempotency/fail" (fields fail_body_field ("", "", "")) (k, o, m)
  | RIncr _ _ _ | RQuotaGet _ => False
  end.

(** The status of a refused completion or failure, by its error code. *)
Definition refusal_status (error_code : string) : Z :=
  if bool_decide (error_code = "ERR_TOKEN_MISMATCH") then 403
  else if bool_decide (error_code ∈ ["ERR_NOT_FOUND"; "ERR_EXPIRED"]) then 404
  else 400.

(** The HTTP status and the binary status that go with the result of the store call. *)
Definition statuses {S} `{!Store S} (now : Z) (st : S) (r : BinaryRequest) : Z * BinaryStatus :=
  match r with
  | RGet k => match (Get now st k).2 with Some _ => (200, St_Ok) | None => (404, St_NotFound) end
  | RSet k v c t => (200, if (Set_ now st k v (write_condition c) t).2 then St_Ok else St_NotFound)
  | RRateLimit k l w c =>
      let res := (RateLimit now st k l w c).2 in
      (if rr_allowed res then 200 else 429, if rr_ok res then St_Ok else St_Error)
  | RReserve k a t =>
      let res := (ReserveQuota now st k a t).2 in
      if rv_ok res then (if rv_reserved res then 200 else 429, St_Ok) else (400, St_Error)
  | RCommit k i a => if cr_ok (CommitQuota now st k i a).2 then (200, St_Ok) else (400, St_Error)
  | RRollback k i => if rb_ok (RollbackQuota now st k i).2 then (200, St_Ok) else (400, St_Error)
  | RIdemBegin k h t o =>
      let res := (IdemBegin now st k h t o).2 in
      if ib_ok res then (200, St_Ok)
      else if bool_decide (ib_action res = IA_Conflict) then (409, St_Conflict) else (400, St_Error)
  | RIdemComplete k o c b =>
      let res := (IdemComplete now st k o c b).2 in
      if ic_ok res then (200, St_Ok) else (refusal_status (ic_error_code res), St_Error)
  | RIdemFail k o m =>
      let res := (IdemFail now st k o m).2 in
      if if_ok res then (200, St_Ok) else (refusal_status (if_error_code res), St_Error)
  | _ => (200, St_Ok)
  end.

(** Requests whose HTTP handler logs nothing. *)
Definition http_unlogged (r : BinaryRequest) : bool :=
  match r with RCommit _ _ _ | RRollback _ _ => true | _ => false end.

(** Reading the remaining time again at the same moment changes nothing. *)
Class QuietTtl (S : Type) `{KvStore S} :=
  quiet_ttl : forall (st : S) now k, kv_inv st -> (Pttl now (Ttl now st k).1 k).1 = (Ttl now st k).1.

Section agreement.
Context {S : Type} `{!Store S}.
Context (now now_sec : Z) (aof : bool).

Definition agree (r : BinaryRequest) (st : S) (h : reply (S := S)) (b : answer (S := S)) : Prop :=
  h.1.1 = b.1.1 /\ status_code h.2 = (statuses now st r).1 /\
  starts_with (status_byte (statuses now st r).2) b.2 = true /\
  (if http_unlogged r then h.1.2 = [] else (h.1.2 = [] <-> b.1.2 = [])).

Abbreviation http := (Handle (fun _ => now) now_sec aof).
Abbreviation binary := (serve now aof).

Lemma routed (st : S) req p m h :
  method req = m -> path req = p -> assoc (routes (fun _ => now) now_sec aof) p = Some (m, h) ->
  http st req = h st req.
Proof. intros Hm Hp Hr. rewrite Handle_routes, Hp, Hr. by rewrite bool_decide_true. Qed.
Lemma posted_handle {A} (st : S) req p (m : reader A) a h :
  posted req p m a -> assoc (routes (fun _ => now) now_sec aof) p = Some ("POST", h) -> http st req = h st req.
Proof. intros (Hm & Hp & _). by apply routed. Qed.
Lemma asked_handle (st : S) req p k h :
  asked req p k -> assoc (routes (fun _ => now) now_sec aof) p = Some ("GET", h) -> http st req = h st req.
Proof. intros (Hm & Hp & _). by apply routed. Qed.
Lemma posted_key_handle (st : S) req p k h :
  posted_key req p k -> assoc (routes (fun _ => now) now_sec aof) p = Some ("POST", h) -> http st req = h st req.
Proof. intros [(Hm & Hp & _)|(Hm & Hp & _)]; by apply routed. Qed.

Lemma posted_body {A} (m : reader A) a (st : S) req p (k : A -> reply) :
  posted req p m a -> json_body m st req k = k a.
Proof.
  intros (_ & _ & Hb & rest & Hr). unfold json_body, read_body.
  destruct (req_body req); [done|]. cbn [is_nil]. by rewrite Hr.
Qed.
Lemma posted_keys (st : S) req p key (k : list string -> reply) :
  posted_key req p key -> with_keys st req k = k [key].
Proof.
  unfold with_keys, read_body. intros [(_ & _ & Hb & rest & Hr)|(_ & _ & Hb & Hk & Hq)].
  - destruct (req_body req); [done|]. cbn [is_nil negb]. by rewrite Hr.
  - rewrite Hb, Hq. cbn [is_nil negb]. by destruct key.
Qed.
Lemma asked_key (st : S) req p key (k : string -> reply) :
  asked req p key -> with_query_key st req k = k key.
Proof.
  intros (_ & _ & Hk & Hq). unfold with_query_key, read_body. destruct key as [|x key]; [done|].
  destruct Hq as [->|(-> & Hb & rest & Hr)]; [done|].
  destruct (req_body req); [done|]. cbn [is_nil negb andb]. by rewrite Hr.
Qed.

Lemma log_nil g op1 j1 op2 j2 : log aof g op1 j1 = [] <-> log aof g op2 j2 = [].
Proof. unfold log. by destruct (g && aof). Qed.

(** The four parts, when the handlers are unfolded to the same store call. *)
Ltac agreed := unfold agree; cbn [fst snd statuses http_unlogged status_code json_response ok_response];
  split_and!; first [done|apply log_nil|idtac].

Lemma agree_set (st : S) req k v c t :
  asks (RSet k v c t) req -> agree (RSet k v c t) st (http st req) (binary st (RSet k v c t)).
Proof.
  intros [Hk Hp]. rewrite (posted_handle _ _ _ _ _ _ Hp eq_refl). unfold HandleKvSet.
  rewrite (posted_body _ _ _ _ _ _ Hp). cbn [serve]. unfold serve_Set. destruct k as [|x k]; [done|].
  cbn [is_nil]. unfold agree. cbn [statuses http_unlogged]. destruct (Set_ now st _ v _ t) as [st1 []]; agreed.
Qed.

Lemma agree_get (st : S) req k : asks (RGet k) req -> agree (RGet k) st (http st req) (binary st (RGet k)).
Proof.
  intros Hg. rewrite (asked_handle _ _ _ _ _ Hg eq_refl). unfold HandleKvGet.
  rewrite (asked_key _ _ _ _ _ Hg). cbn [serve]. unfold serve_Get, agree. cbn [statuses http_unlogged].
  destruct (Get now st k) as [st1 [v|]]; agreed.
Qed.

Lemma agree_type (st : S) req k : asks (RType k) req -> agree (RType k) st (http st req) (binary st (RType k)).
Proof.
  intros Hg. rewrite (asked_handle _ _ _ _ _ Hg eq_refl). unfold HandleKvType.
  rewrite (asked_key _ _ _ _ _ Hg). cbn [serve]. unfold serve_Type.
  destruct (Type_ now st k) as [st1 ty]. agreed.
Qed.

Lemma agree_ttl (st : S) req k :
  (Pttl now (Ttl now st k).1 k).1 = (Ttl now st k).1 ->
  asks (RTtl k) req -> agree (RTtl k) st (http st req) (binary st (RTtl k)).
Proof.
  intros Hq Hg. rewrite (asked_handle _ _ _ _ _ Hg eq_refl). unfold HandleKvTtl.
  rewrite (asked_key _ _ _ _ _ Hg). cbn [serve]. unfold serve_Ttl.
  destruct (Ttl now st k) as [st1 s]. cbn [fst] in Hq.
  destruct (Pttl now st1 k) as [st2 ms]. cbn [fst] in Hq. subst st2. agreed.
Qed.

Lemma agree_del (st : S) req k : asks (RDel k) req -> agree (RDel k) st (http st req) (binary st (RDel k)).
Proof.
  intros Hp. rewrite (posted_key_handle _ _ _ _ _ Hp eq_refl). unfold HandleKvDel.
  rewrite (posted_keys _ _ _ _ _ Hp). cbn [serve del_keys]. unfold serve_Del.
  destruct (Del st k) as [st1 b]. rewrite app_nil_r. agreed.
Qed.

Lemma agree_exists (st : S) req k :
  asks (RExists k) req -> agree (RExists k) st (http st req) (binary st (RExists k)).
Proof.
  intros Hp. rewrite (posted_key_handle _ _ _ _ _ Hp eq_refl). unfold HandleKvExists.
  rewrite (posted_keys _ _ _ _ _ Hp). cbn [serve KeyOps.exists_loop]. unfold serve_Exists.
  destruct (Exists now st k) as [st1 b]. agreed.
Qed.

Lemma agree_expire (st : S) req k t :
  asks (RExpire k t) req -> agree (RExpire k t) st (http st req) (binary st (RExpire k t)).
Proof.
  intros [Hk Hp]. rewrite (posted_handle _ _ _ _ _ _ Hp eq_refl). unfold HandleKvExpire.
  rewrite (posted_body _ _ _ _ _ _ Hp). cbn [serve]. unfold serve_Expire. destruct k as [|x k]; [done|].
  cbn [is_nil]. destruct (Expire now st _ t) as [st1 b]. agreed.
Qed.

Lemma agree_init (st : S) req k a :
  asks (RQuotaInit k a) req -> agree (RQuotaInit k a) st (http st req) (binary st (RQuotaInit k a)).
Proof.
  intros [Hk Hp]. rewrite (posted_handle _ _ _ _ _ _ Hp eq_refl). unfold HandleQuotaInit.
  rewrite (posted_body _ _ _ _ _ _ Hp). cbn [serve]. unfold serve_QuotaInit. destruct k as [|x k]; [done|].
  cbn [is_nil]. destruct (Set_ now st _ _ Always 0) as [st1 b]. agreed.
Qed.

Lemma agree_rate (st : S) req k l w c :
  asks (RRateLimit k l w c) req ->
  agree (RRateLimit k l w c) st (http st req) (binary st (RRateLimit k l w c)).
Proof.
  intros (Hl & Hw & b & Hk & Hlb & Hwb & Hcb & Hp). rewrite (posted_handle _ _ _ _ _ _ Hp eq_refl).
  unfold HandleRateLimitCheck. rewrite (posted_body _ _ _ _ _ _ Hp), Hlb, Hwb, Hcb.
  rewrite (proj2 (Z.eqb_neq l 0)), (proj2 (Z.eqb_neq w 0)) by lia. fold (rate_key b). rewrite Hk.
  cbn [serve]. unfold serve_RateLimit, agree. cbn [statuses http_unlogged].
  destruct (RateLimit now st k l w c) as [st1 res]. cbn [snd]. unfold rate_response.
  destruct (rr_ok res), (rr_allowed res); agreed.
Qed.

Lemma agree_reserve (st : S) req k a t :
  asks (RReserve k a t) req -> agree (RReserve k a t) st (http st req) (binary st (RReserve k a t)).
Proof.
  intros (Hk & Ha & Ht & Hp). rewrite (posted_handle _ _ _ _ _ _ Hp eq_refl).
  unfold HandleQuotaReserve. rewrite (posted_body _ _ _ _ _ _ Hp). cbn [default from_option]. unfold id. cbv zeta.
  rewrite (proj2 (Z.eqb_neq a 0)), (proj2 (Z.eqb_neq t 0)) by lia. destruct k as [|x k]; [done|].
  cbn [serve is_nil]. unfold serve_Reserve, agree. cbn [statuses http_unlogged].
  destruct (ReserveQuota now st _ a t) as [st1 res]. cbn [snd]. destruct (rv_ok res), (rv_reserved res); agreed.
Qed.

Lemma agree_commit (st : S) req k i a :
  asks (RCommit k i a) req -> agree (RCommit k i a) st (http st req) (binary st (RCommit k i a)).
Proof.
  intros (Hk & Hi & Hp). rewrite (posted_handle _ _ _ _ _ _ Hp eq_refl). unfold HandleQuotaCommit.
  rewrite (posted_body _ _ _ _ _ _ Hp). destruct k as [|x k]; [done|]. destruct i as [|y i]; [done|].
  cbn [serve is_nil orb]. unfold serve_Commit, agree. cbn [statuses http_unlogged].
  destruct (CommitQuota now st _ _ a) as [st1 res]. cbn [snd]. destruct (cr_ok res); agreed.
Qed.

Lemma agree_rollback (st : S) req k i :
  asks (RRollback k i) req -> agree (RRollback k i) st (http st req) (binary st (RRollback k i)).
Proof.
  intros (Hk & Hi & Hp). rewrite (posted_handle _ _ _ _ _ _ Hp eq_refl). unfold HandleQuotaRollback.
  rewrite (posted_body _ _ _ _ _ _ Hp). destruct k as [|x k]; [done|]. destruct i as [|y i]; [done|].
  cbn [serve is_nil orb]. unfold serve_Rollback, agree. cbn [statuses http_unlogged].
  destruct (RollbackQuota now st _ _) as [st1 res]. cbn [snd]. destruct (rb_ok res); agreed.
Qed.

Lemma agree_begin (st : S) req k h t o :
  asks (RIdemBegin k h t o) req ->
  agree (RIdemBegin k h t o) st (http st req) (binary st (RIdemBegin k h t o)).
Proof.
  intros (Hk & Hh & Hp). rewrite (posted_handle _ _ _ _ _ _ Hp eq_refl). unfold HandleIdempotencyBegin.
  rewrite (posted_body _ _ _ _ _ _ Hp). destruct k as [|x k]; [done|]. destruct h as [|y h]; [done|].
  cbn [serve is_nil orb]. unfold serve_IdemBegin, agree. cbn [statuses http_unlogged].
  destruct (IdemBegin now st _ _ t o) as [st1 res]. cbn [snd]. destruct (ib_ok res); cbn [negb snd]; [agreed|].
  destruct (bool_decide (ib_action res = IA_Conflict)); agreed.
Qed.

Lemma idem_error_status e m : status_code (idem_error e m) = refusal_status e.
Proof.
  unfold idem_error, refusal_status. case_bool_decide; [done|].
  rewrite (bool_decide_ext (e ∈ _) (e = "ERR_NOT_FOUND" \/ e = "ERR_EXPIRED")) by set_solver.
  rewrite bool_decide_or. by destruct (_ || _).
Qed.

Lemma agree_complete (st : S) req k o c b :
  asks (RIdemComplete k o c b) req ->
  agree (RIdemComplete k o c b) st (http st req) (binary st (RIdemComplete k o c b)).
Proof.
  intros (Hk & Ho & Hp). rewrite (posted_handle _ _ _ _ _ _ Hp eq_refl). unfold HandleIdempotencyComplete.
  rewrite (posted_body _ _ _ _ _ _ Hp). destruct k as [|x k]; [done|]. destruct o as [|y o]; [done|].
  cbn [serve is_nil orb]. unfold serve_IdemComplete, agree. cbn [statuses http_unlogged].
  destruct (IdemComplete now st _ _ c b) as [st1 res]. cbn [snd].
  destruct (ic_ok res); cbn [negb snd]; agreed. apply idem_error_status.
Qed.

Lemma agree_fail (st : S) req k o m :
  asks (RIdemFail k o m) req -> agree (RIdemFail k o m) st (http st req) (binary st (RIdemFail k o m)).
Proof.
  intros (Hk & Ho & Hp). rewrite (posted_handle _ _ _ _ _ _ Hp eq_refl). unfold HandleIdempotencyFail.
  rewrite (posted_body _ _ _ _ _ _ Hp). destruct k as [|x k]; [done|]. destruct o as [|y o]; [done|].
  cbn [serve is_nil orb]. unfold serve_IdemFail, agree. cbn [statuses http_unlogged].
  destruct (IdemFail now st _ _ m) as [st1 res]. cbn [snd].
  destruct (if_ok res); cbn [negb snd]; agreed. apply idem_error_status.
Qed.
End agreement.

(** ** Bodies and queries that ask *)

(** The text of a client's object is read as its members say. *)
Lemma object_posted {A} (field : string -> A -> reader A) init a req p q l :
  method req = "POST" -> path req = p -> req_body req = object_text q l -> reads field init (q :: l) a ->
  posted req p (fields field init) a.
Proof.
  intros Hm Hp Hb Hr. split_and!; [done..| |exists ""]; rewrite Hb; [done|]. by apply fields_text.
Qed.

Lemma read_true s : Boolean ("true" +:+ s) = inl (true, s).
Proof. reflexivity. Qed.

Lemma set_members_read k v c t :
  is_u64 t ->
  reads set_body_field ("", "", 0, Always) (("key", QuoteJson k) :: set_members v c t)
    (k, v, t, write_condition c).
Proof.
  intros Ht. unfold set_members, set_body_field.
  destruct (0 <? t) eqn:Hz, c; bool_prop; try (assert (t = 0) as -> by lia); cbn [app];
    repeat (eapply reads_cons; [intros ? ?; cbv beta; pick_field;
      first [read_value|rewrite (bind_ok _ _ _ _ _ (read_true _)); reflexivity]|]); apply reads_nil.
Qed.

(** The key in any encoding, among other parameters. *)
Lemma query_asked req p key ps t e :
  method req = "GET" -> path req = p -> key <> "" -> query req = key_query ps t e ->
  Forall other_param ps -> url_encodes key t -> param_end e -> asked req p key.
Proof.
  intros Hm Hp Hk Hq Hps Ht He. split_and!; try done. left. rewrite Hq. by apply ExtractKey_query.
Qed.

(** ** The memory store *)

Section memory_ttl.
Variable std_hash : string -> Z.

Lemma find_live_again now k (sh : StorageShard) :
  HT.wf std_hash (entries sh) ->
  (find_live std_hash now (find_live std_hash now sh k).1 k).1 = (find_live std_hash now sh k).1.
Proof.
  intros Hw. unfold find_live at 2 3. destruct (HT.Find std_hash (entries sh) k) as [e|] eqn:Hf.
  2:{ cbn [fst]. unfold find_live. by rewrite Hf. }
  destruct (e_expired e now) eqn:He; cbn [fst]; unfold find_live.
  - change (entries (set_entries sh ?t)) with t. rewrite (HT.Find_Erase std_hash) by done. by rewrite decide_True.
  - by rewrite Hf, He.
Qed.

#[export] Instance memory_quiet_ttl : QuietTtl MemoryStore (H0 := memory_kv std_hash).
Proof.
  intros st now k Hw. cbn [Ttl Pttl memory_store kv_inv memory_kv] in *.
  pose proof (GetShard_lt k) as Hk. pose proof (wf_shard_at std_hash st _ Hw Hk) as Hsh.
  pose proof (find_live_again now k (shard_at st (GetShard k)) (lwf_get std_hash entriesL _ _ (keyed_entries) Hsh)) as Ha.
  unfold on_shard, Ttl_body, Pttl_body.
  destruct (find_live std_hash now (shard_at st (GetShard k)) k) as [sh o]. cbn [fst] in Ha |- *.
  rewrite (shard_at_put std_hash) by done. rewrite decide_True by done.
  destruct (find_live std_hash now sh k) as [sh' o']. cbn [fst] in *. subst sh'.
  unfold put_shard. cbn [shards_]. by rewrite list_insert_insert_eq.
Qed.
End memory_ttl.

(** C17: The HTTP API and the binary protocol are two doors to the same store.  Take
    any request of the binary protocol except INCRBY and QUOTA_GET, which have no
    endpoint, and any HTTP request that asks for the same: any JSON body that the
    endpoint's reader reads as the request's values (members in any order and
    spelling), the key of a GET in any percent-encoding of the query or in the body;
    with a key that is not empty (except for DEL and EXISTS by body) and the
    limits, windows, amounts, TTLs, hashes, ids and tokens that the endpoint demands
    positive or non-empty, and a quota without TTL.  Handling either one with a
    clock that stays at one value leaves the same store; the HTTP status and the
    binary status are the two that the table [statuses] gives for the result of the
    store call; and the one front end logs a line exactly when the other does, except that the HTTP
    server logs neither commits nor rollbacks.  For every store whose second read of
    the remaining time changes nothing, as the memory store's does not. *)
Theorem http_agrees_with_binary {S} {Store0 : Store S} {Kv : KvStore S} {Quiet : QuietTtl S}
    now now_sec aof (st : S) r req :
  kv_inv st -> asks r req ->
  let h := Handle (fun _ => now) now_sec aof st req in
  let b := serve now aof st r in
  h.1.1 = b.1.1 /\ status_code h.2 = (statuses now st r).1 /\
  starts_with (status_byte (statuses now st r).2) b.2 = true /\
  if http_unlogged r then h.1.2 = [] else h.1.2 = [] <-> b.1.2 = [].
Proof.
  intros Hi Ha. change (agree now r st (Handle (fun _ => now) now_sec aof st req) (serve now aof st r)).
  destruct r; try done.
  - destruct Ha as [Hm Hp]. by rewrite (routed now now_sec aof st _ _ _ _ Hm Hp eq_refl).
  - by apply agree_get.
  - by apply agree_set.
  - by apply agree_del.
  - by apply agree_exists.
  - by apply agree_type.
  - by apply agree_expire.
  - apply agree_ttl; [by apply quiet_ttl|done].
  - by apply agree_rate.
  - by apply agree_init.
  - by apply agree_reserve.
  - by apply agree_commit.
  - by apply agree_rollback.
  - by apply agree_begin.
  - by apply agree_complete.
  - by apply agree_fail.
Qed.

Lemma http_agrees_with_binary_witness :
  let req := post_request "/v1/quota/commit"
    (jq "{ 'actual_amount' : 2, 'reservation_id':'res_2000_1' ,'key':'counter'}") in
  let st := (ReserveQuota (Store := sample_ms) 2000 sample_store "counter" 5 100).1 in
  let h := Handle (Store0 := sample_ms) (fun _ => 2001) 2 true st req in
  let b := serve (Store0 := sample_ms) 2001 true st (RCommit "counter" "res_2000_1" 2) in
  h.1.1 = b.1.1 /\ status_code h.2 = 200 /\ starts_with (status_byte St_Ok) b.2 = true /\ h.1.2 = [].
Proof.
  cbv zeta. set (req := post_request _ _). set (st := (ReserveQuota _ _ _ _ _).1).
  assert (statuses (Store0 := sample_ms) 2001 st (RCommit "counter" "res_2000_1" 2) = (200, St_Ok)) as Hs
    by (by vm_compute).
  change (status_code ?r = 200) with (status_code r = (200, St_Ok).1).
  change (starts_with (status_byte St_Ok) ?b) with (starts_with (status_byte (200, St_Ok).2) b). rewrite <- Hs.
  apply (http_agrees_with_binary (Kv := memory_kv length_hash) 2001 2 true st (RCommit "counter" "res_2000_1" 2) req).
  - apply (run_call_wf length_hash sample_store (CReserve 2000 "counter" 5 100)), sample_store_wf.
  - split; [done|]. split; [done|]. split_and!; [done..|]. exists "". by vm_compute.
Defined.
