(* ===== verification/HttpWire.v ===== *)
(** * The HTTP server end to end

    server_main.cpp gives the HTTP channels the handler
    [[&http_service](const auto& req) { return http_service.Handle(req); }].  Here
    the channel of [Http] runs that handler on a store: bytes of a connection in,
    bytes of the connection out. *)
From S2P Require Import Prelude CStd HashTable Entry Store MemoryStore StoreWf KvStore KvTrace Quota Json Command KvOps Codec Processor Dispatcher Aof Replay Socket Http HttpService HttpApi HttpBinary.
Import JsonReader.

(** The state behind the handler: the store, the lines logged so far, and how many
    requests were handled. *)
Record HttpHost (S : Type) := mkHost { host_store : S; host_log : list aof_line; host_calls : nat }.
Arguments mkHost {S}. Arguments host_store {S}. Arguments host_log {S}. Arguments host_calls {S}.

Section host.
Context {S : Type} `{!Store S}.
(** The clock and the wall clock during request [i]. *)
Context (clks : nat -> clock) (secs : nat -> Z) (aof : bool).

Definition http_handler : option (HttpHost S -> HttpRequest -> HttpHost S * HttpResponse) :=
  Some (fun h req =>
    let i := host_calls h in
    let '(st, lines, resp) := Handle (clks i) (secs i) aof (host_store h) req in
    (mkHost st (host_log h ++ lines) (Datatypes.S i), resp)).

End host.

(** ** A client that sets a key and reads it back *)

Definition set_text (k v : string) (ttl_ms : Z) : string :=
  object_text ("key", QuoteJson k) (set_members v SC_Always ttl_ms).
Definition set_client (k v : string) (ttl_ms : Z) : client_request :=
  mkClient "POST" "/v1/kv/set" "HTTP/1.1"
    [("Content-Length", to_string (slen (set_text k v ttl_ms)))] (set_text k v ttl_ms).
(** [t] is an encoding of the key. *)
Definition get_client (t : string) : client_request :=
  mkClient "GET" ("/v1/kv/get?key=" +:+ t) "HTTP/1.1" [("Content-Length", to_string (slen ""))] "".

Lemma digit_facts c : isdigit c = true -> isspace c = false /\ bool_decide (c = cr) = false.
Proof.
  intros Hc.
  assert (negb (isdigit c) || (negb (isspace c) && negb (bool_decide (c = cr))) = true) as Hb
    by (clear Hc; revert c; apply byte_forall; by vm_compute).
  rewrite Hc in Hb. cbn in Hb. apply andb_true_iff in Hb as [H1 H2].
  by rewrite negb_true_iff in H1, H2.
Qed.

(** A numeral is a header value. *)
Lemma digits_value s : all_digits s = true -> lacks cr s = true /\ skip_space s = s /\ trim_end s = s.
Proof.
  induction s as [|c s IH]; [done|]. cbn [all_digits]. intros [Hc Hs]%andb_true_iff.
  destruct (digit_facts c Hc) as [Hsp Hcr], (IH Hs) as (H1 & H2 & H3).
  cbn [lacks skip_space trim_end]. rewrite Hcr, Hsp, H1, H3. split_and!; [done|done|by destruct s].
Qed.

Lemma length_field z : is_u64 z -> wf_field ("Content-Length", to_string z).
Proof.
  intros Hz. unfold wf_field. cbn [fst snd]. rewrite to_string_u64 by done.
  destruct (digits_value (dec_digits 20 z)) as (H1 & H2 & H3); [apply dec_all_digits; lia|].
  split_and!; try done; by vm_compute.
Qed.

Lemma declared_length z : is_u64 z ->
  (declared [("Content-Length", to_string z)]).2 = z /\
  (declared [("Content-Length", to_string z)]).1 !! "connection" = None.
Proof.
  intros Hz. unfold declared. cbn [foldl]. unfold add_field. cbn [fst snd].
  rewrite stoull_to_string by done. rewrite lookup_empty. split; [done|].
  by rewrite lookup_insert_ne, lookup_empty.
Qed.

(** A request whose only header declares its length. *)
Lemma plain_served m u body :
  lacks " " m = true -> lacks cr m = true -> lacks " " u = true -> lacks cr u = true ->
  slen (request_text m u "HTTP/1.1" [("Content-Length", to_string (slen body))] body) < 2 ^ 64 ->
  served (mkClient m u "HTTP/1.1" [("Content-Length", to_string (slen body))] body).
Proof.
  intros Hm Hmc Hu Huc Hsz.
  assert (is_u64 (slen body)) as Hb.
  { unfold request_text in Hsz. rewrite !slen_app in Hsz. pose proof (slen_nonneg body).
    pose proof (slen_nonneg (joined (request_line m u "HTTP/1.1")
      (header_of <$> [("Content-Length", to_string (slen body))]))).
    pose proof (slen_nonneg crlf). lia. }
  destruct (declared_length (slen body) Hb) as [Hd Hc].
  split_and!; cbn [cq_method cq_uri cq_version cq_headers cq_body]; [|done|].
  - constructor; try done. constructor; [by apply length_field|constructor].
  - unfold keep_alive, GetHeader, client_parsed, request_of. cbn [req_headers version cq_headers].
    by rewrite Hc.
Qed.

(** The response bytes of a handled request. *)
Definition response_text (q : client_request) (res : HttpResponse) : string :=
  Serialize (finish_response (client_parsed q) res).

Section wire.
Variable std_hash : string -> Z.
#[local] Instance wire_store : Store MemoryStore := memory_store std_hash.

Definition stored_response : HttpResponse := ok_response (jq "{'ok':true,'set':true}").
(** What a read of [k] finds: the value before the deadline, nothing from it on. *)
Definition read_response (k : string) (found : option string) : HttpResponse :=
  match found with
  | Some v => ok_response (jq "{'key':" +:+ QuoteJson k +:+ jq ",'value':" +:+ QuoteJson v +:+ "}")
  | None => json_response 404 "Not Found" (error_body "KEY_NOT_FOUND" "key does not exist")
  end.

Lemma set_client_handled clk sec aof (st : MemoryStore) k v ttl_ms :
  k <> "" -> is_u64 ttl_ms ->
  let r := Handle clk sec aof st (client_parsed (set_client k v ttl_ms)) in
  r.1.1 = (Set_ (clk O) st k v Always ttl_ms).1 /\
  ((Set_ (clk O) st k v Always ttl_ms).2 = true -> r.2 = stored_response).
Proof.
  intros Hk Ht. cbv zeta. set (req := client_parsed _).
  assert (posted req "/v1/kv/set" (fields set_body_field ("", "", 0, Always)) (k, v, ttl_ms, Always)) as Hp
    by (by eapply object_posted; [..|apply (set_members_read k v SC_Always ttl_ms Ht)]).
  rewrite Handle_routes. change (path req) with "/v1/kv/set". change (method req) with "POST".
  change (assoc (routes clk sec aof) "/v1/kv/set") with (Some ("POST", HandleKvSet clk aof)).
  cbv iota beta. rewrite bool_decide_true by done. unfold HandleKvSet.
  rewrite (posted_body _ _ _ _ _ _ Hp).
  destruct k as [|x k]; [done|]. cbn [is_nil write_condition].
  destruct (Set_ (clk O) st (String x k) v Always ttl_ms) as [st1 b]. split; [done|]. cbn [snd].
  by intros ->.
Qed.

Lemma get_client_handled clk sec aof (st : MemoryStore) k t :
  k <> "" -> url_encodes k t ->
  let r := Handle clk sec aof st (client_parsed (get_client t)) in
  r.2 = read_response k (Get (clk O) st k).2.
Proof.
  intros Hk Ht. cbv zeta. set (req := client_parsed _).
  assert (asked req "/v1/kv/get" k) as Hg.
  { apply (query_asked _ _ _ [] t ""); try done; [|by left].
    unfold key_query. cbn [params_text]. by rewrite str_app_nil_r. }
  rewrite Handle_routes. change (path req) with "/v1/kv/get". change (method req) with "GET".
  change (assoc (routes clk sec aof) "/v1/kv/get") with (Some ("GET", HandleKvGet (S := MemoryStore) clk)).
  cbv iota beta. rewrite bool_decide_true by done. unfold HandleKvGet.
  rewrite (asked_key _ _ _ _ _ Hg). by destruct (Get (clk O) st k) as [st1 [v|]].
Qed.

(** C19: What a client stores over HTTP it reads back over HTTP until the deadline and
    not after it, in bytes of the connection. In the receive buffer of an open channel
    that is not about to close are a POST to /v1/kv/set with the object of a key, a
    value and a TTL (none for 0) and a GET of /v1/kv/get with that key, both with a
    Content-Length header and of fewer than 2^64 bytes; the key is not empty and
    percent-encoded in any way that leaves no blank or carriage return in the query;
    the clock reads a time during the POST and one not before it during the GET, and
    the first plus the TTL is below 2^64; the store satisfies its invariant and may
    hold anything. Then one run of the read loop handles both requests, and the socket
    and the queue have got exactly two responses, the confirmation and then the value,
    or 404 if the GET came at or after the deadline; for every pattern of short or
    refused sends that do not fail. *)
Theorem http_set_get_on_the_wire (clks : nat -> clock) secs aof (h : HttpHost MemoryStore) k v ttl_ms t sends c :
  wf_store std_hash (host_store h) -> k <> "" -> url_encodes k t ->
  lacks " " t = true -> lacks cr t = true ->
  slen (client_text (set_client k v ttl_ms)) < 2 ^ 64 -> slen (client_text (get_client t)) < 2 ^ 64 ->
  0 <= clks (host_calls h) O <= clks (S (host_calls h)) O -> 0 <= ttl_ms ->
  clks (host_calls h) O + ttl_ms < 2 ^ 64 ->
  closed_ c = false -> close_after_write_ c = false -> (forall j, sends j <> SendFailed) ->
  read_buffer_ c = pipeline [set_client k v ttl_ms; get_client t] "" ->
  exists c' h',
    ProcessReadBuffer (http_handler clks secs aof) 3 sends 0 c h = Some (c', h') /\
    read_buffer_ c' = "" /\
    sent c' +:+ write_buffer_ c' = sent c +:+ write_buffer_ c +:+
      response_text (set_client k v ttl_ms) stored_response +:+
      response_text (get_client t)
        (read_response k
           (if (0 <? ttl_ms) && (clks (host_calls h) O + ttl_ms <=? clks (S (host_calls h)) O)
            then None else Some v)).
Proof.
  intros Hwf Hk Ht Hsp Hcr Hs1 Hs2 Hclk Httl Hsum Hc Ha Hsends Hb.
  assert (Forall served [set_client k v ttl_ms; get_client t]) as Hqs.
  { constructor; [|constructor; [|constructor]]; by apply plain_served. }
  destruct (process_pipeline (http_handler clks secs aof) _ "" sends 0 c h Hqs eq_refl Hsends Hc Ha Hb)
    as (c' & Hrun & Hr & _ & Hbytes).
  exists c', (serve_all (http_handler clks secs aof) h [set_client k v ttl_ms; get_client t]).1.
  split; [exact Hrun|]. split; [done|]. rewrite Hbytes. do 2 f_equal.
  cbn [serve_all]. unfold http_handler, call_handler. set (i := host_calls h) in *.
  destruct (set_client_handled (clks i) (secs i) aof (host_store h) k v ttl_ms Hk) as [Hst Hres]; [lia|].
  destruct (set_get (H0 := memory_kv std_hash) (host_store h) (clks i O) (clks (S i) O) k v ttl_ms k)
    as [Hset Hget]; [done|lia..|].
  specialize (Hres Hset).
  destruct (Handle (clks i) (secs i) aof (host_store h) (client_parsed (set_client k v ttl_ms)))
    as [[st1 l1] r1]. cbn [fst snd] in Hst, Hres. subst st1 r1. cbn [host_calls host_store host_log].
  pose proof (get_client_handled (clks (S i)) (secs (S i)) aof
    (Set_ (clks i O) (host_store h) k v Always ttl_ms).1 k t Hk Ht) as Hg. cbv zeta in Hg.
  destruct (Handle (clks (S i)) _ aof _ (client_parsed (get_client t))) as [[st2 l2] r2].
  cbn [snd] in Hg. subst r2. rewrite decide_True in Hget by done. unfold wire_store in *. rewrite Hget.
  cbn [snd]. by rewrite str_app_nil_r.
Qed.
End wire.

Definition wire_host : HttpHost MemoryStore := mkHost sample_store [] 0.
Definition wire_clock : nat -> clock := fun i _ => 2000 + Z.of_nat i.

Lemma http_set_get_on_the_wire_witness :
  let c := mkChannel (pipeline [set_client "a b" "v" 1; get_client "a%20b"] "") "" false false "" in
  exists c' h',
    ProcessReadBuffer (http_handler (Store0 := sample_ms) wire_clock (fun _ => 2) true) 3
      (fun _ => Again) 0 c wire_host = Some (c', h') /\
    read_buffer_ c' = "" /\
    sent c' +:+ write_buffer_ c' =
      response_text (set_client "a b" "v" 1) stored_response +:+
      response_text (get_client "a%20b") (read_response "a b" None).
Proof.
  cbv zeta.
  apply (http_set_get_on_the_wire length_hash wire_clock (fun _ => 2) true wire_host "a b" "v" 1 "a%20b"
           (fun _ => Again)).
  - apply sample_store_wf.
  - done.
  - apply ue_plain; [done..|]. apply ue_hex; [done..|]. apply ue_plain; [done..|constructor].
  - done.
  - done.
  - by vm_compute.
  - by vm_compute.
  - unfold wire_host, wire_clock. cbn [host_calls]. lia.
  - lia.
  - unfold wire_host, wire_clock. cbn [host_calls]. lia.
  - done.
  - done.
  - done.
  - done.
Defined.
