(* ===== verification/Client.v ===== *)
(** * The client (net/client.h, net/client.cpp, net/error.cpp)

    [Execute] picks fields out of a JSON body, sends one binary request in a
    frame, reads one frame back and renders its payload as text.  The operating
    system is given by the answers of its calls: an error number is 0 where the
    call succeeds, and a [recv] that has more bytes than asked for keeps the rest. *)
From S2P Require Import Prelude CStd Json Frame Codec Socket Http.

(** ** Errors (net/error.cpp) *)

(** The errno values of Linux that [DescribeError] distinguishes. *)
Definition EPERM : Z := 1.
Definition EAGAIN : Z := 11.
Definition EACCES : Z := 13.
Definition EPIPE : Z := 32.
Definition EADDRINUSE : Z := 98.
Definition EADDRNOTAVAIL : Z := 99.
Definition ENETUNREACH : Z := 101.
Definition ECONNRESET : Z := 104.
Definition ETIMEDOUT : Z := 110.
Definition ECONNREFUSED : Z := 111.
Definition EHOSTUNREACH : Z := 113.
Definition EINPROGRESS : Z := 115.

(** The code and the hint for an error number. *)
Definition describe (error : Z) : string * string :=
  if error =? EADDRINUSE
  then ("ADDRESS_IN_USE", "Another process is using this address/port. Check it with ss -ltnp.")
  else if error =? ECONNREFUSED
  then ("CONNECTION_REFUSED", "Check that gatekeeper is running and the host/port are correct.")
  else if (error =? EACCES) || (error =? EPERM)
  then ("PERMISSION_DENIED", "Check socket permissions and firewall rules.")
  else if (error =? ETIMEDOUT) || (error =? EAGAIN)
  then ("TIMEOUT", "The operation timed out. Check the server and network.")
  else if (error =? ENETUNREACH) || (error =? EHOSTUNREACH)
  then ("UNREACHABLE", "Check the host address, network route and firewall.")
  else if (error =? ECONNRESET) || (error =? EPIPE)
  then ("CONNECTION_LOST", "The peer closed or reset the connection.")
  else if error =? EADDRNOTAVAIL
  then ("ADDRESS_UNAVAILABLE", "Check that the address belongs to this machine.")
  else ("NETWORK_ERROR", "").

(** [strerror] stands for [std::generic_category().message]. *)
Definition DescribeError (strerror : Z -> string) (operation endpoint : string) (error : Z) : string :=
  let '(code, hint) := describe error in
  code +:+ ": " +:+ operation +:+ " " +:+ endpoint +:+ ": " +:+ strerror error +:+
  (if is_nil hint then "" else ". " +:+ hint).

(** ** Fields of a body *)

(** The blanks that [ExtractField] skips. *)
Fixpoint skip_blanks (s : string) : string :=
  match s with
  | String c s' => if char_is c 32 || char_is c 9 then skip_blanks s' else s
  | "" => ""
  end.

(** [json.find_first_of(",}", pos)] *)
Fixpoint up_to_delim (s : string) : string :=
  match s with
  | "" => ""
  | String c s => if char_is c 44 || char_is c 125 then "" else String c (up_to_delim s)
  end.

Definition search_text (field : string) : string :=
  String dquote field +:+ String dquote ":".

Definition ExtractField (json field : string) : string :=
  match find_str (search_text field) json with
  | None => ""
  | Some pos =>
      match skip_blanks (str_drop (pos + String.length (search_text field)) json) with
      | "" => ""
      | String c rest as s =>
          if char_is c 34 then
            match find_str (String dquote "") rest with
            | None => ""
            | Some end_ => str_take end_ rest
            end
          else up_to_delim s
      end
  end.

(** ** Building the request *)

(** Exceptions of [Execute] before anything is sent: a number that [std::stoull],
    [std::stoll] or [std::stoi] rejects, an operation without binary request. *)
Inductive build_error := BadNumber | Unsupported (operation : string).

Definition get_u64 (text : string) : Z + build_error :=
  match stoull text with Some (n, _) => inl n | None => inr BadNumber end.
Definition get_i64 (text : string) : Z + build_error :=
  match stoll text with Some (n, _) => inl n | None => inr BadNumber end.
(** [std::stoi]: [strtol] and a test of the range of int. *)
Definition get_int (text : string) : Z + build_error :=
  match stoll text with
  | Some (n, _) => if (- 2 ^ 31 <=? n) && (n <? 2 ^ 31) then inl n else inr BadNumber
  | None => inr BadNumber
  end.
(** [str.empty() ? d : std::sto...(str)] *)
Definition or_default (get : string -> Z + build_error) (d : Z) (text : string) : Z + build_error :=
  if is_nil text then inl d else get text.

Definition ebind {A B} (m : A + build_error) (f : A -> B + build_error) : B + build_error :=
  match m with inl a => f a | inr e => inr e end.
Declare Scope build_scope.
Delimit Scope build_scope with build.
Notation "x <~ m ; k" := (ebind m (fun x => k))
  (at level 20, m at level 100, k at level 200, right associativity) : build_scope.
Local Open Scope build_scope.

(** [body.find(text) != npos] *)
Definition has_text (text body : string) : bool :=
  match find_str text body with Some _ => true | None => false end.

Definition set_flag (body : string) : SetCondition :=
  if has_text (jq "'if_not_exists':true") body then SC_IfAbsent
  else if has_text (jq "'if_exists':true") body then SC_IfPresent else SC_Always.

Definition build_request (operation body : string) : (BinaryOpcode * BinaryRequest) + build_error :=
  let key := ExtractField body "key" in
  let op_is op := bool_decide (operation = op) in
  if op_is "PING" then inl (Op_Ping, RPing)
  else if op_is "GET" then inl (Op_Get, RGet key)
  else if op_is "SET" then
    ttl <~ or_default get_u64 0 (ExtractField body "ttl_ms");
    inl (Op_Set, RSet key (ExtractField body "value") (set_flag body) ttl)
  else if op_is "DEL" then inl (Op_Del, RDel key)
  else if op_is "EXISTS" then inl (Op_Exists, RExists key)
  else if op_is "TYPE" then inl (Op_Type, RType key)
  else if op_is "EXPIRE" || op_is "PEXPIRE" then
    ttl <~ or_default get_u64 0 (ExtractField body "ttl_ms");
    inl (Op_Expire, RExpire key ttl)
  else if op_is "TTL" || op_is "PTTL" then inl (Op_Ttl, RTtl key)
  else if op_is "INCR" then inl (Op_Incr, RIncr key 1 0)
  else if op_is "DECR" then inl (Op_Incr, RIncr key (-1) 0)
  else if op_is "INCRBY" then
    delta <~ or_default get_i64 1 (ExtractField body "delta");
    ttl <~ or_default get_u64 0 (ExtractField body "ttl_ms");
    inl (Op_Incr, RIncr key delta ttl)
  else if op_is "GK.RATE_LIMIT" then
    limit <~ get_u64 (ExtractField body "limit");
    win <~ get_u64 (ExtractField body "window_ms");
    inl (Op_RateLimit, RRateLimit key limit win 1)
  else if op_is "GK.QUOTA_INIT" then
    amt <~ get_u64 (ExtractField body "amount"); inl (Op_QuotaInit, RQuotaInit key amt)
  else if op_is "GK.QUOTA_GET" then inl (Op_QuotaGet, RQuotaGet key)
  else if op_is "GK.RESERVE" then
    amt <~ get_u64 (ExtractField body "amount");
    ttl <~ get_u64 (ExtractField body "ttl_ms");
    inl (Op_Reserve, RReserve key amt ttl)
  else if op_is "GK.COMMIT" then
    act <~ get_u64 (ExtractField body "actual_amount");
    inl (Op_Commit, RCommit key (ExtractField body "reservation_id") act)
  else if op_is "GK.ROLLBACK" then inl (Op_Rollback, RRollback key (ExtractField body "reservation_id"))
  else if op_is "GK.IDEM_BEGIN" then
    ttl <~ or_default get_u64 0 (ExtractField body "ttl_ms");
    inl (Op_IdemBegin, RIdemBegin key (ExtractField body "request_hash") ttl (ExtractField body "owner_token"))
  else if op_is "GK.IDEM_COMPLETE" then
    code <~ get_int (ExtractField body "response_code");
    inl (Op_IdemComplete,
         RIdemComplete key (ExtractField body "owner_token") code (ExtractField body "response_body"))
  else if op_is "GK.IDEM_FAIL" then
    inl (Op_IdemFail, RIdemFail key (ExtractField body "owner_token") (ExtractField body "error_message"))
  else inr (Unsupported operation).

(** ** Rendering the response *)

Definition integer (n : Z) : string := "(integer) " +:+ to_string n.
Definition flag_text (b : bool) : string := if b then "1" else "0".
(** [n] bytes at [off] as an unsigned number in network order *)
Definition num_at (off n : nat) (s : string) : Z := be_val (bytes_at off n s).
(** [s.substr(off, n)] *)
Definition substr (off : nat) (n : Z) (s : string) : string := str_take (Z.to_nat n) (str_drop off s).

(** The [switch] over the operation, for a response with another status. *)
Definition decode_switch (op : BinaryOpcode) (resp : string) : string :=
  match op with
  | Op_Ping => "PONG"
  | Op_Set | Op_QuotaInit => "OK"
  | Op_Get =>
      if slen resp <? 5 then "(nil)"
      else
        let val_len := num_at 1 4 resp in
        if slen resp <? u32 (5 + val_len) then "(nil)" else QuoteJson (substr 5 val_len resp)
  | Op_Del | Op_Exists | Op_Expire =>
      if slen resp <? 2 then "(integer) 0"
      else if num_at 1 1 resp =? 0 then "(integer) 0" else "(integer) 1"
  | Op_Type =>
      if slen resp <? 3 then "none"
      else
        let tlen := num_at 1 2 resp in
        if slen resp <? 3 + tlen then "none" else substr 3 tlen resp
  | Op_Ttl => if slen resp <? 9 then "(integer) -2" else integer (i64 (num_at 1 8 resp))
  | Op_Incr => if slen resp <? 9 then "(integer) 0" else integer (i64 (num_at 1 8 resp))
  | Op_QuotaGet => if slen resp <? 9 then "(integer) 0" else integer (num_at 1 8 resp)
  | Op_RateLimit =>
      if slen resp <? 18 then "(error) invalid rate limit response"
      else "allowed=" +:+ flag_text (num_at 1 1 resp =? 1) +:+ " remaining=" +:+
           to_string (num_at 2 8 resp) +:+ " retry_after_ms=" +:+ to_string (num_at 10 8 resp)
  | Op_Reserve =>
      if slen resp <? 12 then "(error) invalid reserve response"
      else
        let rlen := num_at 10 2 resp in
        let res_id := if 12 + rlen <=? slen resp then substr 12 rlen resp else "" in
        "reserved=" +:+ flag_text (num_at 1 1 resp =? 1) +:+ " reservation_id=" +:+ QuoteJson res_id +:+
        " remaining=" +:+ to_string (num_at 2 8 resp)
  | Op_Commit =>
      if slen resp <? 18 then "(error) invalid commit response"
      else "committed=1 refunded=" +:+ to_string (num_at 2 8 resp) +:+ " remaining=" +:+
           to_string (num_at 10 8 resp)
  | Op_Rollback =>
      if slen resp <? 18 then "(error) invalid rollback response"
      else "rolled_back=1 refunded=" +:+ to_string (num_at 2 8 resp) +:+ " remaining=" +:+
           to_string (num_at 10 8 resp)
  | Op_IdemBegin =>
      if slen resp <? 4 then "(error) invalid idem begin response"
      else
        let action := num_at 1 1 resp in
        let act_str := if action =? 0 then "EXECUTE" else if action =? 1 then "PARK"
                       else if action =? 2 then "REPLAY" else "CONFLICT" in
        let olen := num_at 2 2 resp in
        let token := if 4 + olen <=? slen resp then substr 4 olen resp else "" in
        "action=" +:+ act_str +:+ " owner_token=" +:+ QuoteJson token
  | Op_IdemComplete => "completed=1"
  | Op_IdemFail => "failed=1"
  | Op_Decr | Op_IncrBy => "OK"
  end.

Definition DecodeBinaryResponseToText (op : BinaryOpcode) (resp : string) : string :=
  match resp with
  | "" => "(error) empty response"
  | String c0 _ =>
      let status := Z_of_byte c0 in
      if status =? status_value St_Error then "(error) ERR_EXECUTION_FAILED"
      else if status =? status_value St_NotFound then "(nil)"
      else if status =? status_value St_Conflict then "(error) ERR_IDEMPOTENCY_CONFLICT"
      else decode_switch op resp
  end.

(** ** The connection *)

Record Client := mkClient_ { host_ : string; port_ : Z; socket_open : bool; next_id_ : Z }.

(** [None]: the constructor throws. *)
Definition NewClient (host : string) (port : Z) : option Client :=
  if is_nil host || (port =? 0) then None else Some (mkClient_ host port false 1).
Definition CloseClient (c : Client) : Client := mkClient_ (host_ c) (port_ c) false (next_id_ c).
Definition endpoint_text (c : Client) : string := host_ c +:+ ":" +:+ to_string (port_ c).

(** The outcome of an operation on the connection: a value, an exception with its
    message, or a call that has not returned yet. *)
Inductive io (A : Type) := Done (a : A) | Threw (message : string) | Blocked.
Arguments Done {A}. Arguments Threw {A}. Arguments Blocked {A}.

Section connection.
(** Texts of the operating system, and the error number of a failing call. *)
Context (strerror : Z -> string) (errno_ : Z).

(** [poll]: ready with the error that SO_ERROR reports, timeout, interrupted, failed. *)
Inductive poll_result := PollReady (error : Z) | PollTimeout | PollIntr | PollFailed (error : Z).

(** One address of [getaddrinfo]: the errors of [socket], of the first two [fcntl], of
    [connect] and of the last [fcntl], the clock when [connect] returned, and the clock
    and the answer of each [poll]; times in nanoseconds. *)
Record Address := mkAddress {
  ad_socket : Z; ad_nonblock : Z; ad_connect : Z; ad_start : Z; ad_polls : list (Z * poll_result);
  ad_restore : Z }.

(** [None]: still waiting. *)
Fixpoint poll_loop (deadline : Z) (polls : list (Z * poll_result)) : option Z :=
  match polls with
  | [] => None
  | (now, answer) :: polls =>
      if Z.quot (deadline - now) 1000000 <=? 0 then Some ETIMEDOUT
      else match answer with
           | PollIntr => poll_loop deadline polls
           | PollTimeout => Some ETIMEDOUT
           | PollFailed error | PollReady error => Some error
           end
  end.

Definition ConnectWithTimeout (a : Address) : option Z :=
  if negb (ad_nonblock a =? 0) then Some (ad_nonblock a)
  else
    match (if ad_connect a =? EINPROGRESS then poll_loop (ad_start a + 5 * 1000000000) (ad_polls a)
           else Some (ad_connect a)) with
    | None => None
    | Some error => Some (if negb (ad_restore a =? 0) && (error =? 0) then ad_restore a else error)
    end.

(** The loop of [Open]: whether a socket is connected, and [last_error]. *)
Fixpoint connect_loop (addresses : list Address) (last_error : Z) : option (bool * Z) :=
  match addresses with
  | [] => Some (false, last_error)
  | a :: addresses =>
      if negb (ad_socket a =? 0) then connect_loop addresses (ad_socket a)
      else match ConnectWithTimeout a with
           | None => None
           | Some error => if error =? 0 then Some (true, 0) else connect_loop addresses error
           end
  end.

(** The addresses of the host or the text of [gai_strerror], and the error of
    [setsockopt]. *)
Record Network := mkNetwork { nw_resolved : list Address + string; nw_timeouts : Z }.
Context (network : Network).

Definition Open (c : Client) : Client * io unit :=
  if socket_open c then (c, Done tt)
  else
    match nw_resolved network with
    | inr gai =>
        (c, Threw ("DNS_ERROR: cannot resolve " +:+ endpoint_text c +:+ ": " +:+ gai +:+
                   ". Check the host name or use an IP address."))
    | inl addresses =>
        match connect_loop addresses ECONNREFUSED with
        | None => (c, Blocked)
        | Some (false, last_error) =>
            (c, Threw (DescribeError strerror "connect to" (endpoint_text c) last_error))
        | Some (true, _) =>
            if nw_timeouts network =? 0 then (mkClient_ (host_ c) (port_ c) true (next_id_ c), Done tt)
            else (CloseClient c,
                  Threw (DescribeError strerror "set timeout for" (endpoint_text c) (nw_timeouts network)))
        end
    end.

(** [ReadAll] of [n] bytes: the bytes and the rest of the socket's answers. *)
Fixpoint ReadAll (c : Client) (n : nat) (script : list recv_result) : io (string * list recv_result) :=
  match n, script with
  | O, _ => Done ("", script)
  | _, [] => Blocked
  | S _, Received data :: script =>
      if is_nil data then
        Threw ("CONNECTION_CLOSED: " +:+ endpoint_text c +:+
               " closed before the complete response was received.")
      else if (n <? String.length data)%nat then Done (str_take n data, Received (str_drop n data) :: script)
      else match ReadAll c (n - String.length data) script with
           | Done (rest, script) => Done (data +:+ rest, script)
           | Threw e => Threw e
           | Blocked => Blocked
           end
  | S _, RecvEof :: _ =>
      Threw ("CONNECTION_CLOSED: " +:+ endpoint_text c +:+
             " closed before the complete response was received.")
  | S _, RecvIntr :: script => ReadAll c n script
  | S _, RecvAgain :: _ => Threw (DescribeError strerror "read from" (endpoint_text c) EAGAIN)
  | S _, RecvFailed :: _ => Threw (DescribeError strerror "read from" (endpoint_text c) errno_)
  end.

(** [SendAll]: the bytes the socket took. *)
Fixpoint SendAll (c : Client) (bytes : string) (script : list send_result) : io (list send_result) :=
  match bytes, script with
  | "", _ => Done script
  | _, [] => Blocked
  | String _ _, Sent O :: _ => Threw (DescribeError strerror "write to" (endpoint_text c) EPIPE)
  | String _ _, Sent n :: script => SendAll c (str_drop n bytes) script
  | String _ _, Intr :: script => SendAll c bytes script
  | String _ _, Again :: _ => Threw (DescribeError strerror "write to" (endpoint_text c) EAGAIN)
  | String _ _, SendFailed :: _ => Threw (DescribeError strerror "write to" (endpoint_text c) errno_)
  end.

Definition kBinaryPayload : Z := 0x20.
Definition request_header (id : Z) (payload : string) : Header :=
  mkHeader kMagic kVersion (Z.lor kEndStream kBinaryPayload) (msg_type_byte MT_Request) zero3 id 1
    (u32 (slen payload)).

(** The reply of the server: only magic and length of its header are looked at. *)
Definition read_reply (c : Client) (reads : list recv_result) : io string :=
  match ReadAll c kHeaderSize reads with
  | Done (header_buf, reads) =>
      if negb (num_at 0 2 header_buf =? kMagic)
      then Threw ("INVALID_MAGIC: expected GKWP/2 magic from " +:+ endpoint_text c)
      else
        let length := num_at 20 4 header_buf in
        if kMaxPayloadLength <? length
        then Threw ("INVALID_FRAME: response from " +:+ endpoint_text c +:+ " declares " +:+
                    to_string length +:+ " bytes; exceeds limit.")
        else match ReadAll c (Z.to_nat length) reads with
             | Done (bytes, _) => Done bytes
             | Threw e => Threw e
             | Blocked => Blocked
             end
  | Threw e => Threw e
  | Blocked => Blocked
  end.

(** [ExecuteBinary]: the client, the bytes handed to [send], and the response
    payload.  Any exception after [Open] closes the connection. *)
Definition ExecuteBinary (c : Client) (payload : string) (sends : list send_result)
    (reads : list recv_result) : Client * string * io string :=
  match Open c with
  | (c, Threw message) => (c, "", Threw message)
  | (c, Blocked) => (c, "", Blocked)
  | (c, Done _) =>
      let frame := EncodeFrame (request_header (next_id_ c) payload) payload in
      let c := mkClient_ (host_ c) (port_ c) (socket_open c) (u64 (next_id_ c + 1)) in
      match SendAll c frame sends with
      | Blocked => (c, frame, Blocked)
      | Threw e => (CloseClient c, frame, Threw e)
      | Done _ =>
          match read_reply c reads with
          | Threw e => (CloseClient c, frame, Threw e)
          | r => (c, frame, r)
          end
      end
  end.

Definition Execute (c : Client) (operation body : string) (sends : list send_result)
    (reads : list recv_result) : (Client * string * io string) + build_error :=
  match build_request operation body with
  | inr e => inr e
  | inl (op_code, r) =>
      let '(c, frame, raw_resp) := ExecuteBinary c (encode_request r) sends reads in
      inl (c, frame, match raw_resp with
                     | Done resp => Done (DecodeBinaryResponseToText op_code resp)
                     | Threw e => Threw e
                     | Blocked => Blocked
                     end)
  end.

End connection.
