(* ===== verification/Server.v ===== *)
(** * A worker of the server (net/server.h, net/server.cpp)

    A worker runs an event loop over its listening sockets and its connections.  The
    callbacks are data: [call] runs them on the worker.  The system is given by
    [alloc], the descriptor that [accept] answers when the given ones are in use,
    [add_ok], whether [epoll_ctl] registers a descriptor, and for each event by what
    the calls on sockets and clocks answer ([Io]).  The request handlers share their
    state, as the two services share the store. *)
From S2P Require Import Prelude CStd Frame Decoder Streams Socket Http Client Channel EventLoop.

(** ** The constructor *)

Definition is_tcp_port (p : Z) : bool := (1 <=? p) && (p <=? 65535).

(** The exception of the constructor, if it throws. *)
Definition server_error (port http_port : Z) (has_handler : bool) : option string :=
  if negb (is_tcp_port port) then Some "INVALID_PORT: port must be between 1 and 65535"
  else if negb (http_port =? 0) && negb (is_tcp_port http_port)
  then Some "INVALID_PORT: http port must be between 1 and 65535"
  else if (0 <? http_port) && (http_port =? port)
  then Some "INVALID_PORT: http port cannot be the same as gatekeeper tcp port"
  else if negb has_handler then Some "request handler is required" else None.

(** [num_workers_ > 0 ? num_workers_ : std::max(1U, hw_threads)] *)
Definition worker_count (num_workers hw_threads : Z) : Z :=
  if 0 <? num_workers then num_workers else Z.max 1 hw_threads.

(** [CreateListeningSocket] with the errors of [socket], [bind] and [listen] (0: none):
    the exception, if it throws. *)
Definition CreateListeningSocket (strerror : Z -> string) (port socket_error bind_error listen_error : Z) :
    option string :=
  let endpoint := "0.0.0.0:" +:+ to_string port in
  if negb (socket_error =? 0)
  then Some ("socket creation failed: " +:+ DescribeError strerror "socket" endpoint socket_error)
  else if negb (bind_error =? 0) then Some (DescribeError strerror "bind" endpoint bind_error)
  else if negb (listen_error =? 0) then Some (DescribeError strerror "listen" endpoint listen_error)
  else None.

(** [Stop] and [SetTimerCallback] on the loops of the workers. *)
Definition ServerStop {C} (loops : list (option (EventLoop C))) : list (option (EventLoop C)) :=
  map (option_map Stop) loops.
Definition SetTimerCallback {C} (loops : list (option (EventLoop C))) (interval_ms : Z) (callback : bool) (now : Z) :
    list (option (EventLoop C)) :=
  match loops with
  | Some l :: loops => Some (SetPeriodicTimer l interval_ms callback now) :: loops
  | _ => loops
  end.

(** ** The state of a worker *)

Inductive callback := CB_Wakeup | CB_Accept | CB_HttpAccept | CB_Channel (fd : Z) | CB_HttpChannel (fd : Z).

Inductive accept_result := Accepted | AcceptIntr | AcceptStop.

Record Io := mkIo {
  io_accepts : list accept_result;
  io_reads : list recv_result;
  io_sends : nat -> send_result;
  io_times : nat -> Z;
  io_fuel : nat;
  io_http_bound : nat;
  io_http_sends : nat -> nat -> send_result;
  io_http_writes : list send_result;
}.

Record Worker (H : Type) := mkWorker {
  w_loop : EventLoop callback;
  channels : gmap Z Channel;
  http_channels : gmap Z HttpChannel;
  next_session_id_ : Z;
  w_state : H;
}.
Arguments mkWorker {H}. Arguments w_loop {H}. Arguments channels {H}. Arguments http_channels {H}.
Arguments next_session_id_ {H}. Arguments w_state {H}.

Definition set_loop {H} (w : Worker H) (l : EventLoop callback) : Worker H :=
  mkWorker l (channels w) (http_channels w) (next_session_id_ w) (w_state w).
#[global] Instance worker_loop H : HasLoop (Worker H) callback :=
  {| loop_of := w_loop; with_loop := set_loop; loop_with w l := eq_refl |}.

(** The bits of [events]. *)
Definition EPOLLIN : Z := 1.
Definition EPOLLPRI : Z := 2.
Definition EPOLLOUT : Z := 4.
Definition EPOLLERR : Z := 8.
Definition EPOLLHUP : Z := 16.
Definition EPOLLRDHUP : Z := 8192.
Definition has_bits (events mask : Z) : bool := negb (Z.land events mask =? 0).
Definition ev_read (events : Z) : bool := has_bits events (Z.lor EPOLLIN EPOLLPRI).
Definition ev_write (events : Z) : bool := has_bits events EPOLLOUT.
Definition ev_hup (events : Z) : bool := has_bits events (Z.lor EPOLLERR (Z.lor EPOLLHUP EPOLLRDHUP)).

Definition new_http_channel : HttpChannel := mkChannel "" "" false false "".

Section worker.
Context {H : Type}.
Context (handler_ : H -> string -> option (H * string)) (http_handler_ : H -> HttpRequest -> H * HttpResponse).
Context (timer_ : Z -> H -> H).
Context (alloc : gset Z -> Z) (add_ok : Z -> bool) (reserved : gset Z).

(** The descriptors in use: those of the process and those of the worker. *)
Definition in_use (w : Worker H) : gset Z :=
  reserved ∪ dom (callbacks_ (w_loop w)) ∪ dom (channels w) ∪ dom (http_channels w).

(** An accepted connection. *)
Definition add_channel (w : Worker H) : Worker H :=
  let fd := alloc (in_use w) in
  mkWorker (Add (add_ok fd) (w_loop w) fd (CB_Channel fd)) (<[fd := Channel.new_channel]> (channels w))
    (http_channels w) (u64 (next_session_id_ w + 1)) (w_state w).
Definition add_http_channel (w : Worker H) : Worker H :=
  let fd := alloc (in_use w) in
  mkWorker (Add (add_ok fd) (w_loop w) fd (CB_HttpChannel fd)) (channels w)
    (<[fd := new_http_channel]> (http_channels w)) (next_session_id_ w) (w_state w).

(** The loop around [accept]; the end of the list is EAGAIN. *)
Fixpoint accept_loop (add : Worker H -> Worker H) (accepts : list accept_result) (w : Worker H) : Worker H :=
  match accepts with
  | [] | AcceptStop :: _ => w
  | AcceptIntr :: accepts => accept_loop add accepts w
  | Accepted :: accepts => accept_loop add accepts (add w)
  end.

(** The callback of a connection: the events, and the end of a closed channel.
    [Channel::Close] removes the callback. *)
Definition on_channel (fd ev : Z) (io : Io) (w : Worker H) : option (Worker H) :=
  match channels w !! fd with
  | None => Some w
  | Some c =>
      match Channel.HandleEvents (io_sends io) (io_times io) handler_ (ev_read ev) (ev_write ev) (ev_hup ev)
              (io_reads io) (io_fuel io) c (w_state w) with
      | None => None
      | Some (c', h) =>
          let l := if negb (Channel.closed_ c) && Channel.closed_ c' then Remove (w_loop w) fd else w_loop w in
          Some (mkWorker l (if Channel.closed_ c' then delete fd (channels w) else <[fd := c']> (channels w))
                  (http_channels w) (next_session_id_ w) h)
      end
  end.
Definition on_http_channel (fd ev : Z) (io : Io) (w : Worker H) : option (Worker H) :=
  match http_channels w !! fd with
  | None => Some w
  | Some c =>
      match Http.HandleEvents (Some http_handler_) (ev_read ev) (ev_write ev) (ev_hup ev) (io_http_bound io)
              (io_reads io) (io_http_sends io) (io_http_writes io) c (w_state w) with
      | None => None
      | Some (c', h) =>
          let l := if negb (Http.closed_ c) && Http.closed_ c' then Remove (w_loop w) fd else w_loop w in
          Some (mkWorker l (channels w)
                  (if Http.closed_ c' then delete fd (http_channels w) else <[fd := c']> (http_channels w))
                  (next_session_id_ w) h)
      end
  end.

Definition call (cb : callback) (ev : Z) (io : Io) (w : Worker H) : option (Worker H) :=
  match cb with
  | CB_Wakeup => Some (set_loop w (mkLoop (running_ (w_loop w)) (timer_interval_ms_ (w_loop w))
      (timer_callback_ (w_loop w)) (last_tick_ (w_loop w)) (callbacks_ (w_loop w)) false))
  | CB_Accept => Some (accept_loop add_channel (io_accepts io) w)
  | CB_HttpAccept => Some (accept_loop add_http_channel (io_accepts io) w)
  | CB_Channel fd => on_channel fd ev io w
  | CB_HttpChannel fd => on_http_channel fd ev io w
  end.

Definition on_timer (now : Z) (w : Worker H) : option (Worker H) :=
  Some (mkWorker (w_loop w) (channels w) (http_channels w) (next_session_id_ w) (timer_ now (w_state w))).

(** [RunWorkerLoop] up to [loop.Run()]. *)
Definition start_worker (l : EventLoop callback) (worker_id interval now server_fd : Z) (http_fd : option Z)
    (next_session : Z) (h : H) : Worker H :=
  let l := if (worker_id =? 0) && (0 <=? interval) then SetPeriodicTimer l interval true now else l in
  let l := Add (add_ok server_fd) l server_fd CB_Accept in
  let l := match http_fd with Some fd => Add (add_ok fd) l fd CB_HttpAccept | None => l end in
  mkWorker l ∅ ∅ next_session h.

Definition RunWorkerLoop (l : EventLoop callback) (worker_id interval now server_fd : Z) (http_fd : option Z)
    (next_session : Z) (h : H) (rounds : list (round (IO := Io))) : option (Worker H) + string :=
  Run call on_timer (start_worker l worker_id interval now server_fd http_fd next_session h) rounds.
End worker.

(** ** The invariant *)

Section invariant.
Context {H : Type}.
Context (handler_ : H -> string -> option (H * string)) (http_handler_ : H -> HttpRequest -> H * HttpResponse).
Context (timer_ : Z -> H -> H).
Context (alloc : gset Z -> Z) (add_ok : Z -> bool) (reserved : gset Z).
(** [accept] answers a descriptor that is not open. *)
Context (alloc_fresh : forall X, alloc X ∉ X).

Record worker_ok (w : Worker H) : Prop := mk_worker_ok {
  wo_channel : forall fd c, channels w !! fd = Some c -> chan_ok c /\ Channel.closed_ c = false;
  wo_http : forall fd c, http_channels w !! fd = Some c -> Http.closed_ c = false;
  wo_callback : forall fd fd', callbacks_ (w_loop w) !! fd = Some (CB_Channel fd') ->
    fd' = fd /\ is_Some (channels w !! fd);
  wo_http_callback : forall fd fd', callbacks_ (w_loop w) !! fd = Some (CB_HttpChannel fd') ->
    fd' = fd /\ is_Some (http_channels w !! fd);
  wo_registered : forall fd, is_Some (channels w !! fd) -> add_ok fd = true ->
    callbacks_ (w_loop w) !! fd = Some (CB_Channel fd);
  wo_http_registered : forall fd, is_Some (http_channels w !! fd) -> add_ok fd = true ->
    callbacks_ (w_loop w) !! fd = Some (CB_HttpChannel fd);
  wo_apart : forall fd, is_Some (channels w !! fd) -> http_channels w !! fd = None;
  wo_reserved : forall fd, fd ∈ reserved -> channels w !! fd = None /\ http_channels w !! fd = None;
}.

(** The callbacks of the listening sockets stay, and so does the connection [fd]
    unless it is [except]. *)
Definition keeps (except : option Z) (w w' : Worker H) : Prop :=
  (forall fd, fd ∈ reserved -> callbacks_ (w_loop w') !! fd = callbacks_ (w_loop w) !! fd) /\
  (forall fd c, except <> Some fd -> channels w !! fd = Some c -> channels w' !! fd = Some c) /\
  (forall fd c, except <> Some fd -> http_channels w !! fd = Some c -> http_channels w' !! fd = Some c).

Lemma keeps_trans e (w1 w2 w3 : Worker H) : keeps e w1 w2 -> keeps e w2 w3 -> keeps e w1 w3.
Proof. intros (A1 & A2 & A3) (B1 & B2 & B3). split_and!; intros; [rewrite B1, A1 by done; done|auto..]. Qed.
Lemma keeps_refl e (w : Worker H) : keeps e w w.
Proof. by split_and!. Qed.

Lemma alloc_unused (w : Worker H) :
  let fd := alloc (in_use reserved w) in
  fd ∉ reserved /\ callbacks_ (w_loop w) !! fd = None /\ channels w !! fd = None /\ http_channels w !! fd = None.
Proof.
  cbv zeta. pose proof (alloc_fresh (in_use reserved w)) as Hf. unfold in_use in Hf at 2.
  rewrite !not_elem_of_union, !not_elem_of_dom in Hf. tauto.
Qed.

Lemma add_lookup (ok : bool) (l : EventLoop callback) fd cb fd' :
  callbacks_ (Add ok l fd cb) !! fd' = if ok && bool_decide (fd = fd') then Some cb else callbacks_ l !! fd'.
Proof.
  unfold Add. destruct ok; cbn [andb]; [|done]. cbn [callbacks_ set_callbacks].
  case_bool_decide; simplify_map_eq; done.
Qed.

Lemma add_channel_ok (w : Worker H) : worker_ok w -> worker_ok (add_channel alloc add_ok reserved w).
Proof.
  intros [O1 O2 O3 O4 O5 O6 O7 O8]. destruct (alloc_unused w) as (F1 & F2 & F3 & F4). cbv zeta in *.
  unfold add_channel. set (fd := alloc _) in *. split; cbn [w_loop channels http_channels].
  - intros fd' c [[-> <-]|[_ Hc]]%lookup_insert_Some; [split; [apply new_channel_ok|done]|eauto].
  - eauto.
  - intros a b. rewrite add_lookup. destruct (add_ok fd && bool_decide (fd = a)) eqn:E.
    + apply andb_true_iff in E as [_ ->%bool_decide_eq_true]. intros [= <-]. rewrite lookup_insert_eq. eauto.
    + intros Hcb. destruct (O3 _ _ Hcb) as [-> Hs]. split; [done|]. destruct (decide (fd = a)) as [->|Hne]; [congruence|].
      by rewrite lookup_insert_ne.
  - intros a b. rewrite add_lookup. destruct (_ && _); [done|]. eauto.
  - intros a Ha Hok. rewrite add_lookup. destruct (decide (fd = a)) as [->|Hne].
    + by rewrite Hok, bool_decide_true.
    + rewrite bool_decide_false, andb_false_r by done. apply O5; [|done]. by rewrite lookup_insert_ne in Ha.
  - intros a Ha Hok. rewrite add_lookup. rewrite bool_decide_false, andb_false_r; [eauto|].
    intros ->. rewrite F4 in Ha. by destruct Ha.
  - intros a Ha. destruct (decide (fd = a)) as [->|Hne]; [done|]. rewrite lookup_insert_ne in Ha by done. eauto.
  - intros a Ha. destruct (decide (fd = a)) as [->|Hne]; [done|]. rewrite lookup_insert_ne by done. eauto.
Qed.

Lemma add_http_channel_ok (w : Worker H) : worker_ok w -> worker_ok (add_http_channel alloc add_ok reserved w).
Proof.
  intros [O1 O2 O3 O4 O5 O6 O7 O8]. destruct (alloc_unused w) as (F1 & F2 & F3 & F4). cbv zeta in *.
  unfold add_http_channel. set (fd := alloc _) in *. split; cbn [w_loop channels http_channels].
  - eauto.
  - intros fd' c [[-> <-]|[_ Hc]]%lookup_insert_Some; [done|eauto].
  - intros a b. rewrite add_lookup. destruct (_ && _); [done|]. eauto.
  - intros a b. rewrite add_lookup. destruct (add_ok fd && bool_decide (fd = a)) eqn:E.
    + apply andb_true_iff in E as [_ ->%bool_decide_eq_true]. intros [= <-]. rewrite lookup_insert_eq. eauto.
    + intros Hcb. destruct (O4 _ _ Hcb) as [-> Hs]. split; [done|]. destruct (decide (fd = a)) as [->|Hne]; [congruence|].
      by rewrite lookup_insert_ne.
  - intros a Ha Hok. rewrite add_lookup. rewrite bool_decide_false, andb_false_r; [eauto|].
    intros ->. rewrite F3 in Ha. by destruct Ha.
  - intros a Ha Hok. rewrite add_lookup. destruct (decide (fd = a)) as [->|Hne].
    + by rewrite Hok, bool_decide_true.
    + rewrite bool_decide_false, andb_false_r by done. apply O6; [|done]. by rewrite lookup_insert_ne in Ha.
  - intros a Ha. destruct (decide (fd = a)) as [->|Hne]; [rewrite F3 in Ha; by destruct Ha|].
    rewrite lookup_insert_ne by done. eauto.
  - intros a Ha. destruct (decide (fd = a)) as [->|Hne]; [done|]. rewrite lookup_insert_ne by done. eauto.
Qed.

Lemma add_channel_keeps (w : Worker H) : keeps None w (add_channel alloc add_ok reserved w).
Proof.
  destruct (alloc_unused w) as (F1 & F2 & F3 & F4). cbv zeta in *. unfold add_channel. set (fd := alloc _) in *.
  split_and!; cbn [w_loop channels http_channels]; [|intros a c _ Ha|done].
  - intros a Ha. rewrite add_lookup, bool_decide_false, andb_false_r by (intros <-; done). done.
  - rewrite lookup_insert_ne; [done|]. intros <-. congruence.
Qed.
Lemma add_http_channel_keeps (w : Worker H) : keeps None w (add_http_channel alloc add_ok reserved w).
Proof.
  destruct (alloc_unused w) as (F1 & F2 & F3 & F4). cbv zeta in *. unfold add_http_channel. set (fd := alloc _) in *.
  split_and!; cbn [w_loop channels http_channels]; [|done|intros a c _ Ha].
  - intros a Ha. rewrite add_lookup, bool_decide_false, andb_false_r by (intros <-; done). done.
  - rewrite lookup_insert_ne; [done|]. intros <-. congruence.
Qed.

Lemma accept_loop_ok (add : Worker H -> Worker H) accepts w :
  (forall w, worker_ok w -> worker_ok (add w) /\ keeps None w (add w)) ->
  worker_ok w -> worker_ok (accept_loop add accepts w) /\ keeps None w (accept_loop add accepts w).
Proof.
  intros Hadd. revert w. induction accepts as [|[] accepts IH]; intros w Hw; cbn [accept_loop];
    [by split; [|apply keeps_refl]| |by apply IH|by split; [|apply keeps_refl]].
  destruct (Hadd w Hw) as [H1 H2]. destruct (IH (add w) H1) as [H3 H4]. split; [done|]. by eapply keeps_trans.
Qed.

(** A lookup after a connection was updated or erased. *)
Lemma after_lookup {A} (b : bool) (m : gmap Z A) fd x fd' y :
  (if b then delete fd m else <[fd := x]> m) !! fd' = Some y ->
  fd' = fd /\ b = false /\ y = x \/ fd' <> fd /\ m !! fd' = Some y.
Proof.
  destruct b.
  - intros [Hne Hm]%lookup_delete_Some. by right.
  - intros [[-> ->]|[Hne Hm]]%lookup_insert_Some; [by left|by right].
Qed.
Lemma after_other {A} (b : bool) (m : gmap Z A) fd x fd' :
  fd' <> fd -> (if b then delete fd m else <[fd := x]> m) !! fd' = m !! fd'.
Proof. intros Hne. destruct b; by rewrite ?lookup_delete_ne, ?lookup_insert_ne by done. Qed.
Lemma after_none {A} (b : bool) (m : gmap Z A) fd x fd' :
  is_Some (m !! fd) -> m !! fd' = None -> (if b then delete fd m else <[fd := x]> m) !! fd' = None.
Proof. intros Hs Hn. rewrite after_other; [done|]. intros ->. rewrite Hn in Hs. by destruct Hs. Qed.

Lemma removed_lookup (b : bool) (l : EventLoop callback) fd fd' :
  callbacks_ (if b then Remove l fd else l) !! fd' = if b && bool_decide (fd = fd') then None else callbacks_ l !! fd'.
Proof.
  destruct b; cbn [andb]; [|done]. unfold Remove. cbn [callbacks_ set_callbacks]. case_bool_decide; simplify_map_eq; done.
Qed.

Lemma on_channel_ok fd ev io (w w' : Worker H) :
  worker_ok w -> on_channel handler_ fd ev io w = Some w' -> worker_ok w' /\ keeps (Some fd) w w'.
Proof.
  intros Hw. unfold on_channel. destruct (channels w !! fd) as [c|] eqn:Hc; [|intros [= <-]; split; [done|apply keeps_refl]].
  pose proof Hw as [O1 O2 O3 O4 O5 O6 O7 O8]. destruct (O1 _ _ Hc) as [Hok Hopen].
  destruct (Channel.HandleEvents _ _ _ _ _ _ _ _ c _) as [[c' h]|] eqn:He; [|done].
  apply HandleEvents_ok in He; [|done]. rewrite Hopen. cbn [negb andb]. intros [= <-].
  assert (is_Some (channels w !! fd)) as Hs by (by rewrite Hc). pose proof (O7 _ Hs) as Hn7.
  split; [split; cbn [w_loop channels http_channels]|split_and!; cbn [w_loop channels http_channels]].
  - intros a x [(-> & Hcl & ->)|[_ Ha]]%after_lookup; eauto.
  - eauto.
  - intros a b. rewrite removed_lookup. destruct (Channel.closed_ c' && bool_decide (fd = a)) eqn:E; [done|].
    intros Hcb. destruct (O3 _ _ Hcb) as [-> Hsa]. split; [done|]. destruct (decide (a = fd)) as [->|Hne].
    + rewrite bool_decide_true, andb_true_r in E by done. rewrite E, lookup_insert_eq. eauto.
    + by rewrite after_other.
  - intros a b. rewrite removed_lookup. destruct (_ && _); [done|]. eauto.
  - intros a [x [(-> & Hcl & ->)|[Hne Ha]]%after_lookup] Hok'; rewrite removed_lookup.
    + rewrite Hcl. cbn [andb]. eauto.
    + rewrite bool_decide_false, andb_false_r by done. eauto.
  - intros a Ha Hok'. rewrite removed_lookup, bool_decide_false, andb_false_r; [eauto|].
    intros ->. rewrite Hn7 in Ha. by destruct Ha.
  - intros a [x [(-> & Hcl & ->)|[Hne Ha]]%after_lookup]; eauto.
  - intros a Ha. destruct (O8 a Ha) as [Hx Hy]. split; [by apply after_none|done].
  - intros a Ha. rewrite removed_lookup, bool_decide_false, andb_false_r; [done|].
    intros ->. destruct (O8 a Ha). congruence.
  - intros a x Hne Ha. rewrite after_other; [done|congruence].
  - done.
Qed.

Lemma on_http_channel_ok fd ev io (w w' : Worker H) :
  worker_ok w -> on_http_channel http_handler_ fd ev io w = Some w' -> worker_ok w' /\ keeps (Some fd) w w'.
Proof.
  intros Hw. unfold on_http_channel.
  destruct (http_channels w !! fd) as [c|] eqn:Hc; [|intros [= <-]; split; [done|apply keeps_refl]].
  pose proof Hw as [O1 O2 O3 O4 O5 O6 O7 O8]. pose proof (O2 _ _ Hc) as Hopen.
  destruct (Http.HandleEvents _ _ _ _ _ _ _ _ c _) as [[c' h]|] eqn:He; [|done].
  rewrite Hopen. cbn [negb andb]. intros [= <-].
  assert (is_Some (http_channels w !! fd)) as Hs by (by rewrite Hc).
  assert (channels w !! fd = None) as Hn7.
  { destruct (channels w !! fd) eqn:E; [|done]. rewrite (O7 fd) in Hs by (by rewrite E). by destruct Hs. }
  split; [split; cbn [w_loop channels http_channels]|split_and!; cbn [w_loop channels http_channels]].
  - eauto.
  - intros a x [(-> & Hcl & ->)|[_ Ha]]%after_lookup; eauto.
  - intros a b. rewrite removed_lookup. destruct (_ && _); [done|]. eauto.
  - intros a b. rewrite removed_lookup. destruct (Http.closed_ c' && bool_decide (fd = a)) eqn:E; [done|].
    intros Hcb. destruct (O4 _ _ Hcb) as [-> Hsa]. split; [done|]. destruct (decide (a = fd)) as [->|Hne].
    + rewrite bool_decide_true, andb_true_r in E by done. rewrite E, lookup_insert_eq. eauto.
    + by rewrite after_other.
  - intros a Ha Hok'. rewrite removed_lookup, bool_decide_false, andb_false_r; [eauto|].
    intros ->. rewrite Hn7 in Ha. by destruct Ha.
  - intros a [x [(-> & Hcl & ->)|[Hne Ha]]%after_lookup] Hok'; rewrite removed_lookup.
    + rewrite Hcl. cbn [andb]. eauto.
    + rewrite bool_decide_false, andb_false_r by done. eauto.
  - intros a Ha. apply after_none; [done|]. eauto.
  - intros a Ha. destruct (O8 a Ha) as [Hx Hy]. split; [done|by apply after_none].
  - intros a Ha. rewrite removed_lookup, bool_decide_false, andb_false_r; [done|].
    intros ->. destruct (O8 a Ha). congruence.
  - done.
  - intros a x Hne Ha. rewrite after_other; [done|congruence].
Qed.

(** The callback registered for [fd] touches no other connection. *)
Lemma call_ok fd cb ev io (w w' : Worker H) :
  worker_ok w -> callbacks_ (w_loop w) !! fd = Some cb ->
  call handler_ http_handler_ alloc add_ok reserved cb ev io w = Some w' -> worker_ok w' /\ keeps (Some fd) w w'.
Proof.
  intros Hw Hcb. assert (forall w w', keeps None w w' -> keeps (Some fd) w w') as Hweak.
  { intros w1 w2 (K1 & K2 & K3). split_and!; [done| |]; intros; [apply K2|apply K3]; done. }
  destruct cb as [| | |a|a]; cbn [call].
  - intros [= <-]. split; [by destruct Hw|by split_and!].
  - intros [= <-]. destruct (accept_loop_ok (add_channel alloc add_ok reserved) (io_accepts io) w) as [H1 H2]; [|done|eauto].
    intros w1 H1. split; [by apply add_channel_ok|apply add_channel_keeps].
  - intros [= <-]. destruct (accept_loop_ok (add_http_channel alloc add_ok reserved) (io_accepts io) w) as [H1 H2]; [|done|eauto].
    intros w1 H1. split; [by apply add_http_channel_ok|apply add_http_channel_keeps].
  - destruct (wo_callback _ Hw _ _ Hcb) as [-> _]. by apply on_channel_ok.
  - destruct (wo_http_callback _ Hw _ _ Hcb) as [-> _]. by apply on_http_channel_ok.
Qed.

Notation dispatch := (dispatch_events (call handler_ http_handler_ alloc add_ok reserved)).

Lemma dispatch_ok events (w w' : Worker H) :
  worker_ok w -> dispatch w events = Some w' ->
  worker_ok w' /\
  (forall fd, fd ∈ reserved -> callbacks_ (w_loop w') !! fd = callbacks_ (w_loop w) !! fd) /\
  (forall fd c, fd ∉ events.*1.*1 -> channels w !! fd = Some c -> channels w' !! fd = Some c) /\
  (forall fd c, fd ∉ events.*1.*1 -> http_channels w !! fd = Some c -> http_channels w' !! fd = Some c).
Proof.
  revert w. induction events as [|[[fd ev] io] events IH]; intros w Hw; cbn [dispatch_events fmap list_fmap fst].
  { intros [= <-]. by split_and!. }
  change (loop_of w) with (w_loop w). destruct (callbacks_ (w_loop w) !! fd) as [cb|] eqn:Hcb.
  - destruct (call _ _ _ _ _ cb ev io w) as [w1|] eqn:Hc; [|done].
    destruct (call_ok fd cb ev io w w1 Hw Hcb Hc) as (H1 & K1 & K2 & K3). intros Hd.
    destruct (IH w1 H1 Hd) as (H2 & L1 & L2 & L3). split_and!; [done| | |].
    + intros a Ha. by rewrite L1, K1.
    + intros a c [Hne Ha]%not_elem_of_cons Hl. apply L2, K2; [done|congruence|done].
    + intros a c [Hne Ha]%not_elem_of_cons Hl. apply L3, K3; [done|congruence|done].
  - intros Hd. destruct (IH w Hw Hd) as (H2 & L1 & L2 & L3). split_and!; [done|done| |];
      intros a c [Hne Ha]%not_elem_of_cons; eauto.
Qed.
End invariant.

(** ** Runs *)

Section runs.
Context {H : Type}.
Context (handler_ : H -> string -> option (H * string)) (http_handler_ : H -> HttpRequest -> H * HttpResponse).
Context (timer_ : Z -> H -> H).
Context (alloc : gset Z -> Z) (add_ok : Z -> bool) (reserved : gset Z).
Context (alloc_fresh : forall X, alloc X ∉ X).
Notation ok := (worker_ok add_ok reserved).
Notation the_call := (call handler_ http_handler_ alloc add_ok reserved).

(** Only the loop's timer and flags changed. *)
Lemma same_tables_ok (w w' : Worker H) :
  callbacks_ (w_loop w') = callbacks_ (w_loop w) -> channels w' = channels w -> http_channels w' = http_channels w ->
  ok w -> ok w'.
Proof. intros H1 H2 H3 [O1 O2 O3 O4 O5 O6 O7 O8]. by split; rewrite ?H1, ?H2, ?H3. Qed.

Lemma run_timer_ok (w w' : Worker H) now :
  ok w -> run_timer (on_timer timer_) w now = Some w' ->
  ok w' /\ callbacks_ (w_loop w') = callbacks_ (w_loop w).
Proof.
  intros Hw. unfold run_timer. destruct (_ && _); [|by intros [= <-]]. unfold on_timer. intros [= <-].
  split; [|done]. by apply (same_tables_ok w).
Qed.

Lemma run_rounds_ok rounds (w w' : Worker H) :
  ok w -> run_rounds the_call (on_timer timer_) w rounds = inl (Some w') ->
  ok w' /\ forall fd, fd ∈ reserved -> callbacks_ (w_loop w') !! fd = callbacks_ (w_loop w) !! fd.
Proof.
  revert w. induction rounds as [|[[now epoll] after] rounds IH]; intros w Hw; cbn [run_rounds];
    (destruct (running_ (loop_of w)); [|by intros [= <-]]); [by intros [= <-]|].
  unfold RunOnce. destruct (epoll _) as [events| |]; [|by apply IH|done].
  destruct (dispatch_events the_call w events) as [w1|] eqn:Hd; [|done].
  destruct (dispatch_ok handler_ http_handler_ alloc add_ok reserved alloc_fresh events w w1 Hw Hd) as (H1 & K1 & _).
  destruct (run_timer (on_timer timer_) w1 after) as [w2|] eqn:Ht; [|done].
  destruct (run_timer_ok w1 w2 after H1 Ht) as [H2 K2]. intros Hr. destruct (IH w2 H2 Hr) as [H3 K3].
  split; [done|]. intros fd Hfd. by rewrite K3, K2, K1.
Qed.

(** No connection is registered. *)
Definition quiet (l : EventLoop callback) : Prop :=
  forall a cb, callbacks_ l !! a = Some cb ->
    match cb with CB_Channel _ | CB_HttpChannel _ => False | _ => True end.

Lemma quiet_add (b : bool) l fd cb :
  match cb with CB_Channel _ | CB_HttpChannel _ => False | _ => True end -> quiet l -> quiet (Add b l fd cb).
Proof. intros Hcb Hl a x. rewrite add_lookup. destruct (_ && _); [by intros [= <-]|apply Hl]. Qed.

Lemma start_worker_ok l worker_id interval now server_fd http_fd next (h : H) :
  quiet l -> ok (start_worker add_ok l worker_id interval now server_fd http_fd next h).
Proof.
  intros Hl. assert (quiet (w_loop (start_worker add_ok l worker_id interval now server_fd http_fd next h))) as Hq.
  { unfold start_worker. cbn [w_loop].
    set (l1 := if (worker_id =? 0) && (0 <=? interval) then _ else l).
    assert (quiet l1) as H1 by (unfold l1, SetPeriodicTimer; destruct (_ && _); [destruct (_ || _)|]; exact Hl).
    destruct http_fd; by repeat apply quiet_add. }
  split; cbn [channels http_channels start_worker].
  - intros fd c Hc. by rewrite lookup_empty in Hc.
  - intros fd c Hc. by rewrite lookup_empty in Hc.
  - intros fd fd' Hc. by apply Hq in Hc.
  - intros fd fd' Hc. by apply Hq in Hc.
  - intros fd [c Hc]. by rewrite lookup_empty in Hc.
  - intros fd [c Hc]. by rewrite lookup_empty in Hc.
  - intros fd [c Hc]. by rewrite lookup_empty in Hc.
  - intros fd _. by rewrite !lookup_empty.
Qed.
End runs.

(** The loop of a worker, with its wake-up descriptor. *)
Definition worker_event_loop (wakeup : option Z) : EventLoop callback := NewLoop ((fun fd => (fd, CB_Wakeup)) <$> wakeup).
Lemma worker_event_loop_quiet wakeup : quiet (worker_event_loop wakeup).
Proof. intros a cb. destruct wakeup as [fd|]; cbn; [|done]. by intros [_ <-]%lookup_singleton_Some. Qed.

(** The tables of a worker stay consistent.  Whatever the clients send, however
    the sockets answer, whatever the handlers and the timer do, in every state a
    worker reaches from its start: every connection in the table is open and has a
    sound queue, every registered connection callback belongs to a connection of the
    table under its own descriptor, every connection whose registration succeeded
    still has its callback, no descriptor is both a binary and an HTTP connection, and
    the callbacks of the listening sockets are untouched.  The one thing assumed of
    the system is that [accept] answers a descriptor that is not in use. *)
Theorem worker_invariant {H} (handler_ : H -> string -> option (H * string)) http_handler_ timer_
    alloc add_ok reserved wakeup worker_id interval now server_fd http_fd next h rounds (w : Worker H) :
  (forall X : gset Z, alloc X ∉ X) ->
  RunWorkerLoop handler_ http_handler_ timer_ alloc add_ok reserved (worker_event_loop wakeup) worker_id interval
    now server_fd http_fd next h rounds = inl (Some w) ->
  worker_ok add_ok reserved w /\
  forall fd, fd ∈ reserved ->
    callbacks_ (w_loop w) !! fd =
    callbacks_ (w_loop (start_worker add_ok (worker_event_loop wakeup) worker_id interval now server_fd http_fd next h)) !! fd.
Proof.
  intros Hfresh. unfold RunWorkerLoop, Run. intros Hr.
  apply (run_rounds_ok _ _ _ _ _ _ Hfresh) in Hr; [exact Hr|].
  eapply same_tables_ok; [..|apply (start_worker_ok add_ok reserved (worker_event_loop wakeup) worker_id interval now server_fd http_fd next h),
    worker_event_loop_quiet]; done.
Qed.

(** C20: Connections do not disturb each other.  In any state with consistent tables, a
    batch of events that has none for the connection [fd], whatever those events make
    of the other connections (requests served, connections accepted and closed),
    leaves the channel of [fd] exactly as it was, its queue, decoder and streams
    included. *)
Theorem connections_isolated {H} (handler_ : H -> string -> option (H * string)) http_handler_
    alloc add_ok reserved events (w w' : Worker H) fd :
  (forall X : gset Z, alloc X ∉ X) -> worker_ok add_ok reserved w ->
  dispatch_events (call handler_ http_handler_ alloc add_ok reserved) w events = Some w' ->
  fd ∉ events.*1.*1 ->
  (forall c, channels w !! fd = Some c -> channels w' !! fd = Some c) /\
  (forall c, http_channels w !! fd = Some c -> http_channels w' !! fd = Some c).
Proof.
  intros Hfresh Hw Hd Hfd.
  destruct (dispatch_ok handler_ http_handler_ alloc add_ok reserved Hfresh events w w' Hw Hd) as (_ & _ & K2 & K3).
  split; intros c; [by apply K2|by apply K3].
Qed.

(** ** Witnesses: a worker with two connections *)

(** The next descriptor above those in use. *)
Definition next_fd (X : gset Z) : Z := foldr Z.max 0 (elements X) + 1.
Lemma next_fd_fresh X : next_fd X ∉ X.
Proof.
  intros Hin. apply elem_of_elements in Hin. unfold next_fd in Hin. revert Hin. generalize (elements X). intros l.
  assert (forall x, x ∈ l -> x <= foldr Z.max 0 l) as Hm.
  { induction l as [|y l IH]; [set_solver|]. cbn [foldr]. intros x [->|Hx]%elem_of_cons; [lia|].
    specialize (IH x Hx). lia. }
  intros Hin%Hm. lia.
Qed.

Definition sample_io (accepts : list accept_result) (reads : list recv_result) : Io :=
  mkIo accepts reads slow_socket (fun _ => 0) 5 5 (fun _ _ => Again) [].
Definition sample_reserved : gset Z := {[3; 4; 5]}.
Definition sample_http (n : nat) (r : HttpRequest) : nat * HttpResponse :=
  (S n, mkHttpResponse 200 "OK" [] (req_body r)).
Definition sample_rounds : list (round (IO := Io)) :=
  [(10, fun _ => EpollEvents [(4, 1, sample_io [Accepted; AcceptIntr; Accepted] [])], 20);
   (30, fun _ => EpollIntr, 30);
   (40, fun _ => EpollEvents [(6, 1, sample_io [] [Received two_requests]); (7, 1, sample_io [] [RecvEof])], 50)].
Definition sample_worker (rounds : list (round (IO := Io))) : option (Worker nat) + string :=
  RunWorkerLoop counting_echo sample_http (fun _ n => n) next_fd (fun _ => true) sample_reserved
    (worker_event_loop (Some 3)) 0 1000 0 4 (Some 5) 1 0%nat rounds.

Definition sample_worker_end (rounds : list (round (IO := Io))) : Worker nat :=
  match sample_worker rounds with
  | inl (Some w) => w
  | _ => start_worker (fun _ => true) (worker_event_loop None) 0 (-1) 0 4 None 1 0%nat
  end.

Lemma worker_invariant_witness :
  let w := sample_worker_end sample_rounds in
  w_state w = 2%nat /\ bool_decide (dom (channels w) = {[6]}) = true /\ worker_ok (fun _ => true) sample_reserved w.
Proof.
  cbv zeta. split; [by vm_compute|]. split; [by vm_compute|].
  apply (worker_invariant counting_echo sample_http (fun _ n => n) next_fd (fun _ => true) sample_reserved (Some 3)
    0 1000 0 4 (Some 5) 1 0%nat sample_rounds); [apply next_fd_fresh|]. by vm_compute.
Defined.

(** After the first round both connections are open. *)
Definition two_connections : Worker nat := sample_worker_end (take 1 sample_rounds).
Lemma two_connections_ok : worker_ok (fun _ => true) sample_reserved two_connections.
Proof.
  pose proof (run_rounds_ok counting_echo sample_http (fun _ n => n) next_fd (fun _ => true) sample_reserved
    next_fd_fresh (take 1 sample_rounds)
    (set_loop (start_worker (fun _ => true) (worker_event_loop (Some 3)) 0 1000 0 4 (Some 5) 1 0%nat)
       (set_running (w_loop (start_worker (fun _ => true) (worker_event_loop (Some 3)) 0 1000 0 4 (Some 5) 1 0%nat)) true))
    two_connections) as Hr.
  apply Hr; [|by vm_compute].
  eapply same_tables_ok; [..|apply (start_worker_ok (fun _ => true) sample_reserved (worker_event_loop (Some 3)) 0 1000 0 4
    (Some 5) 1 0%nat), worker_event_loop_quiet]; done.
Qed.

Lemma connections_isolated_witness :
  exists w', dispatch_events (call counting_echo sample_http next_fd (fun _ => true) sample_reserved) two_connections
      [(7, 1, sample_io [] [Received two_requests; RecvEof])] = Some w' /\
    channels two_connections !! 6 = Some Channel.new_channel /\ channels w' !! 6 = Some Channel.new_channel.
Proof.
  destruct (dispatch_events (call counting_echo sample_http next_fd (fun _ => true) sample_reserved) two_connections
      [(7, 1, sample_io [] [Received two_requests; RecvEof])]) as [w'|] eqn:Hd; [|by vm_compute in Hd].
  exists w'. split; [reflexivity|]. assert (channels two_connections !! 6 = Some Channel.new_channel) as H6 by (by vm_compute).
  split; [exact H6|].
  apply (connections_isolated counting_echo sample_http next_fd (fun _ => true) sample_reserved
    [(7, 1, sample_io [] [Received two_requests; RecvEof])] two_connections w' 6 next_fd_fresh two_connections_ok Hd);
    [|exact H6].
  cbn. set_solver.
Defined.
