(* ===== verification/ClientSpec.v ===== *)
(** * What the client shows

    The text the client renders from the server's answer, against the results of
    the store; the request it builds from a body; and the whole way from the client
    through a connection to the store and back. *)
From S2P Require Import Prelude CStd Entry Store MemoryStore KvTrace Json Command Frame Decoder Streams Codec Processor Replay Socket Channel Http Client.
Import JsonReader.

Definition opcode_of_request (r : BinaryRequest) : BinaryOpcode :=
  match r with
  | RPing => Op_Ping | RGet _ => Op_Get | RSet _ _ _ _ => Op_Set | RDel _ => Op_Del
  | RExists _ => Op_Exists | RType _ => Op_Type | RExpire _ _ => Op_Expire | RTtl _ => Op_Ttl
  | RIncr _ _ _ => Op_Incr | RRateLimit _ _ _ _ => Op_RateLimit | RQuotaInit _ _ => Op_QuotaInit
  | RQuotaGet _ => Op_QuotaGet | RReserve _ _ _ => Op_Reserve | RCommit _ _ _ => Op_Commit
  | RRollback _ _ => Op_Rollback | RIdemBegin _ _ _ _ => Op_IdemBegin
  | RIdemComplete _ _ _ _ => Op_IdemComplete | RIdemFail _ _ _ => Op_IdemFail
  end.

(** ** The text of a store result *)

Section shown.
Context {S : Type} `{!Store S}.
Context (now : Z).

Definition failed_text : string := "(error) ERR_EXECUTION_FAILED".
Definition bool_integer (b : bool) : string := integer (if b then 1 else 0).
Definition action_name (a : IdempotencyAction) : string :=
  match a with IA_Execute => "EXECUTE" | IA_Park => "PARK" | IA_Replay => "REPLAY" | IA_Conflict => "CONFLICT" end.

Definition shown (st : S) (r : BinaryRequest) : string :=
  match r with
  | RPing => "PONG"
  | RGet k => match (Get now st k).2 with Some v => QuoteJson v | None => "(nil)" end
  | RSet k v c t => if (Set_ now st k v (write_condition c) t).2 then "OK" else "(nil)"
  | RDel k => bool_integer (Del st k).2
  | RExists k => bool_integer (Exists now st k).2
  | RType k => if bool_decide ((Type_ now st k).2 = DT_String) then "string" else "none"
  | RExpire k t => bool_integer (Expire now st k t).2
  | RTtl k => integer (Ttl now st k).2
  | RIncr k d t => let res := (IncrBy now st k d t).2 in if ir_ok res then integer (ir_value res) else failed_text
  | RRateLimit k l w c =>
      let res := (RateLimit now st k l w c).2 in
      if rr_ok res then
        "allowed=" +:+ flag_text (rr_allowed res) +:+ " remaining=" +:+ to_string (rr_remaining res) +:+
        " retry_after_ms=" +:+ to_string (rr_retry_after_ms res)
      else failed_text
  | RQuotaInit _ _ => "OK"
  | RQuotaGet k =>
      integer (match (Get now st k).2 with
               | Some v => match stoull v with Some (b, _) => b | None => 0 end
               | None => 0
               end)
  | RReserve k a t =>
      let res := (ReserveQuota now st k a t).2 in
      if rv_ok res then
        "reserved=" +:+ flag_text (rv_reserved res) +:+ " reservation_id=" +:+
        QuoteJson (rv_reservation_id res) +:+ " remaining=" +:+ to_string (rv_remaining res)
      else failed_text
  | RCommit k i a =>
      let res := (CommitQuota now st k i a).2 in
      if cr_ok res then
        "committed=1 refunded=" +:+ to_string (cr_refunded res) +:+ " remaining=" +:+ to_string (cr_remaining res)
      else failed_text
  | RRollback k i =>
      let res := (RollbackQuota now st k i).2 in
      if rb_ok res then
        "rolled_back=1 refunded=" +:+ to_string (rb_refunded res) +:+ " remaining=" +:+
        to_string (rb_remaining res)
      else failed_text
  | RIdemBegin k h t o =>
      let res := (IdemBegin now st k h t o).2 in
      if ib_ok res then
        "action=" +:+ action_name (ib_action res) +:+ " owner_token=" +:+ QuoteJson (ib_owner_token res)
      else if bool_decide (ib_action res = IA_Conflict) then "(error) ERR_IDEMPOTENCY_CONFLICT"
      else failed_text
  | RIdemComplete k o c b => if ic_ok (IdemComplete now st k o c b).2 then "completed=1" else failed_text
  | RIdemFail k o m => if if_ok (IdemFail now st k o m).2 then "failed=1" else failed_text
  end.

(** The result fits the fields of the response. *)
Definition fits (st : S) (r : BinaryRequest) : Prop :=
  match r with
  | RGet k => match (Get now st k).2 with Some v => slen v < 2 ^ 32 - 5 | None => True end
  | RTtl k => is_i64 (Ttl now st k).2
  | RIncr k d t => is_i64 (ir_value (IncrBy now st k d t).2)
  | RRateLimit k l w c =>
      let res := (RateLimit now st k l w c).2 in is_u64 (rr_remaining res) /\ is_u64 (rr_retry_after_ms res)
  | RReserve k a t =>
      let res := (ReserveQuota now st k a t).2 in is_u64 (rv_remaining res) /\ short (rv_reservation_id res)
  | RCommit k i a =>
      let res := (CommitQuota now st k i a).2 in is_u64 (cr_refunded res) /\ is_u64 (cr_remaining res)
  | RRollback k i =>
      let res := (RollbackQuota now st k i).2 in is_u64 (rb_refunded res) /\ is_u64 (rb_remaining res)
  | RIdemBegin k h t o => short (ib_owner_token (IdemBegin now st k h t o).2)
  | _ => True
  end.

Lemma decode_ok op rest :
  DecodeBinaryResponseToText op (status_byte St_Ok +:+ rest) = decode_switch op (status_byte St_Ok +:+ rest).
Proof. reflexivity. Qed.

Lemma decode_error op : DecodeBinaryResponseToText op (status_byte St_Error) = failed_text.
Proof. reflexivity. Qed.

Lemma num_at_be off n z resp pre rest :
  resp = pre +:+ be n z +:+ rest -> String.length pre = off -> 0 <= z < 2 ^ (8 * Z.of_nat n) ->
  num_at off n resp = z.
Proof.
  intros -> <- Hz. unfold num_at, bytes_at. rewrite str_drop_app by done.
  rewrite str_take_app by (by rewrite be_length). by apply be_val_id.
Qed.

Lemma substr_at off s resp pre rest n :
  resp = pre +:+ s +:+ rest -> String.length pre = off -> n = slen s -> substr off n resp = s.
Proof.
  intros -> <- ->. unfold substr, slen. rewrite Nat2Z.id, str_drop_app by done. by apply str_take_app.
Qed.

Lemma slen_status c : slen (status_byte c) = 1.
Proof. apply slen_be. Qed.
Lemma slen_flag b : slen (flag_byte b) = 1.
Proof. apply slen_be. Qed.

(** The tests on the length of a response with all its fields. *)
Ltac long_enough :=
  match goal with |- context [slen ?s <? ?n] =>
    rewrite (proj2 (Z.ltb_ge (slen s) n)) by (try unfold s; rewrite ?slen_app, ?slen_status, ?slen_flag, ?slen_be; lia) end.
(** A number of a fixed-width answer, whose offset is computed. *)
Ltac field_value := apply be_val_id; cbn; lia.

Lemma flag_value b : num_at 1 1 (status_byte St_Ok +:+ flag_byte b) = if b then 1 else 0.
Proof. by destruct b. Qed.

Lemma shows_flag op b :
  op = Op_Del \/ op = Op_Exists \/ op = Op_Expire ->
  DecodeBinaryResponseToText op (status_byte St_Ok +:+ flag_byte b) = bool_integer b.
Proof. intros [->|[->| ->]]; by destruct b. Qed.

Lemma shows_value v :
  slen v < 2 ^ 32 - 5 -> DecodeBinaryResponseToText Op_Get (status_byte St_Ok +:+ field32 v) = QuoteJson v.
Proof.
  intros Hv. rewrite decode_ok. unfold decode_switch. pose proof (slen_nonneg v).
  unfold field32. rewrite u32_id by lia. set (resp := status_byte St_Ok +:+ be 4 (slen v) +:+ v).
  assert (slen resp = 5 + slen v) as Hl by (unfold resp; rewrite !slen_app, slen_status, slen_be; lia).
  assert (num_at 1 4 resp = slen v) as Hn.
  { apply (num_at_be 1 4 _ _ (status_byte St_Ok) v); [done|done|cbn; lia]. }
  rewrite Hl, Hn, u32_id by lia. rewrite !(proj2 (Z.ltb_ge _ _)) by lia.
  f_equal. apply (substr_at _ _ _ (status_byte St_Ok +:+ be 4 (slen v)) ""); [|done|done].
  by rewrite str_app_nil_r, str_app_assoc.
Qed.

Lemma shows_ttl op z :
  op = Op_Ttl \/ op = Op_Incr -> is_i64 z ->
  DecodeBinaryResponseToText op (status_byte St_Ok +:+ be 8 (u64 z)) = integer z.
Proof.
  intros Hop Hz. rewrite decode_ok. pose proof (u64_range z).
  assert (num_at 1 8 (status_byte St_Ok +:+ be 8 (u64 z)) = u64 z) as Hn.
  { apply (num_at_be 1 8 _ _ (status_byte St_Ok) ""); [by rewrite str_app_nil_r|done|cbn; lia]. }
  destruct Hop as [->| ->]; unfold decode_switch; rewrite Hn, i64_u64 by done; long_enough; done.
Qed.

Lemma shows_pair op b x y text :
  is_u64 x -> is_u64 y ->
  (op = Op_RateLimit /\ text = "allowed=" +:+ flag_text b +:+ " remaining=" +:+ to_string x +:+
                               " retry_after_ms=" +:+ to_string y \/
   op = Op_Commit /\ text = "committed=1 refunded=" +:+ to_string x +:+ " remaining=" +:+ to_string y \/
   op = Op_Rollback /\ text = "rolled_back=1 refunded=" +:+ to_string x +:+ " remaining=" +:+ to_string y) ->
  DecodeBinaryResponseToText op (status_byte St_Ok +:+ flag_byte b +:+ be 8 x +:+ be 8 y) = text.
Proof.
  intros Hx Hy Hop. rewrite decode_ok. set (resp := status_byte St_Ok +:+ _).
  assert (num_at 2 8 resp = x) as H1.
  { apply (num_at_be 2 8 _ _ (status_byte St_Ok +:+ flag_byte b) (be 8 y)); [by rewrite str_app_assoc|done|cbn; lia]. }
  assert (num_at 10 8 resp = y) as H2.
  { apply (num_at_be 10 8 _ _ (status_byte St_Ok +:+ flag_byte b +:+ be 8 x) "");
      [by rewrite str_app_nil_r, !str_app_assoc|done|cbn; lia]. }
  assert (num_at 1 1 resp = if b then 1 else 0) as H3 by (by destruct b).
  destruct Hop as [[-> ->]|[[-> ->]|[-> ->]]]; unfold decode_switch; rewrite ?H1, ?H2, ?H3; long_enough; [|done..].
  by destruct b.
Qed.

Lemma shows_reserve b x i :
  is_u64 x -> short i ->
  DecodeBinaryResponseToText Op_Reserve (status_byte St_Ok +:+ flag_byte b +:+ be 8 x +:+ field16 i) =
  "reserved=" +:+ flag_text b +:+ " reservation_id=" +:+ QuoteJson i +:+ " remaining=" +:+ to_string x.
Proof.
  intros Hx Hi. rewrite decode_ok. unfold field16. pose proof (slen_nonneg i). unfold short in Hi.
  rewrite u16_id by lia. set (resp := status_byte St_Ok +:+ _).
  assert (slen resp = 12 + slen i) as Hl by (unfold resp; rewrite !slen_app, slen_status, ?slen_flag, !slen_be; lia).
  assert (num_at 2 8 resp = x) as H1.
  { apply (num_at_be 2 8 _ _ (status_byte St_Ok +:+ flag_byte b) (be 2 (slen i) +:+ i)); [by rewrite str_app_assoc|done|cbn; lia]. }
  assert (num_at 10 2 resp = slen i) as H2.
  { apply (num_at_be 10 2 _ _ (status_byte St_Ok +:+ flag_byte b +:+ be 8 x) i);
      [by rewrite !str_app_assoc|done|cbn; lia]. }
  assert (substr 12 (slen i) resp = i) as H3.
  { apply (substr_at _ _ _ (status_byte St_Ok +:+ flag_byte b +:+ be 8 x +:+ be 2 (slen i)) "");
      [by rewrite str_app_nil_r, !str_app_assoc|done|done]. }
  assert (num_at 1 1 resp = if b then 1 else 0) as H4 by (by destruct b).
  unfold decode_switch. rewrite H1, H2, H3, H4, Hl. rewrite (proj2 (Z.ltb_ge _ _)) by lia.
  rewrite Z.leb_refl. by destruct b.
Qed.

Lemma shows_begin a o rest :
  short o ->
  DecodeBinaryResponseToText Op_IdemBegin (status_byte St_Ok +:+ be 1 (action_byte a) +:+ field16 o +:+ rest) =
  "action=" +:+ action_name a +:+ " owner_token=" +:+ QuoteJson o.
Proof.
  intros Ho. rewrite decode_ok. pose proof (slen_nonneg o). pose proof (slen_nonneg rest).
  rewrite field16_app by done. unfold short in Ho. set (resp := status_byte St_Ok +:+ _).
  assert (slen resp = 4 + slen o + slen rest) as Hl by (unfold resp; rewrite !slen_app, slen_status, ?slen_flag, !slen_be; lia).
  assert (num_at 2 2 resp = slen o) as H1.
  { apply (num_at_be 2 2 _ _ (status_byte St_Ok +:+ be 1 (action_byte a)) (o +:+ rest));
      [by rewrite str_app_assoc|done|cbn; lia]. }
  assert (substr 4 (slen o) resp = o) as H2.
  { apply (substr_at _ _ _ (status_byte St_Ok +:+ be 1 (action_byte a) +:+ be 2 (slen o)) rest);
      [by rewrite !str_app_assoc|done|done]. }
  assert (num_at 1 1 resp = action_byte a) as H3 by (by destruct a).
  unfold decode_switch. rewrite H1, H2, H3, Hl. rewrite (proj2 (Z.ltb_ge _ _)) by lia.
  rewrite (proj2 (Z.leb_le _ _)) by lia. by destruct a.
Qed.

Lemma client_shows aof st r :
  fits st r -> DecodeBinaryResponseToText (opcode_of_request r) (serve now aof st r).2 = shown st r.
Proof.
  intros Hf. destruct r; cbn [opcode_of_request serve fits shown] in *.
  - done.
  - unfold serve_Get. destruct (Get now st key) as [st1 [v|]]; cbn [snd] in *; [by apply shows_value|done].
  - unfold serve_Set. by destruct (Set_ now st key val _ ttl_ms) as [st1 []].
  - unfold serve_Del. destruct (Del st key) as [st1 b]. apply shows_flag. by left.
  - unfold serve_Exists. destruct (Exists now st key) as [st1 b]. apply shows_flag. by right; left.
  - unfold serve_Type. destruct (Type_ now st key) as [st1 ty]. cbn [snd]. by destruct (bool_decide _).
  - unfold serve_Expire. destruct (Expire now st key ttl_ms) as [st1 b]. apply shows_flag. by right; right.
  - unfold serve_Ttl. destruct (Ttl now st key) as [st1 z]. apply shows_ttl; [by left|done].
  - unfold serve_Incr. destruct (IncrBy now st key delta init_ttl_ms) as [st1 res]. cbn [snd] in *.
    destruct (ir_ok res); cbn [negb]; [apply shows_ttl; [by right|done]|done].
  - unfold serve_RateLimit. destruct (RateLimit now st key limit window_ms cost) as [st1 res]. cbn [snd] in *.
    destruct (rr_ok res); cbn [negb snd]; [|done]. apply shows_pair; [tauto..|]. by left.
  - unfold serve_QuotaInit. by destruct (Set_ now st key _ Always 0).
  - unfold serve_QuotaGet. destruct (Get now st key) as [st1 val]. cbn [snd].
    set (b := match val with Some v => _ | None => 0 end).
    assert (is_u64 b) as Hb.
    { unfold b. destruct val as [v|]; [|lia]. destruct (stoull v) as [[n ?]|] eqn:Hn; [|lia].
      by apply stoull_range in Hn. }
    rewrite decode_ok. unfold decode_switch.
    rewrite (num_at_be 1 8 b _ (status_byte St_Ok) "") by (first [by rewrite str_app_nil_r|done|cbn; lia]).
    long_enough. done.
  - unfold serve_Reserve. destruct (ReserveQuota now st key amount ttl_ms) as [st1 res]. cbn [snd] in *.
    destruct (rv_ok res); cbn [negb snd]; [|done]. apply shows_reserve; tauto.
  - unfold serve_Commit. destruct (CommitQuota now st key res_id actual_amount) as [st1 res]. cbn [snd] in *.
    destruct (cr_ok res); cbn [negb snd]; [|done]. apply shows_pair; [tauto..|]. by right; left.
  - unfold serve_Rollback. destruct (RollbackQuota now st key res_id) as [st1 res]. cbn [snd] in *.
    destruct (rb_ok res); cbn [negb snd]; [|done]. apply shows_pair; [tauto..|]. by right; right.
  - unfold serve_IdemBegin. destruct (IdemBegin now st key request_hash ttl_ms owner_token) as [st1 res].
    cbn [snd] in *. destruct (ib_ok res); cbn [negb snd]; [by apply shows_begin|].
    by destruct (bool_decide _).
  - unfold serve_IdemComplete. destruct (IdemComplete now st key owner_token code body) as [st1 res].
    by destruct (ic_ok res) eqn:E; cbn [snd negb]; rewrite ?E.
  - unfold serve_IdemFail. destruct (IdemFail now st key owner_token err_msg) as [st1 res].
    by destruct (if_ok res) eqn:E; cbn [snd negb]; rewrite ?E.
Qed.
End shown.

(** The client looks at neither the type of the frame nor the status of an unknown
    payload: the JSON text of an error frame counts as a stored value. *)
Lemma error_frame_shown_as_success rest :
  DecodeBinaryResponseToText Op_Set (String (byte_of_Z 123) rest) = "OK".
Proof. reflexivity. Qed.
