(* ===== verification/Cli.v ===== *)
(** * The command line client (cli/registry.cpp, cli/app.cpp, cli/command.h)

    A command line is split into a name and arguments; the handler of the name
    answers at once, asks the server for an operation with a JSON body, or prints
    the help text.  [commands_] is a [std::map]: the list of its entries in the order
    of the names.  The executor of requests is a parameter: a function of its own
    state, which answers a response or throws a message; [None]: it does not return. *)
From S2P Require Import Prelude CStd Json Command Dispatcher Aof Http Format Suggest.

(** ** Handlers *)

Inductive answer := Local (r : Result) | Remote (operation body : string) | Help.
Definition Handler : Type := list string -> answer.
Record CliEntry := mkCliEntry { description : string; handler : Handler }.

Definition usage (text : string) : answer := Local (error_result ("INVALID_ARGUMENTS: " +:+ text)).

Definition WithoutArguments (h : Handler) : Handler := fun arguments =>
  match arguments with
  | [] => h arguments
  | _ => Local (error_result "INVALID_ARGUMENTS: command takes no arguments")
  end.

(** [{"key":...] *)
Definition key_open (key : string) : string := jq "{'key':" +:+ QuoteJson key.

(** A command with one key: GET, INCR, DECR, TYPE, TTL, PTTL, PERSIST,
    GK.QUOTA_GET, GK.IDEM_GET. *)
Definition key_command (operation : string) : Handler := fun args =>
  match args with
  | [key] => if is_nil key then usage (operation +:+ " key") else Remote operation (key_open key +:+ "}")
  | _ => usage (operation +:+ " key")
  end.

(** The flags of SET: the body, or the message. *)
Fixpoint set_flags (args : list string) (body : string) (has_cond has_ttl : bool) : string + string :=
  match args with
  | [] => inl body
  | arg :: args =>
      let flag := NormalizeName arg in
      let syntax := inr "INVALID_ARGUMENTS: syntax error in SET" in
      if (bool_decide (flag = "NX") || bool_decide (flag = "XX")) && negb has_cond then
        set_flags args (body +:+ (if bool_decide (flag = "NX") then jq ",'if_not_exists':true"
                                  else jq ",'if_exists':true")) true has_ttl
      else
        match args with
        | value :: args =>
            if bool_decide (flag = "EX") && negb has_ttl then
              match stoull value with
              | Some (sec, _) =>
                  set_flags args (body +:+ jq ",'ttl_ms':" +:+ to_string (u64 (sec * 1000))) has_cond true
              | None => inr "INVALID_ARGUMENTS: invalid EX value"
              end
            else if bool_decide (flag = "PX") && negb has_ttl then
              match stoull value with
              | Some (ms, _) => set_flags args (body +:+ jq ",'ttl_ms':" +:+ to_string ms) has_cond true
              | None => inr "INVALID_ARGUMENTS: invalid PX value"
              end
            else syntax
        | [] => syntax
        end
  end.

Definition set_usage : string := "SET key value [NX|XX] [EX seconds|PX milliseconds]".
Definition cli_SET : Handler := fun args =>
  match args with
  | key :: value :: flags =>
      if is_nil key then usage set_usage
      else match set_flags flags (key_open key +:+ jq ",'value':" +:+ QuoteJson value) false false with
           | inl body => Remote "SET" (body +:+ "}")
           | inr message => Local (error_result message)
           end
  | _ => usage set_usage
  end.

Definition incrby_usage : string := "INCRBY key delta [EX seconds|PX milliseconds]".
Definition cli_INCRBY : Handler := fun args =>
  match args with
  | key :: delta :: rest =>
      if is_nil key || is_nil delta then usage incrby_usage
      else
        let body := key_open key +:+ jq ",'delta':" +:+ delta in
        let body := match rest with
                    | flag :: ttl :: _ =>
                        let flag := NormalizeName flag in
                        if bool_decide (flag = "EX") then body +:+ jq ",'ttl_seconds':" +:+ ttl
                        else if bool_decide (flag = "PX") then body +:+ jq ",'ttl_ms':" +:+ ttl else body
                    | _ => body
                    end in
        Remote "INCRBY" (body +:+ "}")
  | _ => usage incrby_usage
  end.

(** A key and two arguments of which the texts [f2] and [f3] make JSON fields. *)
Definition three_arguments (operation use : string) (f2 f3 : string -> string) : Handler := fun args =>
  match args with
  | [key; x; y] =>
      if is_nil key || is_nil x || is_nil y then usage use
      else Remote operation (key_open key +:+ f2 x +:+ f3 y +:+ "}")
  | _ => usage use
  end.
Definition two_arguments (operation use : string) (f2 : string -> string) : Handler := fun args =>
  match args with
  | [key; x] =>
      if is_nil key || is_nil x then usage use else Remote operation (key_open key +:+ f2 x +:+ "}")
  | _ => usage use
  end.
(** [,"name":text] and [,"name":"text"] *)
Definition raw_field (name : string) (text : string) : string := jq (",'" +:+ name +:+ "':") +:+ text.
Definition quoted_field (name : string) (text : string) : string := jq (",'" +:+ name +:+ "':") +:+ QuoteJson text.

Definition cli_RATE_LIMIT : Handler :=
  three_arguments "GK.RATE_LIMIT" "GK.RATE_LIMIT key limit window_ms" (raw_field "limit") (raw_field "window_ms").
Definition cli_RESERVE : Handler :=
  three_arguments "GK.RESERVE" "GK.RESERVE key amount ttl_ms" (raw_field "amount") (raw_field "ttl_ms").
Definition cli_COMMIT : Handler :=
  three_arguments "GK.COMMIT" "GK.COMMIT key reservation_id actual_amount" (quoted_field "reservation_id")
    (raw_field "actual_amount").
Definition cli_ROLLBACK : Handler :=
  two_arguments "GK.ROLLBACK" "GK.ROLLBACK key reservation_id" (quoted_field "reservation_id").
Definition cli_QUOTA_INIT : Handler :=
  two_arguments "GK.QUOTA_INIT" "GK.QUOTA_INIT key amount" (raw_field "amount").
Definition cli_EXPIRE : Handler := two_arguments "EXPIRE" "EXPIRE key seconds" (raw_field "ttl_seconds").
Definition cli_PEXPIRE : Handler := two_arguments "PEXPIRE" "PEXPIRE key milliseconds" (raw_field "ttl_ms").

Definition begin_usage : string := "GK.IDEM_BEGIN key request_hash [ttl_ms] [owner_token]".
Definition cli_IDEM_BEGIN : Handler := fun args =>
  match args with
  | key :: hash :: rest =>
      if is_nil key || is_nil hash then usage begin_usage
      else
        let body := key_open key +:+ quoted_field "request_hash" hash in
        let body := match rest with
                    | ttl :: _ => if is_nil ttl then body else body +:+ raw_field "ttl_ms" ttl
                    | [] => body
                    end in
        let body := match rest with
                    | _ :: token :: _ => if is_nil token then body else body +:+ quoted_field "owner_token" token
                    | _ => body
                    end in
        Remote "GK.IDEM_BEGIN" (body +:+ "}")
  | _ => usage begin_usage
  end.

Definition complete_usage : string := "GK.IDEM_COMPLETE key owner_token response_code [response_body]".
Definition cli_IDEM_COMPLETE : Handler := fun args =>
  match args with
  | key :: token :: code :: rest =>
      if is_nil key || is_nil token || is_nil code then usage complete_usage
      else
        let body := key_open key +:+ quoted_field "owner_token" token +:+ raw_field "response_code" code in
        let body := match rest with
                    | response :: _ => body +:+ quoted_field "response_body" response
                    | [] => body
                    end in
        Remote "GK.IDEM_COMPLETE" (body +:+ "}")
  | _ => usage complete_usage
  end.

Definition fail_usage : string := "GK.IDEM_FAIL key owner_token [error_message]".
Definition cli_IDEM_FAIL : Handler := fun args =>
  match args with
  | key :: token :: rest =>
      if is_nil key || is_nil token then usage fail_usage
      else
        let body := key_open key +:+ quoted_field "owner_token" token in
        let body := match rest with
                    | message :: _ => body +:+ quoted_field "error_message" message
                    | [] => body
                    end in
        Remote "GK.IDEM_FAIL" (body +:+ "}")
  | _ => usage fail_usage
  end.

(** DEL and EXISTS: [{"keys":[...]}]. *)
Fixpoint quoted_keys (first : bool) (args : list string) : string :=
  match args with
  | [] => ""
  | arg :: args => (if first then "" else ",") +:+ QuoteJson arg +:+ quoted_keys false args
  end.
Definition keys_command (operation : string) : Handler := fun args =>
  match args with
  | [] => usage (operation +:+ " key [key ...]")
  | _ => Remote operation (jq "{'keys':[" +:+ quoted_keys true args +:+ "]}")
  end.

Definition cli_KEYS : Handler := fun args =>
  match args with
  | [] => Remote "KEYS" (jq "{'pattern':" +:+ QuoteJson "*" +:+ "}")
  | [pattern] => Remote "KEYS" (jq "{'pattern':" +:+ QuoteJson pattern +:+ "}")
  | _ => usage "KEYS [pattern]"
  end.

Definition scan_body (cursor count : string) : answer :=
  Remote "SCAN" (jq "{'cursor':" +:+ cursor +:+ jq ",'count':" +:+ count +:+ "}").
Definition cli_SCAN : Handler := fun args =>
  match args with
  | [] => scan_body "0" "10"
  | [cursor] => scan_body cursor "10"
  | [cursor; count] => scan_body cursor count
  | _ => usage "SCAN [cursor] [count]"
  end.

Definition cli_quit : Handler := WithoutArguments (fun _ => Local (mkResult "" true 0)).
Definition cli_HELP : Handler := WithoutArguments (fun _ => Help).

(** ** The registry *)

Definition registry : Type := list (string * CliEntry).

Fixpoint find_entry (commands : registry) (name : string) : option CliEntry :=
  match commands with
  | [] => None
  | (n, e) :: commands => if bool_decide (n = name) then Some e else find_entry commands name
  end.
Fixpoint emplace_entry (commands : registry) (name : string) (e : CliEntry) : registry :=
  match commands with
  | [] => [(name, e)]
  | (n, e') :: rest =>
      if String.ltb name n then (name, e) :: commands else (n, e') :: emplace_entry rest name e
  end.

(** [None]: the function throws. *)
Definition Register (commands : registry) (name description : string) (h : Handler) : option registry :=
  let name := NormalizeName name in
  if is_nil name || bool_decide (is_Some (find_entry commands name)) then None
  else Some (emplace_entry commands name (mkCliEntry description h)).

Definition builtin_commands : list (string * string * Handler) :=
  [("PING", "Check server availability", WithoutArguments (fun _ => Remote "PING" "{}"));
   ("GET", "GET key", key_command "GET");
   ("SET", set_usage, cli_SET);
   ("INCR", "INCR key", key_command "INCR");
   ("DECR", "DECR key", key_command "DECR");
   ("INCRBY", incrby_usage, cli_INCRBY);
   ("GK.RATE_LIMIT", "GK.RATE_LIMIT key limit window_ms", cli_RATE_LIMIT);
   ("GK.RESERVE", "GK.RESERVE key amount ttl_ms", cli_RESERVE);
   ("GK.COMMIT", "GK.COMMIT key reservation_id actual_amount", cli_COMMIT);
   ("GK.ROLLBACK", "GK.ROLLBACK key reservation_id", cli_ROLLBACK);
   ("GK.QUOTA_INIT", "GK.QUOTA_INIT key amount", cli_QUOTA_INIT);
   ("GK.QUOTA_GET", "GK.QUOTA_GET key", key_command "GK.QUOTA_GET");
   ("GK.IDEM_BEGIN", begin_usage, cli_IDEM_BEGIN);
   ("GK.IDEM_COMPLETE", complete_usage, cli_IDEM_COMPLETE);
   ("GK.IDEM_FAIL", fail_usage, cli_IDEM_FAIL);
   ("GK.IDEM_GET", "GK.IDEM_GET key", key_command "GK.IDEM_GET");
   ("DEL", "DEL key [key ...]", keys_command "DEL");
   ("EXISTS", "EXISTS key [key ...]", keys_command "EXISTS");
   ("TYPE", "TYPE key", key_command "TYPE");
   ("DBSIZE", "DBSIZE", WithoutArguments (fun _ => Remote "DBSIZE" "{}"));
   ("KEYS", "KEYS [pattern]", cli_KEYS);
   ("SCAN", "SCAN [cursor] [count]", cli_SCAN);
   ("EXPIRE", "EXPIRE key seconds", cli_EXPIRE);
   ("PEXPIRE", "PEXPIRE key milliseconds", cli_PEXPIRE);
   ("TTL", "TTL key", key_command "TTL");
   ("PTTL", "PTTL key", key_command "PTTL");
   ("PERSIST", "PERSIST key", key_command "PERSIST");
   ("HELP", "Show available commands", cli_HELP);
   ("QUIT", "Close the CLI", cli_quit);
   ("EXIT", "Alias for QUIT", cli_quit)].

Fixpoint register_all (commands : registry) (entries : list (string * string * Handler)) : option registry :=
  match entries with
  | [] => Some commands
  | (name, description, h) :: entries =>
      match Register commands name description h with
      | Some commands => register_all commands entries
      | None => None
      end
  end.

(** The constructor of [Registry]. *)
Definition NewRegistry : option registry := register_all [] builtin_commands.

(** ** Help *)

Definition help_groups : list (string * list (string * string)) :=
  [("Server & Session",
     [("PING", "Check server availability"); ("HELP", "Show available commands"); ("QUIT", "Close the CLI");
      ("EXIT", "Alias for QUIT")]);
   ("String Operations", [("GET", "GET key"); ("SET", set_usage)]);
   ("Rate Limiting & Counters",
     [("INCR", "INCR key"); ("DECR", "DECR key"); ("INCRBY", incrby_usage);
      ("GK.RATE_LIMIT", "GK.RATE_LIMIT key limit window_ms")]);
   ("Two-Phase Quota Reservation",
     [("GK.RESERVE", "GK.RESERVE key amount ttl_ms");
      ("GK.COMMIT", "GK.COMMIT key reservation_id actual_amount");
      ("GK.ROLLBACK", "GK.ROLLBACK key reservation_id"); ("GK.QUOTA_INIT", "GK.QUOTA_INIT key amount");
      ("GK.QUOTA_GET", "GK.QUOTA_GET key")]);
   ("Idempotency & Single-Flight",
     [("GK.IDEM_BEGIN", begin_usage); ("GK.IDEM_COMPLETE", complete_usage); ("GK.IDEM_FAIL", fail_usage);
      ("GK.IDEM_GET", "GK.IDEM_GET key")]);
   ("Key Management",
     [("DEL", "DEL key [key ...]"); ("EXISTS", "EXISTS key [key ...]"); ("TYPE", "TYPE key");
      ("DBSIZE", "Return total count of keys in database"); ("KEYS", "KEYS [pattern]");
      ("SCAN", "SCAN [cursor] [count]")]);
   ("Expiration & TTL",
     [("EXPIRE", "EXPIRE key seconds"); ("PEXPIRE", "PEXPIRE key milliseconds"); ("TTL", "TTL key");
      ("PTTL", "PTTL key"); ("PERSIST", "PERSIST key")])].

Definition recognized : list string := concat (map (fun g => (snd g).*1) help_groups).

Definition custom_items (commands : registry) : list (string * string) :=
  (fun c : string * CliEntry => (c.1, description c.2)) <$>
    List.filter (fun c => negb (bool_decide (c.1 ∈ recognized))) commands.

Fixpoint help_items (items : list (string * string)) : string :=
  match items with
  | [] => ""
  | (name, desc) :: items => "  " +:+ name +:+ " - " +:+ desc +:+ line_end +:+ help_items items
  end.
Fixpoint help_text (first : bool) (groups : list (string * list (string * string))) : string :=
  match groups with
  | [] => ""
  | (title, items) :: groups =>
      (if first then "" else line_end) +:+ "[" +:+ title +:+ "]" +:+ line_end +:+ help_items items +:+
      help_text false groups
  end.

(** [res.pop_back()] if the last character is a line feed *)
Fixpoint chop_line_end (s : string) : string :=
  match s with
  | "" => ""
  | String c "" => if char_is c 10 then "" else s
  | String c s => String c (chop_line_end s)
  end.

Definition BuildHelpOutput (commands : registry) : string :=
  let custom := custom_items commands in
  chop_line_end (help_text true (match custom with
                                 | [] => help_groups
                                 | _ => help_groups ++ [("Extensions", custom)]
                                 end)).

(** ** Command lines *)

(** [stream >> word]: the word and the rest. *)
Fixpoint take_word (s : string) : string * string :=
  match s with
  | "" => ("", "")
  | String c s' => if isspace c then ("", s) else let '(w, rest) := take_word s' in (String c w, rest)
  end.

(** [std::quoted] behind the opening quote; [None]: the stream ended. *)
Fixpoint quoted_chars (s : string) : option (string * string) :=
  match s with
  | "" => None
  | String c s =>
      if char_is c 92 then
        match s with
        | "" => None
        | String c s => match quoted_chars s with Some (out, rest) => Some (String c out, rest) | None => None end
        end
      else if char_is c 34 then Some ("", s)
      else match quoted_chars s with Some (out, rest) => Some (String c out, rest) | None => None end
  end.

(** [stream >> std::quoted(argument)] on a stream that is not at a space. *)
Definition read_argument (s : string) : option (string * string) :=
  match s with
  | String c rest => if char_is c 34 then quoted_chars rest else Some (take_word s)
  | "" => None
  end.

(** The loop over the arguments: each round consumes a character. *)
Fixpoint arguments_loop (fuel : nat) (s : string) : list string + string :=
  match skip_space s, fuel with
  | "", _ => inl []
  | _, O => inr "INVALID_ARGUMENTS: unterminated quoted argument"
  | s, S fuel =>
      match read_argument s with
      | None => inr "INVALID_ARGUMENTS: unterminated quoted argument"
      | Some (argument, rest) =>
          match rest with
          | String c _ =>
              if isspace c then
                match arguments_loop fuel rest with
                | inl arguments => inl (argument :: arguments)
                | inr message => inr message
                end
              else inr "INVALID_ARGUMENTS: expected whitespace after argument"
          | "" => inl [argument]
          end
      end
  end.
Definition read_arguments (s : string) : list string + string := arguments_loop (String.length s) s.

Fixpoint joined (first : bool) (names : list string) : string :=
  match names with
  | [] => ""
  | name :: names => (if first then "" else ", ") +:+ name +:+ joined false names
  end.

Definition unknown_command (name : string) (commands : registry) : string :=
  let suggestions := Suggest name (commands.*1) in
  "UNKNOWN_COMMAND: unsupported command: " +:+ name +:+
  match suggestions with
  | [] => ""
  | _ => line_end +:+ "Did you mean: " +:+ joined true suggestions +:+ "?"
  end +:+ line_end +:+ "Type HELP to list available commands.".

Section execute.
Context {H : Type} (execute_remote : H -> string -> string -> option (H * (string + string))).

(** [handler(arguments)] inside the [try] of [Execute]. *)
Definition run_answer (commands : registry) (h : H) (a : answer) : option (H * Result) :=
  match a with
  | Local r => Some (h, r)
  | Help => Some (h, text_result (BuildHelpOutput commands))
  | Remote operation body =>
      match execute_remote h operation body with
      | None => None
      | Some (h, inr what) => Some (h, error_result (c_str what))
      | Some (h, inl response) => match FormatResponse response with Some r => Some (h, r) | None => None end
      end
  end.

Definition Execute (commands : registry) (h : H) (input : string) : option (H * Result) :=
  match skip_space input with
  | "" => Some (h, text_result "")
  | s =>
      let '(name, rest) := take_word s in
      let name := NormalizeName name in
      match find_entry commands name with
      | None => Some (h, error_result (unknown_command name commands))
      | Some entry =>
          match read_arguments rest with
          | inr message => Some (h, error_result message)
          | inl arguments => run_answer commands h (handler entry arguments)
          end
      end
  end.

(** ** The application (cli/app.cpp) *)

Definition output_line (r : Result) : string := if is_nil (output r) then "" else output r +:+ line_end.

(** The state, what is written to [output], the exit code. *)
Definition RunCommand (commands : registry) (h : H) (command : string) : option (H * string * Z) :=
  match Execute commands h command with
  | Some (h, r) => Some (h, output_line r, exit_code r)
  | None => None
  end.

Fixpoint repl_loop (commands : registry) (h : H) (lines : list string) : option (H * string * Z) :=
  match lines with
  | [] => Some (h, "gate> ", 0)
  | command :: lines =>
      match Execute commands h command with
      | None => None
      | Some (h, r) =>
          if exit_requested r then Some (h, "gate> " +:+ output_line r, exit_code r)
          else match repl_loop commands h lines with
               | Some (h, out, code) => Some (h, "gate> " +:+ output_line r +:+ out, code)
               | None => None
               end
      end
  end.

(** [starter]: the state after [session_starter_], or the exception it throws. *)
Definition RunRepl (starter : option (H -> H + string)) (commands : registry) (h : H) (input : string) :
    option (H * string * Z) + string :=
  match (match starter with Some start => start h | None => inl h end) with
  | inr what => inr what
  | inl h => inl (repl_loop commands h (getlines "" input))
  end.
End execute.
