(* ===== verification/CliLine.v ===== *)
(** * Command lines

    What a user may type for a name and arguments, and that [Registry::Execute]
    recovers exactly those: an argument is a word without spaces that does not start
    with a quote, or any text between quotes with quotes and backslashes escaped. *)
From S2P Require Import Prelude CStd Json Command Dispatcher Http Format Suggest Cli.

Fixpoint all_chars (p : ascii -> bool) (s : string) : bool :=
  match s with "" => true | String c s => p c && all_chars p s end.

Definition is_word (s : string) : bool := negb (is_nil s) && all_chars (fun c => negb (isspace c)) s.

(** What [std::quoted] writes. *)
Definition quoted_char (c : ascii) : string :=
  if char_is c 34 || char_is c 92 then String backslash (String c "") else String c "".
Fixpoint quoted_text (s : string) : string :=
  match s with "" => "" | String c s => quoted_char c +:+ quoted_text s end.

Inductive spells : string -> string -> Prop :=
  | spells_word s : is_word s = true -> (forall rest, s <> String dquote rest) -> spells s s
  | spells_quoted s : spells s (String dquote (quoted_text s) +:+ String dquote "").

Inductive splits : string -> list string -> Prop :=
  | splits_end spaces : all_chars isspace spaces = true -> splits spaces []
  | splits_argument spaces text argument rest arguments :
      all_chars isspace spaces = true -> spaces <> "" -> spells argument text ->
      splits rest arguments -> splits (spaces +:+ text +:+ rest) (argument :: arguments).

(** [line] is a way to write the command. *)
Inductive command_line (name : string) (arguments : list string) : string -> Prop :=
  | a_command_line spaces typed rest :
      all_chars isspace spaces = true -> is_word typed = true -> NormalizeName typed = name ->
      splits rest arguments -> command_line name arguments (spaces +:+ typed +:+ rest).

(** ** Words and spaces *)

(** The rest of a line is empty or starts with a space. *)
Definition at_break (s : string) : bool := match s with "" => true | String c _ => isspace c end.

Lemma splits_break s args : splits s args -> at_break s = true.
Proof.
  destruct 1 as [[|c s] H|[|c s] text arg rest args H Hne]; try done; rewrite ?str_app_cons; cbn [all_chars at_break] in *;
    by apply andb_true_iff in H as [? _].
Qed.

Lemma skip_space_app spaces s : all_chars isspace spaces = true -> skip_space (spaces +:+ s) = skip_space s.
Proof.
  induction spaces as [|c spaces IH]; [done|]. cbn [all_chars]. intros [Hc Hs]%andb_true_iff.
  rewrite str_app_cons. cbn [skip_space]. by rewrite Hc, IH.
Qed.
Lemma skip_space_all spaces : all_chars isspace spaces = true -> skip_space spaces = "".
Proof. intros H. rewrite <- (str_app_nil_r spaces), skip_space_app by done. done. Qed.
Lemma skip_space_stop c s : isspace c = false -> skip_space (String c s) = String c s.
Proof. intros H. cbn. by rewrite H. Qed.

Lemma take_word_app s rest :
  all_chars (fun c => negb (isspace c)) s = true -> at_break rest = true -> take_word (s +:+ rest) = (s, rest).
Proof.
  intros Hs Hr. induction s as [|c s IH].
  - rewrite str_app_nil_l. destruct rest as [|c rest]; [done|]. cbn in *. by rewrite Hr.
  - cbn [all_chars] in Hs. apply andb_true_iff in Hs as [Hc Hs]. apply negb_true_iff in Hc.
    rewrite str_app_cons. cbn [take_word]. by rewrite Hc, IH.
Qed.

Lemma quoted_chars_text s rest :
  quoted_chars (quoted_text s +:+ String dquote rest) = Some (s, rest).
Proof.
  induction s as [|c s IH]; [done|]. cbn [quoted_text]. unfold quoted_char. rewrite str_app_assoc.
  destruct (char_is c 34 || char_is c 92) eqn:Hc.
  - rewrite !str_app_cons, str_app_nil_l. cbn [quoted_chars].
    change (char_is backslash 92) with true. cbv iota. by rewrite IH.
  - apply orb_false_iff in Hc as [H1 H2]. rewrite str_app_cons, str_app_nil_l. cbn [quoted_chars].
    by rewrite H1, H2, IH.
Qed.

Lemma spells_head argument text rest :
  spells argument text -> exists c s, text +:+ rest = String c s /\ isspace c = false.
Proof.
  intros [s Hw _|s]; [|by do 2 eexists]. unfold is_word in Hw. apply andb_true_iff in Hw as [Hn Hw].
  destruct s as [|c s]; [done|]. cbn in Hw. apply andb_true_iff in Hw as [Hc _]. apply negb_true_iff in Hc.
  by exists c, (s +:+ rest).
Qed.

Lemma char_is_dquote c : char_is c 34 = true -> c = dquote.
Proof. unfold char_is. intros H%Z.eqb_eq. by apply Z_of_byte_inj. Qed.

Lemma read_argument_spells argument text rest :
  spells argument text -> at_break rest = true -> read_argument (text +:+ rest) = Some (argument, rest).
Proof.
  intros [s Hw Hq|s] Hr.
  - unfold is_word in Hw. apply andb_true_iff in Hw as [Hn Hw]. destruct s as [|c s]; [done|].
    rewrite str_app_cons. cbn [read_argument]. destruct (char_is c 34) eqn:Hc.
    { apply char_is_dquote in Hc as ->. by destruct (Hq s). }
    rewrite <- str_app_cons. by rewrite take_word_app.
  - rewrite str_app_cons, str_app_cons, str_app_assoc, str_app_cons, str_app_nil_l. cbn [read_argument].
    change (char_is dquote 34) with true. cbv iota. apply quoted_chars_text.
Qed.

Lemma arguments_loop_splits s arguments fuel :
  splits s arguments -> (String.length s <= fuel)%nat -> arguments_loop fuel s = inl arguments.
Proof.
  intros Hs. revert fuel. induction Hs as [spaces Hs|spaces text argument rest arguments Hs Hne Hsp Hrest IH];
    intros fuel Hf.
  { destruct fuel; cbn [arguments_loop]; by rewrite skip_space_all. }
  destruct (spells_head argument text rest Hsp) as (c & s & Hcs & Hc).
  pose proof (read_argument_spells argument text rest Hsp (splits_break _ _ Hrest)) as Hread.
  rewrite !str_length_app in Hf. destruct spaces as [|x spaces]; [done|]. simpl in Hf.
  destruct fuel as [|fuel]; [lia|]. cbn [arguments_loop].
  rewrite skip_space_app, Hcs, skip_space_stop by done. rewrite Hcs in Hread. rewrite Hread.
  pose proof (splits_break _ _ Hrest) as Hb. destruct rest as [|y rest].
  - inversion Hrest as [|sp t a r l ? Hne' Heq]; subst; [done|]. destruct sp; [done|]. discriminate.
  - cbn in Hb. rewrite Hb, IH by lia. done.
Qed.

Lemma read_arguments_splits s arguments : splits s arguments -> read_arguments s = inl arguments.
Proof. intros Hs. by apply arguments_loop_splits. Qed.

(** A command line runs the handler of its name on its arguments. *)
Lemma Execute_line {H} (execute_remote : H -> string -> string -> option (H * (string + string))) commands h
    name arguments line entry :
  command_line name arguments line -> find_entry commands name = Some entry ->
  Execute execute_remote commands h line = run_answer execute_remote commands h (handler entry arguments).
Proof.
  intros [spaces typed rest Hs Hw Hn Hsp] He. unfold Execute. rewrite skip_space_app by done.
  unfold is_word in Hw. apply andb_true_iff in Hw as [Hnil Hw]. destruct typed as [|c typed]; [done|].
  pose proof (take_word_app _ _ Hw (splits_break _ _ Hsp)) as Ht.
  cbn [all_chars] in Hw. apply andb_true_iff in Hw as [Hc _]. apply negb_true_iff in Hc.
  rewrite str_app_cons in *. rewrite skip_space_stop by done. rewrite Ht, Hn, He.
  by rewrite read_arguments_splits with (arguments := arguments).
Qed.
