(* ===== verification/RequestParser.v ===== *)
(** * The parser of JSON requests (protocol/json_parser.cpp)

    A position is the rest of the payload from there on.  [char] is signed: a byte of
    128 or more is below 0x20. *)
From S2P Require Import Prelude CStd Json Command Http CliLine.
Import JsonReader.

Module RequestParser.

(** [escaped] of a backslash pair. *)
Definition escape_char (c : ascii) : option ascii :=
  if char_is c 34 || char_is c 92 || char_is c 47 then Some c
  else if char_is c 98 then Some (byte_of_Z 8)
  else if char_is c 102 then Some (byte_of_Z 12)
  else if char_is c 110 then Some (byte_of_Z 10)
  else if char_is c 114 then Some (byte_of_Z 13)
  else if char_is c 116 then Some (byte_of_Z 9)
  else None.

(** The loop of [String]: success, output, and the rest also on failure. *)
Fixpoint string_chars (s : string) : bool * string * string :=
  match s with
  | "" => (false, "", "")
  | String c s =>
      if char_is c 34 then (true, "", s)
      else if (Z_of_byte c <? 32) || (128 <=? Z_of_byte c) then (false, "", s)
      else if negb (char_is c 92) then let '(ok, out, rest) := string_chars s in (ok, String c out, rest)
      else
        match s with
        | "" => (false, "", "")
        | String e s =>
            match escape_char e with
            | Some x => let '(ok, out, rest) := string_chars s in (ok, String x out, rest)
            | None => (false, "", s)
            end
        end
  end.
Definition String_ (s : string) : bool * string * string :=
  match skip_space s with
  | "" => (false, "", "")
  | String c s => if char_is c 34 then string_chars s else (false, "", s)
  end.

(** The loop of [Object]: the characters read and the rest. *)
Fixpoint object_chars (depth : nat) (quoted : bool) (s : string) : option (string * string) :=
  match depth with
  | O => if quoted then None else Some ("", s)
  | S below =>
      match s with
      | "" => None
      | String c s =>
          if quoted && char_is c 92 then
            match s with
            | "" => None
            | String e s =>
                match object_chars depth quoted s with
                | Some (out, rest) => Some (String c (String e out), rest)
                | None => None
                end
            end
          else
            match (if char_is c 34 then object_chars depth (negb quoted) s
                   else if negb quoted && char_is c 123 then object_chars (S depth) quoted s
                   else if negb quoted && char_is c 125 then object_chars below quoted s
                   else object_chars depth quoted s) with
            | Some (out, rest) => Some (String c out, rest)
            | None => None
            end
      end
  end.
(** The captured text, from the brace on. *)
Definition Object (s : string) : option (string * string) :=
  match skip_space s with
  | String c s =>
      if char_is c 123 then
        match object_chars 1 false s with
        | Some (out, rest) => Some (String c out, rest)
        | None => None
        end
      else None
  | "" => None
  end.

Definition invalid (message : string) : Request + Error := inr (mkError "INVALID_REQUEST" message).

(** What the members set. *)
Record members := mkMembers { m_id : option string; m_op : option string; m_body : option string }.

(** The value behind the colon: the members and the rest, or the message. *)
Definition member (m : members) (key s : string) : (members * string) + string :=
  if bool_decide (key = "id") || bool_decide (key = "op") then
    let '(ok, value, rest) := String_ s in
    if ok then
      if bool_decide (key = "id") then
        match m_id m with
        | Some _ => inr "id must not be repeated"
        | None => inl (mkMembers (Some value) (m_op m) (m_body m), rest)
        end
      else
        match m_op m with
        | Some _ => inr "op must not be repeated"
        | None => inl (mkMembers (m_id m) (Some value) (m_body m), rest)
        end
    else inr (key +:+ " must be a string")
  else if bool_decide (key = "body") then
    match m_body m, Object s with
    | None, Some (text, rest) => inl (mkMembers (m_id m) (m_op m) (Some text), rest)
    | _, _ => inr "body must be one JSON object"
    end
  else
    let '(ok, _, rest) := String_ s in
    if ok then inl (m, rest)
    else match Object rest with Some (_, rest) => inl (m, rest) | None => inr "invalid JSON value" end.

(** The loop of [Parse]; a round consumes the quotes of a name. *)
Fixpoint member_loop (fuel : nat) (m : members) (s : string) : (members * string) + string :=
  match fuel with
  | O => inr "invalid JSON object member"
  | S fuel =>
      match skip_space s with
      | String c rest as s =>
          if char_is c 125 then inl (m, rest)
          else
            let '(ok, key, rest) := String_ s in
            match ok, skip_space rest with
            | true, String c rest =>
                if char_is c 58 then
                  match member m key rest with
                  | inr e => inr e
                  | inl (m, rest) =>
                      match skip_space rest with
                      | String c rest =>
                          if char_is c 44 then member_loop fuel m rest
                          else if char_is c 125 then inl (m, rest)
                          else inr "expected ',' or '}'"
                      | "" => inr "expected ',' or '}'"
                      end
                  end
                else inr "invalid JSON object member"
            | _, _ => inr "invalid JSON object member"
            end
      | "" => inr "invalid JSON object member"
      end
  end.

Definition Parse (payload : string) : Request + Error :=
  match skip_space payload with
  | String c s =>
      if char_is c 123 then
        match member_loop (String.length payload) (mkMembers None None None) s with
        | inr e => invalid e
        | inl (m, rest) =>
            match skip_space rest, m with
            | "", mkMembers (Some (String _ _ as id)) (Some (String _ _ as op)) (Some body) =>
                inl (mkRequest id op body)
            | _, _ => invalid "request requires non-empty id, non-empty op, and object body"
            end
        end
      else invalid "request must be a JSON object"
  | "" => invalid "request must be a JSON object"
  end.

(** ** Requests as a client writes them *)

(** Printable ASCII without quote and backslash. *)
Definition ascii_char (c : ascii) : bool :=
  (32 <=? Z_of_byte c) && (Z_of_byte c <? 128) && negb (char_is c 34) && negb (char_is c 92).

Lemma string_chars_plain s t :
  all_chars ascii_char s = true -> string_chars (s +:+ String dquote t) = (true, s, t).
Proof.
  induction s as [|c s IH]; [done|]. cbn [all_chars]. intros [Hc Hs]%andb_true_iff. rewrite str_app_cons.
  cbn [string_chars]. unfold ascii_char, char_is in Hc. bool_prop. unfold char_is.
  rewrite !(proj2 (Z.eqb_neq _ _)) by lia. rewrite (proj2 (Z.ltb_ge _ _)), (proj2 (Z.leb_gt _ _)) by lia.
  cbn [orb negb]. by rewrite IH.
Qed.
Lemma String_plain s t :
  all_chars ascii_char s = true -> String_ (String dquote s +:+ String dquote t) = (true, s, t).
Proof. intros Hs. rewrite str_app_cons. unfold String_. cbn. by apply string_chars_plain. Qed.

Lemma object_chars_app depth quoted s out rest t :
  object_chars depth quoted s = Some (out, rest) -> object_chars depth quoted (s +:+ t) = Some (out, rest +:+ t).
Proof.
  revert depth quoted out rest. induction s as [s IH] using (induction_ltof1 _ String.length). unfold ltof in IH.
  intros depth quoted out rest. destruct depth as [|below].
  { destruct quoted; [by destruct s|]. destruct s; intros [= <- <-]; rewrite ?str_app_nil_l, ?str_app_cons; [by destruct t|done]. }
  destruct s as [|c s]; [done|]. rewrite str_app_cons. cbn [object_chars].
  destruct (quoted && char_is c 92).
  - destruct s as [|e s]; [done|]. rewrite str_app_cons.
    destruct (object_chars (S below) quoted s) as [[o r]|] eqn:E; [|done]. intros [= <- <-].
    apply (IH s) in E; [by rewrite E|simpl; lia].
  - repeat match goal with |- context [if ?b then object_chars _ _ _ else _] => destruct b end;
      (match goal with |- context [match object_chars ?d ?q s with _ => _ end] =>
         destruct (object_chars d q s) as [[o r]|] eqn:E end; [|done]); intros [= <- <-];
      (apply (IH s) in E; [by rewrite E|simpl; lia]).
Qed.

Definition quoted (s : string) : string := String dquote s +:+ String dquote "".
Definition request_text (id op body : string) : string :=
  jq "{'id':" +:+ quoted id +:+ jq ",'op':" +:+ quoted op +:+ jq ",'body':" +:+ body +:+ "}".

(** One member of the object. *)
Lemma member_loop_step fuel m key v t m' c rest :
  all_chars ascii_char key = true -> isspace c = false ->
  member m key (v +:+ String c rest) = inl (m', String c rest) -> t = v +:+ String c rest ->
  member_loop (S fuel) m (quoted key +:+ ":" +:+ t) =
    if char_is c 44 then member_loop fuel m' rest else if char_is c 125 then inl (m', rest) else inr "expected ',' or '}'".
Proof.
  intros Hk Hc Hm ->. unfold quoted. rewrite str_app_assoc, (str_app_cons dquote ""), str_app_nil_l.
  pose proof (String_plain key (":" +:+ (v +:+ String c rest)) Hk) as Hs. rewrite str_app_cons in *.
  cbn [member_loop]. change (skip_space (String dquote ?x)) with (String dquote x).
  change (char_is dquote 125) with false. cbv iota. rewrite Hs.
  change (skip_space (":" +:+ ?x)) with (String ":" x). change (char_is ":" 58) with true. cbv iota. rewrite Hm.
  cbn [skip_space]. by rewrite Hc.
Qed.

(** A request that a client writes is read back. *)
Lemma Parse_request id op body :
  all_chars ascii_char id = true -> all_chars ascii_char op = true -> id <> "" -> op <> "" ->
  Object body = Some (body, "") -> Parse (request_text id op body) = inl (mkRequest id op body).
Proof.
  intros Hid Hop Hi Ho Hb. unfold request_text.
  set (rest2 := quoted "body" +:+ ":" +:+ (body +:+ "}")).
  set (rest1 := quoted "op" +:+ ":" +:+ (quoted op +:+ String "," rest2)).
  change (jq "{'id':" +:+ quoted id +:+ jq ",'op':" +:+ quoted op +:+ jq ",'body':" +:+ body +:+ "}")
    with (String "{" (quoted "id" +:+ ":" +:+ (quoted id +:+ String "," rest1))).
  unfold Parse. cbn [skip_space]. change (isspace "{") with false. change (char_is "{" 123) with true. cbv iota.
  set (n := String.length _). assert (exists k, n = S (S (S k))) as [k ->].
  { exists (n - 3)%nat. unfold n. cbn [String.length]. unfold quoted. rewrite !str_length_app. cbn [String.length]. lia. }
  assert (forall s t, all_chars ascii_char s = true -> String_ (quoted s +:+ t) = (true, s, t)) as Hq.
  { intros s t Hs. unfold quoted. rewrite str_app_assoc, (str_app_cons dquote ""), str_app_nil_l. by apply String_plain. }
  rewrite (member_loop_step _ _ "id" (quoted id) _ (mkMembers (Some id) None None) "," rest1); [|done|done| |done].
  2:{ unfold member. cbn [bool_decide orb]. change (bool_decide ("id" = "id")) with true. cbn [orb]. by rewrite Hq. }
  change (char_is "," 44) with true. cbv iota. unfold rest1 at 1.
  rewrite (member_loop_step _ _ "op" (quoted op) _ (mkMembers (Some id) (Some op) None) "," rest2); [|done|done| |done].
  2:{ unfold member. change (bool_decide ("op" = "id")) with false. change (bool_decide ("op" = "op")) with true.
      cbn [orb]. by rewrite Hq. }
  change (char_is "," 44) with true. cbv iota. unfold rest2 at 1.
  rewrite (member_loop_step _ _ "body" body _ (mkMembers (Some id) (Some op) (Some body)) "}" ""); [|done|done| |done].
  2:{ unfold member. change (bool_decide ("body" = "id")) with false. change (bool_decide ("body" = "op")) with false.
      change (bool_decide ("body" = "body")) with true. cbn [orb m_body]. cbv iota.
      unfold Object in *. destruct (skip_space body) as [|c s] eqn:Hs; [done|]. destruct (char_is c 123) eqn:Hc; [|done].
      destruct (object_chars 1 false s) as [[out r]|] eqn:E; [|done]. injection Hb as Hbody ->.
      assert (isspace c = false) as Hsp by (unfold char_is in Hc; apply Z.eqb_eq in Hc; unfold isspace; by rewrite Hc).
      subst body. rewrite str_app_cons. cbn [skip_space] in Hs |- *. rewrite Hsp in *. injection Hs as <-.
      rewrite Hc. apply object_chars_app with (t := String "}" "") in E. by rewrite E. }
  change (char_is "}" 44) with false. change (char_is "}" 125) with true. cbv iota. cbn [skip_space].
  destruct id; [done|]. by destruct op.
Qed.

(** A member with another name and an object as its value is refused: [String_] has
    moved past the brace when [Object] looks for it. *)
Lemma Parse_other_object :
  Parse (jq "{'id':'1','op':'PING','body':{},'meta':{}}") = invalid "invalid JSON value".
Proof. reflexivity. Qed.
End RequestParser.
