(* ===== verification/CliSpec.v ===== *)
(** * From a command line to a binary request

    The registry writes the arguments of a command into a JSON body and the client
    picks them out of it again with [ExtractField], which knows no escapes.  For
    plain texts the two agree: [extract_body].  With it the request each command
    leads to is computed. *)
From S2P Require Import Prelude CStd Entry Store Json Command Dispatcher Codec Processor Replay Http Format Suggest Cli CliLine Client ClientSpec.

(** ** Searching for a field *)

Definition plain_char (c : ascii) : bool :=
  (32 <=? Z_of_byte c) && negb (char_is c 34) && negb (char_is c 92).
Definition plain (s : string) : bool := all_chars plain_char s.

Lemma plain_lacks s : plain s = true -> lacks dquote s = true.
Proof.
  induction s as [|c s IH]; [done|]. cbn. intros [Hc Hs]%andb_true_iff. rewrite IH by done.
  unfold plain_char in Hc. rewrite bool_decide_false; [done|]. intros ->. done.
Qed.

Lemma plain_quote s : plain s = true -> QuoteJson s = String dquote s +:+ String dquote "".
Proof.
  intros Hs. unfold QuoteJson. do 2 f_equal. induction s as [|c s IH]; [done|].
  cbn [plain all_chars] in Hs. apply andb_true_iff in Hs as [Hc Hs]. cbn [quote_body]. rewrite IH by done.
  unfold plain_char, char_is in Hc. bool_prop. unfold quote_char.
  repeat (rewrite (proj2 (Z.eqb_neq _ _)) by lia). rewrite (proj2 (Z.ltb_ge _ _)) by lia. done.
Qed.

(** [behind] skips what has no quote, and a quote where the field does not start. *)
Lemma behind_skip p s t :
  lacks dquote s = true -> behind (String dquote p) (s +:+ t) = behind (String dquote p) t.
Proof.
  intros Hs. unfold behind. rewrite find_str_skip by done. destruct (find_str (String dquote p) t); [|done].
  cbn [fmap option_fmap option_map]. f_equal. rewrite <- Nat.add_assoc, <- str_drop_drop.
  by rewrite str_drop_app.
Qed.
Lemma behind_mismatch p t :
  starts_with p t = false -> behind (String dquote p) (String dquote t) = behind (String dquote p) t.
Proof.
  intros Hp. unfold behind. rewrite find_str_cons. cbn [starts_with]. rewrite bool_decide_true by done.
  cbn [andb]. rewrite Hp. by destruct (find_str (String dquote p) t).
Qed.
Lemma behind_here p t : behind p (p +:+ t) = Some t.
Proof.
  unfold behind. assert (find_str p (p +:+ t) = Some 0%nat) as ->.
  { destruct (p +:+ t) eqn:E; cbn [find_str]; rewrite <- E, starts_with_app; done. }
  cbn. f_equal. by apply str_drop_app.
Qed.

Lemma starts_with_names n s p q :
  lacks dquote n = true -> lacks dquote s = true ->
  starts_with (n +:+ String dquote p) (s +:+ String dquote q) = bool_decide (n = s) && starts_with p q.
Proof.
  revert s. induction n as [|c n IH]; intros [|d s]; cbn [lacks]; rewrite ?str_app_nil_l, ?str_app_cons;
    cbn [starts_with]; intros Hn Hs.
  - by rewrite bool_decide_true.
  - apply andb_true_iff in Hs as [Hd _]. apply negb_true_iff, bool_decide_eq_false in Hd.
    by rewrite bool_decide_false by congruence.
  - apply andb_true_iff in Hn as [Hc _]. apply negb_true_iff, bool_decide_eq_false in Hc.
    by rewrite bool_decide_false by congruence.
  - apply andb_true_iff in Hn as [_ Hn]. apply andb_true_iff in Hs as [_ Hs].
    rewrite IH by done. destruct (decide (c = d)) as [->|Hne].
    + rewrite bool_decide_true by done. cbn [andb]. f_equal. apply bool_decide_ext. split; congruence.
    + rewrite bool_decide_false by done. cbn [andb]. by rewrite bool_decide_false by congruence.
Qed.

(** ** Bodies *)

(** A value of a field: a plain string between quotes, or a numeral or literal. *)
Inductive field_value := Quoted_ (s : string) | Raw (s : string).
Definition content (v : field_value) : string := match v with Quoted_ s | Raw s => s end.
Definition value_text (v : field_value) : string :=
  match v with Quoted_ s => String dquote s +:+ String dquote "" | Raw s => s end.

Definition raw_char (c : ascii) : bool := isdigit c || char_is c 45 || (97 <=? Z_of_byte c) && (Z_of_byte c <=? 122).
Definition wf_value (v : field_value) : bool :=
  match v with Quoted_ s => plain s | Raw s => negb (is_nil s) && all_chars raw_char s end.

Definition name_char (c : ascii) : bool := (97 <=? Z_of_byte c) && (Z_of_byte c <=? 122) || char_is c 95.
Definition wf_name (n : string) : bool := negb (is_nil n) && all_chars name_char n.

Definition item (f : string * field_value) : string :=
  String dquote f.1 +:+ String dquote ":" +:+ value_text f.2.
Fixpoint tail_text (fs : list (string * field_value)) : string :=
  match fs with [] => "}" | f :: fs => "," +:+ item f +:+ tail_text fs end.
Definition body_text (f : string * field_value) (fs : list (string * field_value)) : string :=
  "{" +:+ item f +:+ tail_text fs.

Fixpoint lookup_field (name : string) (fs : list (string * field_value)) : option field_value :=
  match fs with
  | [] => None
  | (n, v) :: fs => if bool_decide (n = name) then Some v else lookup_field name fs
  end.

Definition wf_field (f : string * field_value) : bool := wf_name f.1 && wf_value f.2.

Lemma all_chars_lacks p s : (forall c, p c = true -> c <> dquote) -> all_chars p s = true -> lacks dquote s = true.
Proof.
  intros Hp. induction s as [|c s IH]; [done|]. cbn. intros [Hc Hs]%andb_true_iff. rewrite IH by done.
  by rewrite bool_decide_false by auto.
Qed.
Lemma name_lacks n : wf_name n = true -> lacks dquote n = true.
Proof. intros [_ H]%andb_true_iff. apply (all_chars_lacks name_char); [|done]. intros c Hc ->. done. Qed.
Lemma raw_lacks s : all_chars raw_char s = true -> lacks dquote s = true.
Proof. apply all_chars_lacks. intros c Hc ->. done. Qed.

(** What follows an item. *)
Definition delimited (s : string) : Prop := exists c s', s = String c s' /\ (char_is c 44 || char_is c 125) = true.
Lemma tail_delimited fs : delimited (tail_text fs).
Proof. destruct fs as [|f fs]; cbn [tail_text]; rewrite ?str_app_cons; by do 2 eexists. Qed.

Lemma name_head_not n p c t :
  wf_name n = true -> name_char c = false -> starts_with (n +:+ p) (String c t) = false.
Proof.
  destruct n as [|d n]; [done|]. unfold wf_name. cbn [is_nil negb andb all_chars]. intros [Hd _]%andb_true_iff Hc.
  rewrite str_app_cons. cbn [starts_with]. rewrite bool_decide_false; [done|]. intros ->. congruence.
Qed.

Lemma delim_not_name c : (char_is c 44 || char_is c 125) = true -> name_char c = false.
Proof.
  unfold char_is, name_char, char_is. intros [H%Z.eqb_eq|H%Z.eqb_eq]%orb_true_iff; rewrite H; done.
Qed.

(** A search for the field [name], possibly with the beginning of its value. *)
Notation field_pattern name suffix := (String dquote (name +:+ String dquote (":" +:+ suffix))).

(** A quote in front of [c] does not start a field, nor does it end the name of one. *)
Definition bounded (s : string) : Prop := exists c s', s = String c s' /\ name_char c = false /\ c <> ":"%char.
Lemma delimited_bounded s : delimited s -> bounded s.
Proof.
  intros (c & s' & -> & Hc). exists c, s'. split_and!; [done|by apply delim_not_name|]. intros ->. done.
Qed.

(** The search does not stop in a string. *)
Lemma behind_quoted name suffix s t :
  wf_name name = true -> plain s = true -> bounded t ->
  behind (field_pattern name suffix) (String dquote s +:+ String dquote t) = behind (field_pattern name suffix) t.
Proof.
  intros Hn Hv (c & t' & -> & Hc & Hne). pose proof (plain_lacks s Hv) as Hs. rewrite (str_app_cons dquote s), behind_mismatch.
  2:{ rewrite starts_with_names by (done || by apply name_lacks). rewrite ?str_app_nil_l, ?str_app_cons. cbn [starts_with].
      by rewrite (bool_decide_false (":"%char = c)), andb_false_r by congruence. }
  rewrite behind_skip by done. apply behind_mismatch. by apply name_head_not.
Qed.

(** The search does not stop in a value. *)
Lemma behind_value name suffix v t :
  wf_name name = true -> wf_value v = true -> delimited t ->
  behind (field_pattern name suffix) (value_text v +:+ t) = behind (field_pattern name suffix) t.
Proof.
  intros Hn Hv Ht. destruct v as [s|s]; cbn [value_text wf_value] in *.
  - rewrite str_app_assoc, (str_app_cons dquote ""), str_app_nil_l. by apply behind_quoted, delimited_bounded.
  - apply andb_true_iff in Hv as [_ Hv]. by apply behind_skip, raw_lacks.
Qed.

Lemma item_text f t : item f +:+ t = String dquote (f.1 +:+ String dquote (":" +:+ value_text f.2 +:+ t)).
Proof. unfold item. by rewrite !str_app_assoc, str_app_cons. Qed.

Lemma behind_other_item name suffix f t :
  wf_name name = true -> wf_field f = true -> f.1 <> name -> delimited t ->
  behind (field_pattern name suffix) (item f +:+ t) = behind (field_pattern name suffix) t.
Proof.
  intros Hn [Hfn Hv]%andb_true_iff Hne Ht. rewrite item_text, behind_mismatch.
  2:{ rewrite starts_with_names by (by apply name_lacks). by rewrite bool_decide_false by congruence. }
  rewrite behind_skip by (by apply name_lacks). rewrite behind_mismatch by (by apply name_head_not).
  rewrite behind_skip by done. by apply behind_value.
Qed.

(** The search stops at its field. *)
Lemma behind_own_item name v t : behind (search_text name) (item (name, v) +:+ t) = Some (value_text v +:+ t).
Proof.
  transitivity (behind (search_text name) (search_text name +:+ (value_text v +:+ t))); [|apply behind_here].
  f_equal. unfold item, search_text. cbn [fst snd]. by rewrite !str_app_assoc.
Qed.

(** What [ExtractField] reads behind the name. *)
Definition read_value (s : string) : string :=
  match skip_blanks s with
  | "" => ""
  | String c rest as s =>
      if char_is c 34 then
        match find_str (String dquote "") rest with None => "" | Some end_ => str_take end_ rest end
      else up_to_delim s
  end.
Lemma ExtractField_behind json field :
  ExtractField json field = match behind (search_text field) json with None => "" | Some s => read_value s end.
Proof. unfold ExtractField, behind. by destruct (find_str (search_text field) json). Qed.

Lemma up_to_delim_raw s t : all_chars raw_char s = true -> delimited t -> up_to_delim (s +:+ t) = s.
Proof.
  intros Hs (c & t' & -> & Hc). induction s as [|d s IH]; [rewrite str_app_nil_l; cbn [up_to_delim]; by rewrite Hc|].
  cbn in Hs. apply andb_true_iff in Hs as [Hd Hs]. rewrite str_app_cons. cbn [up_to_delim].
  destruct (char_is d 44 || char_is d 125) eqn:E; [|by rewrite IH]. exfalso. revert Hd.
  unfold raw_char, isdigit, char_is in *. apply orb_true_iff in E as [->%Z.eqb_eq| ->%Z.eqb_eq]; done.
Qed.

Lemma read_value_text v t : wf_value v = true -> delimited t -> read_value (value_text v +:+ t) = content v.
Proof.
  intros Hv Ht. destruct v as [s|s]; cbn [value_text content wf_value] in *.
  - rewrite str_app_assoc, !str_app_cons, str_app_nil_l. unfold read_value.
    change (skip_blanks (String dquote ?x)) with (String dquote x). change (char_is dquote 34) with true.
    cbv iota. pose proof (find_str_app dquote "" s t (plain_lacks s Hv)) as Hq.
    rewrite str_app_cons, str_app_nil_l in Hq. rewrite Hq. by apply str_take_app.
  - apply andb_true_iff in Hv as [Hn Hv]. destruct s as [|c s]; [done|]. unfold read_value.
    pose proof (up_to_delim_raw _ _ Hv Ht) as Hu. rewrite str_app_cons in *. cbn in Hv.
    apply andb_true_iff in Hv as [Hc _]. unfold raw_char, isdigit, char_is in Hc. cbn [skip_blanks]. unfold char_is.
    destruct (Z.eqb_spec (Z_of_byte c) 32) as [E|_]; [by rewrite E in Hc|].
    destruct (Z.eqb_spec (Z_of_byte c) 9) as [E|_]; [by rewrite E in Hc|]. cbn [orb].
    destruct (Z.eqb_spec (Z_of_byte c) 34) as [E|_]; [by rewrite E in Hc|]. exact Hu.
Qed.

Definition field_text (name : string) (fs : list (string * field_value)) : string :=
  match lookup_field name fs with Some v => content v | None => "" end.

Lemma search_pattern name : search_text name = field_pattern name "".
Proof. done. Qed.

Lemma extract_tail name fs :
  wf_name name = true -> forallb wf_field fs = true ->
  match behind (search_text name) (tail_text fs) with None => "" | Some s => read_value s end = field_text name fs.
Proof.
  intros Hn Hf. unfold field_text. induction fs as [|[n v] fs IH]; [done|]. cbn [forallb tail_text lookup_field] in *.
  apply andb_true_iff in Hf as [Hv Hf]. rewrite search_pattern, behind_skip, <- search_pattern by done.
  destruct (decide (n = name)) as [->|Hne].
  - rewrite bool_decide_true, behind_own_item by done. apply andb_true_iff in Hv as [_ Hv].
    by apply read_value_text, tail_delimited.
  - rewrite bool_decide_false by done. rewrite search_pattern, behind_other_item; [|done..|apply tail_delimited].
    rewrite <- search_pattern. by apply IH.
Qed.

(** The client reads back what the registry wrote. *)
Lemma extract_body name f fs :
  wf_name name = true -> forallb wf_field (f :: fs) = true ->
  ExtractField (body_text f fs) name = field_text name (f :: fs).
Proof.
  intros Hn Hf. rewrite <- extract_tail by done. rewrite ExtractField_behind. unfold body_text. cbn [tail_text].
  by rewrite search_pattern, (behind_skip _ "{"), (behind_skip _ ",") by done.
Qed.

(** ** The flags of SET *)

Lemma behind_absent name suffix fs :
  wf_name name = true -> forallb wf_field fs = true -> lookup_field name fs = None ->
  behind (field_pattern name suffix) (tail_text fs) = None.
Proof.
  intros Hn Hf. induction fs as [|[n v] fs IH]; [done|]. cbn [forallb lookup_field tail_text] in *.
  apply andb_true_iff in Hf as [Hv Hf]. case_bool_decide as Hne; [done|]. intros Hl.
  rewrite (behind_skip _ ",") by done. rewrite behind_other_item; [by apply IH|done..|apply tail_delimited].
Qed.

Lemma has_text_absent name suffix f fs :
  wf_name name = true -> forallb wf_field (f :: fs) = true -> lookup_field name (f :: fs) = None ->
  has_text (field_pattern name suffix) (body_text f fs) = false.
Proof.
  intros Hn Hf Hl. pose proof (behind_absent name suffix (f :: fs) Hn Hf Hl) as Hb. cbn [tail_text] in Hb.
  rewrite (behind_skip _ ",") in Hb by done. unfold has_text.
  rewrite <- (behind_skip _ "{") in Hb by done. unfold behind in Hb. unfold body_text.
  by destruct (find_str _ ("{" +:+ _)).
Qed.

Lemma has_text_app p s t : has_text p (s +:+ p +:+ t) = true.
Proof.
  unfold has_text. induction s as [|c s IH].
  - rewrite str_app_nil_l. destruct (p +:+ t) eqn:E; cbn [find_str]; by rewrite <- E, starts_with_app.
  - rewrite str_app_cons, find_str_cons. destruct (starts_with _ _); [done|].
    by destruct (find_str p (s +:+ p +:+ t)).
Qed.

(** A literal field is found. *)
Lemma has_text_tail name v fs :
  lookup_field name fs = Some (Raw v) -> exists s t, tail_text fs = s +:+ field_pattern name v +:+ t.
Proof.
  induction fs as [|[n x] fs IH]; [done|]. cbn [lookup_field tail_text]. case_bool_decide as Hn.
  - intros [= ->]. subst n. exists ",", (tail_text fs). f_equal.
  - intros Hl. destruct (IH Hl) as (s & t & ->). exists ("," +:+ item (n, x) +:+ s), t. by rewrite !str_app_assoc.
Qed.
Lemma has_text_present name v f fs :
  lookup_field name fs = Some (Raw v) -> has_text (field_pattern name v) (body_text f fs) = true.
Proof.
  intros Hl. destruct (has_text_tail name v fs Hl) as (s & t & Ht). unfold body_text. rewrite Ht.
  rewrite <- !str_app_assoc, str_app_assoc. apply has_text_app.
Qed.

(** ** Numbers as texts *)

Lemma dec_digits_raw f n : 0 <= n -> all_chars raw_char (dec_digits f n) = true.
Proof.
  revert n. induction f as [|f IH]; intros n Hn; [done|]. cbn [dec_digits].
  assert (all_chars raw_char (String (byte_of_Z (48 + n mod 10)) "") = true) as Hd.
  { cbn [all_chars]. unfold raw_char. pose proof (Z.mod_pos_bound n 10). by rewrite isdigit_digit by lia. }
  destruct (n <? 10); [done|]. specialize (IH (n / 10) ltac:(apply Z.div_pos; lia)).
  revert IH Hd. generalize (dec_digits f (n / 10)), (String (byte_of_Z (48 + n mod 10)) ""). intros s t Hs Ht.
  induction s as [|c s IHs]; [done|]. cbn [all_chars] in Hs. apply andb_true_iff in Hs as [Hc Hs].
  rewrite str_app_cons. cbn [all_chars]. by rewrite Hc, IHs.
Qed.

Lemma to_string_raw z : wf_value (Raw (to_string z)) = true.
Proof.
  cbn [wf_value]. unfold to_string. destruct (Z.ltb_spec z 0); [cbn [is_nil negb andb all_chars]; by rewrite dec_digits_raw by lia|].
  rewrite dec_digits_raw by lia. pose proof (dec_digits_nonempty 20 z ltac:(lia)) as Hl.
  destruct (dec_digits 20 z); [simpl in Hl; lia|done].
Qed.
Lemma to_string_not_nil z : is_nil (to_string z) = false.
Proof. pose proof (to_string_raw z) as H. apply andb_true_iff in H as [H _]. by apply negb_true_iff in H. Qed.

Lemma get_u64_text n : is_u64 n -> get_u64 (to_string n) = inl n.
Proof. intros Hn. unfold get_u64. by rewrite stoull_to_string. Qed.
Lemma or_default_u64 n d : is_u64 n -> or_default get_u64 d (to_string n) = inl n.
Proof. intros Hn. unfold or_default. by rewrite to_string_not_nil, get_u64_text. Qed.
Lemma or_default_i64 n d : is_i64 n -> or_default get_i64 d (to_string n) = inl n.
Proof. intros Hn. unfold or_default, get_i64. by rewrite to_string_not_nil, stoll_to_string. Qed.
Lemma get_int_text n : is_u16 n -> get_int (to_string n) = inl n.
Proof.
  intros Hn. unfold get_int. rewrite stoll_to_string by lia.
  by rewrite (proj2 (Z.leb_le _ _)), (proj2 (Z.ltb_lt _ _)) by lia.
Qed.

(** ** Commands *)

Inductive expiry := NoExpiry | InSeconds (n : Z) | InMilliseconds (n : Z).
Definition expiry_ms (e : expiry) : Z :=
  match e with NoExpiry => 0 | InSeconds n => n * 1000 | InMilliseconds n => n end.

Inductive cli_command :=
  | C_Ping
  | C_Get (key : string)
  | C_Set (key value : string) (cond : SetCondition) (ttl : expiry)
  | C_Incr (key : string)
  | C_Decr (key : string)
  | C_IncrBy (key : string) (delta : Z) (ttl_ms : option Z)
  | C_RateLimit (key : string) (limit window_ms : Z)
  | C_Reserve (key : string) (amount ttl_ms : Z)
  | C_Commit (key reservation_id : string) (actual : Z)
  | C_Rollback (key reservation_id : string)
  | C_QuotaInit (key : string) (amount : Z)
  | C_QuotaGet (key : string)
  | C_IdemBegin (key hash : string) (ttl_ms : Z) (owner : string)
  | C_IdemComplete (key owner : string) (code : Z) (body : option string)
  | C_IdemFail (key owner : string) (message : option string)
  | C_Type (key : string)
  | C_PExpire (key : string) (ttl_ms : Z)
  | C_Ttl (key : string).

Definition condition_words (c : SetCondition) : list string :=
  match c with SC_Always => [] | SC_IfAbsent => ["NX"] | SC_IfPresent => ["XX"] end.
Definition expiry_words (e : expiry) : list string :=
  match e with NoExpiry => [] | InSeconds n => ["EX"; to_string n] | InMilliseconds n => ["PX"; to_string n] end.

(** The words of a command, as the help text describes it. *)
Definition words (c : cli_command) : string * list string :=
  match c with
  | C_Ping => ("PING", [])
  | C_Get k => ("GET", [k])
  | C_Set k v cond ttl => ("SET", k :: v :: condition_words cond ++ expiry_words ttl)
  | C_Incr k => ("INCR", [k])
  | C_Decr k => ("DECR", [k])
  | C_IncrBy k d ttl =>
      ("INCRBY", k :: to_string d :: match ttl with Some t => ["PX"; to_string t] | None => [] end)
  | C_RateLimit k l w => ("GK.RATE_LIMIT", [k; to_string l; to_string w])
  | C_Reserve k a t => ("GK.RESERVE", [k; to_string a; to_string t])
  | C_Commit k i a => ("GK.COMMIT", [k; i; to_string a])
  | C_Rollback k i => ("GK.ROLLBACK", [k; i])
  | C_QuotaInit k a => ("GK.QUOTA_INIT", [k; to_string a])
  | C_QuotaGet k => ("GK.QUOTA_GET", [k])
  | C_IdemBegin k h t o => ("GK.IDEM_BEGIN", [k; h; to_string t; o])
  | C_IdemComplete k o c b => ("GK.IDEM_COMPLETE", k :: o :: to_string c :: match b with Some b => [b] | None => [] end)
  | C_IdemFail k o m => ("GK.IDEM_FAIL", k :: o :: match m with Some m => [m] | None => [] end)
  | C_Type k => ("TYPE", [k])
  | C_PExpire k t => ("PEXPIRE", [k; to_string t])
  | C_Ttl k => ("TTL", [k])
  end.

(** The request that is meant. *)
Definition meant (c : cli_command) : BinaryRequest :=
  match c with
  | C_Ping => RPing
  | C_Get k => RGet k
  | C_Set k v cond ttl => RSet k v cond (expiry_ms ttl)
  | C_Incr k => RIncr k 1 0
  | C_Decr k => RIncr k (-1) 0
  | C_IncrBy k d ttl => RIncr k d (default 0 ttl)
  | C_RateLimit k l w => RRateLimit k l w 1
  | C_Reserve k a t => RReserve k a t
  | C_Commit k i a => RCommit k i a
  | C_Rollback k i => RRollback k i
  | C_QuotaInit k a => RQuotaInit k a
  | C_QuotaGet k => RQuotaGet k
  | C_IdemBegin k h t o => RIdemBegin k h t o
  | C_IdemComplete k o c b => RIdemComplete k o c (default "" b)
  | C_IdemFail k o m => RIdemFail k o (default "" m)
  | C_Type k => RType k
  | C_PExpire k t => RExpire k t
  | C_Ttl k => RTtl k
  end.

(** Nonempty keys, tokens and identifiers, and texts without quotes, backslashes and
    control characters. *)
Definition good (s : string) : Prop := is_nil s = false /\ plain s = true.
Definition plain_command (c : cli_command) : Prop :=
  match c with
  | C_Ping => True
  | C_Get k | C_Incr k | C_Decr k | C_IncrBy k _ _ | C_RateLimit k _ _ | C_Reserve k _ _ | C_QuotaInit k _
  | C_QuotaGet k | C_Type k | C_PExpire k _ | C_Ttl k => good k
  | C_Set k v _ ttl => good k /\ plain v = true /\ match ttl with InSeconds n => 0 <= n | _ => True end
  | C_Commit k i _ | C_Rollback k i => good k /\ good i
  | C_IdemBegin k h _ o => good k /\ good h /\ plain o = true
  | C_IdemComplete k o _ b => good k /\ good o /\ match b with Some b => plain b = true | None => True end
  | C_IdemFail k o m => good k /\ good o /\ match m with Some m => plain m = true | None => True end
  end.

(** ** The request of each command *)

Definition cli_registry : registry := default [] NewRegistry.

Lemma find_emplace commands name e name' :
  find_entry commands name = None ->
  find_entry (emplace_entry commands name e) name' = if bool_decide (name = name') then Some e else find_entry commands name'.
Proof.
  induction commands as [|[n x] commands IH]; [done|]. cbn [find_entry emplace_entry].
  destruct (decide (n = name)) as [->|Hn]; [by rewrite (bool_decide_true (name = name))|].
  rewrite (bool_decide_false (n = name)) by done. intros Hf. destruct (String.ltb name n); cbn [find_entry]; [done|].
  rewrite IH by done. repeat case_bool_decide; congruence.
Qed.

(** Registering new names succeeds, and every entry is found. *)
Lemma register_all_finds entries commands :
  NoDup (entries.*1.*1) -> Forall (fun n => NormalizeName n = n /\ n <> "") (entries.*1.*1) ->
  Forall (fun n => find_entry commands n = None) (entries.*1.*1) ->
  exists commands', register_all commands entries = Some commands' /\
    forall name d h, (name, d, h) ∈ entries \/ find_entry commands name = Some (mkCliEntry d h) ->
      find_entry commands' name = Some (mkCliEntry d h).
Proof.
  revert commands. induction entries as [|[[n d] h] entries IH]; intros commands; cbn [fmap list_fmap fst].
  { intros _ _ _. exists commands. split; [done|]. by intros name d h [?%not_elem_of_nil|]. }
  intros [Hn Hnd]%list.NoDup_cons [[Hnorm Hne] Hall]%Forall_cons_iff [Hf Hnone]%Forall_cons_iff.
  cbn [register_all]. unfold Register. rewrite Hnorm, Hf. destruct n as [|c n]; [done|].
  rewrite bool_decide_false by (by intros []). cbn [is_nil orb].
  destruct (IH (emplace_entry commands (String c n) (mkCliEntry d h)) Hnd Hall) as (commands' & Hr & Hfind).
  { apply list.Forall_forall. intros x Hx. rewrite find_emplace by done. rewrite list.Forall_forall in Hnone.
    rewrite bool_decide_false by (by intros <-). by apply Hnone. }
  exists commands'. split; [done|]. intros name d' h' Hin. apply Hfind. rewrite find_emplace by done.
  destruct Hin as [[[= -> -> ->]|Hin]%elem_of_cons|Hin]; [right; by rewrite bool_decide_true|by left|].
  right. rewrite bool_decide_false; [done|congruence].
Qed.

Lemma builtin_found :
  NewRegistry = Some cli_registry /\
  forall name d h, (name, d, h) ∈ builtin_commands -> find_entry cli_registry name = Some (mkCliEntry d h).
Proof.
  destruct (register_all_finds builtin_commands []) as (commands & Hr & Hf).
  - apply (bool_decide_unpack _). by vm_compute.
  - apply (bool_decide_unpack _). by vm_compute.
  - by repeat constructor.
  - unfold cli_registry, NewRegistry. rewrite Hr. split; [done|]. intros name d h Hin. apply Hf. by left.
Qed.

(** What the handler of the command asks for. *)
Definition asked (c : cli_command) : option answer :=
  match find_entry cli_registry (words c).1 with
  | Some entry => Some (handler entry (words c).2)
  | None => None
  end.

(** The fields of its body after the key. *)
Definition condition_fields (c : SetCondition) : list (string * field_value) :=
  match c with
  | SC_Always => [] | SC_IfAbsent => [("if_not_exists", Raw "true")] | SC_IfPresent => [("if_exists", Raw "true")]
  end.
Definition expiry_fields (e : expiry) : list (string * field_value) :=
  match e with NoExpiry => [] | _ => [("ttl_ms", Raw (to_string (expiry_ms e)))] end.
Definition optional_field (name : string) (v : option field_value) : list (string * field_value) :=
  match v with Some v => [(name, v)] | None => [] end.

Definition command_fields (c : cli_command) : list (string * field_value) :=
  match c with
  | C_Set _ v cond ttl => ("value", Quoted_ v) :: condition_fields cond ++ expiry_fields ttl
  | C_IncrBy _ d ttl => ("delta", Raw (to_string d)) :: optional_field "ttl_ms" ((fun t => Raw (to_string t)) <$> ttl)
  | C_RateLimit _ l w => [("limit", Raw (to_string l)); ("window_ms", Raw (to_string w))]
  | C_Reserve _ a t => [("amount", Raw (to_string a)); ("ttl_ms", Raw (to_string t))]
  | C_Commit _ i a => [("reservation_id", Quoted_ i); ("actual_amount", Raw (to_string a))]
  | C_Rollback _ i => [("reservation_id", Quoted_ i)]
  | C_QuotaInit _ a => [("amount", Raw (to_string a))]
  | C_IdemBegin _ h t o =>
      ("request_hash", Quoted_ h) :: ("ttl_ms", Raw (to_string t)) ::
      (if is_nil o then [] else [("owner_token", Quoted_ o)])
  | C_IdemComplete _ o c b =>
      ("owner_token", Quoted_ o) :: ("response_code", Raw (to_string c)) :: optional_field "response_body" (Quoted_ <$> b)
  | C_IdemFail _ o m => ("owner_token", Quoted_ o) :: optional_field "error_message" (Quoted_ <$> m)
  | C_PExpire _ t => [("ttl_ms", Raw (to_string t))]
  | _ => []
  end.
Definition command_key (c : cli_command) : option string :=
  match c with
  | C_Ping => None
  | C_Get k | C_Incr k | C_Decr k | C_IncrBy k _ _ | C_RateLimit k _ _ | C_Reserve k _ _ | C_QuotaInit k _
  | C_QuotaGet k | C_Type k | C_PExpire k _ | C_Ttl k | C_Set k _ _ _ | C_Commit k _ _ | C_Rollback k _
  | C_IdemBegin k _ _ _ | C_IdemComplete k _ _ _ | C_IdemFail k _ _ => Some k
  end.
Definition command_body (c : cli_command) : string :=
  match command_key c with Some k => body_text ("key", Quoted_ k) (command_fields c) | None => "{}" end.

Lemma key_open_text k rest :
  plain k = true -> key_open k +:+ rest = "{" +:+ item ("key", Quoted_ k) +:+ rest.
Proof. intros Hk. unfold key_open, item. cbn [fst snd value_text]. rewrite plain_quote, !str_app_assoc by done. done. Qed.

(** The flags of SET lead to its fields. *)
Lemma set_flags_nx args body has_ttl :
  set_flags ("NX" :: args) body false has_ttl = set_flags args (body +:+ jq ",'if_not_exists':true") true has_ttl.
Proof. reflexivity. Qed.
Lemma set_flags_xx args body has_ttl :
  set_flags ("XX" :: args) body false has_ttl = set_flags args (body +:+ jq ",'if_exists':true") true has_ttl.
Proof. reflexivity. Qed.
Lemma set_flags_ex value n i args body has_cond :
  stoull value = Some (n, i) ->
  set_flags ("EX" :: value :: args) body has_cond false =
  set_flags args (body +:+ jq ",'ttl_ms':" +:+ to_string (u64 (n * 1000))) has_cond true.
Proof. intros Hn. destruct has_cond; cbn [set_flags]; rewrite Hn; reflexivity. Qed.
Lemma set_flags_px value n i args body has_cond :
  stoull value = Some (n, i) ->
  set_flags ("PX" :: value :: args) body has_cond false =
  set_flags args (body +:+ jq ",'ttl_ms':" +:+ to_string n) has_cond true.
Proof. intros Hn. destruct has_cond; cbn [set_flags]; rewrite Hn; reflexivity. Qed.


(** [t] is the text of the expiry. *)
Lemma set_flags_expiry ttl :
  match ttl with InSeconds n => 0 <= n | _ => True end -> is_u64 (expiry_ms ttl) -> ttl <> NoExpiry ->
  forall body has_cond, set_flags (expiry_words ttl) body has_cond false =
    inl (body +:+ jq ",'ttl_ms':" +:+ to_string (expiry_ms ttl)).
Proof.
  intros Hp Hu Hne body has_cond. destruct ttl as [|n|n]; [done|..]; cbn [expiry_words expiry_ms] in *.
  - rewrite (set_flags_ex _ n (String.length (to_string n))), u64_id by (done || apply stoull_to_string; lia). done.
  - by rewrite (set_flags_px _ n (String.length (to_string n))) by (by apply stoull_to_string).
Qed.

Lemma set_flags_words cond ttl body :
  match ttl with InSeconds n => 0 <= n | _ => True end -> is_u64 (expiry_ms ttl) ->
  exists body', set_flags (condition_words cond ++ expiry_words ttl) body false false = inl body' /\
    body' +:+ "}" = body +:+ tail_text (condition_fields cond ++ expiry_fields ttl).
Proof.
  intros Hp Hu. pose proof (set_flags_expiry ttl Hp Hu) as He.
  assert (expiry_fields ttl = [] /\ expiry_words ttl = [] \/
          expiry_fields ttl = [("ttl_ms", Raw (to_string (expiry_ms ttl)))] /\ ttl <> NoExpiry) as [[-> ->]|[-> Hne]]
    by (destruct ttl; auto).
  - destruct cond; cbn [condition_words condition_fields app]; rewrite ?set_flags_nx, ?set_flags_xx;
      eexists; (split; [reflexivity|]); by rewrite ?str_app_assoc.
  - specialize (He Hne). generalize dependent (to_string (expiry_ms ttl)). intros t He.
    destruct cond; cbn [condition_words condition_fields app]; rewrite ?set_flags_nx, ?set_flags_xx, He;
      eexists; (split; [reflexivity|]); by rewrite ?str_app_assoc.
Qed.

(** The entry of a builtin command. *)
Ltac find_builtin :=
  match goal with |- context [find_entry cli_registry ?n] =>
    erewrite (proj2 builtin_found n) by
      (unfold builtin_commands; repeat first [apply list_elem_of_here | apply list_elem_of_further]) end.

(** The body the handler writes. *)
Ltac same_body :=
  unfold command_body, body_text;
  cbn [command_key command_fields optional_field fmap option_fmap option_map tail_text];
  rewrite key_open_text by done; unfold raw_field, quoted_field;
  rewrite ?plain_quote by done; unfold item; cbn [fst snd value_text]; rewrite ?str_app_assoc; reflexivity.

Lemma asked_body c :
  plain_command c -> wf_request (meant c) -> asked c = Some (Remote (words c).1 (command_body c)).
Proof.
  intros Hp Hw. unfold asked. destruct c; cbn [words fst snd plain_command meant wf_request] in *; find_builtin;
    cbn [handler]; f_equal; unfold good in *.
  - destruct Hp as [Hn Hk]. unfold key_command. rewrite Hn. f_equal. same_body.
  - destruct Hp as ([Hn Hk] & Hv & Ht). unfold cli_SET. rewrite Hn.
    destruct (set_flags_words cond ttl (key_open key +:+ jq ",'value':" +:+ QuoteJson value)) as (body & -> & Hb);
      [done|tauto|]. f_equal. rewrite Hb. rewrite str_app_assoc. same_body.
  - destruct Hp as [Hn Hk]. unfold key_command. rewrite Hn. f_equal. same_body.
  - destruct Hp as [Hn Hk]. unfold key_command. rewrite Hn. f_equal. same_body.
  - destruct Hp as [Hn Hk]. unfold cli_INCRBY. rewrite Hn, to_string_not_nil. cbn [orb].
    destruct ttl_ms as [t|].
    + change (bool_decide (NormalizeName "PX" = "EX")) with false.
      change (bool_decide (NormalizeName "PX" = "PX")) with true. cbv iota zeta. f_equal.
      cbn [fmap option_fmap option_map]. rewrite str_app_assoc. same_body.
    + f_equal. rewrite str_app_assoc. same_body.
  - destruct Hp as [Hn Hk]. unfold cli_RATE_LIMIT, three_arguments. rewrite Hn, !to_string_not_nil. f_equal. same_body.
  - destruct Hp as [Hn Hk]. unfold cli_RESERVE, three_arguments. rewrite Hn, !to_string_not_nil. f_equal. same_body.
  - destruct Hp as [[Hn Hk] [Hi Hi']]. unfold cli_COMMIT, three_arguments. rewrite Hn, Hi, !to_string_not_nil. f_equal. same_body.
  - destruct Hp as [[Hn Hk] [Hi Hi']]. unfold cli_ROLLBACK, two_arguments. rewrite Hn, Hi. f_equal. same_body.
  - destruct Hp as [Hn Hk]. unfold cli_QUOTA_INIT, two_arguments. rewrite Hn, !to_string_not_nil. f_equal. same_body.
  - destruct Hp as [Hn Hk]. unfold key_command. rewrite Hn. f_equal. same_body.
  - destruct Hp as ([Hn Hk] & [Hh Hh'] & Ho). unfold cli_IDEM_BEGIN. rewrite Hn, Hh, to_string_not_nil. cbn [orb].
    destruct (is_nil owner) eqn:Hown; f_equal; rewrite !str_app_assoc; unfold command_body, body_text;
      cbn [command_key command_fields tail_text]; rewrite Hown; same_body.
  - destruct Hp as ([Hn Hk] & [Ho Ho'] & Hb). unfold cli_IDEM_COMPLETE. rewrite Hn, Ho, to_string_not_nil. cbn [orb].
    destruct body as [b|]; f_equal; rewrite !str_app_assoc; same_body.
  - destruct Hp as ([Hn Hk] & [Ho Ho'] & Hm). unfold cli_IDEM_FAIL. rewrite Hn, Ho. cbn [orb].
    destruct message as [b|]; f_equal; rewrite !str_app_assoc; same_body.
  - destruct Hp as [Hn Hk]. unfold key_command. rewrite Hn. f_equal. same_body.
  - destruct Hp as [Hn Hk]. unfold cli_PEXPIRE, two_arguments. rewrite Hn, to_string_not_nil. f_equal. same_body.
  - destruct Hp as [Hn Hk]. unfold key_command. rewrite Hn. f_equal. same_body.
Qed.

Lemma command_fields_wf c k :
  plain_command c -> command_key c = Some k -> forallb wf_field (("key", Quoted_ k) :: command_fields c) = true.
Proof.
  assert (forall s, plain s = true -> wf_value (Quoted_ s) = true) as Hq by done.
  assert (forall n v, wf_name n = true -> wf_value v = true -> wf_field (n, v) = true) as Hf.
  { intros n v Hn Hv. unfold wf_field. cbn [fst snd]. by rewrite Hn, Hv. }
  assert (forall n z, wf_name n = true -> wf_field (n, Raw (to_string z)) = true) as Hr.
  { intros n z Hn. apply Hf; [done|apply to_string_raw]. }
  intros Hp Hk. apply forallb_forall. apply List.Forall_forall.
  destruct c; cbn [command_key] in Hk; simplify_eq; cbn [plain_command command_fields] in *; unfold good in *;
    try (destruct cond; destruct ttl as [|?|?]); try destruct ttl_ms as [?|]; try destruct body as [?|];
    try destruct message as [?|]; try destruct (is_nil owner);
    cbn [condition_fields expiry_fields optional_field fmap option_fmap option_map app];
    repeat (constructor; [first [by apply Hr | apply Hf; [done|apply Hq; tauto] | done]|]); constructor.
Qed.

Lemma command_extract c k name :
  plain_command c -> command_key c = Some k -> wf_name name = true ->
  ExtractField (command_body c) name = field_text name (("key", Quoted_ k) :: command_fields c).
Proof.
  intros Hp Hk Hn. unfold command_body. rewrite Hk. apply extract_body; [done|]. by apply command_fields_wf.
Qed.

(** The condition the client finds in the body of SET. *)
Lemma command_set_flag k v cond ttl :
  plain_command (C_Set k v cond ttl) -> set_flag (command_body (C_Set k v cond ttl)) = cond.
Proof.
  intros Hp. pose proof (command_fields_wf _ k Hp eq_refl) as Hf. unfold set_flag, command_body. cbn [command_key].
  change (jq "'if_not_exists':true") with (field_pattern "if_not_exists" "true").
  change (jq "'if_exists':true") with (field_pattern "if_exists" "true").
  destruct cond.
  - rewrite !has_text_absent by (try done; by destruct ttl). done.
  - by rewrite has_text_present by done.
  - rewrite has_text_absent by (try done; by destruct ttl). by rewrite has_text_present by done.
Qed.

(** The branch of [build_request] for a known operation. *)
Ltac pick_operation :=
  unfold build_request; cbv beta zeta;
  repeat match goal with |- context [bool_decide (?a = ?b)] =>
    let r := eval vm_compute in (bool_decide (a = b)) in change (bool_decide (a = b)) with r end;
  cbn [orb]; cbv iota.
(** The field [n] of the command is [v]. *)
Ltac field n v := match goal with |- context [field_text n ?fs] => change (field_text n fs) with v end.

Lemma request_built c :
  plain_command c -> wf_request (meant c) ->
  build_request (words c).1 (command_body c) = inl (opcode_of_request (meant c), meant c).
Proof.
  intros Hp Hw. destruct (command_key c) as [k|] eqn:Hk; [|by destruct c].
  pose proof (fun name => command_extract c k name Hp Hk) as Hx.
  destruct c; cbn [command_key words fst meant opcode_of_request wf_request command_fields] in *; simplify_eq;
    pick_operation; rewrite !Hx by done; field "key" k; try reflexivity.
  - rewrite command_set_flag by done. field "value" value.
    assert (or_default get_u64 0 (field_text "ttl_ms" (("key", Quoted_ k) :: ("value", Quoted_ value) ::
      condition_fields cond ++ expiry_fields ttl)) = inl (expiry_ms ttl)) as ->; [|done].
    destruct cond, ttl as [|n|n]; try reflexivity; cbn [condition_fields expiry_fields app];
      field "ttl_ms" (to_string (expiry_ms (InSeconds n))) || field "ttl_ms" (to_string n);
      apply or_default_u64, Hw.
  - field "delta" (to_string delta). rewrite or_default_i64 by tauto. cbn [ebind].
    destruct ttl_ms as [t|]; [|reflexivity]. cbn [optional_field fmap option_fmap option_map].
    field "ttl_ms" (to_string t). by rewrite or_default_u64 by apply Hw.
  - field "limit" (to_string limit). field "window_ms" (to_string window_ms). by rewrite !get_u64_text by tauto.
  - field "amount" (to_string amount). field "ttl_ms" (to_string ttl_ms). by rewrite !get_u64_text by tauto.
  - field "actual_amount" (to_string actual). by rewrite !get_u64_text by tauto.
  - field "amount" (to_string amount). by rewrite !get_u64_text by tauto.
  - field "ttl_ms" (to_string ttl_ms). rewrite or_default_u64 by tauto. cbn [ebind].
    destruct owner as [|x owner]; reflexivity.
  - field "response_code" (to_string code). rewrite get_int_text by tauto. cbn [ebind].
    destruct body as [b|]; reflexivity.
  - destruct message as [m|]; reflexivity.
  - field "ttl_ms" (to_string ttl_ms). by rewrite or_default_u64 by tauto.
Qed.

Lemma Execute_asked {H} (execute_remote : H -> string -> string -> option (H * (string + string))) h c line :
  plain_command c -> wf_request (meant c) -> command_line (words c).1 (words c).2 line ->
  Cli.Execute execute_remote cli_registry h line =
    run_answer execute_remote cli_registry h (Remote (words c).1 (command_body c)).
Proof.
  intros Hp Hw Hl. pose proof (asked_body c Hp Hw) as Ha. unfold asked in Ha.
  destruct (find_entry cli_registry (words c).1) as [entry|] eqn:He; [|done]. injection Ha as Ha.
  rewrite (Execute_line execute_remote cli_registry h _ _ line entry Hl He). by rewrite Ha.
Qed.

(** A command line leads to the request it describes.  For every command the
    client supports, with plain nonempty keys and identifiers and numbers in range,
    and every way to type it (spaces, case, quotes around arguments), the registry
    asks for one operation with a JSON body from which the client builds exactly the
    meant binary request: the right opcode, key, texts, numbers, condition and
    expiry. *)
Theorem cli_requests_meant {H} (execute_remote : H -> string -> string -> option (H * (string + string))) h c line :
  plain_command c -> wf_request (meant c) -> command_line (words c).1 (words c).2 line ->
  exists body,
    Cli.Execute execute_remote cli_registry h line =
      run_answer execute_remote cli_registry h (Remote (words c).1 body) /\
    build_request (words c).1 body = inl (opcode_of_request (meant c), meant c).
Proof.
  intros Hp Hw Hl. exists (command_body c). split; [by apply Execute_asked|by apply request_built].
Qed.

(** ** Commands that lose their arguments *)

Lemma behind_keys name args first rest :
  wf_name name = true -> forallb plain args = true -> bounded rest ->
  behind (field_pattern name "") (quoted_keys first args +:+ rest) = behind (field_pattern name "") rest.
Proof.
  intros Hn Ha Hr. revert first. induction args as [|x args IH]; intros first; [done|].
  cbn [forallb quoted_keys] in *. apply andb_true_iff in Ha as [Hx Ha].
  rewrite plain_quote by done. rewrite !str_app_assoc, behind_skip by (by destruct first).
  rewrite (str_app_cons dquote ""), str_app_nil_l, behind_quoted; [by apply IH|done|done|].
  destruct args as [|y args]; cbn [quoted_keys]; [by rewrite str_app_nil_l|].
  rewrite !str_app_assoc, str_app_cons. by do 2 eexists.
Qed.

Lemma keys_body_empty args :
  forallb plain args = true -> ExtractField (jq "{'keys':[" +:+ quoted_keys true args +:+ "]}") "key" = "".
Proof.
  intros Ha. rewrite ExtractField_behind, search_pattern.
  change (jq "{'keys':[" +:+ quoted_keys true args +:+ "]}")
    with ("{" +:+ String dquote ("keys" +:+ String dquote (":[" +:+ (quoted_keys true args +:+ "]}")))).
  rewrite behind_skip by done. rewrite behind_mismatch by (by rewrite starts_with_names).
  rewrite behind_skip by done. rewrite behind_mismatch by done. rewrite behind_skip by done.
  rewrite behind_keys; [done|done|done|]. by do 2 eexists.
Qed.

(** C39: The registry and the client disagree on three commands.  DEL and EXISTS send
    their keys as an array named keys, while the client looks for a field named key:
    whatever plain keys are given, the request is for the empty key.  EXPIRE sends
    ttl_seconds, while the client looks for ttl_ms: whatever the number of seconds,
    the request has the time to live 0. *)
Theorem cli_arguments_lost args key seconds :
  args <> [] -> forallb plain args = true -> good key ->
  (exists body, keys_command "DEL" args = Remote "DEL" body /\ build_request "DEL" body = inl (Op_Del, RDel "")) /\
  (exists body, keys_command "EXISTS" args = Remote "EXISTS" body /\
    build_request "EXISTS" body = inl (Op_Exists, RExists "")) /\
  (exists body, cli_EXPIRE [key; to_string seconds] = Remote "EXPIRE" body /\
    build_request "EXPIRE" body = inl (Op_Expire, RExpire key 0)).
Proof.
  intros Hne Ha [Hn Hk]. split_and!.
  - eexists. split; [by destruct args|]. pick_operation. by rewrite keys_body_empty.
  - eexists. split; [by destruct args|]. pick_operation. by rewrite keys_body_empty.
  - exists (body_text ("key", Quoted_ key) [("ttl_seconds", Raw (to_string seconds))]). split.
    + unfold cli_EXPIRE, two_arguments. rewrite Hn, to_string_not_nil. cbn [orb]. f_equal. unfold body_text.
      cbn [tail_text]. rewrite key_open_text by done. done.
    + pose proof (to_string_raw seconds) as Hr. pick_operation.
      assert (forallb wf_field [("key", Quoted_ key); ("ttl_seconds", Raw (to_string seconds))] = true) as Hf.
      { cbn [forallb]. unfold wf_field. cbn [fst snd]. rewrite Hr. cbn [wf_value]. by rewrite Hk. }
      by rewrite !extract_body by done.
Qed.

(** ** Witnesses *)

Lemma cli_requests_meant_witness :
  let line := " set 'my key' 1  " in
  exists body,
    Cli.Execute (fun n op b => Some (S n, inl op)) cli_registry 0%nat (jq line) =
      run_answer (fun n op b => Some (S n, inl op)) cli_registry 0%nat (Remote "SET" body) /\
    build_request "SET" body = inl (Op_Set, RSet "my key" "1" SC_Always 0).
Proof.
  apply (cli_requests_meant _ 0%nat (C_Set "my key" "1" SC_Always NoExpiry)).
  - done.
  - done.
  - apply (a_command_line "SET" ["my key"; "1"] " " "set" (jq " 'my key' 1  ")); [done..|].
    apply (splits_argument " " (jq "'my key'") "my key" " 1  "); [done..|apply (spells_quoted "my key")|].
    apply (splits_argument " " "1" "1" "  "); [done..|by apply spells_word|]. by apply splits_end.
Defined.

Lemma cli_arguments_lost_witness :
  exists body, keys_command "DEL" ["a"; "b"] = Remote "DEL" body /\ build_request "DEL" body = inl (Op_Del, RDel "").
Proof. apply (cli_arguments_lost ["a"; "b"] "k" 60); done. Defined.
