(* ===== verification/EndToEnd.v ===== *)
(** * From the client to the store and back

    server_main.cpp gives the binary connections the handler
    [[&processor](std::string_view payload) { return processor.Process(payload); }].
    A client request goes through its frame, the connection's decoder, the
    processor and the store; the response goes back through the connection's
    buffers and is rendered by the client. *)
From S2P Require Import Prelude CStd Entry Store MemoryStore KvTrace Json Frame Decoder Streams Codec Processor Dispatcher Aof Replay Socket Http Client ClientSpec Channel.

Section server.
Context {S : Type} `{!Store S}.
Context (now : Z) (aof : bool).

(** The store and the lines logged so far. *)
Definition processor_handler (h : S * list aof_line) (payload : string) : option (S * list aof_line * string) :=
  match Process now aof h.1 payload with
  | Some (st, lines, response) => Some (st, h.2 ++ lines, response)
  | None => None
  end.

(** ** The client's side of an exchange *)

(** The bytes that a sequence of [recv] answers delivers. *)
Fixpoint received_text (reads : list recv_result) : option string :=
  match reads with
  | [] => Some ""
  | Received (String _ _ as data) :: reads => (fun s => data +:+ s) <$> received_text reads
  | RecvIntr :: reads => received_text reads
  | _ => None
  end.

Lemma ReadAll_received strerror errno_ c n reads a b :
  received_text reads = Some (a +:+ b) -> String.length a = n ->
  exists reads', ReadAll strerror errno_ c n reads = Done (a, reads') /\ received_text reads' = Some b.
Proof.
  revert n a. induction reads as [|r reads IH]; intros n a Hr Hn.
  { cbn in Hr. destruct a; [|done]. simpl in Hn. subst n. exists []. split; [done|].
    by rewrite str_app_nil_l in Hr. }
  destruct n as [|n].
  { destruct a; [|done]. rewrite str_app_nil_l in Hr. by exists (r :: reads). }
  destruct r as [data| | | |]; try done.
  2:{ cbn [received_text] in Hr. cbn [ReadAll]. by apply IH. }
  destruct data as [|x data]; [done|]. cbn [received_text] in Hr.
  destruct (received_text reads) as [s|] eqn:Hs; [|done]. cbn [fmap option_fmap option_map] in Hr.
  injection Hr as Hr. cbn [ReadAll is_nil]. remember (String x data) as d eqn:Hd.
  destruct (Nat.ltb_spec (Datatypes.S n) (String.length d)) as [Hlt|Hge].
  - exists (Received (str_drop (Datatypes.S n) d) :: reads).
    assert (str_take (Datatypes.S n) d = a /\ str_drop (Datatypes.S n) d +:+ s = b) as [Ha Hb].
    { assert (str_take (Datatypes.S n) (d +:+ s) = str_take (Datatypes.S n) (a +:+ b)) as H1 by (by rewrite Hr).
      rewrite str_take_app_le in H1 by lia. rewrite (str_take_app _ a) in H1 by done.
      assert (str_drop (Datatypes.S n) (d +:+ s) = str_drop (Datatypes.S n) (a +:+ b)) as H2 by (by rewrite Hr).
      rewrite str_drop_app_le in H2 by lia. rewrite (str_drop_app _ a) in H2 by done. done. }
    rewrite Ha. split; [done|]. cbn [received_text].
    destruct (str_drop (Datatypes.S n) d) as [|y rest] eqn:Hdrop.
    { apply (f_equal String.length) in Hdrop. rewrite str_drop_length in Hdrop. simpl in Hdrop. lia. }
    rewrite Hs. cbn [fmap option_fmap option_map]. by rewrite Hb.
  - assert (exists a', a = d +:+ a' /\ s = a' +:+ b) as (a' & -> & ->).
    { exists (str_drop (String.length d) a).
      assert (str_take (String.length d) (d +:+ s) = str_take (String.length d) (a +:+ b)) as H1 by (by rewrite Hr).
      rewrite (str_take_app _ d), str_take_app_le in H1 by lia.
      assert (str_drop (String.length d) (d +:+ s) = str_drop (String.length d) (a +:+ b)) as H2 by (by rewrite Hr).
      rewrite (str_drop_app _ d), str_drop_app_le in H2 by lia. split; [|done].
      transitivity (str_take (String.length d) a +:+ str_drop (String.length d) a);
        [by rewrite str_take_drop|by rewrite <- H1]. }
    rewrite str_length_app in Hn.
    destruct (IH (Datatypes.S n - String.length d)%nat a' eq_refl ltac:(lia)) as (reads' & -> & Hb).
    by exists reads'.
Qed.

(** A socket that takes what it is given, in pieces. *)
Definition takes (sends : list send_result) (bytes : string) : Prop :=
  Forall (fun r => match r with Sent n => (0 < n)%nat | Intr => True | _ => False end) sends /\
  (String.length bytes <= length (List.filter (fun r => match r with Sent _ => true | _ => false end) sends))%nat.

Lemma SendAll_takes strerror errno_ c sends bytes :
  takes sends bytes -> exists rest, SendAll strerror errno_ c bytes sends = Done rest.
Proof.
  intros [Hf Hl]. revert bytes Hl. induction Hf as [|r sends Hr _ IH]; intros bytes Hl; destruct bytes as [|x bytes];
    try (by eexists); [simpl in Hl; lia|].
  destruct r as [[|n]| | |]; try done; [lia| |].
  - cbn [SendAll]. apply IH. rewrite str_drop_length. cbn [List.filter length String.length] in *. lia.
  - cbn [SendAll]. by apply IH.
Qed.

(** ** The client reads the response frame *)

Lemma response_header id stream payload (fin : bool) :
  is_u64 id -> is_u32 stream -> slen payload <= kMaxPayloadLength ->
  let f := mkFrame (make_header (if fin then kEndStream else 0) MT_Response id stream payload) payload in
  valid_frame f /\ EncodeResponse id stream payload fin = encode f.
Proof.
  intros Hid Hs Hp. pose proof (slen_nonneg payload). unfold kMaxPayloadLength in Hp. split; [|done].
  assert (u32 (slen payload) = slen payload) as E by (apply u32_id; lia).
  split; [split|..]; cbn; rewrite ?E; try done; try lia; destruct fin; cbn; try lia;
    unfold kEndStream, kMaxPayloadLength; lia.
Qed.

Lemma read_reply_response strerror errno_ c reads id stream payload (fin : bool) :
  is_u64 id -> is_u32 stream -> slen payload <= kMaxPayloadLength ->
  received_text reads = Some (EncodeResponse id stream payload fin) ->
  read_reply strerror errno_ c reads = Done payload.
Proof.
  intros Hid Hs Hp Hr. destruct (response_header id stream payload fin Hid Hs Hp) as [Hv He].
  set (f := mkFrame _ payload) in *. rewrite He, encode_bytes in Hr by done.
  pose proof (header_bytes_length (f_header f) eq_refl) as Hl.
  destruct (ReadAll_received strerror errno_ c kHeaderSize reads _ _ Hr Hl) as (reads1 & H1 & Hr1).
  unfold read_reply. rewrite H1.
  pose proof (read_header_bytes (f_header f) "" (vf_header _ Hv)) as Hh. rewrite str_app_nil_r in Hh.
  assert (num_at 0 2 (header_bytes (f_header f)) = kMagic) as ->
    by (change (h_magic (read_header (header_bytes (f_header f))) = kMagic); by rewrite Hh).
  assert (num_at 20 4 (header_bytes (f_header f)) = slen payload) as ->.
  { change (h_payload_len (read_header (header_bytes (f_header f))) = slen payload). rewrite Hh. apply Hv. }
  rewrite Z.eqb_refl. cbn [negb]. rewrite (proj2 (Z.ltb_ge _ _)) by lia.
  rewrite <- (str_app_nil_r (f_payload f)) in Hr1.
  destruct (ReadAll_received strerror errno_ c (Z.to_nat (slen payload)) reads1 _ _ Hr1) as (reads2 & -> & _); [|done].
  unfold slen. by rewrite Nat2Z.id.
Qed.

(** ** The request the client builds *)

Lemma build_request_opcode operation body op r :
  build_request operation body = inl (op, r) -> op = opcode_of_request r.
Proof.
  unfold build_request, ebind. intros H.
  repeat match type of H with
  | context [bool_decide ?P] => destruct (bool_decide P); cbn [orb] in H
  | context [match ?x with inl _ => _ | inr _ => _ end] => destruct x
  end; try discriminate H; by injection H as <- <-.
Qed.

Definition request_frame (id : Z) (r : BinaryRequest) : Frame :=
  mkFrame (request_header id (encode_request r)) (encode_request r).

Lemma request_frame_valid id r :
  is_u64 id -> slen (encode_request r) <= kMaxPayloadLength -> valid_frame (request_frame id r).
Proof.
  intros Hid Hp. pose proof (slen_nonneg (encode_request r)). unfold kMaxPayloadLength in Hp.
  assert (u32 (slen (encode_request r)) = slen (encode_request r)) as E by (apply u32_id; lia).
  split; [split|..]; cbn; rewrite ?E; try done; try lia; unfold kMaxPayloadLength; lia.
Qed.

(** The connection is open, or some address of the host can be connected. *)
Definition reaches (network : Network) (c : Client) : Prop :=
  socket_open c = true \/
  exists addresses e, nw_resolved network = inl addresses /\ connect_loop addresses ECONNREFUSED = Some (true, e) /\
    nw_timeouts network = 0.

Lemma Open_reaches strerror network c :
  reaches network c -> Open strerror network c = (mkClient_ (host_ c) (port_ c) true (next_id_ c), Done tt).
Proof.
  unfold Open. intros [Ho|(addresses & e & Hr & Hc & Ht)]; destruct c as [host port [] id]; cbn in *; try done.
  by rewrite Hr, Hc, Ht.
Qed.

(** A call of the client whose request is taken and whose reply arrives. *)
Lemma ExecuteBinary_replies strerror errno_ network c r sends reads payload :
  reaches network c -> is_u64 (next_id_ c) -> slen payload <= kMaxPayloadLength ->
  takes sends (encode (request_frame (next_id_ c) r)) ->
  received_text reads = Some (EncodeResponse (next_id_ c) 1 payload true) ->
  ExecuteBinary strerror errno_ network c (encode_request r) sends reads =
    (mkClient_ (host_ c) (port_ c) true (u64 (next_id_ c + 1)), encode (request_frame (next_id_ c) r), Done payload).
Proof.
  intros Hre Hid Hp Htk Hrd. set (c1 := mkClient_ (host_ c) (port_ c) true (u64 (next_id_ c + 1))).
  destruct (SendAll_takes strerror errno_ c1 sends _ Htk) as [rest Hs].
  pose proof (read_reply_response strerror errno_ c1 reads (next_id_ c) 1 _ true Hid ltac:(lia) Hp Hrd) as Hr.
  unfold encode in Hs. unfold ExecuteBinary. rewrite Open_reaches by done.
  cbn [socket_open host_ port_ next_id_ request_frame f_header f_payload] in *. cbv zeta.
  fold c1. by rewrite Hs, Hr.
Qed.

(** The connection's answer to one request of a client; its stream is closed again. *)
Lemma answers_one times k (st : S) lines id r :
  wf_request r ->
  let a := serve now aof st r in
  exists k', answers times processor_handler (new_manager 1024 30000) k (st, lines) [request_frame id r] =
    Some (new_manager 1024 30000, k', (a.1.1, lines ++ a.1.2), EncodeResponse id 1 a.2 true).
Proof.
  intros Hw. cbv zeta. destruct (parse_encode r "" Hw) as [rest Hp]. rewrite str_app_nil_r in Hp.
  destruct (serve now aof st r) as [[st1 ls] resp] eqn:Hserve. cbn [fst snd].
  unfold answers. change (h_stream_id (f_header (request_frame id r))) with 1.
  change (CanOpenStream (new_manager 1024 30000) 1) with true. cbn [negb andb Z.eqb].
  change (f_payload (request_frame id r)) with (encode_request r).
  unfold processor_handler, Process. cbn [fst snd]. rewrite Hp, Hserve.
  eexists. cbv zeta. do 2 f_equal. rewrite str_app_nil_r. done.
Qed.

(** A connection between two requests: open, with nothing half read and no stream. *)
Record between_requests (ch : Channel) : Prop := {
  br_ok : chan_ok ch;
  br_open : closed_ ch = false;
  br_decoder : decoder_ (session_ ch) = new_decoder;
  br_streams : stream_manager_ (session_ ch) = new_manager 1024 30000;
}.

Lemma new_between_requests : between_requests new_channel.
Proof. by constructor; [apply new_channel_ok|..]. Qed.

(** The server's half of an exchange. *)
Lemma channel_answers_request srv_sends times (st : S) lines id r chunks ch :
  between_requests ch -> wf_request r -> is_u64 id -> 65560 + slen (encode_request r) + 4096 <= 2 ^ 24 ->
  let reply := EncodeResponse id 1 (serve now aof st r).2 true in
  slen (pending ch) + slen reply <= kMaxWriteBufferSize ->
  reads_of_4096 chunks -> str_concat chunks = encode (request_frame id r) ->
  (forall i, srv_sends i <> SendFailed) ->
  exists ch', HandleRead srv_sends times processor_handler (Received <$> chunks) ch (st, lines) =
      Some (ch', ((serve now aof st r).1.1, lines ++ (serve now aof st r).1.2)) /\
    between_requests ch' /\ sent ch' +:+ pending ch' = sent ch +:+ pending ch +:+ reply.
Proof.
  intros [Hok Hopen Hdec Hstr] Hw Hid Hsz reply Hfit [Hch Hne]%reads_of_4096_split Hcat Hss.
  pose proof (slen_nonneg (encode_request r)) as Hn.
  assert (slen (encode_request r) <= kMaxPayloadLength) as Hmax by (unfold kMaxPayloadLength; lia).
  destruct (answers_one times (clock_calls ch) st lines id r Hw) as (k & Hans). rewrite <- Hstr in Hans at 1.
  destruct (push_all_tracks [request_frame id r] chunks (String.length (encode_request r)) 4096
              new_decoder "") with (fs1 := @nil Frame) as (fs' & Hpush & Hfs);
    [by constructor; [apply request_frame_valid|]|by constructor|done|unfold slen in *; lia
    |cbn [encode_all]; by rewrite str_app_nil_r, Hcat|apply tracks_new|].
  cbn [app] in Hfs. subst fs'. rewrite <- Hdec in Hpush at 1.
  destruct (HandleRead_answers srv_sends times processor_handler chunks ch (st, lines)
              new_decoder _ _ _ _ _ Hok Hopen Hss Hne Hpush Hans Hfit) as (ch' & Hrun & Hok' & Hc' & Hbytes & Hd' & Hm').
  exists ch'. split; [exact Hrun|]. split; [by constructor|exact Hbytes].
Qed.
End server.

(** The client's half. *)
Lemma client_shows_reply {S} {Store0 : Store S} now aof (st : S) strerror errno_ network c operation body op r sends reads :
  build_request operation body = inl (op, r) -> wf_request r -> fits now st r ->
  reaches network c -> is_u64 (next_id_ c) -> slen (serve now aof st r).2 <= kMaxPayloadLength ->
  takes sends (encode (request_frame (next_id_ c) r)) ->
  received_text reads = Some (EncodeResponse (next_id_ c) 1 (serve now aof st r).2 true) ->
  Execute strerror errno_ network c operation body sends reads =
    inl (mkClient_ (host_ c) (port_ c) true (u64 (next_id_ c + 1)), encode (request_frame (next_id_ c) r),
         Done (shown now st r)).
Proof.
  intros Hb Hw Hf Hre Hid Hresp Htk Hrd. unfold Execute. rewrite Hb, (build_request_opcode _ _ _ _ Hb).
  rewrite (ExecuteBinary_replies _ _ _ _ r sends reads _ Hre Hid Hresp Htk Hrd). by rewrite client_shows.
Qed.

(** One exchange of a client with a new connection: the server performs the store call
    of the request, and the client returns the text of the result. *)
Lemma exchange {S} {Store0 : Store S} now aof (st : S) lines
    strerror errno_ network c operation body op r chunks srv_sends times sends reads :
  build_request operation body = inl (op, r) -> wf_request r -> fits now st r ->
  reaches network c -> is_u64 (next_id_ c) -> 65560 + slen (encode_request r) + 4096 <= 2 ^ 24 ->
  slen (serve now aof st r).2 <= kMaxPayloadLength ->
  let frame := encode (request_frame (next_id_ c) r) in
  let reply := EncodeResponse (next_id_ c) 1 (serve now aof st r).2 true in
  reads_of_4096 chunks -> str_concat chunks = frame ->
  (forall i, srv_sends i <> SendFailed) -> takes sends frame -> received_text reads = Some reply ->
  exists ch,
    HandleRead srv_sends times (processor_handler now aof) (Received <$> chunks) new_channel (st, lines) =
      Some (ch, ((serve now aof st r).1.1, lines ++ (serve now aof st r).1.2)) /\
    sent ch +:+ pending ch = reply /\
    Execute strerror errno_ network c operation body sends reads =
      inl (mkClient_ (host_ c) (port_ c) true (u64 (next_id_ c + 1)), frame, Done (shown now st r)).
Proof.
  intros Hb Hw Hf Hre Hid Hsz Hresp frame reply Hch Hcat Hss Htk Hrd.
  destruct (channel_answers_request now aof srv_sends times st lines (next_id_ c) r chunks new_channel
    new_between_requests Hw Hid Hsz) as (ch & Hrun & _ & Hbytes); [|done..|].
  { change (slen (pending new_channel)) with 0. unfold EncodeResponse, slen.
    rewrite EncodeFrame_length by done. unfold slen, kMaxPayloadLength, kMaxWriteBufferSize, kHeaderSize in *. lia. }
  exists ch. split; [exact Hrun|]. split; [exact Hbytes|]. by eapply client_shows_reply.
Qed.
