(* ===== verification/CliEnd.v ===== *)
(** * The command line client, from the typed line to the store and back

    cli_main.cpp gives the registry the executor
    [[&client](operation, body) { return client.Execute(operation, body); }]: with it
    a command line runs through the registry, the client, the connection of the
    server, the processor and the store, and the answer is printed. *)
From S2P Require Import Prelude CStd Entry Store MemoryStore KvTrace Json Frame Decoder Streams Codec Processor Dispatcher Aof Replay Socket Http Format Suggest Client ClientSpec Config Cli CliLine CliSpec Channel EndToEnd.

(** [what] stands for the messages of the exceptions thrown while the request is
    built. *)
Definition client_executor (what : build_error -> string) (strerror : Z -> string) (errno_ : Z) (network : Network)
    (sends : list send_result) (reads : list recv_result) (c : Client) (operation body : string) :
    option (Client * (string + string)) :=
  match Client.Execute strerror errno_ network c operation body sends reads with
  | inr e => Some (c, inr (what e))
  | inl (c, _, Done response) => Some (c, inl response)
  | inl (c, _, Threw message) => Some (c, inr message)
  | inl (_, _, Blocked) => None
  end.

(** ** The program (cli_main.cpp) *)

Section program.
Context (what : build_error -> string) (strerror : Z -> string) (errno_ : Z) (network : Network).
(** What the socket does during the [n]-th request. *)
Context (sends : nat -> list send_result) (reads : nat -> list recv_result).

(** The executor of the registry; the state is the client and the number of requests. *)
Definition main_executor (h : Client * nat) (operation body : string) :
    option ((Client * nat) * (string + string)) :=
  match client_executor what strerror errno_ network (sends h.2) (reads h.2) h.1 operation body with
  | Some (c, r) => Some ((c, S h.2), r)
  | None => None
  end.

(** The session starter: [client.Open()]. *)
Definition open_session (h : Client * nat) : option ((Client * nat) + string) :=
  match Client.Open strerror network h.1 with
  | (c, Done _) => Some (inl (c, h.2))
  | (_, Threw message) => Some (inr message)
  | (_, Blocked) => None
  end.

(** [main]: the exit code, what is written to the standard output and to the standard
    error; [None]: a call that does not return.  [input]: the standard input.  The
    registry's constructor never throws. *)
Definition cli_main (args : list string) (usage input : string) : option (Z * string * string) :=
  let fatal error := Some (1, "", "gate: " +:+ error +:+ line_end) in
  match ParseCli args with
  | inr error => fatal error
  | inl config =>
      if cc_show_help config then Some (0, usage, "") else
      let host := cc_host config in
      match NewClient host (u16 (cc_port config)) with
      | None =>
          fatal (if is_nil host then "INVALID_HOST: host cannot be empty"
                 else "INVALID_PORT: port must be between 1 and 65535")
      | Some client =>
          match cc_command config with
          | Some command =>
              match RunCommand main_executor cli_registry (client, O) command with
              | Some (_, out, code) => Some (code, out, "")
              | None => None
              end
          | None =>
              match open_session (client, O) with
              | None => None
              | Some started =>
                  match RunRepl main_executor (Some (fun _ => started)) cli_registry (client, O) input with
                  | inr error => fatal error
                  | inl (Some (_, out, code)) => Some (code, out, "")
                  | inl None => None
                  end
              end
          end
      end
  end.
End program.

(** The client's texts are no JSON objects: the registry prints them as they are. *)
Lemma shown_head {S} {Store0 : Store S} now (st : S) r :
  exists x s, shown now st r = String x s /\ char_is x 123 = false.
Proof.
  destruct r; cbn [shown]; repeat case_match; unfold bool_integer, integer, failed_text, QuoteJson;
    rewrite ?str_app_cons; by do 2 eexists.
Qed.

Lemma FormatResponse_shown {S} {Store0 : Store S} now (st : S) r :
  FormatResponse (shown now st r) = Some (text_result (shown now st r)) /\
  output_line (text_result (shown now st r)) = shown now st r +:+ line_end.
Proof.
  destruct (shown_head now st r) as (x & s & E & Hx). unfold output_line. cbn [text_result output]. rewrite E.
  cbn [FormatResponse is_nil]. by rewrite Hx.
Qed.


(** ** Witness: a SET through a slow server socket, its reply in three pieces *)

Definition sample_client_state : Client := mkClient_ "localhost" 7379 false 1.
(** The first address refuses the connection, the second accepts after an interrupted
    poll. *)
Definition sample_network : Network :=
  mkNetwork (inl [mkAddress 0 0 ECONNREFUSED 0 [] 0;
                  mkAddress 0 0 EINPROGRESS 100 [(200, PollIntr); (300, PollReady 0)] 0]) 0.
Definition sample_set : BinaryRequest := RSet "a" "1" SC_Always 5000.
Definition sample_request_bytes : string := encode (request_frame 1 sample_set).
Definition sample_reply : string := EncodeResponse 1 1 (status_byte St_Ok) true.

