(* ===== verification/Session.v ===== *)
(** * A session of the command line client (cli_main.cpp, cli/app.cpp, net/channel.cpp)

    The program [gate] without a command reads lines until the end of its input and
    runs each of them over one connection.  Here the client, the connection of the
    server, the processor and the store work through a whole session; between two
    requests other clients may do anything to the store. *)
From S2P Require Import Prelude CStd Entry Store MemoryStore KvTrace Json Frame Decoder Streams Codec Processor Dispatcher Aof Replay Socket Http Format Suggest Client ClientSpec Config Cli CliLine CliSpec Channel EndToEnd CliEnd.

(** One line of the session: the command and how it is typed, what other clients do to
    the store before it is served, the time, the reads of the server, and what the
    client's socket does. *)
Record turn (S : Type) := mkTurn {
  t_command : cli_command; t_line : string; t_others : S -> S; t_now : Z;
  t_chunks : list string; t_sends : list send_result; t_reads : list recv_result;
}.
Arguments mkTurn {S}. Arguments t_command {S}. Arguments t_line {S}. Arguments t_others {S}. Arguments t_now {S}.
Arguments t_chunks {S}. Arguments t_sends {S}. Arguments t_reads {S}.

Section session.
Context {S : Type} `{!Store S} (aof : bool).

Abbreviation asked_of t := (meant (t_command t)).
Abbreviation served t st := (serve (t_now t) aof (t_others t st) (asked_of t)).
Abbreviation reply_to id t st := (EncodeResponse id 1 (served t st).2 true).

(** ** What the session means *)

Fixpoint session_store (st : S) (turns : list (turn S)) : S :=
  match turns with [] => st | t :: turns => session_store (served t st).1.1 turns end.

(** The terminal: a prompt and the text of each result, a last prompt at the end. *)
Fixpoint session_output (st : S) (turns : list (turn S)) : string :=
  match turns with
  | [] => "gate> "
  | t :: turns =>
      "gate> " +:+ (shown (t_now t) (t_others t st) (asked_of t) +:+ line_end) +:+
      session_output (served t st).1.1 turns
  end.

(** The bytes of the server: a response frame per request, with its identifier. *)
Fixpoint session_replies (id : Z) (st : S) (turns : list (turn S)) : string :=
  match turns with
  | [] => ""
  | t :: turns => reply_to id t st +:+ session_replies (u64 (id + 1)) (served t st).1.1 turns
  end.

Fixpoint session_input (turns : list (turn S)) : string :=
  match turns with [] => "" | t :: turns => t_line t +:+ String newline (session_input turns) end.

(** The conditions on a turn with the identifier [id] on the store [st]: a supported
    command in any spelling on one line, numbers and answers within the limits of the
    formats; sockets that deliver the bytes of the other side in any pieces. *)
Record turn_ok (id : Z) (st : S) (t : turn S) : Prop := {
  to_plain : plain_command (t_command t);
  to_wf : wf_request (asked_of t);
  to_line : command_line (words (t_command t)).1 (words (t_command t)).2 (t_line t);
  to_one_line : no_newline (t_line t) = true;
  to_fits : fits (t_now t) (t_others t st) (asked_of t);
  to_request : 65560 + slen (encode_request (asked_of t)) + 4096 <= 2 ^ 24;
  to_response : slen (served t st).2 <= kMaxPayloadLength;
  to_chunks : reads_of_4096 (t_chunks t);
  to_frame : str_concat (t_chunks t) = encode (request_frame id (asked_of t));
  to_sends : takes (t_sends t) (encode (request_frame id (asked_of t)));
  to_reads : received_text (t_reads t) = Some (reply_to id t st);
}.
Fixpoint session_ok (id : Z) (st : S) (turns : list (turn S)) : Prop :=
  match turns with
  | [] => True
  | t :: turns => turn_ok id st t /\ session_ok (u64 (id + 1)) (served t st).1.1 turns
  end.

(** ** The server *)

(** The reads of one connection, a turn after the other. *)
Fixpoint serve_session (srv_sends : nat -> send_result) (times : nat -> Z) (ch : Channel) (h : S * list aof_line)
    (turns : list (turn S)) : option (Channel * (S * list aof_line)) :=
  match turns with
  | [] => Some (ch, h)
  | t :: turns =>
      match HandleRead srv_sends times (processor_handler (t_now t) aof) (Received <$> t_chunks t) ch
              (t_others t h.1, h.2) with
      | Some (ch, h) => serve_session srv_sends times ch h turns
      | None => None
      end
  end.

Lemma serve_session_replies srv_sends times turns id st lines ch :
  (forall i, srv_sends i <> SendFailed) -> between_requests ch -> is_u64 id -> session_ok id st turns ->
  slen (sent ch +:+ pending ch) + slen (session_replies id st turns) <= kMaxWriteBufferSize ->
  exists ch' lines', serve_session srv_sends times ch (st, lines) turns = Some (ch', (session_store st turns, lines')) /\
    sent ch' +:+ pending ch' = (sent ch +:+ pending ch) +:+ session_replies id st turns.
Proof.
  intros Hss. revert id st lines ch. induction turns as [|t turns IH]; intros id st lines ch Hb Hid Hok Hfit.
  { exists ch, lines. split; [done|]. cbn [session_replies]. by rewrite str_app_nil_r. }
  destruct Hok as [Ht Hok]. cbn [serve_session session_store session_replies fst snd] in *.
  rewrite !slen_app in Hfit. pose proof (slen_nonneg (session_replies (u64 (id + 1)) (served t st).1.1 turns)) as Hn.
  destruct (channel_answers_request (t_now t) aof srv_sends times (t_others t st) lines id (asked_of t) (t_chunks t) ch Hb)
    as (ch1 & -> & Hb1 & Hbytes); try apply Ht; try done.
  { pose proof (slen_nonneg (sent ch)). lia. }
  rewrite <- str_app_assoc in Hbytes.
  destruct (IH (u64 (id + 1)) _ (lines ++ (served t st).1.2) ch1 Hb1 (u64_range _) Hok) as (ch' & lines' & -> & Hall).
  { rewrite Hbytes, !slen_app. lia. }
  exists ch', lines'. split; [done|]. by rewrite Hall, Hbytes, !str_app_assoc.
Qed.

(** ** The client *)

Lemma session_lines turns id st : session_ok id st turns -> getlines "" (session_input turns) = t_line <$> turns.
Proof.
  revert id st. induction turns as [|t turns IH]; intros id st; [done|]. intros [Ht Hok]. cbn [session_input].
  rewrite getlines_line by apply Ht. rewrite str_app_nil_l, fmap_cons. f_equal. by eapply IH.
Qed.

Section client.
Context (what : build_error -> string) (strerror : Z -> string) (errno_ : Z) (network : Network).
Context (sends : nat -> list send_result) (reads : nat -> list recv_result).

Lemma repl_session turns n st c :
  socket_open c = true -> is_u64 (next_id_ c) -> session_ok (next_id_ c) st turns ->
  (forall j t, turns !! j = Some t -> sends (n + j)%nat = t_sends t /\ reads (n + j)%nat = t_reads t) ->
  exists h, repl_loop (main_executor what strerror errno_ network sends reads) cli_registry (c, n) (t_line <$> turns) =
    Some (h, session_output st turns, 0).
Proof.
  revert n st c. induction turns as [|t turns IH]; intros n st c Ho Hid Hok Hio; [by eexists|].
  destruct Hok as [Ht Hok]. rewrite fmap_cons. cbn [repl_loop session_output].
  rewrite (Execute_asked _ _ _ _ (to_plain _ _ _ Ht) (to_wf _ _ _ Ht) (to_line _ _ _ Ht)). cbn [run_answer].
  unfold main_executor at 1, client_executor at 1. cbn [fst snd].
  destruct (Hio 0%nat t eq_refl) as [Hs Hr]. rewrite Nat.add_0_r in Hs, Hr. rewrite Hs, Hr.
  destruct Ht as [Hp Hw _ _ Hf _ Hresp _ _ Htk Hrd].
  rewrite (client_shows_reply (t_now t) aof (t_others t st) strerror errno_ network c _ _ _ (asked_of t) _ _
    (request_built _ Hp Hw) Hw Hf (or_introl Ho) Hid Hresp Htk Hrd).
  destruct (FormatResponse_shown (t_now t) (t_others t st) (asked_of t)) as [-> Hout].
  cbn [text_result exit_requested]. rewrite Hout.
  destruct (IH (Datatypes.S n) (served t st).1.1 (mkClient_ (host_ c) (port_ c) true (u64 (next_id_ c + 1))))
    as (h & ->); [done|apply u64_range|done| |by exists h].
  intros j t' Hj. replace (Datatypes.S n + j)%nat with (n + Datatypes.S j)%nat by lia. by apply Hio.
Qed.
End client.
End session.


(** ** Witness: two commands; another client writes the key in between *)

Definition other_write (st : MemoryStore) : MemoryStore :=
  (Set_ (Store := sample_ms) 2500 st "a" "2" Always 0).1.
Definition stored : MemoryStore :=
  (serve (Store0 := sample_ms) 2000 true sample_store sample_set).1.1.
Definition get_reply : string :=
  EncodeResponse 2 1 (serve (Store0 := sample_ms) 3000 true (other_write stored) (RGet "a")).2 true.
Definition get_bytes : string := encode (request_frame 2 (RGet "a")).
Definition sample_turns : list (turn MemoryStore) :=
  [mkTurn (C_Set "a" "1" SC_Always (InSeconds 5)) (jq "set 'a' 1 EX 5") (fun st => st) 2000
     [str_take 9 sample_request_bytes; str_drop 9 sample_request_bytes] (replicate 200 (Sent 1))
     [Received (str_take 3 sample_reply); RecvIntr; Received (str_drop 3 sample_reply)];
   mkTurn (C_Get "a") "get a" other_write 3000 [get_bytes] (replicate 200 (Sent 1)) [Received get_reply]].

Lemma sample_turns_ok : session_ok (Store0 := sample_ms) true 1 sample_store sample_turns.
Proof.
  split; [|split; [|done]]; constructor.
  - done.
  - by vm_compute.
  - apply (a_command_line "SET" ["a"; "1"; "EX"; "5"] "" "set" (jq " 'a' 1 EX 5")); [done..|].
    apply (splits_argument " " (jq "'a'") "a" " 1 EX 5"); [done..|apply (spells_quoted "a")|].
    apply (splits_argument " " "1" "1" " EX 5"); [done..|by apply spells_word|].
    apply (splits_argument " " "EX" "EX" " 5"); [done..|by apply spells_word|].
    apply (splits_argument " " "5" "5" ""); [done..|by apply spells_word|]. by apply splits_end.
  - reflexivity.
  - done.
  - by vm_compute.
  - by vm_compute.
  - do 2 (apply Forall_cons_2; [split; apply Nat.leb_le; reflexivity|]). by apply Forall_nil_2.
  - by vm_compute.
  - split; [|vm_compute; lia]. apply Forall_replicate. lia.
  - by vm_compute.
  - done.
  - by vm_compute.
  - apply (a_command_line "GET" ["a"] "" "get" " a"); [done..|].
    apply (splits_argument " " "a" "a" ""); [done..|by apply spells_word|]. by apply splits_end.
  - reflexivity.
  - by vm_compute.
  - by vm_compute.
  - by vm_compute.
  - apply Forall_cons_2; [split; apply Nat.leb_le; reflexivity|]. by apply Forall_nil_2.
  - by vm_compute.
  - split; [|vm_compute; lia]. apply Forall_replicate. lia.
  - by vm_compute.
Qed.

