(* ===== verification/Torn.v ===== *)
(** * Cut request bodies

    A crash can leave the first part of a log line.  A reader that has accepted a
    text and has not reached its end reads the same from a longer text
    ([extends]); so a body that a command accepts has no proper prefix that the
    command accepts, and the first part of a line never reaches the store. *)
From S2P Require Import Prelude CStd Entry Store Json StringBody Command KvOps CounterOps QuotaOps IdemOps.
Import JsonReader.

(** ** Readers that do not look beyond what they leave unread *)

Definition extends {A} (m : reader A) : Prop :=
  forall s a r q, m s = inl (a, r) -> r <> "" -> m (s +:+ q) = inl (a, r +:+ q).

Lemma extends_ret {A} (a : A) : extends (ret a).
Proof. by intros s b r q [= <- <-] _. Qed.
Lemma extends_fail {A} (e : string) : extends (A := A) (fun _ => inr e).
Proof. done. Qed.
Lemma extends_Fail {A} (e : string) : extends (A := A) (Fail_ e).
Proof. done. Qed.
Lemma extends_bind {A B} (m : reader A) (f : A -> reader B) :
  extends m -> (forall a, shrinks (f a)) -> (forall a, extends (f a)) -> extends (bind m f).
Proof.
  intros Hm Hs Hf s b r q. unfold bind. destruct (m s) as [[a r1]|] eqn:H1; [|done]. intros H2 Hr.
  rewrite (Hm _ _ _ q H1); [by apply Hf|].
  intros ->. apply Hs in H2. destruct r; [done|]. simpl in H2. lia.
Qed.
Lemma extends_if {A} (b : bool) (m1 m2 : reader A) :
  extends m1 -> extends m2 -> extends (if b then m1 else m2).
Proof. by destruct b. Qed.
Create HintDb extend.
#[export] Hint Resolve extends_ret extends_fail extends_Fail extends_bind extends_if : extend.

(** Skipping a class of characters. *)
Lemma skip_space_extends s q : skip_space s <> "" -> skip_space (s +:+ q) = skip_space s +:+ q.
Proof.
  induction s as [|c s IH]; [done|]. rewrite str_app_cons. cbn [skip_space].
  by destruct (isspace c).
Qed.

Lemma Take_extends c : extends (Take c).
Proof.
  intros s b r q. unfold Take. destruct (skip_space s) as [|d t] eqn:Hs; [by intros [= <- <-]|].
  rewrite skip_space_extends, Hs, str_app_cons by (by rewrite Hs).
  by destruct (bool_decide (d = c)); intros [= <- <-].
Qed.
(** A character taken is not the last thing read. *)
Lemma Take_true_app c s r q : Take c s = inl (true, r) -> Take c (s +:+ q) = inl (true, r +:+ q).
Proof.
  unfold Take. destruct (skip_space s) as [|d t] eqn:Hs; [done|].
  rewrite skip_space_extends, Hs, str_app_cons by (by rewrite Hs).
  by destruct (bool_decide (d = c)); intros [= <-].
Qed.
Lemma Expect_app c s u r q : Expect c s = inl (u, r) -> Expect c (s +:+ q) = inl (u, r +:+ q).
Proof.
  unfold Expect, bind. destruct (Take c s) as [[[] t]|] eqn:Ht; [|done..].
  intros [= <- <-]. by rewrite (Take_true_app _ _ _ q Ht).
Qed.
Lemma Expect_extends c : extends (Expect c).
Proof. intros s u r q H _. by apply Expect_app. Qed.

Lemma hex_loop_extends n v : extends (hex_loop n v).
Proof.
  revert v. induction n as [|n IH]; intros v; [apply extends_ret|]. intros s a r q. cbn [hex_loop].
  destruct s as [|c s]; [done|]. rewrite str_app_cons. destruct (hex_val c); [apply IH|done].
Qed.
Lemma shrinks_hex_loop n v : shrinks (hex_loop n v).
Proof. intros s a r H. by apply hex_loop_shorter in H. Qed.
#[export] Hint Resolve Take_extends Expect_extends hex_loop_extends shrinks_hex_loop shrinks_Take shrinks_Expect
  shrinks_String shrinks_UnsignedNumber shrinks_SignedNumber : extend.
#[export] Hint Resolve shrinks_ret shrinks_bind shrinks_fail shrinks_Fail shrinks_if : extend.

Lemma unicode_escape_extends : extends unicode_escape.
Proof.
  unfold unicode_escape, Hex. apply extends_bind; [apply hex_loop_extends| |].
  - intros cp. apply shrinks_if; [|apply shrinks_ret].
    intros s a r. destruct s as [|b [|u s]]; try done. destruct (_ && _); [|done].
    intros H. assert (shrinks (low <~ hex_loop 4 0;
      if (low <? 0xDC00) || (0xDFFF <? low) then Fail_ "invalid low surrogate in unicode escape"
      else ret (0x10000 + Z.shiftl (cp - 0xD800) 10 + (low - 0xDC00)))) as Hs by auto 8 with extend.
    apply Hs in H. simpl. lia.
  - intros cp. apply extends_if; [|apply extends_ret].
    intros s a r q. destruct s as [|b [|u s]]; try done. rewrite !str_app_cons.
    destruct (_ && _); [|done].
    match goal with |- ?m s = _ -> _ => assert (extends m) as Hm by auto 12 with extend end. apply Hm.
Qed.

Lemma string_piece_extends c : extends (string_piece c).
Proof.
  unfold string_piece. apply extends_if; [|apply extends_ret]. intros s a r q.
  destruct s as [|e s]; [done|]. rewrite (str_app_cons e s). cbv beta iota.
  destruct (simple_escape e); [by intros [= <- <-]|]. destruct (char_is e 117); [|done].
  assert (extends (cp <~ unicode_escape; ret (AppendUtf8 cp))) as Hm
    by auto using unicode_escape_extends with extend. apply Hm.
Qed.

Lemma string_loop_app f g out s a r q :
  string_loop f out s = inl (a, r) -> (f <= g)%nat -> string_loop g out (s +:+ q) = inl (a, r +:+ q).
Proof.
  revert g out s. induction f as [|f IH]; intros g out s; [done|]. cbn [string_loop].
  destruct s as [|c s]; [done|]. intros H Hg. destruct g as [|g]; [lia|].
  rewrite str_app_cons. cbn [string_loop]. destruct (char_is c 34); [by injection H as <- <-|].
  destruct (string_piece c s) as [[p s1]|] eqn:Hp; [|done].
  rewrite (string_piece_extends c _ _ _ q Hp).
  - apply IH; [done|lia].
  - intros ->. by destruct f.
Qed.

Lemma String_app s a r q : String_ s = inl (a, r) -> String_ (s +:+ q) = inl (a, r +:+ q).
Proof.
  unfold String_, bind. destruct (Expect dquote s) as [[u t]|] eqn:He; [|done].
  rewrite (Expect_app _ _ _ _ q He). intros H. eapply string_loop_app; [done|].
  rewrite str_length_app. lia.
Qed.
Lemma String_extends : extends String_.
Proof. intros s a r q H _. by apply String_app. Qed.

Lemma scan_u64_app v s q : (scan_u64 v s).2 <> "" ->
  scan_u64 v (s +:+ q) = ((scan_u64 v s).1, (scan_u64 v s).2 +:+ q).
Proof.
  revert v. induction s as [|c s IH]; intros v; [done|]. rewrite str_app_cons. cbn [scan_u64].
  destruct (isdigit c); [apply IH|done].
Qed.
Lemma UnsignedNumber_extends : extends UnsignedNumber.
Proof.
  intros s a r q. unfold UnsignedNumber. destruct (skip_space s) as [|c t] eqn:Hs; [done|].
  rewrite skip_space_extends, Hs, str_app_cons by (by rewrite Hs). destruct (isdigit c); [|done].
  intros H Hr. apply (f_equal (fun x => match x with inl p => p | inr _ => (a, r) end)) in H.
  rewrite <- str_app_cons, scan_u64_app; by rewrite H.
Qed.
Lemma negated_extends n : extends (negated n).
Proof. intros s a r q. unfold negated. destruct (_ =? _); [done|]. by intros [= <- <-]. Qed.
Lemma SignedNumber_extends : extends SignedNumber.
Proof.
  intros s a r q. unfold SignedNumber. destruct (skip_space s) as [|c t] eqn:Hs; [done|].
  rewrite skip_space_extends, Hs, str_app_cons by (by rewrite Hs).
  assert (forall f : Z -> Z, extends (uval <~ UnsignedNumber; ret (f uval))) as Hm
    by auto using UnsignedNumber_extends with extend.
  assert (extends (uval <~ UnsignedNumber; negated uval)) as Hn
    by (apply extends_bind; auto using UnsignedNumber_extends, shrinks_negated, negated_extends).
  destruct (char_is c 45); [apply Hn|].
  destruct (char_is c 43); [apply (Hm i64)|]. rewrite <- str_app_cons. apply (Hm i64).
Qed.
#[export] Hint Resolve String_extends UnsignedNumber_extends SignedNumber_extends : extend.

(** What a reader succeeds on is not empty. *)
Lemma Expect_nonempty c s u r : Expect c s = inl (u, r) -> s <> "".
Proof. by intros H ->. Qed.

Lemma array_loop_app f g arr s a r q :
  array_loop f arr s = inl (a, r) -> (f <= g)%nat -> array_loop g arr (s +:+ q) = inl (a, r +:+ q).
Proof.
  revert g arr s. induction f as [|f IH]; intros g arr s; [done|]. intros H Hg.
  destruct g as [|g]; [lia|]. cbn [array_loop] in *. unfold bind in *.
  destruct (String_ s) as [[x s1]|] eqn:H1; [|done]. rewrite (String_app _ _ _ q H1).
  destruct (Take "]"%char s1) as [[[] s2]|] eqn:H2; [| |done].
  - rewrite (Take_true_app _ _ _ q H2). by injection H as <- <-.
  - destruct (Expect ","%char s2) as [[u s3]|] eqn:H3; [|done].
    rewrite (Take_extends _ _ _ _ q H2) by (by eapply Expect_nonempty).
    rewrite (Expect_app _ _ _ _ q H3). apply IH; [done|lia].
Qed.
Lemma StringArray_extends : extends StringArray.
Proof.
  intros s a r q. unfold StringArray, bind.
  destruct (Expect "["%char s) as [[u s1]|] eqn:H1; [|done]. rewrite (Expect_app _ _ _ _ q H1).
  destruct (Take "]"%char s1) as [[[] s2]|] eqn:H2; [| |done].
  - rewrite (Take_true_app _ _ _ q H2). by intros [= <- <-].
  - intros H Hr. rewrite (Take_extends _ _ _ _ q H2); [|by intros ->].
    eapply array_loop_app; [done|]. rewrite str_length_app. lia.
Qed.
#[export] Hint Resolve StringArray_extends : extend.

(** ** Objects *)

Lemma skip_space_blank s t : skip_space (s +:+ t) = "" -> skip_space t = "".
Proof.
  induction s as [|c s IH]; [done|]. rewrite str_app_cons. cbn [skip_space]. by destruct (isspace c).
Qed.

(** The end of a text is the end of each of its nonempty ends. *)
Lemma str_last p q m c : p +:+ q = m +:+ String c "" -> q <> "" -> exists q', q = q' +:+ String c "".
Proof.
  revert m. induction p as [|d p IH]; intros m H Hq; [by exists m|].
  rewrite str_app_cons in H. destruct m as [|e m].
  - rewrite str_app_nil_l in H. injection H as _ H. by destruct p, q.
  - rewrite str_app_cons in H. injection H as _ H. by eapply IH.
Qed.

(** No proper prefix of the text is accepted. *)
Definition no_accepted_prefix {A} (m : reader A) (text : string) : Prop :=
  forall p q, text = p +:+ q -> q <> "" -> exists e, m p = inr e.

Section object.
Context {A : Type} (field : string -> A -> reader A).
Hypothesis Hext : forall n a, extends (field n a).

Lemma field_loop_app f g acc s a r q :
  field_loop field f acc s = inl (a, r) -> (f <= g)%nat ->
  field_loop field g acc (s +:+ q) = inl (a, r +:+ q).
Proof.
  revert g acc s. induction f as [|f IH]; intros g acc s; [done|]. intros H Hg.
  destruct g as [|g]; [lia|]. cbn [field_loop] in *. unfold bind in *.
  destruct (String_ s) as [[k s1]|] eqn:H1; [|done]. rewrite (String_app _ _ _ q H1).
  destruct (Expect ":"%char s1) as [[u s2]|] eqn:H2; [|done]. rewrite (Expect_app _ _ _ _ q H2).
  destruct (field k acc s2) as [[v s3]|] eqn:H3; [|done].
  assert (s3 <> "") as Hs3 by (intros ->; by cbn in H).
  rewrite (Hext _ _ _ _ _ q H3 Hs3).
  destruct (Take "}"%char s3) as [[[] s4]|] eqn:H4; [| |done].
  - rewrite (Take_true_app _ _ _ q H4). by injection H as <- <-.
  - destruct (Expect ","%char s4) as [[u' s5]|] eqn:H5; [|done].
    rewrite (Take_extends _ _ _ _ q H4) by (by eapply Expect_nonempty).
    rewrite (Expect_app _ _ _ _ q H5). apply IH; [done|lia].
Qed.

Lemma End_blank s x : End_ s = inl x -> skip_space s = "".
Proof. unfold End_. by destruct (skip_space s). Qed.

(** Accepted up to [}], and nothing but space after it. *)
Lemma end_after_cut s q m : End_ (s +:+ q) = inl m -> (exists q', q = q' +:+ "}") -> False.
Proof. intros H%End_blank%skip_space_blank [q' ->]. by apply skip_space_blank in H. Qed.

Lemma fields_cut init m x :
  fields field init (m +:+ "}") = inl x -> no_accepted_prefix (fields field init) (m +:+ "}").
Proof.
  intros Hfull p q Heq Hq. destruct (fields field init p) as [y|e] eqn:Hp; [exfalso|by exists e].
  rewrite Heq in Hfull. pose proof (str_last p q m _ (eq_sym Heq) Hq) as Hlast.
  unfold fields, bind in *. destruct (Expect "{"%char p) as [[u s1]|] eqn:H1; [|done].
  destruct (field_loop field (String.length p) init s1) as [[acc s2]|] eqn:H2; [|done].
  rewrite (Expect_app _ _ _ _ q H1) in Hfull.
  rewrite (field_loop_app _ (String.length (p +:+ q)) _ _ _ _ q H2) in Hfull
    by (rewrite str_length_app; lia).
  destruct (End_ (s2 +:+ q)) as [m'|] eqn:He; [|done]. by eapply end_after_cut.
Qed.

Lemma opt_fields_cut init m x :
  opt_fields field init (m +:+ "}") = inl x -> no_accepted_prefix (opt_fields field init) (m +:+ "}").
Proof.
  intros Hfull p q Heq Hq. destruct (opt_fields field init p) as [y|e] eqn:Hp; [exfalso|by exists e].
  rewrite Heq in Hfull. pose proof (str_last p q m _ (eq_sym Heq) Hq) as Hlast.
  unfold opt_fields, bind in *. destruct (Expect "{"%char p) as [[u s1]|] eqn:H1; [|done].
  rewrite (Expect_app _ _ _ _ q H1) in Hfull.
  destruct (Take "}"%char s1) as [[[] s2]|] eqn:H2; [| |done].
  - rewrite (Take_true_app _ _ _ q H2) in Hfull. cbn [ret] in Hfull. unfold ret in Hfull.
    destruct (End_ (s2 +:+ q)) as [m'|] eqn:He; [|done]. by eapply end_after_cut.
  - destruct (field_loop field (String.length p) init s2) as [[acc s3]|] eqn:H3; [|done].
    rewrite (Take_extends _ _ _ _ q H2) in Hfull by (intros ->; by destruct (String.length p)).
    rewrite (field_loop_app _ (String.length (p +:+ q)) _ _ _ _ q H3) in Hfull
      by (rewrite str_length_app; lia).
    destruct (End_ (s3 +:+ q)) as [m'|] eqn:He; [|done]. by eapply end_after_cut.
Qed.
End object.

(** The fields of the commands that the log holds. *)
Ltac field_extends := intros; repeat match goal with
  | |- context [let '(_, _) := ?p in _] => destruct p
  end; auto 12 with extend.

Lemma keys_field_extends n a : extends (KeyOps.keys_field n a).
Proof. unfold KeyOps.keys_field. field_extends. Qed.
Lemma pexpire_field_extends n a : extends (TtlOps.pexpire_field n a).
Proof. unfold TtlOps.pexpire_field. field_extends. Qed.
Lemma incrby_field_extends n a : extends (incrby_field n a).
Proof. unfold incrby_field. field_extends. Qed.
Lemma commit_field_extends n a : extends (commit_field n a).
Proof. unfold commit_field. field_extends. Qed.
Lemma rollback_field_extends n a : extends (rollback_field n a).
Proof. unfold rollback_field. field_extends. Qed.
Lemma init_field_extends n a : extends (init_field n a).
Proof. unfold init_field. field_extends. Qed.
Lemma complete_field_extends n a : extends (complete_field n a).
Proof. unfold complete_field. field_extends. Qed.
Lemma fail_field_extends n a : extends (fail_field n a).
Proof. unfold fail_field. field_extends. Qed.

(** ** The bodies of SET *)

Module BodyTorn.
Import Reader ReaderFacts.

Lemma skip_app s q : skip s <> "" -> skip (s +:+ q) = skip s +:+ q.
Proof. induction s as [|c s IH]; [done|]. rewrite str_app_cons. cbn [skip]. by destruct (is_ws c). Qed.
Lemma skip_blank s t : skip (s +:+ t) = "" -> skip t = "".
Proof. induction s as [|c s IH]; [done|]. rewrite str_app_cons. cbn [skip]. by destruct (is_ws c). Qed.

Lemma body_Take_extends c : extends (Take c).
Proof.
  intros s b r q. unfold Take. destruct (skip s) as [|d t] eqn:Hs; [by intros [= <- <-]|].
  rewrite skip_app, Hs, str_app_cons by (by rewrite Hs).
  by destruct (bool_decide (d = c)); intros [= <- <-].
Qed.
Lemma body_Take_true_app c s r q : Take c s = inl (true, r) -> Take c (s +:+ q) = inl (true, r +:+ q).
Proof.
  unfold Take. destruct (skip s) as [|d t] eqn:Hs; [done|].
  rewrite skip_app, Hs, str_app_cons by (by rewrite Hs).
  by destruct (bool_decide (d = c)); intros [= <-].
Qed.
Lemma body_Expect_app c s u r q : Expect c s = inl (u, r) -> Expect c (s +:+ q) = inl (u, r +:+ q).
Proof.
  unfold Expect, bind. destruct (Take c s) as [[[] t]|] eqn:Ht; [|done..].
  intros [= <- <-]. by rewrite (body_Take_true_app _ _ _ q Ht).
Qed.
Lemma body_Expect_nonempty c s u r : Expect c s = inl (u, r) -> s <> "".
Proof. by intros H ->. Qed.
Lemma body_Expect_extends c : extends (Expect c).
Proof. intros s u r q H _. by apply body_Expect_app. Qed.
Lemma body_Fail_extends {A} : extends (A := A) Fail_.
Proof. done. Qed.

(** A literal that is there; one whose absence the next byte shows. *)
Lemma Literal_true_app t s r q : Literal t s = inl (true, r) -> Literal t (s +:+ q) = inl (true, r +:+ q).
Proof.
  unfold Literal. case_bool_decide as Ht; intros [= <-].
  assert (String.length t <= String.length s)%nat as Hl
    by (apply (f_equal String.length) in Ht; rewrite str_take_length in Ht; lia).
  rewrite str_take_app_le, bool_decide_true by done. by rewrite str_drop_app_le.
Qed.
Lemma Literal_other t c d s : c <> d -> Literal (String c t) (String d s) = inl (false, String d s).
Proof. intros Hc. unfold Literal. rewrite bool_decide_false; [done|]. cbn. by intros [= ?]. Qed.
Lemma Literal_true_inv t s r : Literal t s = inl (true, r) -> s = t +:+ r.
Proof.
  unfold Literal. case_bool_decide as Ht; intros [= <-].
  rewrite <- (str_take_drop (String.length t) s) at 1. by rewrite Ht.
Qed.

Lemma body_hex_extends n v : extends (hex_loop n v).
Proof.
  revert v. induction n as [|n IH]; intros v; [apply extends_ret|]. intros s a r q. cbn [hex_loop].
  destruct s as [|c s]; [done|]. rewrite str_app_cons. destruct (hex_val c); [apply IH|done].
Qed.
Lemma literal_or_fail_extends {A} t (m : reader A) :
  extends m -> extends (ok <~ Literal t; if ok : bool then m else Fail_).
Proof.
  intros Hm s a r q. unfold bind. destruct (Literal t s) as [[[] s1]|] eqn:Hl; [|done..].
  rewrite (Literal_true_app _ _ _ q Hl). apply Hm.
Qed.
Hint Resolve body_Take_extends body_Expect_extends body_Fail_extends body_hex_extends literal_or_fail_extends : extend.
Hint Resolve body_shrinks_Take body_shrinks_Expect shrinks_Literal shrinks_Skip shrinks_Fail_ ReaderFacts.shrinks_hex
  shrinks_piece body_shrinks_String shrinks_Number : extend.

Lemma body_unicode_extends : extends unicode_escape.
Proof. unfold unicode_escape, Hex. auto 14 with extend. Qed.

Lemma body_piece_extends c : extends (string_piece c).
Proof.
  unfold string_piece. repeat apply extends_if; auto with extend. intros s a r q.
  destruct s as [|e s]; [done|]. rewrite (str_app_cons e s). cbv beta iota.
  destruct (simple_escape e); [by intros [= <- <-]|]. destruct (char_is e 117); [|done].
  assert (extends (cp <~ unicode_escape; ret (AppendUtf8 cp))) as Hm
    by auto using body_unicode_extends with extend. apply Hm.
Qed.

Lemma body_string_loop_app f g out s a r q :
  string_loop f out s = inl (a, r) -> (f <= g)%nat -> string_loop g out (s +:+ q) = inl (a, r +:+ q).
Proof.
  revert g out s. induction f as [|f IH]; intros g out s; [done|]. cbn [string_loop].
  destruct s as [|c s]; [done|]. intros H Hg. destruct g as [|g]; [lia|].
  rewrite str_app_cons. cbn [string_loop]. destruct (char_is c 34); [by injection H as <- <-|].
  unfold bind in *. destruct (string_piece c s) as [[p s1]|] eqn:Hp; [|done].
  rewrite (body_piece_extends c _ _ _ q Hp).
  - apply IH; [done|lia].
  - intros ->. by destruct f.
Qed.
Lemma body_String_app s a r q : String_ s = inl (a, r) -> String_ (s +:+ q) = inl (a, r +:+ q).
Proof.
  unfold String_, bind. destruct (Expect dquote s) as [[u t]|] eqn:He; [|done].
  rewrite (body_Expect_app _ _ _ _ q He). intros H. eapply body_string_loop_app; [done|].
  rewrite str_length_app. lia.
Qed.

Lemma Number_extends : extends Number.
Proof.
  intros s a r q. unfold Number. destruct (skip s) as [|c t] eqn:Hs; [done|].
  rewrite skip_app, Hs, str_app_cons by (by rewrite Hs). destruct (isdigit c); [|done].
  intros H Hr. apply (f_equal (fun x => match x with inl p => p | inr _ => (a, r) end)) in H.
  rewrite <- str_app_cons, scan_u64_app; by rewrite H.
Qed.

(** [true], [false] or a number, told apart by the first byte. *)
Lemma value_extends : extends value_.
Proof.
  intros s a r q. unfold value_, bind, Skip. cbv beta iota.
  destruct (skip s) as [|c t] eqn:Hs; [done|].
  rewrite skip_app, Hs, str_app_cons by (by rewrite Hs). cbn [Peek].
  destruct (char_is c 34).
  { unfold bind. destruct (String_ (String c t)) as [[v r1]|] eqn:H1; [|done].
    rewrite <- str_app_cons, (body_String_app _ _ _ q H1). by intros [= <- <-]. }
  destruct (decide (c = "t"%char)) as [->|Ht].
  { destruct (Literal "true" (String "t" t)) as [[[] r1]|] eqn:H1; [| |done].
    - rewrite <- str_app_cons, (Literal_true_app _ _ _ q H1). by intros [= <- <-].
    - unfold Literal in H1. case_bool_decide; [done|]. injection H1 as <-.
      by rewrite (Literal_other "alse" "f" "t" t) by done. }
  rewrite !(Literal_other "rue" "t" c) by done.
  destruct (decide (c = "f"%char)) as [->|Hf].
  { destruct (Literal "false" (String "f" t)) as [[[] r1]|] eqn:H1; [| |done].
    - rewrite <- str_app_cons, (Literal_true_app _ _ _ q H1). by intros [= <- <-].
    - unfold Literal in H1. case_bool_decide; [done|]. by injection H1 as <-. }
  rewrite !(Literal_other "alse" "f" c) by done. destruct (isdigit c); [|done].
  rewrite <- str_app_cons. unfold bind.
  destruct (Number (String c t)) as [[n r1]|] eqn:H1; [|done]. intros [= <- <-] Hr.
  by rewrite (Number_extends _ _ _ q H1 Hr).
Qed.

Lemma body_End_blank s q x : End_ (s +:+ q) = inl x -> skip q = "".
Proof.
  unfold End_. destruct (skip (s +:+ q)) as [|c t] eqn:Hs; [|done]. intros _. by apply skip_blank in Hs.
Qed.

(** Behind a body that is accepted, a longer accepted one has only space. *)
Lemma read_loop_app f g body s x q y :
  read_loop f body s = inl x -> (f <= g)%nat -> read_loop g body (s +:+ q) = inl y -> skip q = "".
Proof.
  revert g body s. induction f as [|f IH]; intros g body s; [done|]. intros H Hg.
  destruct g as [|g]; [lia|]. cbn [read_loop] in *. unfold bind in *.
  destruct (String_ s) as [[k s1]|] eqn:H1; [|done]. rewrite (body_String_app _ _ _ q H1).
  destruct (Expect ":"%char s1) as [[u s2]|] eqn:H2; [|done]. rewrite (body_Expect_app _ _ _ _ q H2).
  destruct (value_ s2) as [[v s3]|] eqn:H3; [|done].
  assert (s3 <> "") as Hs3 by (intros ->; destruct (emplace body k v); by cbn in H).
  rewrite (value_extends _ _ _ q H3 Hs3). destruct (emplace body k v) as [body'|]; [|done].
  destruct (Take "}"%char s3) as [[[] s4]|] eqn:H4; [| |done].
  - rewrite (body_Take_true_app _ _ _ q H4).
    destruct (End_ (s4 +:+ q)) as [e|] eqn:He; [|done]. intros _. by eapply body_End_blank.
  - destruct (Expect ","%char s4) as [[u' s5]|] eqn:H5; [|done].
    rewrite (body_Take_extends _ _ _ _ q H4) by (by eapply body_Expect_nonempty).
    rewrite (body_Expect_app _ _ _ _ q H5). apply IH; [done|lia].
Qed.

Lemma Read_app s x q y : Read s = inl x -> Read (s +:+ q) = inl y -> skip q = "".
Proof.
  unfold Read, bind. destruct (Expect "{"%char s) as [[u s1]|] eqn:H1; [|done].
  rewrite (body_Expect_app _ _ _ _ q H1).
  destruct (Take "}"%char s1) as [[[] s2]|] eqn:H2; [| |done].
  - rewrite (body_Take_true_app _ _ _ q H2). intros _.
    destruct (End_ (s2 +:+ q)) as [e|] eqn:He; [|done]. intros _. by eapply body_End_blank.
  - intros H. rewrite (body_Take_extends _ _ _ _ q H2) by (intros ->; by destruct (String.length s)).
    apply (read_loop_app _ _ _ _ _ _ _ H). rewrite str_length_app. lia.
Qed.

Lemma Read_cut m x : Read (m +:+ "}") = inl x -> no_accepted_prefix Read (m +:+ "}").
Proof.
  intros Hfull p q Heq Hq. destruct (Read p) as [y|e] eqn:Hp; [exfalso|by exists e].
  rewrite Heq in Hfull. apply (Read_app _ _ _ _ Hp) in Hfull.
  destruct (str_last p q m _ (eq_sym Heq) Hq) as [q' ->]. by apply skip_blank in Hfull.
Qed.
End BodyTorn.
