(* ===== verification/Durable.v ===== *)
(** * The log file on disk: synchronisation and crashes (storage/aof/aof_writer.cpp)

    [fdatasync] makes the bytes written so far survive a crash.  A crash leaves a
    prefix of the file that holds at least the synchronised bytes: what the disk
    promises for a file that is only appended to.  The loader then meets whole lines
    and at most one cut line at the end. *)
From S2P Require Import Prelude CStd Entry Store MemoryStore KvTrace Json StringBody Command KvOps CounterOps QuotaOps IdemOps Codec Processor Dispatcher Aof Replay Torn.
Import JsonReader.

Inductive FsyncPolicy := FP_Always | FP_Everysec | FP_No.
#[export] Instance FsyncPolicy_eq_dec : EqDecision FsyncPolicy.
Proof. solve_decision. Defined.

(** The writer with its policy, and how many bytes of the file are safe. *)
Record Aof := mkDurable { policy_ : FsyncPolicy; writer_ : AofWriter; synced_ : nat }.

(** The constructor.  [bytes] is the file there was (empty when there was none);
    [opened]: whether [open] with O_APPEND and O_CREAT succeeded. *)
Definition OpenAof (policy : FsyncPolicy) (opened : bool) (bytes : string) : Aof :=
  mkDurable policy (mkAof opened bytes) (String.length bytes).

Definition synced_all (a : Aof) : Aof :=
  mkDurable (policy_ a) (writer_ a) (String.length (file_bytes (writer_ a))).

Definition AppendSync (script : list write_result) (a : Aof) (op payload_json : string) :
    option bool * Aof :=
  let '(r, w) := Append script (writer_ a) op payload_json in
  let a := mkDurable (policy_ a) w (synced_ a) in
  (r, if bool_decide (r = Some true) && bool_decide (policy_ a = FP_Always) then synced_all a else a).

Definition Fsync (a : Aof) : Aof := if fd_open (writer_ a) then synced_all a else a.

Definition CloseSync (a : Aof) : Aof :=
  if fd_open (writer_ a)
  then mkDurable (policy_ a) (Close (writer_ a)) (String.length (file_bytes (writer_ a)))
  else a.

(** What a crash may leave of the file. *)
Definition crash_file (a : Aof) (f : string) : Prop :=
  exists n, (synced_ a <= n)%nat /\ f = str_take n (file_bytes (writer_ a)).

(** ** Cut lines are rejected *)

Lemma members_tail_last l : exists m, members_tail l = m +:+ "}".
Proof.
  induction l as [|x l [m IH]]; [by exists ""|]. cbn [members_tail]. rewrite IH.
  exists ("," +:+ member x +:+ m). by rewrite !str_app_assoc.
Qed.
Lemma object_text_last p l : exists m, object_text p l = m +:+ "}".
Proof.
  unfold object_text. destruct (members_tail_last l) as [m ->].
  exists ("{" +:+ member p +:+ m). by rewrite !str_app_assoc.
Qed.

Section cut.
Context {S : Type} `{!Store S}.

(** The line is not executed when a part of its body is missing. *)
Definition cuts (l : aof_line) : Prop :=
  forall now (st : S) p q, l.2 = p +:+ q -> q <> "" -> (replay_line now st (l.1, p)).1 = st.

Lemma cuts_reader {A} (m : reader A) op text (k : clock -> S -> A -> (S * Result) + string) :
  find_command registrations (NormalizeName op) =
    Some (Validated (fun clk st rq => with_body m rq (k clk st))) ->
  no_accepted_prefix m text -> cuts (op, text).
Proof.
  intros Hf Hm now st p q Heq Hq. cbn [fst snd] in *. rewrite (replay_known now st op p _ Hf).
  destruct (Hm p q Heq Hq) as [e He]. unfold Validated. by rewrite (with_body_err _ _ _ _ _ _ He).
Qed.

Lemma cuts_fields {A} (field : string -> A -> reader A) init op p l acc
    (k : clock -> S -> A -> (S * Result) + string) :
  find_command registrations (NormalizeName op) =
    Some (Validated (fun clk st rq => with_body (fields field init) rq (k clk st))) ->
  (forall n a, extends (field n a)) -> reads field init (p :: l) acc -> cuts (op, object_text p l).
Proof.
  intros Hf Hext Hr. apply (cuts_reader _ _ _ _ Hf). destruct (object_text_last p l) as [m Hm].
  rewrite Hm. eapply fields_cut; [done|]. rewrite <- Hm. by apply fields_text.
Qed.
End cut.

Section lines.
Context {S : Type} `{!Store S}.

Ltac cut_fields ext fld :=
  eapply cuts_fields; [reflexivity|exact ext|unfold fld; read_members].

Lemma cuts_del k : cuts (S := S) ("DEL", aof_key k).
Proof.
  rewrite aof_key_text. eapply cuts_reader; [reflexivity|].
  destruct (object_text_last ("key", QuoteJson k) []) as [m Hm]. rewrite Hm.
  eapply opt_fields_cut; [apply keys_field_extends|]. rewrite <- Hm. apply opt_fields_text.
  unfold KeyOps.keys_field. read_members.
Qed.
Lemma cuts_pexpire k t : is_u64 t -> cuts (S := S) ("PEXPIRE", aof_pexpire k t).
Proof. intros Ht. rewrite aof_pexpire_text. cut_fields pexpire_field_extends TtlOps.pexpire_field. Qed.
Lemma cuts_incrby k d t : - 2 ^ 63 < d < 2 ^ 63 -> is_u64 t -> cuts (S := S) ("INCRBY", aof_incrby k d t).
Proof.
  intros Hd Ht. rewrite aof_incrby_text. destruct (0 <? t); cut_fields incrby_field_extends incrby_field.
Qed.
Lemma cuts_quota_init k a : is_u64 a -> cuts (S := S) ("GK.QUOTA_INIT", aof_quota_init k a).
Proof. intros Ha. rewrite aof_quota_init_text. cut_fields init_field_extends init_field. Qed.
Lemma cuts_rollback k i : cuts (S := S) ("GK.ROLLBACK", aof_rollback k i).
Proof. rewrite aof_rollback_text. cut_fields rollback_field_extends rollback_field. Qed.
Lemma cuts_commit k i a :
  plain k = true -> plain i = true -> is_u64 a -> cuts (S := S) ("GK.COMMIT", aof_commit k i a).
Proof. intros Pk Pi Ha. rewrite aof_commit_text. cut_fields commit_field_extends commit_field. Qed.
Lemma cuts_idem_complete k o c b :
  plain k = true -> plain o = true -> plain b = true -> is_u16 c ->
  cuts (S := S) ("GK.IDEM_COMPLETE", aof_idem_complete k o c b).
Proof.
  intros Pk Po Pb Hc. assert (- 2 ^ 63 < c < 2 ^ 63) by lia. rewrite aof_idem_complete_text.
  cut_fields complete_field_extends complete_field.
Qed.
Lemma cuts_idem_fail k o :
  plain k = true -> plain o = true -> cuts (S := S) ("GK.IDEM_FAIL", aof_idem_fail k o).
Proof. intros Pk Po. rewrite aof_idem_fail_text. cut_fields fail_field_extends fail_field. Qed.
Lemma cuts_set k v c t : is_u64 t -> cuts (S := S) ("SET", aof_set k v c t).
Proof.
  intros Ht now st p q Heq Hq. cbn [fst snd] in *. rewrite (replay_known now st "SET" p _ eq_refl).
  unfold Validated, StringOps.Set_. cbn [rq_body_json].
  rewrite aof_set_text in Heq. pose proof (ParseStringBody_text _ _ _ (set_body_reads k v c t Ht)) as Hfull.
  destruct (object_text_last ("key", QuoteJson k) (set_members v c t)) as [m Hm]. rewrite Hm in *.
  unfold ParseStringBody in *. destruct (Reader.Read (m +:+ "}")) as [x|] eqn:Hread; [|done].
  destruct (BodyTorn.Read_cut m x Hread p q Heq Hq) as [e He]. by rewrite He.
Qed.
End lines.

(** ** Loading a cut file *)

Lemma getlines_end s cur : no_newline s = true ->
  getlines cur s = match cur +:+ s with "" => [] | l => [l] end.
Proof.
  revert cur. induction s as [|c s IH]; intros cur Hs; cbn [getlines].
  - rewrite str_app_nil_r. by destruct cur.
  - cbn [no_newline] in Hs. bool_prop. rewrite H, IH by done. by rewrite str_app_assoc.
Qed.

Lemma no_newline_take n s : no_newline s = true -> no_newline (str_take n s) = true.
Proof.
  revert n. induction s as [|c s IH]; intros [|n] Hs; [done..|]. cbn in *. bool_prop.
  by rewrite H, IH.
Qed.
Lemma no_space_take n s : no_space s = true -> no_space (str_take n s) = true.
Proof.
  revert n. induction s as [|c s IH]; intros [|n] Hs; [done..|]. cbn in *. bool_prop.
  rewrite IH by done. by rewrite bool_decide_false.
Qed.
Lemma find_char_none s : no_space s = true -> find_char " " s = None.
Proof.
  induction s as [|c s IH]; [done|]. cbn. intros Hs. bool_prop.
  by rewrite bool_decide_false, IH by done.
Qed.

Section load.
Context {S : Type} `{!Store S}.
Implicit Types (st : S) (l : aof_line).

Lemma load_lines_one clks d i st line x y :
  (load_lines clks d false i st [line] x y).1 = (load_line (clks i) d false st line).1.
Proof. cbn [load_lines]. by destruct (load_line _ _ _ _ _) as [st' [[]|]]. Qed.
Lemma load_line_replay now st op json :
  wf_line (op, json) ->
  (load_line (fun _ => now) registrations false st (op +:+ " " +:+ json)).1 = (replay_line now st (op, json)).1.
Proof.
  intros Hwf. rewrite load_line_append by done. unfold replay_line. cbn [fst snd].
  by destruct (Dispatch _ _ _ _ _) as [[? ?] ?].
Qed.

Context (times : nat -> Z).
Abbreviation clks := (fun (i : nat) (_ : nat) => times i).
Abbreviation load := (load_lines clks registrations false).
Abbreviation dispatched := (replay clks registrations false).

(** The part of a line that a crash leaves: nothing, or everything but the newline,
    or a text the loader skips. *)
Lemma load_line_cut i st op json n x y :
  wf_line (op, json) -> cuts (S := S) (op, json) -> (n < String.length (line_text op json))%nat ->
  let st' := (load i st (getlines "" (str_take n (line_text op json))) x y).1 in
  st' = st \/ st' = (replay_line (times i) st (op, json)).1.
Proof.
  intros Hwf Hcut Hn. pose proof Hwf as (Hk & Hsp & Hn1 & Hn2). cbn [fst snd] in *. unfold line_text in *.
  rewrite !str_length_app in Hn. cbn [String.length] in Hn. cbv zeta.
  destruct (Nat.le_gt_cases n (String.length op)) as [Hle|Hgt].
  - left. rewrite str_take_app_le, getlines_end, str_app_nil_l by (done || by apply no_newline_take).
    destruct (str_take n op) as [|c s] eqn:Ht; [done|]. rewrite load_lines_one. unfold load_line.
    destruct (line_is_skipped (String c s)); [done|].
    by rewrite find_char_none by (rewrite <- Ht; by apply no_space_take).
  - remember (n - String.length op - 1)%nat as k eqn:Ek.
    assert (k <= String.length json)%nat as Hkj by lia.
    assert (str_take n (op +:+ " " +:+ json +:+ String newline "") = op +:+ " " +:+ str_take k json) as ->.
    { replace n with (String.length op + (1 + k))%nat by lia. rewrite str_take_add, str_take_app, str_drop_app by done.
      f_equal. rewrite str_take_add, (str_take_app 1 " "), (str_drop_app 1 " ") by done.
      by rewrite str_take_app_le. }
    assert (wf_line (op, str_take k json)) as Hwf'
      by (repeat split; cbn [fst snd]; by try apply no_newline_take).
    rewrite getlines_end, str_app_nil_l.
    2:{ rewrite !no_newline_app, Hn1, no_newline_take by done. done. }
    destruct (op +:+ " " +:+ str_take k json) as [|c s] eqn:Ht; [by destruct op|]. rewrite <- Ht.
    rewrite load_lines_one, load_line_replay by done.
    destruct (decide (str_drop k json = "")) as [He|He].
    + right. rewrite <- (str_take_drop k json) at 2. by rewrite He, str_app_nil_r.
    + left. apply (Hcut (times i) st (str_take k json) (str_drop k json)); [|done].
      by rewrite str_take_drop.
Qed.

(** A cut file restores what the first lines leave, the complete lines among them. *)
Lemma load_cut_file ls i st n x y :
  Forall wf_line ls -> Forall (cuts (S := S)) ls ->
  exists m, (load i st (getlines "" (str_take n (file_of ls))) x y).1 =
            (dispatched i st (take m ls) 0 0).1 /\
    (m <= length ls)%nat /\
    forall j, (j <= length ls)%nat -> (String.length (file_of (take j ls)) <= n)%nat -> (j <= m)%nat.
Proof.
  intros Hwf. revert i st n x y. induction Hwf as [|[op json] ls Hl Hls IH]; intros i st n x y Hcut.
  { exists 0%nat. split; [by destruct n|]. split; [done|]. intros j Hj _. exact Hj. }
  apply list.Forall_cons in Hcut as [Hc Hcut]. cbn [file_of].
  destruct (Nat.le_gt_cases (String.length (line_text op json)) n) as [Hle|Hlt].
  - assert (str_take n (line_text op json +:+ file_of ls) =
      (op +:+ " " +:+ json) +:+ String newline (str_take (n - String.length (line_text op json)) (file_of ls))) as ->.
    { replace n with (String.length (line_text op json) + (n - String.length (line_text op json)))%nat at 1 by lia.
      rewrite str_take_add, str_take_app, str_drop_app by done. unfold line_text. by rewrite !str_app_assoc. }
    rewrite getlines_line, str_app_nil_l.
    2:{ destruct Hl as (_ & _ & H1 & H2). cbn [fst snd] in *. by rewrite !no_newline_app, H1, H2. }
    cbn [load_lines]. rewrite load_line_append by done.
    destruct (Dispatch (clks i) registrations false st (mkRequest "aof" op json)) as [[st1 res] lines] eqn:Hd.
    assert (forall x y, exists m, (load (Datatypes.S i) st1
        (getlines "" (str_take (n - String.length (line_text op json)) (file_of ls))) x y).1 =
        (dispatched i st (take m ((op, json) :: ls)) 0 0).1 /\
      (m <= length ((op, json) :: ls))%nat /\
      forall j, (j <= length ((op, json) :: ls))%nat ->
        (String.length (file_of (take j ((op, json) :: ls))) <= n)%nat -> (j <= m)%nat) as Hrest.
    { intros x' y'. destruct (IH (Datatypes.S i) st1 (n - String.length (line_text op json))%nat x' y' Hcut)
        as (m & Hm & Hml & Hj). exists (Datatypes.S m). rewrite Hm. cbn [take replay]. rewrite Hd.
      split; [destruct (ok res); apply replay_from_0|]. split; [simpl; lia|].
      intros [|j] Hjl Hjn; [lia|]. apply le_n_S, Hj; [simpl in Hjl; lia|].
      cbn [take file_of] in Hjn. rewrite str_length_app in Hjn. lia. }
    destruct (ok res); apply Hrest.
  - rewrite str_take_app_le by lia.
    assert (forall j, (j <= length ((op, json) :: ls))%nat ->
      (String.length (file_of (take j ((op, json) :: ls))) <= n)%nat -> j = 0%nat) as Hj.
    { intros [|j] _ Hjn; [done|]. cbn [take file_of] in Hjn. rewrite str_length_app in Hjn. lia. }
    destruct (load_line_cut i st op json n x y Hl Hc Hlt) as [-> | ->].
    + exists 0%nat. split; [done|]. split; [lia|]. intros j H1 H2. by rewrite (Hj j H1 H2).
    + exists 1%nat. cbn [take]. split; [|split; [simpl; lia|intros j H1 H2; rewrite (Hj j H1 H2); lia]].
      rewrite take_0. unfold replay_line. cbn [replay fst snd].
      destruct (Dispatch _ _ _ _ _) as [[? ?] ?]. cbn [fst]. by destruct (ok _).
Qed.
End load.

(** ** Runs of the writer *)

(** The calls the server makes on its writer. *)
Inductive aof_op := OpAppend (l : aof_line) (script : list write_result) | OpFsync.

Definition appended (ops : list aof_op) : list aof_line :=
  omap (fun o => match o with OpAppend l _ => Some l | OpFsync => None end) ops.

(** A run in which every append is acknowledged. *)
Fixpoint run_aof (a : Aof) (ops : list aof_op) : option Aof :=
  match ops with
  | [] => Some a
  | OpFsync :: ops => run_aof (Fsync a) ops
  | OpAppend (op, json) script :: ops =>
      match AppendSync script a op json with
      | (Some true, a) => run_aof a ops
      | _ => None
      end
  end.

(** How many of the lines were synchronised: all that were acknowledged under the
    policy [Always], those before the last [Fsync] otherwise. *)
Fixpoint safe_lines (policy : FsyncPolicy) (ops : list aof_op) (acked safe : nat) : nat :=
  match ops with
  | [] => safe
  | OpFsync :: ops => safe_lines policy ops acked acked
  | OpAppend _ _ :: ops =>
      safe_lines policy ops (S acked) (if bool_decide (policy = FP_Always) then S acked else safe)
  end.

Lemma file_of_app ls ls' : file_of (ls ++ ls') = file_of ls +:+ file_of ls'.
Proof.
  induction ls as [|[op json] ls IH]; [done|]. cbn [app file_of]. by rewrite IH, str_app_assoc.
Qed.
Lemma file_of_take j ls : (String.length (file_of (take j ls)) <= String.length (file_of ls))%nat.
Proof. rewrite <- (take_drop j ls) at 2. rewrite file_of_app, str_length_app. lia. Qed.
Lemma str_take_take n k s : str_take n (str_take k s) = str_take (Nat.min n k) s.
Proof. revert n k. induction s as [|c s IH]; intros [|n] [|k]; cbn; [done..|]. by rewrite IH. Qed.

(** What one append leaves: the line up to some byte, all of it when acknowledged. *)
Lemma AppendSync_bytes script a op json r a' :
  AppendSync script a op json = (r, a') ->
  policy_ a' = policy_ a /\ fd_open (writer_ a') = fd_open (writer_ a) /\
  exists k, file_bytes (writer_ a') = file_bytes (writer_ a) +:+ str_take k (line_text op json) /\
    (r = Some true -> str_take k (line_text op json) = line_text op json) /\
    synced_ a' = if bool_decide (r = Some true) && bool_decide (policy_ a = FP_Always)
                 then String.length (file_bytes (writer_ a')) else synced_ a.
Proof.
  unfold AppendSync. destruct (Append script (writer_ a) op json) as [r1 w] eqn:Ha.
  cbn [policy_]. intros [= <- <-].
  assert (fd_open w = fd_open (writer_ a) /\
    exists k, file_bytes w = file_bytes (writer_ a) +:+ str_take k (line_text op json) /\
      (r1 = Some true -> str_take k (line_text op json) = line_text op json)) as (Ho & k & Hb & Ht).
  { unfold Append in Ha. destruct (is_nil op).
    { injection Ha as <- <-. split; [done|]. exists 0%nat. by rewrite str_app_nil_r. }
    destruct (fd_open (writer_ a)) eqn:Hopen; cbn [negb] in Ha.
    2:{ injection Ha as <- <-. split; [done|]. exists 0%nat. by rewrite str_app_nil_r. }
    destruct (write_loop script (line_text op json) (file_bytes (writer_ a))) as [r2 file] eqn:Hw.
    injection Ha as <- <-. split; [done|]. apply write_loop_spec in Hw as (k & -> & Hk & Hr).
    exists k. split; [done|]. intros ->. rewrite (proj1 Hr eq_refl).
    rewrite <- (str_app_nil_r (line_text op json)) at 2. by apply str_take_app. }
  destruct (bool_decide (r1 = Some true) && bool_decide (policy_ a = FP_Always)); (split; [done|]); (split; [done|]); by exists k.
Qed.

(** The file holds the lines [done] and the first [safe] of them are synchronised. *)
Record aof_holds (policy : FsyncPolicy) (a : Aof) (done : list aof_line) (safe : nat) : Prop := {
  holds_policy : policy_ a = policy;
  holds_open : fd_open (writer_ a) = true;
  holds_bytes : file_bytes (writer_ a) = file_of done;
  holds_safe : (String.length (file_of (take safe done)) <= synced_ a)%nat;
}.

Lemma run_aof_holds policy ops a done safe a' :
  aof_holds policy a done safe -> (safe <= length done)%nat -> run_aof a ops = Some a' ->
  aof_holds policy a' (done ++ appended ops) (safe_lines policy ops (length done) safe) /\
  (safe_lines policy ops (length done) safe <= length (done ++ appended ops))%nat.
Proof.
  revert a done safe. induction ops as [|[[op json] script|] ops IH]; intros a done safe Ha Hs; cbn [run_aof].
  - intros [= <-]. cbn [appended omap list_omap safe_lines]. rewrite app_nil_r. done.
  - destruct (AppendSync script a op json) as [[[|]|] a1] eqn:Happ; try done. intros Hrun.
    apply AppendSync_bytes in Happ as (Hp & Ho & k & Hb & Ht & Hsy). rewrite Ht in Hb by done.
    destruct Ha as [Hap Hao Hab Has]. rewrite Hap in Hsy.
    destruct (IH a1 (done ++ [(op, json)]) (if bool_decide (policy = FP_Always) then S (length done) else safe))
      as [H1 H2]; [constructor| |done|].
    + by rewrite Hp.
    + by rewrite Ho.
    + rewrite Hb, Hab, file_of_app. cbn [file_of]. by rewrite str_app_nil_r.
    + rewrite Hsy. change (bool_decide (Some true = Some true)) with true. cbn [andb]. destruct (bool_decide (policy = FP_Always)).
      * rewrite Hb, Hab, take_ge by (rewrite length_app; simpl; lia). rewrite file_of_app.
        cbn [file_of]. by rewrite str_app_nil_r.
      * rewrite take_app_le by done. exact Has.
    + rewrite length_app. cbn [length]. destruct (bool_decide (policy = FP_Always)); lia.
    + rewrite length_app in H1, H2. cbn [length] in *. rewrite Nat.add_1_r in *.
      cbn [safe_lines appended omap list_omap]. rewrite <- app_assoc in *. done.
  - intros Hrun. destruct Ha as [Hap Hao Hab Has].
    destruct (IH (Fsync a) done (length done)) as [H1 H2]; [|done|done|done].
    unfold Fsync. rewrite Hao. constructor; try done. cbn. rewrite Hab. apply file_of_take.
Qed.

(** ** Crash and recovery *)

Section crash.
Context {S : Type} `{!Store S}.

(** Runs whose requests log one line each. *)
Lemma run_logged_take {X} (step : Z -> S -> X -> option (S * list aof_line)) xs (st st' : S) tls m :
  (forall now st x st' ls, step now st x = Some (st', ls) -> length ls = 1%nat) ->
  run_logged step st xs = Some (st', tls) ->
  exists st_m, run_logged step st (take m xs) = Some (st_m, take m tls).
Proof.
  intros Hone. revert m st tls. induction xs as [|[now x] xs IH]; intros m st tls.
  { cbn [run_logged]. intros [= <- <-]. exists st. by rewrite !take_nil. }
  destruct m as [|m]; [by exists st|]. cbn [run_logged take].
  destruct (step now st x) as [[st1 ls]|] eqn:Hs; [|done].
  destruct (run_logged step st1 xs) as [[st2 tls2]|] eqn:Hr; [|done]. intros [= <- <-].
  destruct (IH m st1 tls2 Hr) as [st_m Hm]. exists st_m. rewrite Hm.
  apply Hone in Hs. by destruct ls as [|l [|]].
Qed.

Lemma replay_clocks clks clks' (d : table) i (st : S) ls n m :
  (forall j, (j < length ls)%nat -> clks (i + j)%nat = clks' (i + j)%nat) ->
  replay clks d false i st ls n m = replay clks' d false i st ls n m.
Proof.
  revert i st n m. induction ls as [|[op json] ls IH]; intros i st n m Hc; [done|]. cbn [replay].
  pose proof (Hc 0%nat) as H0. rewrite Nat.add_0_r in H0. rewrite H0 by (simpl; lia).
  destruct (Dispatch _ _ _ _ _) as [[st1 res] x].
  assert (forall j, (j < length ls)%nat -> clks (Datatypes.S i + j)%nat = clks' (Datatypes.S i + j)%nat) as Hc'
    by (intros j Hj; rewrite Nat.add_succ_comm; apply Hc; simpl; lia).
  destruct (ok res); by apply IH.
Qed.

Lemma binary_step_one now (st : S) r st' ls : binary_step now st r = Some (st', ls) -> length ls = 1%nat.
Proof. unfold binary_step. destruct (Process _ _ _ _) as [[[st1 [|l [|]]] resp]|]; try done. by intros [= _ <-]. Qed.

Lemma request_cuts now (st st' : S) r l resp :
  wf_request r -> replayable r -> serve now true st r = (st', [l], resp) -> cuts (S := S) l.
Proof.
  intros Hw Hr Hs. destruct r; cbn [wf_request replayable serve] in *; try done.
  - unfold serve_Set in Hs. destruct (Set_ _ _ _ _ _ _) as [st1 []]; [|done]. injection Hs as _ <- _.
    apply cuts_set, Hw.
  - unfold serve_Del in Hs. destruct (Del st key) as [st1 b]. injection Hs as _ Hl _.
    apply log_inv in Hl as ->. apply cuts_del.
  - unfold serve_Expire in Hs. destruct (Expire _ _ _ _) as [st1 b]. injection Hs as _ Hl _.
    apply log_inv in Hl as ->. apply cuts_pexpire, Hw.
  - unfold serve_Incr in Hs. destruct (IncrBy _ _ _ _ _) as [st1 res]. destruct (negb _); [done|].
    injection Hs as _ <- _. destruct Hw as (_ & ? & ?), Hr. apply cuts_incrby; [lia|done].
  - unfold serve_QuotaInit in Hs. destruct (Set_ _ _ _ _ _ _) as [st1 b]. injection Hs as _ <- _.
    apply cuts_quota_init, Hw.
  - unfold serve_Commit in Hs. destruct (CommitQuota _ _ _ _ _) as [st1 res]. destruct (negb _); [done|].
    injection Hs as _ <- _. destruct Hr as (_ & _ & Pk & Pi). apply cuts_commit; [done|done|apply Hw].
  - unfold serve_Rollback in Hs. destruct (RollbackQuota _ _ _ _) as [st1 res]. destruct (negb _); [done|].
    injection Hs as _ <- _. apply cuts_rollback.
  - unfold serve_IdemComplete in Hs. destruct (IdemComplete _ _ _ _ _ _) as [st1 res]. destruct (negb _); [done|].
    injection Hs as _ <- _. destruct Hr as (_ & _ & Pk & Po & Pb). apply cuts_idem_complete; try done. apply Hw.
  - unfold serve_IdemFail in Hs. destruct (IdemFail _ _ _ _ _) as [st1 res]. destruct (negb _); [done|].
    injection Hs as _ <- _. destruct Hr as (_ & _ & Pk & Po & _). by apply cuts_idem_fail.
Qed.

Lemma binary_step_cuts now (st : S) r st' ls :
  wf_request r /\ replayable r -> binary_step now st r = Some (st', ls) -> Forall (cuts (S := S)) ls.
Proof.
  intros [Hw Hr]. unfold binary_step, Process. destruct (parse_encode r "" Hw) as [rest Hp].
  rewrite str_app_nil_r in Hp. rewrite Hp.
  destruct (serve now true st r) as [[st1 [|l [|]]] resp] eqn:Hs; try done. intros [= _ <-].
  constructor; [|done]. by eapply request_cuts.
Qed.

Lemma run_cuts {X} (step : Z -> S -> X -> option (S * list aof_line)) (P : X -> Prop) xs (st st' : S) tls :
  (forall now st x st' ls, P x -> step now st x = Some (st', ls) -> Forall (cuts (S := S)) ls) ->
  Forall (fun p => P p.2) xs -> run_logged step st xs = Some (st', tls) -> Forall (cuts (S := S)) tls.*2.
Proof.
  intros Hstep Hxs. revert st tls. induction Hxs as [|[now x] xs Hx Hxs IH]; intros st tls; cbn [run_logged].
  { by intros [= _ <-]. }
  destruct (step now st x) as [[st1 ls]|] eqn:Hs; [|done].
  destruct (run_logged step st1 xs) as [[st2 tls2]|] eqn:Hrun; [|done]. intros [= -> <-].
  rewrite fmap_app, <- list_fmap_compose.
  assert ((snd ∘ (now,.)) <$> ls = ls) as -> by (apply list_fmap_id).
  apply list.Forall_app. split; [by eapply Hstep|by eapply IH].
Qed.

(** The first lines of the file of a run restore the store after as many requests. *)
Lemma replay_first_lines rs (st st' : S) tls m :
  Forall (fun p => wf_request p.2 /\ replayable p.2) rs ->
  run_logged binary_step st rs = Some (st', tls) ->
  exists st_m, run_logged binary_step st (take m rs) = Some (st_m, take m tls) /\
    (replay (same_times tls) registrations false 0 st (take m tls.*2) 0 0).1 = st_m.
Proof.
  intros Hrs Hrun. destruct (run_logged_take binary_step rs st st' tls m) as [st_m Hm];
    [apply binary_step_one|done|].
  exists st_m. split; [done|].
  destruct (run_replays binary_step (fun r => wf_request r /\ replayable r) (take m rs) [] st st_m (take m tls))
    as [_ Hrep]; [apply binary_step_replays|by apply Forall_take|done|].
  rewrite <- Hrep. cbn [app]. rewrite fmap_take. f_equal. apply replay_clocks. intros j Hj.
  rewrite length_take in Hj. unfold same_times. by rewrite lookup_take_lt by (simpl; lia).
Qed.
End crash.

Lemma run_logged_length {S X} (step : Z -> S -> X -> option (S * list aof_line)) xs (st st' : S) tls :
  (forall now st x st' ls, step now st x = Some (st', ls) -> length ls = 1%nat) ->
  run_logged step st xs = Some (st', tls) -> length tls = length xs.
Proof.
  intros Hone. revert st tls. induction xs as [|[now x] xs IH]; intros st tls; cbn [run_logged].
  { by intros [= _ <-]. }
  destruct (step now st x) as [[st1 ls]|] eqn:Hs; [|done].
  destruct (run_logged step st1 xs) as [[st2 tls2]|] eqn:Hr; [|done]. intros [= -> <-].
  rewrite length_app, length_fmap, (Hone _ _ _ _ _ Hs), (IH _ _ Hr). done.
Qed.

(** A prefix of whole lines and a part of one more. *)
Lemma crash_bytes n ls op json k :
  str_take n (file_of ls +:+ str_take k (line_text op json)) =
  str_take (Nat.min n (String.length (file_of ls) + k)) (file_of (ls ++ [(op, json)])).
Proof.
  rewrite file_of_app. cbn [file_of]. rewrite str_app_nil_r, <- str_take_take. f_equal.
  by rewrite str_take_add, str_take_app, str_drop_app.
Qed.

(** C8: A crash loses no synchronised write and leaves no half of one. The server
    starts with an empty log file and serves binary requests that are all logged: SET,
    PEXPIRE, INCRBY (by any number but -2^63, whose line the reader cannot negate)
    and QUOTA_INIT with a non-empty key, DEL, ROLLBACK with a
    non-empty key and identifier, COMMIT and IDEM_COMPLETE whose texts are moreover
    free of quotes, backslashes and newlines, IDEM_FAIL of the same kind with an empty
    message; all field lengths within the wire format. It appends their lines (with
    short writes and interruptions) and synchronises the file as its policy says and
    at timer ticks; it is killed during the append of the last line, which may have
    written any part of it. A crash leaves a prefix of the file with at least the
    synchronised bytes. Load that prefix from the store the run began with, the clock
    reading during each line what it read when the request was served (for another
    clock see [restart_any_clock] and [ttl_starts_again]): the result is exactly the
    store after the first [m] requests, for some [m] that counts every synchronised
    one: under the policy Always all acknowledged requests, otherwise those before the
    last tick. A line that was cut has no effect, or the whole effect of its request
    when only the newline is missing. *)
Theorem crash_recovery {S} {Store0 : Store S} (st st' : S) rs tls policy ops a op json script res a' f :
  Forall (fun p => wf_request p.2 /\ replayable p.2) rs ->
  run_logged binary_step st rs = Some (st', tls) ->
  tls.*2 = appended ops ++ [(op, json)] ->
  run_aof (OpenAof policy true "") ops = Some a ->
  AppendSync script a op json = (res, a') ->
  crash_file a' f ->
  exists m st_m, run_logged binary_step st (take m rs) = Some (st_m, take m tls) /\
    (Load (same_times tls) registrations false st (Readable f)).1 = st_m /\
    (safe_lines policy ops 0 0 <= m <= length rs)%nat /\
    (res = Some true -> policy = FP_Always -> m = length rs).
Proof.
  intros Hrs Hrun Htls Hops Happ (n & Hn & ->).
  destruct (run_aof_holds policy ops (OpenAof policy true "") [] 0 a) as [[Hp Ho Hb Hsafe] Hsl]; [|done|done|].
  { by constructor. }
  cbn [app length] in *. apply AppendSync_bytes in Happ as (Hp' & _ & k & Hb' & Ht & Hsy).
  rewrite Hb in Hb'. rewrite Hp in Hsy.
  destruct (run_replays binary_step _ rs [] st st' tls binary_step_replays Hrs Hrun) as [Hwf _].
  pose proof (run_cuts binary_step _ rs st st' tls binary_step_cuts Hrs Hrun) as Hcuts.
  assert (str_take n (file_bytes (writer_ a')) =
    str_take (Nat.min n (String.length (file_of (appended ops)) + k)) (file_of tls.*2)) as ->
    by (rewrite Htls, Hb'; apply crash_bytes).
  destruct (load_cut_file (fun i => same_times tls i 0%nat) tls.*2 0 st
    (Nat.min n (String.length (file_of (appended ops)) + k)) 0 0 Hwf Hcuts) as (m & Hload & Hm & Hj).
  destruct (replay_first_lines rs st st' tls m Hrs Hrun) as (st_m & Hrun_m & Hrep).
  exists m, st_m. split; [done|]. split; [by rewrite <- Hrep|].
  rewrite <- (run_logged_length _ _ _ _ _ binary_step_one Hrun), <- (length_fmap snd tls).
  rewrite Htls in Hj |- *. rewrite length_app in *. cbn [length] in *.
  pose proof (f_equal String.length Hb') as Hlen. rewrite str_length_app in Hlen.
  unfold aof_line in *. split; [split|].
  - apply Hj; [lia|]. rewrite take_app_le by done. pose proof (file_of_take (safe_lines policy ops 0 0) (appended ops)).
    destruct (bool_decide (res = Some true) && bool_decide (policy = FP_Always)); lia.
  - by rewrite Htls, length_app in Hm.
  - intros -> ->. change (bool_decide (Some true = Some true) && bool_decide (FP_Always = FP_Always)) with true in Hsy.
    rewrite Htls, length_app in Hm. cbn [length] in Hm. apply Nat.le_antisymm; [done|]. apply Hj; [done|].
    rewrite take_ge by (rewrite length_app; simpl; lia). rewrite file_of_app, str_length_app. cbn [file_of].
    rewrite str_app_nil_r. rewrite (Ht eq_refl) in Hlen.
    pose proof (f_equal String.length (Ht eq_refl)) as Hk. rewrite str_take_length in Hk. lia.
Qed.

(** A server that is killed while it writes the line of its third request. *)
Definition crash_lines : list aof_line :=
  [("SET", aof_set "k" "v" SC_IfAbsent 100); ("INCRBY", aof_incrby "counter" 1 0)].
Definition crash_ops : list aof_op := (fun l => OpAppend l [Wrote 4; Interrupted; Wrote 1000]) <$> crash_lines.

Lemma crash_recovery_witness :
  match run_logged (binary_step (Store0 := sample_ms)) sample_store sample_run,
        run_aof (OpenAof FP_Always true "") crash_ops with
  | Some (st', tls), Some a =>
      exists m st_m,
        run_logged (binary_step (Store0 := sample_ms)) sample_store (take m sample_run) = Some (st_m, take m tls) /\
        (Load (same_times tls) (registrations (Store0 := sample_ms)) false sample_store
           (Readable (file_bytes (writer_ (AppendSync [Wrote 9; WriteFailed] a "DEL" (aof_key "k")).2)))).1 = st_m /\
        (2 <= m <= 3)%nat
  | _, _ => False
  end.
Proof.
  destruct (run_logged (binary_step (Store0 := sample_ms)) sample_store sample_run)
    as [[st' tls]|] eqn:Hrun; [|vm_compute in Hrun; discriminate].
  destruct (run_aof (OpenAof FP_Always true "") crash_ops) as [a|] eqn:Ha; [|vm_compute in Ha; discriminate].
  assert (tls.*2 = appended crash_ops ++ [("DEL", aof_key "k")]) as Htls
    by (vm_compute in Hrun; injection Hrun as _ <-; reflexivity).
  destruct (crash_recovery (Store0 := sample_ms) sample_store st' sample_run tls FP_Always crash_ops a "DEL" (aof_key "k")
    [Wrote 9; WriteFailed] (AppendSync [Wrote 9; WriteFailed] a "DEL" (aof_key "k")).1
    (AppendSync [Wrote 9; WriteFailed] a "DEL" (aof_key "k")).2 (file_bytes (writer_ (AppendSync [Wrote 9; WriteFailed] a "DEL" (aof_key "k")).2)))
    as (m & st_m & H1 & H2 & H3 & _); [|exact Hrun|exact Htls|exact Ha|apply surjective_pairing| |].
  - repeat constructor; try (by vm_compute); by intros [=].
  - vm_compute in Ha. injection Ha as <-. exists 200%nat.
    split; [apply Nat.leb_le; vm_compute; reflexivity|vm_compute; reflexivity].
  - exists m, st_m. split; [exact H1|]. split; [exact H2|]. exact H3.
Defined.

(** The line behind a cut line is lost.  After a crash that left a part of a line,
    the restarted server appends to that part: its next write is acknowledged and
    synchronised, but the next start reads both as one line, rejects it, and the key
    is gone. *)
Theorem write_after_cut_line_lost :
  let store := memory_store length_hash in
  let killed := (AppendSync [Wrote 20; WriteFailed] (OpenAof FP_Always true "") "SET" (aof_set "a" "1" SC_Always 0)).2 in
  exists left a st,
    crash_file killed left /\
    AppendSync [Wrote 1000] (OpenAof FP_Always true left) "SET" (aof_set "b" "2" SC_Always 0) = (Some true, a) /\
    synced_ a = String.length (file_bytes (writer_ a)) /\
    Load (fun _ _ => 2000) (registrations (Store0 := store)) false init_store (Readable (file_bytes (writer_ a))) =
      (st, mkLoad true 0 1 "") /\
    (Get (Store := store) 2000 st "b").2 = None.
Proof.
  cbv zeta. do 3 eexists. split; [exists 20%nat; split; [apply Nat.leb_le; by vm_compute|by vm_compute]|]. split; [vm_compute; reflexivity|].
  split; [reflexivity|]. split; vm_compute; reflexivity.
Qed.
