(* ===== verification/Restart.v ===== *)
(** * Restarts at a later time

    [Replay] compares a run with its replay at the same clock readings.  A restart
    comes later.  For requests without a time to live the readings do not matter:
    the restored store answers every read as the lost one would.  A time to live,
    which the log records as a duration, starts again. *)
From S2P Require Import Prelude CStd HashTable Entry Store MemoryStore StoreWf KvStore KvTrace Json StringBody Command KvOps CounterOps QuotaOps IdemOps Codec Processor Dispatcher Aof Replay.

(** ** Cells up to their creation time *)

Definition undated_entry (e : Entry) : string * string * DataType * Z :=
  (e_key e, e_value e, m_type (e_meta e), m_expire_at_ms (e_meta e)).
Definition same_cell (o o' : option Entry) : Prop := undated_entry <$> o = undated_entry <$> o'.
#[export] Instance same_cell_equiv : Equivalence same_cell.
Proof. split; unfold same_cell; [by intros ?|by intros ? ?|by intros ? ? ? -> ->]. Qed.

Lemma same_cell_inv o o' :
  same_cell o o' ->
  match o, o' with
  | None, None => True
  | Some e, Some e' =>
      e_key e = e_key e' /\ e_value e = e_value e' /\ m_type (e_meta e) = m_type (e_meta e') /\
      m_expire_at_ms (e_meta e) = m_expire_at_ms (e_meta e')
  | _, _ => False
  end.
Proof. unfold same_cell. destruct o as [e|], o' as [e'|]; cbn; try done. by intros [= -> -> -> ->]. Qed.
Lemma same_cell_some e e' :
  e_key e = e_key e' -> e_value e = e_value e' -> m_type (e_meta e) = m_type (e_meta e') ->
  m_expire_at_ms (e_meta e) = m_expire_at_ms (e_meta e') -> same_cell (Some e) (Some e').
Proof. unfold same_cell, undated_entry. cbn. by intros -> -> -> ->. Qed.

#[export] Instance alive_proper now : Proper (same_cell ==> same_cell) (alive now).
Proof.
  intros o o' Ho%same_cell_inv. destruct o as [e|], o' as [e'|]; cbn; try done.
  destruct Ho as (H1 & H2 & H3 & H4). unfold e_expired. rewrite H4.
  destruct (IsExpired _ now); [done|by apply same_cell_some].
Qed.

(** Without a deadline. *)
Definition undated (o : option Entry) : Prop :=
  match o with Some e => m_expire_at_ms (e_meta e) = 0 | None => True end.
Lemma undated_alive now o : undated o -> alive now o = o.
Proof. destruct o as [e|]; cbn; [|done]. unfold e_expired. by intros ->. Qed.
#[export] Instance undated_proper : Proper (same_cell ==> iff) undated.
Proof.
  intros o o' Ho%same_cell_inv. destruct o as [e|], o' as [e'|]; cbn; try done.
  by destruct Ho as (_ & _ & _ & ->).
Qed.

(** ** Requests without a time to live *)

Definition undated_request (r : BinaryRequest) : Prop :=
  match r with
  | RSet k _ _ t => k <> "" /\ t = 0
  | RIncr k d t => k <> "" /\ d <> - 2 ^ 63 /\ t = 0
  | RQuotaInit k _ => k <> ""
  | RDel _ | RGet _ | RExists _ | RType _ | RTtl _ | RQuotaGet _ | RPing => True
  | _ => False
  end.

Definition request_key (r : BinaryRequest) : option string :=
  match r with
  | RSet k _ _ _ | RIncr k _ _ | RQuotaInit k _ | RDel k | RGet k | RExists k | RType k | RTtl k
  | RQuotaGet k => Some k
  | _ => None
  end.

(** What such a request makes of its key's cell. *)
Definition write_cell (now : Z) (r : BinaryRequest) (o : option Entry) : option Entry :=
  match r with
  | RSet k v c _ => (set_cell now k v (write_condition c) 0 o).1
  | RIncr k d _ => (incr_cell now k d 0 o).1
  | RQuotaInit k a => (set_cell now k (to_string a) Always 0 o).1
  | RDel _ => None
  | _ => alive now o
  end.

Lemma set_cell_same now now' k v c o o' :
  same_cell o o' -> undated o ->
  same_cell (set_cell now k v c 0 o).1 (set_cell now' k v c 0 o').1 /\
  undated (set_cell now k v c 0 o).1.
Proof.
  intros Ho Hu. pose proof Hu as Hu'. rewrite Ho in Hu'. unfold set_cell.
  rewrite !undated_alive by done. apply same_cell_inv in Ho.
  destruct o as [e|], o' as [e'|], c; cbn; try done;
    destruct Ho as (H1 & H2 & H3 & H4); (split; [apply same_cell_some; by cbn|done]).
Qed.

Lemma incr_cell_same now now' k d o o' :
  same_cell o o' -> undated o ->
  same_cell (incr_cell now k d 0 o).1 (incr_cell now' k d 0 o').1 /\ undated (incr_cell now k d 0 o).1.
Proof.
  intros Ho Hu. pose proof Hu as Hu'. rewrite Ho in Hu'. unfold incr_cell.
  rewrite !undated_alive by done. pose proof Ho as Hi. apply same_cell_inv in Hi.
  destruct o as [e|], o' as [e'|]; try done. destruct Hi as (H1 & H2 & H3 & H4).
  unfold int_value. rewrite H3, H2. destruct (bool_decide _); [done|].
  destruct (stoll (e_value e')) as [[v idx]|]; [|done]. destruct (_ =? _)%nat; [|done].
  destruct (_ || _); [done|]. split; [by apply same_cell_some|done].
Qed.

Lemma write_cell_same now now' r o o' :
  same_cell o o' -> undated o ->
  same_cell (write_cell now r o) (write_cell now' r o') /\ undated (write_cell now r o).
Proof.
  intros Ho Hu. destruct r; cbn [write_cell];
    try (by apply set_cell_same); try (by apply incr_cell_same); try done;
    (rewrite !undated_alive; [done|by rewrite <- Ho|done]).
Qed.

(** ** Served and replayed requests *)

Section effect.
Context {S : Type} `{KvStore S}.

(** [st'] is [st] with the cell of [r]'s key written. *)
Definition written (now : Z) (r : BinaryRequest) (st st' : S) : Prop :=
  kv_inv st' /\
  forall k, kv_at st' k =
    if decide (request_key r = Some k) then write_cell now r (kv_at st k) else kv_at st k.

Lemma cell_law_written {A} now r (p : S * A) st k f :
  cell_law kv_inv kv_at p st k f -> request_key r = Some k ->
  (forall o, (f o).1 = write_cell now r o) -> written now r st p.1.
Proof.
  intros (Hi & _ & Hk) Hr Hf. split; [done|]. intros k'. rewrite Hk, Hr.
  destruct (decide (k' = k)) as [->|Hne].
  - by rewrite decide_True, Hf by done.
  - by rewrite decide_False by congruence.
Qed.

Lemma serve_written now st r :
  kv_inv st -> undated_request r -> written now r st (serve now true st r).1.1.
Proof.
  intros Hi Hr. destruct r; cbn [undated_request serve] in *; try done.
  - pose proof (cell_law_written now (RGet key) _ st key _ (kv_get st now key Hi) eq_refl ltac:(done)) as Hw.
    unfold serve_Get. destruct (Get now st key) as [st1 [v|]]; exact Hw.
  - destruct Hr as [_ ->].
    pose proof (cell_law_written now (RSet key val cond 0) _ st key _
      (kv_set st now key val (write_condition cond) 0 Hi) eq_refl ltac:(done)) as Hw.
    unfold serve_Set. destruct (Set_ now st key val (write_condition cond) 0) as [st1 []]; exact Hw.
  - pose proof (cell_law_written now (RDel key) _ st key _ (kv_del st key Hi) eq_refl ltac:(done)) as Hw.
    unfold serve_Del. destruct (Del st key) as [st1 b]. exact Hw.
  - pose proof (cell_law_written now (RExists key) _ st key _ (kv_exists st now key Hi) eq_refl ltac:(done)) as Hw.
    unfold serve_Exists. destruct (Exists now st key) as [st1 b]. exact Hw.
  - pose proof (cell_law_written now (RType key) _ st key _ (kv_type st now key Hi) eq_refl ltac:(done)) as Hw.
    unfold serve_Type. destruct (Type_ now st key) as [st1 b]. exact Hw.
  - pose proof (cell_law_written now (RTtl key) _ st key _ (kv_ttl st now key Hi) eq_refl ltac:(done)) as Hw.
    unfold serve_Ttl. destruct (Ttl now st key) as [st1 b]. exact Hw.
  - destruct Hr as (_ & _ & ->).
    pose proof (cell_law_written now (RIncr key delta 0) _ st key _ (kv_incr st now key delta 0 Hi) eq_refl
      ltac:(done)) as Hw.
    unfold serve_Incr. destruct (IncrBy now st key delta 0) as [st1 res]. destruct (negb _); exact Hw.
  - pose proof (cell_law_written now (RQuotaInit key amount) _ st key _
      (kv_set st now key (to_string amount) Always 0 Hi) eq_refl ltac:(done)) as Hw.
    unfold serve_QuotaInit. destruct (Set_ now st key (to_string amount) Always 0) as [st1 b]. exact Hw.
  - pose proof (cell_law_written now (RQuotaGet key) _ st key _ (kv_get st now key Hi) eq_refl ltac:(done)) as Hw.
    unfold serve_QuotaGet. destruct (Get now st key) as [st1 v]. exact Hw.
Qed.

(** The line that a request logs has, replayed at any time, the effect of the request. *)
Lemma line_written now now' st st1 r l st' resp :
  wf_request r -> undated_request r -> serve now true st r = (st', [l], resp) ->
  kv_inv st1 -> written now' r st1 (replay_line now' st1 l).1 /\ wf_line l.
Proof.
  intros Hw Hr Hs Hi.
  assert (replayable r) as Hrep.
  { destruct r; cbn [undated_request replayable serve] in *; try done; try tauto.
    all: exfalso; revert Hs; unfold serve_Get, serve_Exists, serve_Type, serve_Ttl, serve_QuotaGet;
      repeat case_match; naive_solver. }
  split; [|by eapply line_replays].
  destruct r; cbn [undated_request replayable serve] in *; try done.
  - destruct Hr as [Hk ->]. unfold serve_Set in Hs. destruct (Set_ now _ _ _ _ _) as [? []]; [|done].
    injection Hs as _ <- _. rewrite replay_set by (done || apply Hw).
    pose proof (cell_law_written now' (RSet key val cond 0) _ st1 key _
      (kv_set st1 now' key val (write_condition cond) 0 Hi) eq_refl ltac:(done)) as Hc.
    destruct (Set_ now' st1 key val (write_condition cond) 0) as [? b]. exact Hc.
  - unfold serve_Del in Hs. destruct (Del st key) as [? b]. injection Hs as _ Hl _. apply log_inv in Hl as ->.
    rewrite replay_del.
    pose proof (cell_law_written now' (RDel key) _ st1 key _ (kv_del st1 key Hi) eq_refl ltac:(done)) as Hc.
    destruct (Del st1 key) as [? b']. exact Hc.
  - destruct Hr as (Hk & Hd & ->), Hw as (_ & Hd' & Ht'). unfold serve_Incr in Hs. destruct (IncrBy now _ _ _ _) as [? res].
    destruct (negb _); [done|]. injection Hs as _ <- _. rewrite replay_incrby by (done || lia).
    pose proof (cell_law_written now' (RIncr key delta 0) _ st1 key _ (kv_incr st1 now' key delta 0 Hi) eq_refl
      ltac:(done)) as Hc.
    destruct (IncrBy now' st1 key delta 0) as [? ?]. exact Hc.
  - unfold serve_QuotaInit in Hs. destruct (Set_ now _ _ _ _ _) as [? b]. injection Hs as _ <- _.
    rewrite (proj1 (replay_quota_init now' st1 key amount Hr (proj2 Hw))).
    apply (cell_law_written now' (RQuotaInit key amount) _ st1 key _
      (kv_set st1 now' key (to_string amount) Always 0 Hi) eq_refl). done.
Qed.

(** A request that logs nothing changes nothing (of cells without a deadline). *)
Lemma unlogged_write now st st' r resp k :
  kv_inv st -> undated_request r -> serve now true st r = (st', [], resp) ->
  request_key r = Some k -> undated (kv_at st k) -> write_cell now r (kv_at st k) = kv_at st k.
Proof.
  intros Hi Hr Hs Hk Hu.
  destruct r; cbn [undated_request serve request_key] in *; try done; injection Hk as ->;
    cbn [write_cell]; try (by apply undated_alive).
  - destruct Hr as [_ ->]. destruct (kv_set st now k val (write_condition cond) 0 Hi) as (_ & Hb & _).
    unfold serve_Set in Hs. destruct (Set_ now st k val _ 0) as [st1 b]. cbn [snd] in Hb. subst b.
    unfold set_cell in *. rewrite undated_alive in * by done. by destruct (permitted _ _).
  - destruct (kv_del st k Hi) as (_ & Hb & _). unfold serve_Del in Hs.
    destruct (Del st k) as [st1 b]. cbn [snd] in Hb. subst b. unfold del_cell in Hs.
    by destruct (kv_at st k).
  - destruct Hr as (_ & _ & ->). destruct (kv_incr st now k delta 0 Hi) as (_ & Hb & _).
    unfold serve_Incr in Hs. destruct (IncrBy now st k delta 0) as [st1 res]. cbn [snd] in Hb. subst res.
    unfold incr_cell in *. rewrite undated_alive in * by done.
    destruct (kv_at st k) as [e|]; [|done]. destruct (bool_decide _); [done|].
    destruct (int_value e); [|done]. by destruct (_ || _).
  - unfold serve_QuotaInit in Hs. by destruct (Set_ _ _ _ _ _ _).
Qed.

Lemma serve_lines now st r : undated_request r ->
  (serve now true st r).1.2 = [] \/ exists l, (serve now true st r).1.2 = [l].
Proof.
  intros Hr. destruct r; cbn [undated_request serve] in *; try done;
    unfold serve_Get, serve_Set, serve_Del, serve_Exists, serve_Type, serve_Ttl, serve_Incr, serve_QuotaInit,
      serve_QuotaGet, log; repeat case_match; naive_solver.
Qed.

(** ** Stores that answer alike *)

(** Equal cells but for the creation times, and no deadline. *)
Definition same_view (st st2 : S) : Prop :=
  kv_inv st /\ kv_inv st2 /\ forall k, same_cell (kv_at st k) (kv_at st2 k) /\ undated (kv_at st k).

Lemma written_same now now' r st st2 st' st2' :
  same_view st st2 -> written now r st st' -> written now' r st2 st2' -> same_view st' st2'.
Proof.
  intros (_ & _ & Hk) (Hi & Hw) (Hi2 & Hw2). split; [done|]. split; [done|]. intros k.
  rewrite Hw, Hw2. destruct (Hk k) as [Hc Hu]. case_decide; [by apply write_cell_same|done].
Qed.

(** The answers to the reads, at any time. *)
Definition reads_alike (st st2 : S) : Prop :=
  forall t k, (Get t st k).2 = (Get t st2 k).2 /\ (Exists t st k).2 = (Exists t st2 k).2 /\
    (Type_ t st k).2 = (Type_ t st2 k).2 /\ (Ttl t st k).2 = (Ttl t st2 k).2 /\
    (Pttl t st k).2 = (Pttl t st2 k).2.

Lemma same_view_reads st st2 : same_view st st2 -> reads_alike st st2.
Proof.
  intros (Hi & Hi2 & Hk) t k. destruct (Hk k) as [Hc Hu].
  destruct (kv_get st t k Hi) as (_ & -> & _), (kv_get st2 t k Hi2) as (_ & -> & _).
  destruct (kv_exists st t k Hi) as (_ & -> & _), (kv_exists st2 t k Hi2) as (_ & -> & _).
  destruct (kv_type st t k Hi) as (_ & -> & _), (kv_type st2 t k Hi2) as (_ & -> & _).
  destruct (kv_ttl st t k Hi) as (_ & -> & _), (kv_ttl st2 t k Hi2) as (_ & -> & _).
  destruct (kv_pttl st t k Hi) as (_ & -> & _), (kv_pttl st2 t k Hi2) as (_ & -> & _).
  unfold get_cell, exists_cell, type_cell, ttl_cell, pttl_cell. cbn [snd].
  pose proof (same_cell_inv _ _ (alive_proper t _ _ Hc)) as Ha.
  destruct (alive t (kv_at st k)) as [e|], (alive t (kv_at st2 k)) as [e2|]; try done.
  destruct Ha as (_ & H2 & H3 & H4). cbn. by rewrite H2, H3, H4.
Qed.

(** ** A run and its replay *)

(** One request of the binary server, logged or not. *)
Definition binary_serve (now : Z) (st : S) (r : BinaryRequest) : option (S * list aof_line) :=
  match Process now true st (encode_request r) with
  | Some (st, ls, _) => Some (st, ls)
  | None => None
  end.
Lemma binary_serve_serve now st r :
  wf_request r -> binary_serve now st r = Some (serve now true st r).1.
Proof.
  intros Hw. unfold binary_serve, Process. destruct (parse_encode r "" Hw) as [rest Hp].
  rewrite str_app_nil_r in Hp. rewrite Hp. by destruct (serve now true st r) as [[st1 ls] resp].
Qed.

Lemma replay_same clks i rs st st2 st' tls :
  same_view st st2 -> Forall (fun p => wf_request p.2 /\ undated_request p.2) rs ->
  run_logged binary_serve st rs = Some (st', tls) ->
  Forall wf_line tls.*2 /\
  same_view st' (replay (fun j _ => clks j) registrations false i st2 tls.*2 0 0).1.
Proof.
  intros Hs Hrs. revert i st st2 tls Hs. induction Hrs as [|[now r] rs [Hw Hu] Hrs IH]; intros i st st2 tls Hs;
    cbn [run_logged].
  { intros [= <- <-]. done. }
  cbn [snd] in *. rewrite binary_serve_serve by done.
  pose proof (serve_written now st r (proj1 Hs) Hu) as Hwr. pose proof (serve_lines now st r Hu) as Hlines.
  destruct (serve now true st r) as [[st1 ls] resp] eqn:Hserve. cbn [fst snd] in *.
  destruct (run_logged binary_serve st1 rs) as [[st3 tls3]|] eqn:Hrun; [|done]. intros [= <- <-].
  destruct Hlines as [->|[l ->]]; cbn [fmap list_fmap app].
  - apply (IH i st1 st2 tls3); [|done]. destruct Hwr as [Hi1 Hk1]. split; [done|]. split; [apply Hs|].
    intros k. rewrite Hk1. destruct (proj2 (proj2 Hs) k) as [Hc Hud]. case_decide; [|done].
    by erewrite unlogged_write by (done || apply Hs).
  - destruct (line_written now (clks i) st st2 r l st1 resp Hw Hu Hserve (proj1 (proj2 Hs))) as [Hl Hwf].
    pose proof (written_same _ _ _ _ _ _ _ Hs Hwr Hl) as Hs1.
    destruct (IH (Datatypes.S i) st1 _ tls3 Hs1 Hrun) as [Hwfs Hsame].
    split; [by constructor|]. destruct l as [op json]. cbn [replay fst snd].
    unfold replay_line in Hsame. cbn [fst snd] in Hsame.
    destruct (Dispatch _ _ _ _ _) as [[st4 res] x]. cbn [fst] in Hsame.
    destruct (ok res); rewrite (replay_from_0 _ _ _ _ _ _ _ _ 0 0); exact Hsame.
Qed.
End effect.

(** A restart at any later time restores the data: take any run of the binary
    server on reads and on writes without a time to live (SET with any condition,
    DEL, INCRBY but by -2^63, QUOTA_INIT), at any clock readings, and append its lines to a new
    file.  Loading the file, whatever the clock reads then, gives a store that answers
    GET, EXISTS, TYPE, TTL and PTTL of every key, at every time, as the store of the
    run does. *)
Theorem restart_any_clock {S} {Store0 : Store S} {Kv : KvStore S} (st0 st : S) rs tls scripts w clks :
  kv_inv st0 -> (forall k, undated (kv_at st0 k)) ->
  Forall (fun p => wf_request p.2 /\ undated_request p.2) rs ->
  run_logged binary_serve st0 rs = Some (st, tls) ->
  append_all (mkAof true "") tls.*2 scripts 0 = Some w ->
  reads_alike st (Load (fun i _ => clks i) registrations false st0 (Readable (file_bytes w))).1.
Proof.
  intros Hi Hu Hrs Hrun Hw. assert (same_view st0 st0) as Hs by (split; [done|]; split; [done|]; done).
  destruct (replay_same clks 0 rs st0 st0 st tls Hs Hrs Hrun) as [Hwf Hsame].
  apply append_all_file in Hw. cbn [file_bytes] in Hw. rewrite str_app_nil_l in Hw.
  apply same_view_reads. unfold Load. by rewrite Hw, load_lines_file.
Qed.

(** C38: A time to live starts again at a restart: the log records it as a duration.  A
    key that was set with a time to live and has expired before the restart is back
    after it, for the whole duration once more. *)
Theorem ttl_starts_again {S} {Store0 : Store S} {Kv : KvStore S} (st0 st : S) k v ttl l n0 n1 t scripts w :
  kv_inv st0 -> k <> "" -> wf_request (RSet k v SC_Always ttl) ->
  0 <= n0 -> 0 < ttl -> n0 + ttl <= n1 -> n1 <= t < n1 + ttl -> n1 + ttl < 2 ^ 64 ->
  binary_step n0 st0 (RSet k v SC_Always ttl) = Some (st, [l]) ->
  append_all (mkAof true "") [l] scripts 0 = Some w ->
  (Get t st k).2 = None /\
  (Get t (Load (fun _ _ => n1) registrations false st0 (Readable (file_bytes w))).1 k).2 = Some v.
Proof.
  intros Hi Hk Hwf H0 Httl Hn1 Ht Hmax Hstep Hw.
  destruct (binary_step_replays n0 st0 _ st [l] (conj Hwf Hk) Hstep) as [_ Hl].
  unfold binary_step, Process in Hstep. destruct (parse_encode _ "" Hwf) as [rest Hp].
  rewrite str_app_nil_r in Hp. rewrite Hp in Hstep. cbn [serve] in Hstep. unfold serve_Set in Hstep.
  cbn [write_condition] in Hstep.
  pose proof (set_get st0 n0 t k v ttl k Hi H0 ltac:(lia) ltac:(lia) ltac:(lia)) as [Hb Hget].
  pose proof (set_get st0 n1 t k v ttl k Hi ltac:(lia) ltac:(lia) ltac:(lia) ltac:(lia)) as [_ Hget1].
  rewrite !decide_True in Hget, Hget1 by done. rewrite (proj2 (Z.ltb_lt 0 ttl)) in Hget, Hget1 by lia.
  rewrite (proj2 (Z.leb_le (n0 + ttl) t)) in Hget by lia. rewrite (proj2 (Z.leb_gt (n1 + ttl) t)) in Hget1 by lia.
  destruct (Set_ n0 st0 k v Always ttl) as [st1 b]. cbn [fst snd] in *. subst b. injection Hstep as <- <-.
  split; [done|]. apply append_all_file in Hw. cbn [file_bytes] in Hw. rewrite str_app_nil_l in Hw.
  unfold Load. rewrite Hw, load_lines_file by done. cbn [replay].
  pose proof (replay_set n1 st0 k v SC_Always ttl Hk (proj2 (proj2 Hwf))) as Hr. unfold replay_line in Hr.
  cbn [fst snd write_condition] in Hr. destruct (Dispatch _ _ _ _ _) as [[st2 res] x]. cbn [fst] in Hr. subst.
  destruct (Set_ n1 st0 k v Always ttl) as [st3 b]. injection Hr as -> ->. by destruct b.
Qed.

(** ** Concrete restarts *)

Definition restart_run : list (Z * BinaryRequest) :=
  [(1000, RSet "a" "41" SC_IfAbsent 0); (1001, RIncr "a" 1 0); (1002, RGet "a"); (1003, RQuotaInit "q" 7);
   (1004, RDel "q")].

Lemma init_undated k : undated (kv_at (KvStore := memory_kv length_hash) init_store k).
Proof.
  change (undated (cell length_hash entriesL init_store k)).
  by rewrite (init_cell length_hash entriesL k ltac:(constructor)).
Qed.

Lemma restart_any_clock_witness :
  match run_logged (binary_serve (H := sample_ms)) init_store restart_run with
  | Some (st, tls) =>
      match append_all (mkAof true "") tls.*2 sample_script 0 with
      | Some w => reads_alike (H := sample_ms) st
          (Load (fun _ _ => 999999) (registrations (Store0 := sample_ms)) false init_store (Readable (file_bytes w))).1
      | None => False
      end
  | None => False
  end.
Proof.
  destruct (run_logged (binary_serve (H := sample_ms)) init_store restart_run)
    as [[st tls]|] eqn:Hrun; [|vm_compute in Hrun; discriminate].
  destruct (append_all (mkAof true "") tls.*2 sample_script 0) as [w|] eqn:Hw.
  - apply (restart_any_clock (Store0 := sample_ms) (Kv := memory_kv length_hash) init_store st restart_run tls
      sample_script w (fun _ => 999999)); [apply wf_init_store|apply init_undated| |exact Hrun|exact Hw].
    repeat constructor; try (by vm_compute); by intros [=].
  - exfalso. vm_compute in Hrun. injection Hrun as _ <-. vm_compute in Hw. discriminate.
Defined.

Lemma ttl_starts_again_witness :
  match binary_step (Store0 := sample_ms) 1000 init_store (RSet "k" "v" SC_Always 50) with
  | Some (st, [l]) =>
      match append_all (mkAof true "") [l] sample_script 0 with
      | Some w =>
          (Get (Store := sample_ms) 9001 st "k").2 = None /\
          (Get (Store := sample_ms) 9001 (Load (fun _ _ => 9000) (registrations (Store0 := sample_ms)) false init_store
             (Readable (file_bytes w))).1 "k").2 = Some "v"
      | None => False
      end
  | _ => False
  end.
Proof.
  destruct (binary_step (Store0 := sample_ms) 1000 init_store (RSet "k" "v" SC_Always 50))
    as [[st [|l [|]]]|] eqn:Hs; try (vm_compute in Hs; discriminate).
  destruct (append_all (mkAof true "") [l] sample_script 0) as [w|] eqn:Hw.
  - apply (ttl_starts_again (Store0 := sample_ms) (Kv := memory_kv length_hash) init_store st "k" "v" 50 l 1000 9000 9001
      sample_script w); [apply wf_init_store|done| |lia..|exact Hs|exact Hw].
    repeat split; vm_compute; congruence.
  - exfalso. vm_compute in Hs. injection Hs as _ <-. vm_compute in Hw. discriminate.
Defined.
