(* ===== verification/Workers.v ===== *)
(** * Workers side by side (service/processor.cpp called from the threads of net/server.cpp)

    The workers share the store and the log.  [Processor::Process] first calls the
    store, which is atomic under the shard's mutex, and then [AofWriter::Append],
    which is atomic under the writer's mutex; between the two the other workers go
    on.  A request is therefore two steps, and the log may hold the lines in another
    order than the store has seen the calls. *)
From S2P Require Import Prelude CStd HashTable Entry Store MemoryStore StoreWf KvStore KvTrace Json StringBody Command KvOps CounterOps QuotaOps IdemOps Codec Processor Dispatcher Aof Replay Restart.

Section workers.
Context {S : Type} `{!Store S}.

(** The shared store, the lines of the log, and for each worker inside [Process] its
    request and the lines it still has to append. *)
Record Shared := mkShared {
  sh_store : S;
  sh_log : list aof_line;
  in_flight : gmap nat (BinaryRequest * list aof_line);
}.
Definition start (st : S) : Shared := mkShared st [] ∅.

Context (guard : Shared -> BinaryRequest -> Prop).

Inductive step : Shared -> Shared -> Prop :=
| step_call s i now r st ls response :
    in_flight s !! i = None -> guard s r ->
    Process now true (sh_store s) (encode_request r) = Some (st, ls, response) ->
    step s (mkShared st (sh_log s) (<[i := (r, ls)]> (in_flight s)))
| step_append s i r l ls :
    in_flight s !! i = Some (r, l :: ls) ->
    step s (mkShared (sh_store s) (sh_log s ++ [l]) (<[i := (r, ls)]> (in_flight s)))
| step_return s i r :
    in_flight s !! i = Some (r, []) ->
    step s (mkShared (sh_store s) (sh_log s) (delete i (in_flight s))).

(** A schedule, executed. *)
Inductive action := ACall (i : nat) (now : Z) (r : BinaryRequest) | AAppend (i : nat) | AReturn (i : nat).

Definition act (s : Shared) (a : action) : option Shared :=
  match a with
  | ACall i now r =>
      match in_flight s !! i, Process now true (sh_store s) (encode_request r) with
      | None, Some (st, ls, _) => Some (mkShared st (sh_log s) (<[i := (r, ls)]> (in_flight s)))
      | _, _ => None
      end
  | AAppend i =>
      match in_flight s !! i with
      | Some (r, l :: ls) => Some (mkShared (sh_store s) (sh_log s ++ [l]) (<[i := (r, ls)]> (in_flight s)))
      | _ => None
      end
  | AReturn i =>
      match in_flight s !! i with
      | Some (_, []) => Some (mkShared (sh_store s) (sh_log s) (delete i (in_flight s)))
      | _ => None
      end
  end.

Fixpoint acts (s : Shared) (l : list action) : option Shared :=
  match l with
  | [] => Some s
  | a :: l => match act s a with Some s => acts s l | None => None end
  end.

(** The guard at the calls of a schedule. *)
Fixpoint guards (s : Shared) (l : list action) : Prop :=
  match l with
  | [] => True
  | a :: l =>
      match a with ACall _ _ r => guard s r | _ => True end /\
      match act s a with Some s => guards s l | None => True end
  end.

Lemma guards_all l s : (forall s r, guard s r) -> guards s l.
Proof.
  intros Hg. revert s. induction l as [|a l IH]; intros s; [done|]. cbn [guards].
  split; [by destruct a|]. by destruct (act s a).
Qed.

Lemma acts_steps l s s' : guards s l -> acts s l = Some s' -> rtc step s s'.
Proof.
  revert s. induction l as [|a l IH]; intros s Hg; cbn [acts]; [by intros [= ->]|].
  destruct Hg as [Hg Hgs]. destruct (act s a) as [s1|] eqn:Ha; [|done]. intros Hl.
  apply rtc_l with s1; [|by apply IH]. destruct a as [i now r|i|i]; cbn [act] in Ha.
  - destruct (in_flight s !! i) eqn:Hi; [done|].
    destruct (Process _ _ _ _) as [[[st ls] resp]|] eqn:Hp; [|done]. injection Ha as <-.
    by eapply step_call.
  - destruct (in_flight s !! i) as [[r [|l1 ls]]|] eqn:Hi; [done| |done]. injection Ha as <-. by apply step_append.
  - destruct (in_flight s !! i) as [[r [|]]|] eqn:Hi; [|done..]. injection Ha as <-. by apply step_return with r.
Qed.
End workers.
Arguments Shared : clear implicits.

Definition writes (r : BinaryRequest) : bool :=
  match r with RSet _ _ _ _ | RIncr _ _ _ | RQuotaInit _ _ | RDel _ => true | _ => false end.

(** No other worker is writing the key. *)
Definition exclusive {S} (s : Shared S) (r : BinaryRequest) : Prop :=
  writes r = true ->
  map_Forall (fun _ p => writes p.1 = true -> request_key p.1 <> request_key r) (in_flight s).

Lemma logs_writes {S} `{!Store S} now (st st' : S) r l resp :
  undated_request r -> serve now true st r = (st', [l], resp) -> writes r = true.
Proof.
  intros Hr Hs. destruct r; cbn [undated_request serve writes] in *; try done; exfalso; revert Hs;
    unfold serve_Get, serve_Exists, serve_Type, serve_Ttl, serve_QuotaGet; repeat case_match; naive_solver.
Qed.

(** ** The invariant *)

Section invariant.
Context {S : Type} `{KvStore S} (st0 : S) (clks : nat -> Z).

Abbreviation restored log := (replay (fun j _ => clks j) registrations false 0 st0 log 0 0).1.

(** A line that is to be appended is the line of its request. *)
Definition pending_line (r : BinaryRequest) (ls : list aof_line) : Prop :=
  ls = [] \/ exists l now (st st' : S) resp, ls = [l] /\ serve now true st r = (st', [l], resp).

Record shared_ok (s : Shared S) : Prop := {
  ok_store : kv_inv (sh_store s);
  ok_lines : Forall wf_line (sh_log s);
  ok_restored : kv_inv (restored (sh_log s));
  ok_undated k : undated (kv_at (sh_store s) k) /\ undated (kv_at (restored (sh_log s)) k);
  ok_flight i r ls : in_flight s !! i = Some (r, ls) ->
    wf_request r /\ undated_request r /\ pending_line r ls;
  ok_alone i j r r' ls ls' : in_flight s !! i = Some (r, ls) -> in_flight s !! j = Some (r', ls') ->
    writes r = true -> writes r' = true -> request_key r = request_key r' -> i = j;
  (** the write of a worker that has not logged it is what the log lacks *)
  ok_pending i r l k now' : in_flight s !! i = Some (r, [l]) -> request_key r = Some k ->
    same_cell (kv_at (sh_store s) k) (write_cell now' r (kv_at (restored (sh_log s)) k));
  ok_settled k : (forall i r l, in_flight s !! i = Some (r, [l]) -> request_key r <> Some k) ->
    same_cell (kv_at (sh_store s) k) (kv_at (restored (sh_log s)) k);
}.

Definition guarded (s : Shared S) (r : BinaryRequest) : Prop :=
  wf_request r /\ undated_request r /\ exclusive s r.

Lemma start_ok : kv_inv st0 -> (forall k, undated (kv_at st0 k)) -> shared_ok (start st0).
Proof. intros Hi Hu. by constructor. Qed.

Lemma return_ok s i r : in_flight s !! i = Some (r, []) -> shared_ok s ->
  shared_ok (mkShared (sh_store s) (sh_log s) (delete i (in_flight s))).
Proof.
  intros Hr [H1 Hlog H2 H3 H4 H5 H6 H7]. constructor; cbn [sh_store sh_log in_flight]; try done.
  - intros j r' ls [_ Hj]%lookup_delete_Some. by eapply H4.
  - intros j j' r1 r2 l1 l2 [_ Hj]%lookup_delete_Some [_ Hj']%lookup_delete_Some. by eapply H5.
  - intros j r' l k now' [_ Hj]%lookup_delete_Some. by eapply H6.
  - intros k Hk. apply H7. intros j r' l Hj. apply (Hk j r' l). apply lookup_delete_Some. split; [|done].
    intros ->. by rewrite Hj in Hr.
Qed.

Lemma store_call_ok s i now r st ls resp :
  in_flight s !! i = None -> guarded s r ->
  Process now true (sh_store s) (encode_request r) = Some (st, ls, resp) -> shared_ok s ->
  shared_ok (mkShared st (sh_log s) (<[i := (r, ls)]> (in_flight s))).
Proof.
  intros Hi (Hw & Hu & Hx) Hp [H1 Hlog H2 H3 H4 H5 H6 H7].
  assert (serve now true (sh_store s) r = (st, ls, resp)) as Hs.
  { unfold Process in Hp. destruct (parse_encode r "" Hw) as [rest He]. rewrite str_app_nil_r in He.
    rewrite He in Hp. by injection Hp. }
  pose proof (serve_written now (sh_store s) r H1 Hu) as [Hinv Hat]. rewrite Hs in Hinv, Hat. cbn [fst snd] in *.
  pose proof (serve_lines now (sh_store s) r Hu) as Hlines. rewrite Hs in Hlines. cbn [fst snd] in Hlines.
  assert (forall k, request_key r = Some k -> forall l, ls = [l] ->
    same_cell (kv_at (sh_store s) k) (kv_at (restored (sh_log s)) k)) as Hfree.
  { intros k Hk l ->. apply H7. intros j r' l' Hj Hk'.
    pose proof (logs_writes _ _ _ _ _ _ Hu Hs) as Hwr. destruct (H4 j r' _ Hj) as (_ & Hu' & [?|(l2 & n2 & s2 & s2' & p2 & [= ->] & Hs2)]); [done|].
    refine (Hx Hwr j _ Hj (logs_writes _ _ _ _ _ _ Hu' Hs2) _). cbn [fst]. by rewrite Hk, Hk'. }
  constructor; cbn [sh_store sh_log in_flight]; try done.
  - intros k. split; [|apply H3]. rewrite Hat. case_decide; [|apply H3].
    apply (write_cell_same now now r _ (kv_at (sh_store s) k)); [done|apply H3].
  - intros j r' ls' [[<- [= <- <-]]|[_ Hj]]%lookup_insert_Some; [|by eapply H4].
    split; [done|]. split; [done|]. destruct Hlines as [->|[l ->]]; [by left|right; eauto 10].
  - intros j j' r1 r2 l1 l2 [[<- [= <- <-]]|[_ Hj]]%lookup_insert_Some
      [[<- [= <- <-]]|[_ Hj']]%lookup_insert_Some Hw1 Hw2 Hk; [done| | |by eapply H5].
    + by destruct (Hx Hw1 j' _ Hj' Hw2).
    + by destruct (Hx Hw2 j _ Hj Hw1).
  - intros j r' l k now' [[<- [= <- ->]]|[Hne Hj]]%lookup_insert_Some Hk.
    + rewrite Hat, decide_True by done. apply write_cell_same; [by eapply Hfree|apply H3].
    + rewrite Hat. case_decide as Hr; [|by eapply H6].
      destruct Hlines as [->|[l' ->]].
      * rewrite (unlogged_write now _ st r resp k) by (done || apply H3). by eapply H6.
      * exfalso. pose proof (logs_writes _ _ _ _ _ _ Hu Hs) as Hwr.
        destruct (H4 j r' _ Hj) as (_ & Hu' & [?|(l2 & n2 & s2 & s2' & p2 & [= ->] & Hs2)]); [done|].
        refine (Hx Hwr j _ Hj (logs_writes _ _ _ _ _ _ Hu' Hs2) _). cbn [fst]. by rewrite Hk, Hr.
  - intros k Hk. rewrite Hat. case_decide as Hr.
    + destruct Hlines as [->|[l ->]]; [|by destruct (Hk i r l (lookup_insert_eq _ _ _))].
      rewrite (unlogged_write now _ st r resp k) by (done || apply H3). apply H7. intros j r' l Hj.
      apply (Hk j r' l). rewrite lookup_insert_ne; [done|]. intros ->. by rewrite Hi in Hj.
    + apply H7. intros j r' l Hj. apply (Hk j r' l). rewrite lookup_insert_ne; [done|].
      intros ->. by rewrite Hi in Hj.
Qed.

Lemma replay_snoc (ls : list aof_line) l i (st : S) n m :
  (replay (fun j _ => clks j) registrations false i st (ls ++ [l]) n m).1 =
  (replay_line (clks (i + length ls)%nat)
     (replay (fun j _ => clks j) registrations false i st ls n m).1 l).1.
Proof.
  revert i st n m. induction ls as [|[op json] ls IH]; intros i st n m.
  - rewrite Nat.add_0_r. destruct l as [op json]. cbn [app replay]. unfold replay_line. cbn [fst snd].
    destruct (Dispatch _ _ _ _ _) as [[st1 res] x]. by destruct (ok res).
  - cbn [app replay length]. destruct (Dispatch _ _ _ _ _) as [[st1 res] x]. rewrite Nat.add_succ_r.
    destruct (ok res); apply IH.
Qed.

Lemma append_ok s i r l ls :
  in_flight s !! i = Some (r, l :: ls) -> shared_ok s ->
  shared_ok (mkShared (sh_store s) (sh_log s ++ [l]) (<[i := (r, ls)]> (in_flight s))).
Proof.
  intros Hi [H1 Hlog H2 H3 H4 H5 H6 H7].
  destruct (H4 i r _ Hi) as (Hw & Hu & [?|(l2 & n2 & s2 & s2' & p2 & [= <- ->] & Hs)]); [done|].
  pose proof (logs_writes _ _ _ _ _ _ Hu Hs) as Hwr.
  destruct (line_written n2 (clks (length (sh_log s))) s2 (restored (sh_log s)) r l s2' p2 Hw Hu Hs H2) as [[Hinv Hat] Hl].
  assert (restored (sh_log s ++ [l]) = (replay_line (clks (length (sh_log s))) (restored (sh_log s)) l).1) as Hrest
    by apply replay_snoc.
  constructor; cbn [sh_store sh_log in_flight]; rewrite ?Hrest; try done.
  - apply list.Forall_app. split; [done|by constructor].
  - intros k. split; [apply H3|]. rewrite Hat. case_decide; [|apply H3].
    apply (write_cell_same _ 0 r _ (kv_at (restored (sh_log s)) k)); [done|apply H3].
  - intros j r' ls' [[<- [= <- <-]]|[_ Hj]]%lookup_insert_Some; [|by eapply H4]. by split; [|split; [|left]].
  - intros j j' r1 r2 l1 l2 Hj Hj' Hw1 Hw2 Hk.
    assert (forall x y z, (<[i := (r, [])]> (in_flight s)) !! x = Some (y, z) ->
      exists z', in_flight s !! x = Some (y, z')) as Hold.
    { intros x y z [[<- [= <- <-]]|[_ Hx]]%lookup_insert_Some; eauto. }
    apply Hold in Hj as [? Hj], Hj' as [? Hj']. by eapply H5.
  - intros j r' l' k now' [[<- [= <- ?]]|[Hne Hj]]%lookup_insert_Some Hk.
    rewrite Hat, decide_False; [by eapply H6|]. intros Hr. apply Hne. apply (H5 i j r r' _ _ Hi Hj Hwr); [|congruence].
    destruct (H4 j r' _ Hj) as (_ & Hu' & [?|(l3 & n3 & s3 & s3' & p3 & [= ->] & Hs3)]); [done|].
    by eapply logs_writes.
  - intros k Hk. rewrite Hat. case_decide as Hr; [by eapply H6|]. apply H7. intros j r' l' Hj.
    destruct (decide (i = j)) as [<-|Hne].
    + rewrite Hi in Hj. by injection Hj as <- <-.
    + apply (Hk j r' l'). by rewrite lookup_insert_ne.
Qed.

Lemma reachable_ok s : kv_inv st0 -> (forall k, undated (kv_at st0 k)) ->
  rtc (step guarded) (start st0) s -> shared_ok s.
Proof.
  intros Hi Hu Hr.
  refine (rtc_ind_r (R := step guarded) (fun s => shared_ok s) (start st0) _ _ s Hr); [by apply start_ok|].
  intros s1 s2 _ Hs Hok. destruct Hs; [by eapply store_call_ok|by apply append_ok|by apply return_ok with r].
Qed.
End invariant.

(** C10: Any number of workers, in any interleaving of their store calls and appends:
    as long as no two of them write the same key at the same time, the log restores
    the data. The requests are PING, GET, EXISTS, TYPE, TTL and QUOTA_GET of any key,
    DEL of any key, and SET, INCRBY (by any number but -2^63, whose line
    the reader cannot negate) and QUOTA_INIT of a non-empty key without a time to live, within the lengths of the wire format; the run starts on a store without
    deadlines and with an empty log, and every append succeeds. Whenever no request is
    under way, loading the file with the lines of the log onto the starting store, at
    any clock readings, gives a store that answers GET, EXISTS, TYPE, TTL and PTTL of
    every key, at every time, as the shared store does. *)
Theorem concurrent_restart {S} {Store0 : Store S} {Kv : KvStore S} (st0 : S) s clks :
  kv_inv st0 -> (forall k, undated (kv_at st0 k)) ->
  rtc (step guarded) (start st0) s -> in_flight s = ∅ ->
  reads_alike (sh_store s)
    (Load (fun i _ => clks i) registrations false st0 (Readable (file_of (sh_log s)))).1.
Proof.
  intros Hi Hu Hr Hq. destruct (reachable_ok st0 clks s Hi Hu Hr) as [H1 Hlog H2 H3 _ _ _ H7].
  apply same_view_reads. unfold Load. rewrite load_lines_file by done.
  split; [done|]. split; [done|]. intros k. split; [|apply H3]. apply H7. intros i r l Hl.
  by rewrite Hq, lookup_empty in Hl.
Qed.

(** ** Writes of one key that cross *)

Section crossing.
Context {S : Type} {Store0 : Store S} {Kv : KvStore S}.

(** A SET without condition and time to live is stored, and read at any time. *)
Lemma set_plain (st : S) now k v :
  kv_inv st ->
  let r := Set_ now st k v Always 0 in
  r.2 = true /\ kv_inv r.1 /\ forall t, (Get t r.1 k).2 = Some v.
Proof.
  intros Hi. cbv zeta. destruct (kv_set st now k v Always 0 Hi) as (Hi' & Hr & Hk).
  destruct (set_always_cell now k v 0 (kv_at st k)) as (e & He & Hv & Hd & _). rewrite He in *.
  split; [done|]. split; [done|]. intros t. rewrite get_result, Hk by done. rewrite decide_True by done. cbn.
  unfold e_expired. rewrite Hd. cbn. by rewrite Hv.
Qed.

Lemma serve_set now (st : S) k v :
  kv_inv st ->
  serve now true st (RSet k v SC_Always 0) =
  ((Set_ now st k v Always 0).1, [("SET", aof_set k v SC_Always 0)], status_byte St_Ok).
Proof.
  intros Hi. cbn [serve]. unfold serve_Set. cbn [write_condition]. destruct (set_plain st now k v Hi) as [Hs _].
  destruct (Set_ now st k v Always 0) as [st1 b]. cbn [snd] in Hs. by subst b.
Qed.
Lemma process_set now (st : S) k v :
  wf_request (RSet k v SC_Always 0) -> kv_inv st ->
  Process now true st (encode_request (RSet k v SC_Always 0)) =
  Some ((Set_ now st k v Always 0).1, [("SET", aof_set k v SC_Always 0)], status_byte St_Ok).
Proof.
  intros Hw Hi. destruct (parse_encode _ "" Hw) as [rest Hp]. rewrite str_app_nil_r in Hp. unfold Process.
  by rewrite Hp, serve_set.
Qed.

(** Two such lines, loaded. *)
Lemma load_two_sets (st : S) clks k va vb t :
  kv_inv st -> k <> "" -> wf_request (RSet k va SC_Always 0) -> wf_request (RSet k vb SC_Always 0) ->
  (Get t (Load (fun i _ => clks i) registrations false st
     (Readable (file_of [("SET", aof_set k va SC_Always 0); ("SET", aof_set k vb SC_Always 0)]))).1 k).2 = Some vb.
Proof.
  intros Hi Hk Hwa Hwb. unfold Load.
  assert (forall v, wf_request (RSet k v SC_Always 0) -> wf_line ("SET", aof_set k v SC_Always 0)) as Hl.
  { intros v Hw. by eapply (line_written 0 0 st st _ _ _ _ Hw); [split|apply serve_set|]. }
  rewrite load_lines_file by (repeat constructor; by apply Hl).
  change [?l1; ?l2] with ([l1] ++ [l2]). rewrite replay_snoc. change [?l1] with ([] ++ [l1]). rewrite replay_snoc.
  cbn [replay fst]. rewrite !replay_set by (done || lia). cbn [write_condition].
  match goal with |- context [Set_ ?n st k va Always 0] =>
    destruct (set_plain st n k va Hi) as (_ & Hi1 & _); destruct (Set_ n st k va Always 0) as [st1 b1] end.
  cbn [fst] in *.
  match goal with |- context [Set_ ?n st1 k vb Always 0] => destruct (set_plain st1 n k vb Hi1) as (_ & _ & Hg) end.
  specialize (Hg t). by destruct (Set_ _ st1 k vb Always 0).
Qed.

(** C37: Two writes of one key can reach the log in the other order than the store.
    From any store, whatever the two values, times and the non-empty key (within the
    lengths of the wire format): two workers that serve SET k v1 and SET k v2 can be
    interleaved so that, when both are done, the store answers v2 at every time, but the
    log ends with the line of v1, and a restart on it, at any clock readings, brings
    back v1. *)
Theorem log_order_differs (st0 : S) k v1 v2 now1 now2 clks :
  kv_inv st0 -> k <> "" -> wf_request (RSet k v1 SC_Always 0) -> wf_request (RSet k v2 SC_Always 0) ->
  exists s, rtc (step (fun _ _ => True)) (start st0) s /\ in_flight s = ∅ /\
    sh_store s = (Set_ now2 (Set_ now1 st0 k v1 Always 0).1 k v2 Always 0).1 /\
    sh_log s = [("SET", aof_set k v2 SC_Always 0); ("SET", aof_set k v1 SC_Always 0)] /\
    forall t, (Get t (sh_store s) k).2 = Some v2 /\
      (Get t (Load (fun i _ => clks i) registrations false st0 (Readable (file_of (sh_log s)))).1 k).2 = Some v1.
Proof.
  intros Hi Hk Hw1 Hw2. destruct (set_plain st0 now1 k v1 Hi) as (_ & Hi1 & _).
  destruct (set_plain _ now2 k v2 Hi1) as (_ & _ & Hget).
  eexists. split.
  - apply (acts_steps _ [ACall 0 now1 (RSet k v1 SC_Always 0); ACall 1 now2 (RSet k v2 SC_Always 0);
      AAppend 1; AAppend 0; AReturn 0; AReturn 1]); [by apply guards_all|].
    cbn [acts act start sh_store in_flight]. rewrite lookup_empty, process_set by done.
    cbn [sh_store in_flight sh_log]. rewrite (lookup_insert_ne _ 0%nat), lookup_empty, process_set by done.
    cbn [sh_store in_flight sh_log]. rewrite lookup_insert_eq. cbn [sh_store in_flight sh_log].
    rewrite (lookup_insert_ne _ 1%nat), (lookup_insert_ne _ 1%nat), lookup_insert_eq by done.
    cbn [sh_store in_flight sh_log]. rewrite lookup_insert_eq. cbn [sh_store in_flight sh_log].
    rewrite lookup_delete_ne, (lookup_insert_ne _ 0%nat), lookup_insert_eq by done. reflexivity.
  - cbn [sh_store in_flight sh_log app]. split; [|split; [done|split; [done|]]].
    { apply map_eq. intros i. rewrite lookup_empty, !lookup_delete, !lookup_insert, lookup_empty.
      repeat case_decide; congruence || lia. }
    intros t. split; [apply Hget|]. by apply load_two_sets.
Qed.
End crossing.

Lemma log_order_differs_witness :
  exists s, rtc (step (Store0 := sample_ms) (fun _ _ => True)) (start init_store) s /\ in_flight s = ∅ /\
    (Get (Store := sample_ms) 3000 (sh_store s) "k").2 = Some "2" /\
    (Get (Store := sample_ms) 3000
       (Load (fun _ _ => 3000) (registrations (Store0 := sample_ms)) false init_store
          (Readable (file_of (sh_log s)))).1 "k").2 = Some "1".
Proof.
  destruct (log_order_differs (Kv := memory_kv length_hash) init_store "k" "1" "2" 2000 2001 (fun _ => 3000))
    as (s & Hr & Hf & _ & _ & Hg); [apply wf_init_store|done|by vm_compute|by vm_compute|].
  exists s. split; [exact Hr|]. split; [exact Hf|]. exact (Hg 3000).
Defined.

(** Two workers that write two keys, their lines in the other order. *)
Definition two_keys : list action :=
  [ACall 0 2000 (RSet "a" "1" SC_Always 0); ACall 1 2001 (RSet "b" "2" SC_Always 0);
   AAppend 1; AAppend 0; AReturn 1; AReturn 0].

Lemma concurrent_restart_witness :
  match acts (Store0 := sample_ms) (start init_store) two_keys with
  | Some s =>
      sh_log s = [("SET", aof_set "b" "2" SC_Always 0); ("SET", aof_set "a" "1" SC_Always 0)] /\
      reads_alike (H := sample_ms) (sh_store s)
        (Load (fun _ _ => 3000) (registrations (Store0 := sample_ms)) false init_store
           (Readable (file_of (sh_log s)))).1
  | None => False
  end.
Proof.
  destruct (acts (Store0 := sample_ms) (start init_store) two_keys) as [s|] eqn:Hs;
    [|vm_compute in Hs; discriminate].
  split; [vm_compute in Hs; by injection Hs as <-|].
  apply (concurrent_restart (Store0 := sample_ms) (Kv := memory_kv length_hash) init_store s (fun _ => 3000));
    [apply wf_init_store|apply init_undated| |vm_compute in Hs; by injection Hs as <-].
  apply (acts_steps _ two_keys); [|exact Hs]. clear Hs.
  assert (forall st k v fl, k <> "" -> wf_request (RSet k v SC_Always 0) ->
    map_Forall (fun _ p => writes p.1 = true -> request_key p.1 <> Some k) fl ->
    guarded (mkShared (S := MemoryStore) st [] fl) (RSet k v SC_Always 0)) as Hg
    by (intros; split; [done|]; split; [by split|by intros _]).
  split; [apply Hg; [done|by vm_compute|apply map_Forall_empty]|].
  destruct (act _ _) as [s1|] eqn:H1; [|done].
  vm_compute in H1. injection H1 as <-. split; [apply Hg; [done|by vm_compute|]|].
  - apply (bool_decide_unpack _). by vm_compute.
  - by vm_compute.
Defined.
