(* ===== verification/Main.v ===== *)
(** * The server program (server_main.cpp)

    [main] reads the options, restores the store from the log, opens the log for
    appending, serves until it is stopped, and closes the log.  The handlers that it
    gives to the server work on the shared store and append their lines; what
    [Append] answers is ignored, as in the code. *)
From S2P Require Import Prelude CStd HashTable Entry Store MemoryStore StoreWf KvStore KvTrace Purge Json StringBody Command KvOps CounterOps QuotaOps IdemOps Codec Processor Dispatcher Aof Replay Durable Restart Workers Config Http HttpService HttpApi HttpBinary Server.

(** [policy] in [main]. *)
Definition fsync_policy (fsync : string) : FsyncPolicy :=
  if bool_decide (fsync = "always") then FP_Always
  else if bool_decide (fsync = "no") then FP_No else FP_Everysec.

Section program.
Context {S : Type} `{!Store S}.

(** The store and the writer that the services share. *)
Record Running := mkRunning { rn_store : S; rn_aof : option Aof }.
Definition has_aof (rn : Running) : bool := match rn_aof rn with Some _ => true | None => false end.

(** The bytes behind which the writer appends; of a file that cannot be read only
    those that are appended. *)
Definition file_text (file : aof_file) : string :=
  match file with Readable bytes => bytes | Missing | Unreadable => "" end.

(** [main] up to the services.  [dirs]: the exception of [create_directories];
    [opened]: whether [open] succeeds.  The result of [Load] is only logged. *)
Definition start_server (c : ServerConfig) (clks : nat -> clock) (st0 : S) (dirs : option string)
    (file : aof_file) (opened : bool) : Running + string :=
  if bool_decide (sc_persistence c = "aof") then
    match dirs with
    | Some e => inr e
    | None =>
        inl (mkRunning (Load clks registrations false st0 file).1
               (Some (OpenAof (fsync_policy (sc_fsync c)) opened (file_text file))))
    end
  else inl (mkRunning st0 None).

(** The lines of a request, appended one by one; [scripts]: what [write] answers
    during each append.  The answers of the appends are collected. *)
Fixpoint append_lines (scripts : nat -> list write_result) (i : nat) (a : Aof) (ls : list aof_line) :
    Aof * list (option bool) :=
  match ls with
  | [] => (a, [])
  | (op, json) :: ls =>
      let '(r, a) := AppendSync (scripts i) a op json in
      let '(a, rs) := append_lines scripts (Datatypes.S i) a ls in (a, r :: rs)
  end.
Definition append_all_lines (scripts : nat -> list write_result) (a : option Aof) (ls : list aof_line) :
    option Aof * list (option bool) :=
  match a with
  | None => (None, [])
  | Some a => let '(a, rs) := append_lines scripts 0 a ls in (Some a, rs)
  end.

(** What the server calls: the binary handler, the HTTP handler, the timer. *)
Inductive server_event :=
| EvBinary (now : Z) (payload : string) (scripts : nat -> list write_result)
| EvHttp (clk : clock) (now_sec : Z) (request : HttpRequest) (scripts : nat -> list write_result)
| EvTimer (now : Z).

(** The new state, the answers of its appends, and the response; [None]: the
    processor reads beyond its payload. *)
Definition serve_event (rn : Running) (e : server_event) : option (Running * list (option bool)) :=
  match e with
  | EvBinary now payload scripts =>
      match Process now (has_aof rn) (rn_store rn) payload with
      | None => None
      | Some (st, ls, _) =>
          let '(a, rs) := append_all_lines scripts (rn_aof rn) ls in Some (mkRunning st a, rs)
      end
  | EvHttp clk now_sec request scripts =>
      let '(st, ls, _) := Handle clk now_sec (has_aof rn) (rn_store rn) request in
      let '(a, rs) := append_all_lines scripts (rn_aof rn) ls in Some (mkRunning st a, rs)
  | EvTimer now =>
      let a := Fsync <$> rn_aof rn in
      Some (mkRunning (PurgeExpired now (rn_store rn) 50).1 a, [])
  end.

Fixpoint serve_events (rn : Running) (es : list server_event) : option (Running * list (option bool)) :=
  match es with
  | [] => Some (rn, [])
  | e :: es =>
      match serve_event rn e with
      | None => None
      | Some (rn, rs) =>
          match serve_events rn es with Some (rn, rs') => Some (rn, rs ++ rs') | None => None end
      end
  end.

(** The end of [main]. *)
Definition stop_server (rn : Running) : Running := mkRunning (rn_store rn) (CloseSync <$> rn_aof rn).

(** How the program ends: with an exit status and what it prints on which stream, or
    by [std::terminate]. *)
Inductive exit := Exit (status : Z) (out err : string) | Terminated.

(** How [server.Run()] ends: it returns, or it throws before a worker runs (a listening
    socket or an event loop cannot be created), or the first worker throws. *)
Inductive run_outcome := Returns | StartThrows (error : string) | FirstWorkerThrows (error : string).

(** [main].  [es]: what the server serves while it runs; nothing when it throws at the
    start.  An exception that reaches [main] leaves the block of the writer, whose
    destructor closes it.  When the first worker throws and there are other threads,
    the process ends at once: the log is neither closed nor synchronised, and the state
    that is given is the one at that moment.  [hw_threads]: the answer of
    [hardware_concurrency].  The state is given with the answers of the appends; [None]:
    undefined. *)
Definition server_main (args : list string) (usage : string) (clks : nat -> clock) (st0 : S)
    (dirs : option string) (file : aof_file) (opened : bool) (hw_threads : Z) (run : run_outcome)
    (es : list server_event) : option (exit * option (Running * list (option bool))) :=
  let failed e := Exit 1 "" ("gatekeeper: " +:+ e +:+ String newline "") in
  match ParseServer args with
  | inr e => Some (failed e, None)
  | inl c =>
      if sc_show_help c then Some (Exit 0 usage "", None) else
      match start_server c clks st0 dirs file opened with
      | inr e => Some (failed e, None)
      | inl rn =>
          match server_error (sc_port c) (sc_http_port c) true with
          | Some e => Some (failed e, Some (stop_server rn, []))
          | None =>
              match run with
              | StartThrows e => Some (failed e, Some (stop_server rn, []))
              | _ =>
                  match serve_events rn es with
                  | None => None
                  | Some (rn, acks) =>
                      match run with
                      | FirstWorkerThrows e =>
                          if 1 <? worker_count (sc_workers c) hw_threads then Some (Terminated, Some (rn, acks))
                          else Some (failed e, Some (stop_server rn, acks))
                      | _ => Some (Exit 0 "" "", Some (stop_server rn, acks))
                      end
                  end
              end
          end
      end
  end.
End program.
Arguments Running : clear implicits.

(** ** The interface of the background purge *)

(** A store is calm when no reservation waits for its expiry: then a purge changes no
    cell without a deadline.  Reading the remaining time twice is reading it once. *)
Class QuietStore (S : Type) `{KvStore S} := {
  calm : S -> Prop;
  calm_serve st now r : kv_inv st -> calm st -> undated_request r -> calm (serve now true st r).1.1;
  calm_purge st now limit : kv_inv st -> calm st -> (forall k, undated (kv_at st k)) ->
    kv_inv (PurgeExpired now st limit).1 /\ calm (PurgeExpired now st limit).1 /\
    forall k, kv_at (PurgeExpired now st limit).1 k = kv_at st k;
  #[global] calm_ttl :: QuietTtl S;
}.

Section memory.
Context (std_hash : string -> Z).

Definition no_reservations (st : MemoryStore) : Prop :=
  forall i id, (i < kNumShards)%nat -> HT.Find std_hash (reservations (shard_at st i)) id = None.

Lemma on_shard_calm {A} st k body (f : option Entry -> option Entry * A) :
  local_op std_hash entriesL k body f -> wf_store std_hash st -> no_reservations st ->
  no_reservations (on_shard st k body).1.
Proof.
  intros Hl Hw Hr i id Hi. pose proof (local_op_store std_hash entriesL k body f st) as H.
  destruct (on_shard st k body) as [st' r]. cbn [fst]. destruct H as (_ & _ & _ & t' & ->); [constructor|done..|].
  rewrite (shard_at_put std_hash) by (done || apply GetShard_lt). case_decide as E; [|by apply Hr].
  apply (Hr (GetShard k)), GetShard_lt.
Qed.

(** The case of a request that calls the store method with the local law [law]. *)
Ltac local_calm law :=
  match goal with Hw : wf_store _ ?st, Hr : no_reservations ?st |- _ =>
    let Hc := fresh in
    pose proof (on_shard_calm st _ _ _ law Hw Hr) as Hc;
    unfold serve_Get, serve_Set, serve_Del, serve_Exists, serve_Type, serve_Ttl, serve_Incr, serve_QuotaInit,
      serve_QuotaGet; cbn [Get Set_ Del Exists Type_ Ttl IncrBy memory_store];
    match type of Hc with no_reservations (fst ?op) => destruct op end;
    cbn [fst] in Hc; repeat case_match; exact Hc
  end.

Lemma serve_calm st now r :
  wf_store std_hash st -> no_reservations st -> undated_request r ->
  no_reservations (serve (Store0 := memory_store std_hash) now true st r).1.1.
Proof.
  intros Hw Hr Hu. destruct r; cbn [undated_request serve] in *; try done.
  - local_calm (Get_local std_hash now key).
  - local_calm (Set_local std_hash now key val (write_condition cond) ttl_ms).
  - local_calm (Del_local std_hash key).
  - local_calm (Exists_local std_hash now key).
  - local_calm (Type_local std_hash now key).
  - local_calm (Ttl_local std_hash now key).
  - local_calm (IncrBy_local std_hash now key delta init_ttl_ms).
  - local_calm (Set_local std_hash now key (to_string amount) Always 0).
  - local_calm (Get_local std_hash now key).
Qed.

Lemma purge_calm st now limit :
  wf_store std_hash st -> no_reservations st -> (forall k, undated (cell std_hash entriesL st k)) ->
  let st' := (PurgeExpired_ std_hash now st limit).1 in
  wf_store std_hash st' /\ no_reservations st' /\
  forall k, cell std_hash entriesL st' k = cell std_hash entriesL st k.
Proof.
  intros Hw Hr Hu. cbv zeta. split; [by apply PurgeExpired_wf|]. split.
  - intros i id Hi. rewrite PurgeExpired_shard by done.
    destruct (HT.Find std_hash (reservations (Purge_body std_hash now limit (shard_at st i)).1) id) as [r|] eqn:E; [|done].
    apply (pg_res _ i 0 now _ _ (Purge_body_spec std_hash i 0 now limit _ (wf_shard_at _ _ _ Hw Hi))) in E.
    by rewrite Hr in E.
  - intros k. destruct (purge_entry_cell std_hash now limit st k Hw) as [->|(_ & e & He & Hx)]; [|done|].
    + intros id r Hid. by rewrite Hr in Hid by apply GetShard_lt.
    + specialize (Hu k). rewrite He in Hu. cbn in Hu. unfold e_expired in Hx. by rewrite Hu in Hx.
Qed.

#[export] Instance memory_quiet : QuietStore MemoryStore (H0 := memory_kv std_hash) :=
  @Build_QuietStore MemoryStore (memory_store std_hash) (memory_kv std_hash) no_reservations serve_calm purge_calm
    (memory_quiet_ttl std_hash).
End memory.

(** ** A run of the program and its successor *)

(** A request whose effect does not depend on the clock, by either protocol, or a
    timer tick. *)
Definition lasting_event (e : server_event) : Prop :=
  match e with
  | EvBinary _ payload _ => exists r, payload = encode_request r /\ wf_request r /\ undated_request r
  | EvHttp clk _ request _ =>
      exists r now, clk = (fun _ => now) /\ wf_request r /\ undated_request r /\ asks r request
  | EvTimer _ => True
  end.

(** Over HTTP such a request does and logs what it does in the binary protocol. *)
Lemma http_undated {S} `{QuietTtl S} now now_sec (st : S) r req :
  kv_inv st -> undated_request r -> asks r req ->
  (Handle (fun _ => now) now_sec true st req).1 = (serve now true st r).1.
Proof.
  intros Hi Hu Ha. destruct r; cbn [undated_request] in Hu; try done.
  - destruct Ha as [Hm Hp]. by rewrite (routed now now_sec true st _ _ _ _ Hm Hp eq_refl).
  - rewrite (asked_handle _ _ _ _ _ _ _ _ Ha eq_refl). unfold HandleKvGet. rewrite (asked_key _ _ _ _ _ Ha).
    cbn [serve]. unfold serve_Get. by destruct (Get now st key) as [? []].
  - destruct Ha as [Hk Hp]. rewrite (posted_handle _ _ _ _ _ _ _ _ _ Hp eq_refl). unfold HandleKvSet.
    rewrite (posted_body _ _ _ _ _ _ Hp). cbn [serve]. unfold serve_Set. destruct key as [|x key]; [done|].
    cbn [is_nil]. destruct (Set_ now st _ val _ ttl_ms) as [st1 []]; [|done]. by destruct cond.
  - rewrite (posted_key_handle _ _ _ _ _ _ _ _ Ha eq_refl). unfold HandleKvDel. rewrite (posted_keys _ _ _ _ _ Ha).
    cbn [serve del_keys]. unfold serve_Del. destruct (Del st key) as [st1 b]. by rewrite app_nil_r.
  - rewrite (posted_key_handle _ _ _ _ _ _ _ _ Ha eq_refl). unfold HandleKvExists. rewrite (posted_keys _ _ _ _ _ Ha).
    cbn [serve KeyOps.exists_loop]. unfold serve_Exists. by destruct (Exists now st key).
  - rewrite (asked_handle _ _ _ _ _ _ _ _ Ha eq_refl). unfold HandleKvType. rewrite (asked_key _ _ _ _ _ Ha).
    cbn [serve]. unfold serve_Type. by destruct (Type_ now st key).
  - rewrite (asked_handle _ _ _ _ _ _ _ _ Ha eq_refl). unfold HandleKvTtl. rewrite (asked_key _ _ _ _ _ Ha).
    cbn [serve]. unfold serve_Ttl. pose proof (quiet_ttl st now key Hi) as Hq.
    destruct (Ttl now st key) as [st1 s]. cbn [fst] in Hq. by destruct (Pttl now st1 key) as [st2 ms]; cbn in Hq; subst.
  - destruct Ha as [Hk Hp]. rewrite (posted_handle _ _ _ _ _ _ _ _ _ Hp eq_refl). unfold HandleQuotaInit.
    rewrite (posted_body _ _ _ _ _ _ Hp). cbn [serve]. unfold serve_QuotaInit. destruct key as [|x key]; [done|].
    cbn [is_nil]. by destruct (Set_ now st _ _ Always 0).
Qed.

Section lifecycle.
Context {S : Type} `{QuietStore S} (st0 : S).

(** The file holds the lines [ls], which restore what the store answers. *)
Record running_ok (rn : Running S) (a : Aof) (ls : list aof_line) : Prop := {
  ro_aof : rn_aof rn = Some a;
  ro_open : fd_open (writer_ a) = true;
  ro_bytes : file_bytes (writer_ a) = file_of ls;
  ro_lines : Forall wf_line ls;
  ro_calm : calm (rn_store rn);
  ro_view clks : same_view (rn_store rn) (replay (fun j _ => clks j) registrations false 0 st0 ls 0 0).1;
}.

Lemma append_one_ok scripts a (l : aof_line) rs a' :
  fd_open (writer_ a) = true -> append_lines scripts 0 a [l] = (a', rs) ->
  Forall (eq (Some true)) rs ->
  fd_open (writer_ a') = true /\ file_bytes (writer_ a') = file_bytes (writer_ a) +:+ file_of [l].
Proof.
  destruct l as [op json]. cbn [file_of]. rewrite str_app_nil_r. intros Ho. cbn [append_lines]. destruct (AppendSync (scripts 0%nat) a op json) as [r a1] eqn:Ha.
  intros [= <- <-] Hr. apply list.Forall_cons in Hr as [<- _].
  apply AppendSync_bytes in Ha as (_ & Ho' & k & Hb & Ht & _). by rewrite Ho', Hb, Ht.
Qed.

(** A request of either protocol, whatever its answer. *)
Lemma served_ok rn a ls now r st1 lns scripts ao rs :
  running_ok rn a ls -> wf_request r -> undated_request r ->
  (serve now true (rn_store rn) r).1 = (st1, lns) ->
  append_all_lines scripts (rn_aof rn) lns = (ao, rs) -> Forall (eq (Some true)) rs ->
  exists a' ls', running_ok (mkRunning st1 ao) a' ls'.
Proof.
  intros [Ha Ho Hb Hl Hc Hv] Hw Hu Hs. rewrite Ha. cbn [append_all_lines].
  pose proof (Hv (fun _ => 0)) as (Hi & _ & Hud).
  pose proof (serve_written now (rn_store rn) r Hi Hu) as Hwr. pose proof (serve_lines now (rn_store rn) r Hu) as Hlines.
  pose proof (calm_serve (rn_store rn) now r Hi Hc Hu) as Hc'.
  destruct (serve now true (rn_store rn) r) as [[st2 lns2] resp] eqn:E. cbn [fst snd] in *.
  injection Hs as -> ->. destruct Hlines as [->|[l ->]].
  - intros [= <- <-] _. exists a, ls. constructor; try done. intros clks. destruct (Hv clks) as (_ & Hi2 & Hk).
    destruct Hwr as [Hi1 Hat]. split; [done|]. split; [done|]. intros k. rewrite Hat. case_decide; [|apply Hk].
    by rewrite (unlogged_write now _ st1 r resp k) by (done || apply Hk).
  - destruct (append_lines scripts 0 a [l]) as [a' rs'] eqn:Hap. intros [= <- <-] Hr.
    destruct (append_one_ok _ _ _ _ _ Ho Hap Hr) as [Ho' Hb'].
    exists a', (ls ++ [l]). constructor; try done.
    + by rewrite Hb', Hb, file_of_app.
    + apply list.Forall_app. split; [done|]. constructor; [|done].
      by eapply (line_written now 0 (rn_store rn) (rn_store rn) r).
    + intros clks. rewrite replay_snoc. cbn [Nat.add]. destruct (Hv clks) as (_ & Hi2 & Hk).
      eapply written_same; [apply Hv|exact Hwr|].
      by apply (line_written now (clks (length ls)) (rn_store rn) _ r l st1 resp).
Qed.

Lemma request_event_ok rn a ls e rn' rs :
  running_ok rn a ls -> lasting_event e -> (forall now, e <> EvTimer now) ->
  serve_event rn e = Some (rn', rs) -> Forall (eq (Some true)) rs -> exists a' ls', running_ok rn' a' ls'.
Proof.
  intros Hok He Hne. pose proof (ro_aof _ _ _ Hok) as Ha.
  destruct e as [now payload scripts|clk now_sec req scripts|now]; [..|by destruct (Hne now)];
    cbn [serve_event]; unfold has_aof; rewrite Ha; cbv iota.
  - destruct He as (r & -> & Hw & Hu). unfold Process. destruct (parse_encode r "" Hw) as [rest Hp].
    rewrite str_app_nil_r in Hp. rewrite Hp. destruct (serve now true (rn_store rn) r) as [[st1 lns] resp] eqn:Hs.
    rewrite <- Ha. destruct (append_all_lines scripts (rn_aof rn) lns) as [ao rs'] eqn:Hap. intros [= <- <-].
    eapply served_ok; [done..| |exact Hap]. by rewrite Hs.
  - destruct He as (r & now & -> & Hw & Hu & Hq). pose proof (ro_view _ _ _ Hok (fun _ => 0)) as (Hi & _).
    pose proof (http_undated now now_sec (rn_store rn) r req Hi Hu Hq) as Hs.
    destruct (Handle _ _ _ _ _) as [[st1 lns] resp]. cbn [fst] in Hs.
    rewrite <- Ha. destruct (append_all_lines scripts (rn_aof rn) lns) as [ao rs'] eqn:Hap. intros [= <- <-].
    by eapply served_ok; [..|exact Hap].
Qed.

Lemma timer_event_ok rn a ls now rn' rs :
  running_ok rn a ls -> serve_event rn (EvTimer now) = Some (rn', rs) -> exists a', running_ok rn' a' ls.
Proof.
  intros [Ha Ho Hb Hl Hc Hv]. cbn [serve_event]. rewrite Ha. intros [= <- <-]. exists (Fsync a).
  destruct (Hv (fun _ => 0)) as (Hi & _ & Hk0).
  destruct (calm_purge (rn_store rn) now 50 Hi Hc (fun k => proj2 (Hk0 k))) as (Hi' & Hc' & Hat).
  unfold Fsync. rewrite Ho. constructor; try done. intros clks. destruct (Hv clks) as (_ & Hi2 & Hk).
  split; [done|]. split; [done|]. intros k. cbn [rn_store]. rewrite Hat. apply Hk.
Qed.

Lemma events_ok es rn a ls rn' rs :
  running_ok rn a ls -> Forall lasting_event es -> serve_events rn es = Some (rn', rs) ->
  Forall (eq (Some true)) rs -> exists a' ls', running_ok rn' a' ls'.
Proof.
  revert rn a ls rs. induction es as [|e es IH]; intros rn a ls rs Hok Hes; cbn [serve_events].
  { intros [= <- _] _. by exists a, ls. }
  apply list.Forall_cons in Hes as [He Hes]. destruct (serve_event rn e) as [[rn1 rs1]|] eqn:E1; [|done].
  destruct (serve_events rn1 es) as [[rn2 rs2]|] eqn:E2; [|done]. intros [= -> <-] Hr. apply list.Forall_app in Hr as [Hr1 Hr2].
  assert (exists a1 ls1, running_ok rn1 a1 ls1) as (a1 & ls1 & Hok1).
  { destruct e as [now payload scripts|clk now_sec req scripts|now]; [by eapply request_event_ok..|].
    apply (timer_event_ok _ _ _ _ _ _ Hok) in E1 as [a1 E1]. eauto. }
  by eapply IH.
Qed.
End lifecycle.

(** The state in which [main] leaves the log when it exits. *)
Lemma main_left_ok {S} {Store0 : Store S} {Kv : KvStore S} {Quiet : QuietStore S} (st0 : S)
    args c usage clks hw run es code out err rn acks :
  kv_inv st0 -> calm st0 -> (forall k, undated (kv_at st0 k)) ->
  ParseServer args = inl c -> sc_persistence c = "aof" -> Forall lasting_event es ->
  server_main args usage clks st0 None Missing true hw run es = Some (Exit code out err, Some (rn, acks)) ->
  Forall (eq (Some true)) acks ->
  exists rn1 a ls, rn = stop_server rn1 /\ running_ok st0 rn1 a ls.
Proof.
  intros Hi Hc Hu Hparse Hp Hes Hmain Hacks. unfold server_main in Hmain. rewrite Hparse in Hmain.
  destruct (sc_show_help c); [done|]. unfold start_server in Hmain. rewrite bool_decide_true in Hmain by done.
  set (a0 := OpenAof (fsync_policy (sc_fsync c)) true (file_text Missing)) in *.
  change (Load clks registrations false st0 Missing).1 with st0 in Hmain.
  assert (running_ok st0 (mkRunning st0 (Some a0)) a0 []) as Hok by (by constructor).
  destruct (server_error _ _ _).
  { injection Hmain as _ _ _ <- _. by eexists _, _, _. }
  assert (forall rn1 acks1, serve_events (mkRunning st0 (Some a0)) es = Some (rn1, acks1) -> acks1 = acks ->
    exists a ls, running_ok st0 rn1 a ls) as Hev.
  { intros rn1 acks1 Hrun ->. by apply (events_ok st0 es _ a0 [] rn1 acks Hok Hes). }
  destruct run as [|e|e]; [|injection Hmain as _ _ _ <- _; by eexists _, _, _|];
    (destruct (serve_events _ es) as [[rn1 acks1]|]; [|done]); [|destruct (1 <? _); [done|]];
    injection Hmain as _ _ _ <- Ha; destruct (Hev rn1 acks1 eq_refl Ha) as (a & ls & Hok1); by exists rn1, a, ls.
Qed.

(** C9: The program restores its data when it is started again. Start [main] with
    persistence, no log file and an initial store without deadlines and reservations
    (such as the empty one); let it serve, one after the other, requests that do not
    depend on the clock: in the binary protocol PING, GET, EXISTS, TYPE, TTL and
    QUOTA_GET of any key, DEL of any key, and SET, INCRBY (by any number but
    -2^63, whose line the reader cannot negate) and QUOTA_INIT of a non-empty key without a time to live, within the lengths of the wire format, and
    over HTTP the requests that ask for one of these, in any body that the endpoint
    reads so, the clock reading one value while it is handled; with timer ticks that
    synchronise the log and purge expired records in between; every append
    acknowledged. Let it exit, because it is stopped or because of an exception that
    reaches [main] (not by [std::terminate], which happens when the first of several
    workers throws). Then whatever a crash leaves of the file is the whole file, and
    [main] started on it with the same initial store and with persistence, at any
    times and with any other options except help, answers GET, EXISTS, TYPE, TTL and PTTL of every key as the first one
    would. *)
Theorem server_restart {S} {Store0 : Store S} {Kv : KvStore S} {Quiet : QuietStore S} (st0 : S)
    args c args' c' usage clks times hw run es code out err rn acks a f :
  kv_inv st0 -> calm st0 -> (forall k, undated (kv_at st0 k)) ->
  ParseServer args = inl c -> sc_persistence c = "aof" ->
  ParseServer args' = inl c' -> sc_persistence c' = "aof" -> sc_show_help c' = false ->
  Forall lasting_event es ->
  server_main args usage clks st0 None Missing true hw run es = Some (Exit code out err, Some (rn, acks)) ->
  Forall (eq (Some true)) acks -> rn_aof rn = Some a -> crash_file a f ->
  f = file_bytes (writer_ a) /\
  forall hw' run', exists code' rn',
    server_main args' usage (fun i _ => times i) st0 None (Readable f) true hw' run' [] = Some (code', Some (rn', [])) /\
    reads_alike (rn_store rn) (rn_store rn').
Proof.
  intros Hi Hc Hu Hparse Hp Hparse' Hp' Hh Hes Hmain Hacks Ha (n & Hn & ->).
  destruct (main_left_ok st0 args c usage clks hw run es code out err rn acks)
    as (rn1 & a1 & ls & -> & Hok); [done..|].
  destruct Hok as [Ha1 Ho Hb Hl Hca Hv]. cbn [stop_server rn_aof] in Ha. rewrite Ha1 in Ha. cbn in Ha.
  injection Ha as <-. unfold CloseSync in *. rewrite Ho in *. cbn [synced_ writer_ Aof.Close file_bytes] in *.
  assert (str_take n (file_bytes (writer_ a1)) = file_bytes (writer_ a1)) as ->.
  { rewrite <- str_take_min, Nat.min_r by done.
    rewrite <- (str_app_nil_r (file_bytes (writer_ a1))) at 2. by apply str_take_app. }
  split; [done|]. intros hw' run'. unfold server_main. rewrite Hparse', Hh. unfold start_server.
  rewrite bool_decide_true by done. cbn [serve_events].
  assert (reads_alike (rn_store rn1)
    (Load (fun i _ => times i) registrations false st0 (Readable (file_bytes (writer_ a1)))).1) as Hview.
  { apply same_view_reads. unfold Load. rewrite Hb, load_lines_file by done. apply Hv. }
  destruct (server_error _ _ _); [by eexists _, _|].
  destruct run'; [by eexists _, _..|]. destruct (1 <? _); by eexists _, _.
Qed.

(** ** A concrete run *)

Definition main_args : list string := ["--persistence"; "aof"; "--fsync"; "always"; "-t"; "1000"; "--workers"; "1"].
Definition main_request : HttpRequest :=
  post_request "/v1/kv/set" (object_text ("key", QuoteJson "b") (set_members "2" SC_IfAbsent 0)).
Definition main_events : list server_event :=
  [EvBinary 1000 (encode_request (RSet "a" "41" SC_Always 0)) (fun _ => [Wrote 4; Interrupted; Wrote 1000]);
   EvTimer 1500; EvBinary 2000 (encode_request (RIncr "a" 1 0)) (fun _ => [Wrote 1000]);
   EvHttp (fun _ => 2500) 2 main_request (fun _ => [Wrote 1000])].
Abbreviation main_run := (server_main (Store0 := sample_ms) main_args "" (fun _ _ => 0) init_store None Missing true
  1 (FirstWorkerThrows "epoll_wait failed") main_events).

Lemma init_calm : no_reservations length_hash init_store.
Proof. intros i id _. rewrite shard_at_init. apply New_none. Qed.

Lemma server_restart_witness :
  match main_run with
  | Some (Exit 1 _ _, Some (rn, _)) =>
      match rn_aof rn with
      | Some a =>
          exists code' rn',
            server_main (Store0 := sample_ms) ["--persistence"; "aof"] "" (fun _ _ => 9000) init_store None
              (Readable (file_bytes (writer_ a))) true 4 Returns [] = Some (code', Some (rn', [])) /\
            reads_alike (H := sample_ms) (rn_store rn) (rn_store rn')
      | None => False
      end
  | _ => False
  end.
Proof.
  destruct main_run as [[[code out err|] [[rn acks]|]]|] eqn:Hrun; try (vm_compute in Hrun; discriminate).
  assert (code = 1 /\ acks = [Some true; Some true; Some true]) as [-> Hacks]
    by (vm_compute in Hrun; by injection Hrun as <- _ _ _ <-).
  destruct (rn_aof rn) as [a|] eqn:Ha;
    [|vm_compute in Hrun; injection Hrun as _ _ <- _; vm_compute in Ha; discriminate].
  destruct (server_restart (Store0 := sample_ms) (Kv := memory_kv length_hash) (Quiet := memory_quiet length_hash)
    init_store main_args _ ["--persistence"; "aof"] _ "" (fun _ _ => 0) (fun _ => 9000) 1
    (FirstWorkerThrows "epoll_wait failed") main_events 1 out err rn acks a (file_bytes (writer_ a))
    (wf_init_store _) init_calm init_undated eq_refl eq_refl eq_refl eq_refl eq_refl) as (_ & H).
  - repeat constructor.
    + eexists. split; [reflexivity|]. split; [repeat split; vm_compute; congruence|by split].
    + eexists. split; [reflexivity|]. split; [repeat split; vm_compute; congruence|]. split_and!; [done|lia|done].
    + exists (RSet "b" "2" SC_IfAbsent 0), 2500. split; [reflexivity|]. split; [repeat split; vm_compute; congruence|].
      split; [by split|]. split; [done|].
      eapply object_posted; [reflexivity..|]. apply (set_members_read "b" "2" SC_IfAbsent 0). lia.
  - exact Hrun.
  - rewrite Hacks. repeat constructor.
  - exact Ha.
  - vm_compute in Hrun. injection Hrun as _ _ <- _. vm_compute in Ha. injection Ha as <-.
    exists 500%nat. split; [apply Nat.leb_le; vm_compute; reflexivity|vm_compute; reflexivity].
  - apply (H 4 Returns).
Defined.
