(* ===== verification/Logger.v ===== *)
(** * Logging (core/log: level.h, sink.h, sink.cpp, logger.h, logger.cpp)

    A logger writes a line per message of a sufficient level to its sink and flushes
    it.  The broken-down local time of a number of seconds is a parameter: it depends
    on the time zone of the system. *)
From S2P Require Import Prelude CStd Aof Config.

Inductive Level := Debug | Info | Warn | Error | NoLevel.
#[export] Instance Level_eq_dec : EqDecision Level.
Proof. solve_decision. Defined.

Definition ToString (level : Level) : string :=
  match level with
  | Debug => "DEBUG" | Info => "INFO" | Warn => "WARN" | Error => "ERROR" | NoLevel => "NONE"
  end.
(** The value of the enumerator. *)
Definition level_value (level : Level) : Z :=
  match level with Debug => 0 | Info => 1 | Warn => 2 | Error => 3 | NoLevel => 4 end.

(** ** Sinks *)

(** A sink and what it has written: [buffer] is not flushed yet.  A [FileSink] whose
    file could not be opened drops its messages. *)
Inductive SinkKind := NullSink | ConsoleSink | FileSink (is_open : bool).
Record Sink := mkSink { sink_kind : SinkKind; sink_buffer : string; sink_output : string }.

Definition sink_drops (k : SinkKind) : bool :=
  match k with NullSink => true | ConsoleSink => false | FileSink is_open => negb is_open end.
Definition Write (s : Sink) (message : string) : Sink :=
  if sink_drops (sink_kind s) then s
  else mkSink (sink_kind s) (sink_buffer s +:+ message) (sink_output s).
Definition Flush (s : Sink) : Sink :=
  if sink_drops (sink_kind s) then s
  else mkSink (sink_kind s) "" (sink_output s +:+ sink_buffer s).

(** ** Time stamps *)

Record tm := mkTm { tm_year : Z; tm_mon : Z; tm_mday : Z; tm_hour : Z; tm_min : Z; tm_sec : Z }.

(** At least [n] characters, filled with zeros. *)
Fixpoint zeros (n : nat) : string := match n with O => "" | S n => String "0" (zeros n) end.
Definition padded (n : nat) (z : Z) : string :=
  let s := to_string z in zeros (n - String.length s) +:+ s.

(** [std::put_time(&bt, "%Y-%m-%d %H:%M:%S")]; years count from 1900, months from 0. *)
Definition put_time (bt : tm) : string :=
  padded 4 (tm_year bt + 1900) +:+ "-" +:+ padded 2 (tm_mon bt + 1) +:+ "-" +:+ padded 2 (tm_mday bt) +:+ " " +:+
  padded 2 (tm_hour bt) +:+ ":" +:+ padded 2 (tm_min bt) +:+ ":" +:+ padded 2 (tm_sec bt).

Section logger.
Context (localtime : Z -> tm).

(** [now_ms]: the milliseconds of the system clock since the epoch. *)
Definition CurrentTimestamp (now_ms : Z) : string :=
  put_time (localtime (Z.quot now_ms 1000)) +:+ "." +:+ padded 3 (Z.rem now_ms 1000).

(** ** Loggers *)

Record Logger := mkLogger { sink_ : Sink; min_level_ : Level }.
(** The constructor: no sink is a [NullSink]. *)
Definition NewLogger (sink : option SinkKind) (min_level : Level) : Logger :=
  mkLogger (mkSink (default NullSink sink) "" "") min_level.

Definition IsEnabled (l : Logger) (level : Level) : bool :=
  negb (bool_decide (min_level_ l = NoLevel)) && (level_value (min_level_ l) <=? level_value level).

Definition formatted (now_ms : Z) (level : Level) (message : string) : string :=
  "[" +:+ CurrentTimestamp now_ms +:+ "] [" +:+ ToString level +:+ "] " +:+ message +:+ String newline "".

Definition Log (l : Logger) (now_ms : Z) (level : Level) (message : string) : Logger :=
  if negb (IsEnabled l level) then l
  else mkLogger (Flush (Write (sink_ l) (formatted now_ms level message))) (min_level_ l).

Definition Null : Logger := NewLogger (Some NullSink) NoLevel.

(** [opened]: whether the file [dir / "log"] can be opened for appending. *)
Definition Create (mode : LogMode) (opened : bool) : Logger :=
  match mode with
  | LM_None => NewLogger (Some NullSink) NoLevel
  | LM_Terminal => NewLogger (Some ConsoleSink) Debug
  | LM_File => NewLogger (Some (FileSink opened)) Debug
  end.

(** [std::filesystem::path]'s [/] for the relative path ["log"]. *)
Definition log_file (directory : string) : string :=
  let dir := if is_nil directory then "./logs" else directory in
  dir +:+ (match String.get (String.length dir - 1) dir with
           | Some c => if bool_decide (c = "/"%char) then "" else "/"
           | None => ""
           end) +:+ "log".

(** ** What is written *)

Fixpoint log_all (l : Logger) (messages : list (Z * Level * string)) : Logger :=
  match messages with
  | [] => l
  | (now_ms, level, message) :: messages => log_all (Log l now_ms level message) messages
  end.

Fixpoint lines_of (messages : list (Z * Level * string)) : string :=
  match messages with
  | [] => ""
  | (now_ms, level, message) :: messages => formatted now_ms level message +:+ lines_of messages
  end.

Lemma log_all_output l messages :
  sink_buffer (sink_ l) = "" -> min_level_ l = Debug -> sink_drops (sink_kind (sink_ l)) = false ->
  sink_buffer (sink_ (log_all l messages)) = "" /\
  sink_output (sink_ (log_all l messages)) = sink_output (sink_ l) +:+ lines_of messages.
Proof.
  revert l. induction messages as [|[[now level] message] messages IH]; intros l Hb Hm Hd; cbn [log_all lines_of].
  { by rewrite str_app_nil_r. }
  assert (IsEnabled l level = true) as He.
  { unfold IsEnabled. rewrite Hm. by destruct level. }
  unfold Log. rewrite He. cbn [negb].
  assert (Flush (Write (sink_ l) (formatted now level message)) =
    mkSink (sink_kind (sink_ l)) "" (sink_output (sink_ l) +:+ formatted now level message)) as ->.
  { unfold Write. rewrite Hd. unfold Flush. cbn [sink_kind]. rewrite Hd. cbn. by rewrite Hb. }
  destruct (IH (mkLogger (mkSink (sink_kind (sink_ l)) ""
    (sink_output (sink_ l) +:+ formatted now level message)) (min_level_ l))) as [H1 H2]; [done..|].
  split; [done|]. rewrite H2. cbn. by rewrite str_app_assoc.
Qed.

(** What the three modes write: every message of every level, formatted and in
    order, to the terminal and to a file that could be opened; nothing otherwise. *)
Theorem log_modes mode opened messages :
  sink_output (sink_ (log_all (Create mode opened) messages)) =
  match mode with
  | LM_None => ""
  | LM_Terminal => lines_of messages
  | LM_File => if opened then lines_of messages else ""
  end.
Proof.
  assert (forall l, sink_drops (sink_kind (sink_ l)) = true -> sink_output (sink_ (log_all l messages)) = sink_output (sink_ l))
    as Hdrop.
  { induction messages as [|[[now level] message] messages IH]; intros l Hl; [done|]. cbn [log_all].
    assert (sink_ (Log l now level message) = sink_ l) as Hs.
    { unfold Log. destruct (negb _); [done|]. cbn [sink_]. unfold Write. rewrite Hl. unfold Flush. by rewrite Hl. }
    rewrite IH; by rewrite Hs. }
  destruct mode; cbn [Create].
  - by apply Hdrop.
  - by apply log_all_output.
  - destruct opened; [by apply log_all_output|by apply Hdrop].
Qed.
End logger.
