(* ===== verification/ServerRun.v ===== *)
(** * The server: construction, sockets and workers (net/server.h, net/server.cpp)

    [Run] binds the listening sockets in the calling thread, creates an event loop
    per worker, starts a thread for every worker but the first, runs the first one
    itself and joins the threads.  A thread that throws logs the exception and ends; an
    exception of the first worker while other threads run ends the process, because
    the destructor of a joinable [std::thread] calls [std::terminate].  What a worker
    does is [Server.RunWorkerLoop]; the requests of other workers reach it through the
    state of its handlers, which may be any function. *)
From S2P Require Import Prelude CStd Frame Decoder Streams Socket Http Client Channel EventLoop Server.

(** ** Socket options *)

Definition O_NONBLOCK : Z := 2048.

(** The options of a socket that the server sets. *)
Record SocketOptions := mkOptions {
  so_flags : Z; so_nodelay : bool; so_rcvbuf : Z; so_sndbuf : Z; so_reuseaddr : bool; so_reuseport : bool }.

(** [flags]: the answer of F_GETFL, -1 for an error; [set_ok]: whether F_SETFL succeeds. *)
Definition SetNonBlocking (flags : Z) (set_ok : bool) (o : SocketOptions) : SocketOptions :=
  if negb (flags =? -1) && set_ok
  then mkOptions (Z.lor flags O_NONBLOCK) (so_nodelay o) (so_rcvbuf o) (so_sndbuf o) (so_reuseaddr o) (so_reuseport o)
  else o.

(** The calls of [setsockopt] that fail leave the option as it was. *)
Definition ConfigureClientSocket (flags : Z) (set_ok nodelay_ok rcv_ok snd_ok : bool) (o : SocketOptions) :
    SocketOptions :=
  let o := SetNonBlocking flags set_ok o in
  let buf_size := 128 * 1024 in
  mkOptions (so_flags o) (nodelay_ok || so_nodelay o)
    (if rcv_ok then buf_size else so_rcvbuf o) (if snd_ok then buf_size else so_sndbuf o)
    (so_reuseaddr o) (so_reuseport o).

(** ** The server object *)

Record ServerObject := mkServer {
  sv_port : Z;
  sv_http_port : Z;
  sv_timer_interval_ms : Z;
  sv_timer_callback : bool;
  sv_http_handler : bool;
  sv_num_workers : Z;
}.

(** The constructor; the booleans say whether the callbacks are given. *)
Definition NewServer (port : Z) (handler : bool) (timer_interval_ms : Z) (timer_callback : bool)
    (http_port : Z) (http_handler : bool) (num_workers : Z) : ServerObject + string :=
  match server_error port http_port handler with
  | Some e => inr e
  | None => inl (mkServer port http_port timer_interval_ms timer_callback http_handler num_workers)
  end.

Definition SetHttpHandler (s : ServerObject) (http_port : Z) (http_handler : bool) : ServerObject :=
  mkServer (sv_port s) http_port (sv_timer_interval_ms s) (sv_timer_callback s) http_handler (sv_num_workers s).

(** [http_port_ > 0 && http_handler_] *)
Definition serves_http (s : ServerObject) : bool := (0 <? sv_http_port s) && sv_http_handler s.

(** The errors of [socket], [bind] and [listen] of one listening socket (0: none). *)
Definition listen_errors : Type := Z * Z * Z.

Section run.
Context (strerror : Z -> string) (s : ServerObject).

(** The listening sockets of one worker: the exception, if one throws. *)
Definition open_sockets (tcp http : listen_errors) : option string :=
  let '(e1, e2, e3) := tcp in
  match CreateListeningSocket strerror (sv_port s) e1 e2 e3 with
  | Some e => Some e
  | None =>
      if serves_http s
      then let '(e1, e2, e3) := http in CreateListeningSocket strerror (sv_http_port s) e1 e2 e3
      else None
  end.

Context {H : Type}.

(** What a worker meets: its handlers and their state, the descriptors the system
    gives, its listening sockets, its rounds. *)
Record WorkerEnv := mkEnv {
  we_handler : H -> string -> option (H * string);
  we_http : H -> HttpRequest -> H * HttpResponse;
  we_timer : Z -> H -> H;
  we_alloc : gset Z -> Z;
  we_add_ok : Z -> bool;
  we_reserved : gset Z;
  we_wakeup : option Z;
  we_now : Z;
  we_tcp : listen_errors;
  we_http_errors : listen_errors;
  we_server_fd : Z;
  we_http_fd : Z;
  we_session : Z;
  we_state : H;
  we_rounds : list (round (IO := Io));
}.

Definition run_worker (id : nat) (e : WorkerEnv) : option (Worker H) + string :=
  RunWorkerLoop (we_handler e) (we_http e) (we_timer e) (we_alloc e) (we_add_ok e) (we_reserved e)
    (worker_event_loop (we_wakeup e)) (Z.of_nat id)
    (if sv_timer_callback s then sv_timer_interval_ms s else -1) (we_now e) (we_server_fd e)
    (if serves_http s then Some (we_http_fd e) else None) (we_session e) (we_state e) (we_rounds e).

(** The thread of a worker: what it leaves, or the exception that it logs. *)
Definition worker_thread (id : nat) (e : WorkerEnv) : option (Worker H) + string :=
  match open_sockets (we_tcp e) (we_http_errors e) with
  | Some error => inr error
  | None => run_worker id e
  end.

(** How [Run] ends: with an exception, with the end of the process, or when all
    workers have ended. *)
Inductive run_end :=
| RunThrew (error : string)
| RunTerminated
| RunReturned (first : option (Worker H)) (others : list (option (Worker H) + string)).

(** The first exception of the constructors of the event loops. *)
Fixpoint first_error (loops : list (option string)) : option string :=
  match loops with
  | [] => None
  | Some e :: _ => Some e
  | None :: loops => first_error loops
  end.

(** [loop_error i]: the exception of the [i]-th event loop's constructor. *)
Definition ServerRun (hw_threads : Z) (loop_error : nat -> option string) (env : nat -> WorkerEnv) : run_end :=
  match open_sockets (we_tcp (env O)) (we_http_errors (env O)) with
  | Some e => RunThrew e
  | None =>
      let count := Z.to_nat (worker_count (sv_num_workers s) hw_threads) in
      match first_error (loop_error <$> seq 0 count) with
      | Some e => RunThrew e
      | None =>
          let others := (fun i => worker_thread i (env i)) <$> seq 1 (count - 1) in
          match run_worker O (env O) with
          | inr e => if (count <=? 1)%nat then RunThrew e else RunTerminated
          | inl first => RunReturned first others
          end
      end
  end.
End run.

(** ** Signals *)

(** The signal handler of the program; [g_server]: the event loops of the server that
    is registered. *)
Definition HandleSignal {C} (g_server : option (list (option (EventLoop C)))) :
    option (list (option (EventLoop C))) :=
  match g_server with Some loops => Some (ServerStop loops) | None => None end.

(** Every worker whose loop the handler has reached leaves [Run] at the next test of its
    loop, with its wakeup descriptor written so that it does not wait any longer. *)
Lemma signal_stops_workers {W C IO} {HL : HasLoop W C} (call : C -> Z -> IO -> W -> option W) on_timer
    loops loops' i l (w : W) rounds :
  HandleSignal (Some loops) = Some loops' -> loops' !! i = Some (Some l) ->
  loop_of w = l -> wakeup_ l = true /\ run_rounds call on_timer w rounds = inl (Some w).
Proof.
  intros [= <-] Hi Hw. unfold ServerStop in Hi.
  apply list_lookup_fmap_Some in Hi as ([l0|] & Hl & _); [|done]. cbn in Hl. injection Hl as ->.
  split; [done|]. destruct rounds; cbn [run_rounds]; by rewrite Hw.
Qed.

(** ** Only the first worker has the timer *)

Section timer.
Context {H : Type}.
Context (handler_ : H -> string -> option (H * string)) (http_handler_ : H -> HttpRequest -> H * HttpResponse).
Context (alloc : gset Z -> Z) (add_ok : Z -> bool) (reserved : gset Z).

Lemma add_timer {C} ok (l : EventLoop C) fd cb : HasTimer (Add ok l fd cb) = HasTimer l.
Proof. by destruct ok. Qed.

Lemma accept_timer add accepts (w : Worker H) :
  (forall w, HasTimer (w_loop (add w)) = HasTimer (w_loop w)) ->
  HasTimer (w_loop (accept_loop add accepts w)) = HasTimer (w_loop w).
Proof.
  intros Hadd. revert w. induction accepts as [|[] accepts IH]; intros w; cbn [accept_loop]; [done| |done..].
  by rewrite IH, Hadd.
Qed.

Lemma call_timer cb ev io (w w' : Worker H) :
  call handler_ http_handler_ alloc add_ok reserved cb ev io w = Some w' ->
  HasTimer (w_loop w') = HasTimer (w_loop w).
Proof.
  destruct cb as [| | |fd|fd]; cbn [call].
  - by intros [= <-].
  - intros [= <-]. apply accept_timer. intros w1. apply add_timer.
  - intros [= <-]. apply accept_timer. intros w1. apply add_timer.
  - unfold on_channel. destruct (channels w !! fd); [|by intros [= <-]].
    destruct (Channel.HandleEvents _ _ _ _ _ _ _ _ _ _) as [[c' h']|]; [|done]. intros [= <-]. cbn [w_loop].
    by destruct (_ && _).
  - unfold on_http_channel. destruct (http_channels w !! fd); [|by intros [= <-]].
    destruct (Http.HandleEvents _ _ _ _ _ _ _ _ _ _) as [[c' h']|]; [|done]. intros [= <-]. cbn [w_loop].
    by destruct (_ && _).
Qed.

Abbreviation callback_of := (call handler_ http_handler_ alloc add_ok reserved).

Lemma dispatch_timer events (w w' : Worker H) :
  dispatch_events callback_of w events = Some w' -> HasTimer (w_loop w') = HasTimer (w_loop w).
Proof.
  revert w. induction events as [|[[fd ev] io] events IH]; intros w; cbn [dispatch_events]; [by intros [= <-]|].
  cbn [loop_of worker_loop]. destruct (callbacks_ (w_loop w) !! fd) as [cb|]; [|apply IH].
  destruct (callback_of cb ev io w) as [w1|] eqn:Hc; [|done]. intros Hd. rewrite (IH w1 Hd).
  by eapply call_timer.
Qed.

Lemma rounds_without_timer t t' rounds (w : Worker H) :
  HasTimer (w_loop w) = false ->
  run_rounds callback_of (on_timer t) w rounds = run_rounds callback_of (on_timer t') w rounds.
Proof.
  revert w. induction rounds as [|[[now epoll] after] rounds IH]; intros w Ht; cbn [run_rounds];
    destruct (running_ _); try done.
  unfold RunOnce. destruct (epoll _) as [events| |]; [|by apply IH|done].
  destruct (dispatch_events callback_of w events) as [w1|] eqn:Hd; [|done].
  apply dispatch_timer in Hd. rewrite Ht in Hd. unfold run_timer. cbn [loop_of worker_loop]. rewrite Hd.
  cbn [andb]. by apply IH.
Qed.
End timer.

Definition with_timer {H} (e : WorkerEnv (H := H)) (t : Z -> H -> H) : WorkerEnv :=
  mkEnv (we_handler e) (we_http e) t (we_alloc e) (we_add_ok e) (we_reserved e) (we_wakeup e) (we_now e) (we_tcp e)
    (we_http_errors e) (we_server_fd e) (we_http_fd e) (we_session e) (we_state e) (we_rounds e).

Lemma run_worker_timer s {H} id (e : WorkerEnv (H := H)) t :
  id <> 0%nat -> run_worker s id e = run_worker s id (with_timer e t).
Proof.
  intros Hid. unfold run_worker, RunWorkerLoop, Run. cbn [with_timer we_handler we_http we_timer we_alloc we_add_ok
    we_reserved we_wakeup we_now we_server_fd we_http_fd we_session we_state we_rounds].
  apply rounds_without_timer. cbn [with_loop worker_loop set_loop w_loop].
  unfold start_worker. rewrite (proj2 (Z.eqb_neq (Z.of_nat id) 0)) by lia. cbn [andb w_loop loop_of worker_loop].
  change (HasTimer (set_running ?l ?b)) with (HasTimer l).
  destruct (serves_http s); rewrite !add_timer; by destruct (we_wakeup e).
Qed.

(** ** All workers *)

Lemma worker_started_ok s {H} id (e : WorkerEnv (H := H)) w :
  (forall X, we_alloc e X ∉ X) -> run_worker s id e = inl (Some w) -> worker_ok (we_add_ok e) (we_reserved e) w.
Proof.
  intros Hf Hr. unfold run_worker, RunWorkerLoop, Run in Hr. apply (run_rounds_ok _ _ _ _ _ _ Hf) in Hr; [apply Hr|].
  eapply same_tables_ok; [..|apply start_worker_ok, worker_event_loop_quiet]; done.
Qed.

Lemma first_error_Some (f : nat -> option string) k n e :
  first_error (f <$> seq k n) = Some e <->
  exists i, (k <= i < k + n)%nat /\ f i = Some e /\ forall j, (k <= j < i)%nat -> f j = None.
Proof.
  revert k. induction n as [|n IH]; intros k; cbn [seq fmap list_fmap first_error].
  { split; [done|]. intros (i & Hi & _). lia. }
  destruct (f k) as [e'|] eqn:Hf.
  - split; [intros [= <-]; exists k; split_and!; [lia..|done|intros; lia]|].
    intros (i & Hi & He & Hj). destruct (decide (i = k)) as [->|]; [congruence|]. rewrite Hj in Hf by lia. done.
  - rewrite IH. split; intros (i & Hi & He & Hj); exists i; split_and!; try done; try lia.
    + intros j Hj'. destruct (decide (j = k)) as [->|]; [done|]. apply Hj. lia.
    + destruct (decide (i = k)) as [->|]; [congruence|lia].
    + intros j Hj'. apply Hj. lia.
Qed.

Lemma first_error_None (f : nat -> option string) k n :
  first_error (f <$> seq k n) = None <-> forall i, (k <= i < k + n)%nat -> f i = None.
Proof.
  revert k. induction n as [|n IH]; intros k; cbn [seq fmap list_fmap first_error]; [split; [lia|done]|].
  destruct (f k) as [e'|] eqn:Hf.
  - split; [done|]. intros H. rewrite H in Hf by lia. done.
  - rewrite IH. split; intros H i Hi; [|apply H; lia].
    destruct (decide (i = k)) as [->|]; [done|]. apply H. lia.
Qed.

Lemma create_socket_None strerror port e1 e2 e3 :
  CreateListeningSocket strerror port e1 e2 e3 = None <-> e1 = 0 /\ e2 = 0 /\ e3 = 0.
Proof.
  unfold CreateListeningSocket. destruct (Z.eqb_spec e1 0), (Z.eqb_spec e2 0), (Z.eqb_spec e3 0); naive_solver.
Qed.
(** The sockets open when every system call for those that are needed succeeds. *)
Lemma open_sockets_None strerror s tcp http :
  open_sockets strerror s tcp http = None <->
  tcp = (0, 0, 0) /\ (serves_http s = true -> http = (0, 0, 0)).
Proof.
  destruct tcp as [[t1 t2] t3], http as [[h1 h2] h3]. unfold open_sockets.
  destruct (CreateListeningSocket strerror (sv_port s) t1 t2 t3) as [e|] eqn:Ht.
  - split; [done|]. intros [[= -> -> ->] _]. rewrite (proj2 (create_socket_None _ _ _ _ _)) in Ht by done. done.
  - apply create_socket_None in Ht as (-> & -> & ->).
    destruct (serves_http s); [rewrite create_socket_None|]; naive_solver.
Qed.

(** Nothing fails before the first worker runs. *)
Definition all_created {H} (s : ServerObject) (count : Z) (loop_error : nat -> option string) (e : WorkerEnv (H := H)) :
    Prop :=
  we_tcp e = (0, 0, 0) /\ (serves_http s = true -> we_http_errors e = (0, 0, 0)) /\
  forall i, Z.of_nat i < count -> loop_error i = None.

(** The workers other than the first. *)
Lemma threads_ok strerror s {H} (env : nat -> WorkerEnv (H := H)) n j out :
  (forall i X, we_alloc (env i) X ∉ X) ->
  ((fun i => worker_thread strerror s i (env i)) <$> seq 1 n) !! j = Some out ->
  let e := env (S j) in
  (forall w, out = inl (Some w) -> worker_ok (we_add_ok e) (we_reserved e) w) /\
  (forall error, open_sockets strerror s (we_tcp e) (we_http_errors e) = Some error -> out = inr error) /\
  (open_sockets strerror s (we_tcp e) (we_http_errors e) = None -> out = run_worker s (S j) e) /\
  (forall t, out = worker_thread strerror s (S j) (with_timer e t)).
Proof.
  intros Hfresh (i & -> & [-> _]%lookup_seq)%list_lookup_fmap_Some. cbv zeta. change (1 + j)%nat with (S j).
  unfold worker_thread. cbn [we_tcp we_http_errors with_timer].
  destruct (open_sockets _ _ (we_tcp (env (S j))) _); split_and!; try done; try congruence.
  - intros w Hr. by apply worker_started_ok in Hr.
  - intros t. by apply run_worker_timer.
Qed.


(** Two workers; the second cannot bind its port. *)
Definition sample_env (bind_error : Z) : WorkerEnv :=
  mkEnv counting_echo sample_http (fun _ n => n) next_fd (fun _ => true) sample_reserved (Some 3) 0
    (0, bind_error, 0) (0, 0, 0) 4 5 1 0%nat sample_rounds.
Definition sample_server : ServerObject := mkServer 63779 8080 1000 true true 2.

